(* ===== verification/_CoqProject ===== *)
-Q . S2P
Prelude.v
Interaction.v
CInt.v
CFormat.v
BpfKernel.v
BootstrapBpf.v
BootstrapConcurrent.v
BootstrapLimits.v
BootstrapUser.v
SockfilterBpf.v
TraceconBpf.v
ProfileBpf.v
TaskIterBpf.v
UserSpace.v
Output.v
BootstrapMain.v
BootstrapOutput.v
SockfilterUser.v
SockfilterOutput.v
ProfileUser.v
ProfileMain.v
ProfileOutput.v
TaskIterUser.v
TaskIterOutput.v
Minimal.v
Tracing.v
Tc.v
Signals.v
