(* ===== verification/Prelude.v ===== *)
(** * libbpf-bootstrap: a verification library

    libbpf-bootstrap is a collection of BPF applications.  Each has a kernel
    side ([X.bpf.c]: programs the kernel runs at tracepoints, probes, packets
    or perf events, sharing BPF maps and sending records through a ring
    buffer, a perf event array or an iterator file) and, for the C examples,
    a user side ([X.c]: a [main] that opens, configures, loads and attaches
    the kernel side through libbpf, consumes its records and cleans up).
    All C programs of the repository are modelled; paths below are under
    [src/examples/c] unless they say otherwise.

    ** Files

    - [Prelude]: tactics, hints and the lemmas on buffers all files share.
    - [Interaction]: a logic for interactive programs.  A user-space program
      is an interaction tree; a [protocol] says which calls are allowed in
      which state, which answers the environment may give and how the state
      changes.  [safe] (greatest fixed point, so it covers runs that never
      end): no call breaks the protocol and the program returns only in
      states that satisfy a postcondition.  [ends] (inductive): moreover it
      returns, whatever the answers.  [exec] runs a program against an
      environment with fuel; [runs] is a run that returns.  [safe_exec] and
      [ends_follows] connect them.  [breaks]: some answers lead to a call that
      is not allowed.
    - [CInt]: integers at their width (wrap-around, conversions), byte order,
      loads and stores.  [CFormat]: C strings, [printf] conversions,
      [snprintf], [strtol], [atoi], with round trips.
    - [BpfKernel]: what the kernel offers to BPF programs, as classes of
      operations with classes of laws (hash maps, arrays, ring buffer, perf
      event array) and the results of the helpers about the current task
      ([kctx], [kctx_ok]); executable instances satisfy the laws.  A record
      reserved in a ring holds what an earlier record left there; [RingMem]
      is a ring whose memory starts zeroed and is used again.  [RingSlots] is
      the ring with several reservations open at once, each with its place.
    - [UserSpace]: the calls of the [main] functions ([sysE]) and their
      protocol: a table of the objects a program holds (skeleton, ring
      buffer, link, descriptor, symbolizer, memory, hook, filter) with their
      stage (a perf event keeps what it was opened with, a link the program
      and descriptor it binds).  Whether destroying a link closes its
      descriptor is left open; a number closed behind the program is stale,
      and closing it again is allowed.  Destroying a hook gives it up but
      does not remove it, and may or may not flush its filters.  Undefined behaviour of the language is a call the protocol
      never allows.  [answer] is an executable environment.
    - [Output]: a second protocol for the same calls.  Its state is the trace
      of what a program was told (records, times, names, symbols with the
      process and addresses asked about) and what it wrote; it allows asking for more records only when everything delivered
      so far has been shown.  [both] of [Interaction] runs two protocols at
      once; [safe_both] and [ends_both] join what was shown under each.
    - [BootstrapBpf], [BootstrapUser], [BootstrapMain]: [bootstrap.bpf.c]
      ([handle_exec], [handle_exit]), [bootstrap.c] ([parse_arg],
      [handle_event], [main]).  [BootstrapConcurrent]: the handlers as steps,
      one per helper call, of a relation in which the handlers of all
      processes interleave; it keeps a log of the events in the order they
      took effect, with what the kernel objects answered.  [BootstrapLimits]: the size of [exec_start] and
      the types of [struct event].  [BootstrapOutput]: both sides together.
    - [SockfilterBpf], [SockfilterUser]: [sockfilter.bpf.c]
      ([ip_is_fragment], [socket_handler]), [sockfilter.c] ([ltoa],
      [handle_event], [open_raw_sock], [main]); [SockfilterOutput]: both
      sides together.
    - [TraceconBpf]: the four probes of
      [src/examples/rust/tracecon/src/bpf/tracecon.bpf.c].
    - [ProfileBpf], [ProfileUser], [ProfileMain]: [profile.bpf.c],
      [profile.c] (frame printing and symbolization; per-CPU set-up, poll
      loop and cleanup over the arrays [pefds] and [links]);
      [ProfileOutput]: both sides together.
    - [TaskIterBpf], [TaskIterUser]: [task_iter.bpf.c], [task_iter.c];
      [TaskIterOutput]: both sides together.
    - [Minimal]: [minimal*.bpf.c] and [minimal*.c].
    - [Tracing]: [fentry], [kprobe], [ksyscall], [uprobe], [usdt], [lsm],
      both sides of each.
    - [Tc]: [tc.bpf.c], [tc.c] and
      [src/examples/rust/xdp/src/bpf/xdppass.bpf.c].
    - [Signals]: the signal handlers [sig_handler] and [sig_int] of the
      programs and environments in which a signal arrives: it reaches the
      handler only if the program has installed it.

    ** What the theorems show

    - Whole systems.  For bootstrap, sockfilter, profile and task_iter, over
      any sequence of kernel events and in every environment (within the
      limits below), the text the
      program has printed is the rendering of the first events the kernel
      side captured, as many as were delivered: the specified reports
      ([bootstrap_system]), the packets ([sockfilter_system]), the samples
      with their symbols ([profile_system]), the tasks ([task_iter_system]).
      Nothing of old ring memory or of a shared buffer reaches the output.
    - Kernel sides.  bootstrap refines a specification of its reports over
      every sequence of tracepoints ([run_refines]) and under every
      interleaving of helper calls on several CPUs, where the records are
      those of the sequential run of the log ([concurrent_refines]; the lemma
      [steps_are_handlers] ties the steps to the functions, and
      [handlers_finish] adds wait-freedom); durations, filtering, the
      soundness and completeness of the start times and the types of the
      records follow ([exec_exit_duration], [filter_only_long_exits],
      [exec_start_sound], [no_start_lost], [records_typed]).  tracecon keeps
      its invariant under every interleaving of the probes of all threads
      ([tracecon_run_wf]) and names connections by the host they were
      resolved from ([getaddrinfo_files_name], [connect_reports]).
      sockfilter and tc report the header fields of the packet on either
      byte order ([socket_handler_reports], [tc_ingress_reports]).  profile
      sends what it captured ([profile_reports]) and only records that can be
      printed without leaving their arrays ([profile_run_readable]).
      [minimal_variants_agree] says on which writes the three minimal handlers
      agree: the one for namespaces compares the thread id.
    - User sides.  For every environment: objects are used in the order the
      library requires, never after release, on every path that returns
      everything has been released, and every record delivered
      is shown once, in order, before more are asked for, also on runs that
      never end ([bootstrap_output], [sockfilter_output], [profile_output],
      [task_iter_system]; without records [minimal_mains_safe],
      [probe_mains_end], [tc_main_ends]).  What some programs do leave
      behind is stated: sockfilter its socket, tc its hook and on some paths
      its filter.  A signal ends the programs whenever it comes, if they could
      install their handler ([signal_stops]).  [profile_setup_online] says
      what the set-up of profile leaves on each CPU, [task_iter_main_ends]
      that task_iter returns, and with which status.
    - Where the code does not do what it means to, a theorem says exactly
      when ([ip_proto_big_endian], [gre_addresses_stale],
      [unnamed_protocol_null], [min_duration_exact],
      [sockfilter_main_leaks_socket], [task_iter_failure_undefined],
      [task_iter_ignores_signal], [usdt_main_loaded], [uprobe_time_limit],
      [minimal_ns_leaks_skeleton], [tc_filter_left],
      [profile_malloc_unchecked], [profile_closes_again]).

    ** Bounds and fuel

    Definitions are total; loops over CPUs, frames and records recurse on
    their length, open-ended loops are [ITree.iter].  [safe] and [ends] do
    not mention fuel.  Fuel appears in [exec], where a theorem fixes a number
    of steps that reaches the stated outcome or says that some number does,
    and in [finish], where four steps are shown to be enough.  Liveness is
    relative to the environment: the signal flag reads false a bounded number
    of times.

    ** Assumptions and limits

    libbpf, libc, blazesym and the kernel are not code of the repository:
    their answers are arbitrary within their documented ranges ([sys_resp],
    [kctx_ok], the law classes).  A string read that fails fills its buffer
    with zeros.  Ring memory that is reserved holds values of the record's
    types; [sockfilter_system] is about ring memory that starts zeroed and is
    reused, and about packets with complete headers and a named protocol
    other than GRE on a little-endian target.  The theorems about profile's
    [main] are about environments in which [malloc] and [calloc] succeed, as
    the code does not check the first.  Handlers of
    bootstrap interleave at their helper calls, those of one process do not
    overlap; the handlers of the other programs run to completion one after
    the other, in any order.  A system theorem speaks of records delivered in
    the order they were submitted.  A read of the task iterator delivers a
    whole record.  Which messages the library logs and the text of [strerror]
    are left to the environment; [libbpf_print_fn] says what becomes of a
    message.  The Rust front ends and the build files are not modelled. *)
From Stdlib Require Export ZArith Lia.
From stdpp Require Export base tactics list.

(** ** Scope and automation *)

Declare Scope c_scope.
Delimit Scope c_scope with c.

(** [cmem] holds the facts about ranges, buffers and held objects that close
    side conditions. *)
Create HintDb cmem.
#[export] Hint Extern 4 (_ ≤ _)%Z => lia : cmem.
#[export] Hint Extern 4 (_ < _)%Z => lia : cmem.

(** Case analysis on the next C condition of the goal, turned into a
    proposition about integers where the test is a comparison. *)
Ltac case_cond :=
  match goal with
  | |- context [if Z.eqb ?a ?b then _ else _] => destruct (Z.eqb_spec a b)
  | |- context [if Z.ltb ?a ?b then _ else _] => destruct (Z.ltb_spec a b)
  | |- context [if Z.leb ?a ?b then _ else _] => destruct (Z.leb_spec a b)
  | |- context [if ?b then _ else _] => destruct b eqn:?
  | |- context [match ?o with Some _ => _ | None => _ end] => destruct o eqn:?
  | |- context [let '(_, _) := ?p in _] => destruct p eqn:?
  end.

(** The same on a hypothesis. *)
Ltac case_cond_in H :=
  match type of H with
  | context [if Z.eqb ?a ?b then _ else _] => destruct (Z.eqb_spec a b)
  | context [if Z.ltb ?a ?b then _ else _] => destruct (Z.ltb_spec a b)
  | context [if Z.leb ?a ?b then _ else _] => destruct (Z.leb_spec a b)
  | context [if ?b then _ else _] => destruct b eqn:?
  | context [match ?o with Some _ => _ | None => _ end] => destruct o eqn:?
  | context [let '(_, _) := ?p in _] => destruct p eqn:?
  end.

(** Turn boolean facts of the context into propositions. *)
Ltac bool_facts :=
  repeat match goal with
  | H : Z.eqb _ _ = true |- _ => apply Z.eqb_eq in H
  | H : Z.eqb _ _ = false |- _ => apply Z.eqb_neq in H
  | H : Z.ltb _ _ = true |- _ => apply Z.ltb_lt in H
  | H : Z.ltb _ _ = false |- _ => apply Z.ltb_ge in H
  | H : Z.leb _ _ = true |- _ => apply Z.leb_le in H
  | H : Z.leb _ _ = false |- _ => apply Z.leb_gt in H
  | H : negb _ = true |- _ => apply negb_true_iff in H
  | H : negb _ = false |- _ => apply negb_false_iff in H
  | H : andb _ _ = true |- _ => apply andb_true_iff in H; destruct H
  | H : orb _ _ = false |- _ => apply orb_false_iff in H; destruct H
  end.

(** Linear arithmetic with constant divisions and remainders. *)
Ltac zlia := Z.to_euclidean_division_equations; lia.

(** ** Buffers

    A C array that a helper partly overwrites: the bytes it writes replace
    the front of the array, the rest keeps what it held. *)
Definition buf_write {A} (old w : list A) : list A := w ++ drop (length w) old.

Lemma length_buf_write {A} (old w : list A) :
  length w ≤ length old → length (buf_write old w) = length old.
Proof. intros. unfold buf_write. rewrite length_app, length_drop. lia. Qed.

#[export] Hint Resolve length_buf_write : cmem.

Lemma take_buf_write {A} (old w : list A) n :
  n ≤ length w → take n (buf_write old w) = take n w.
Proof. intros. unfold buf_write. by rewrite take_app_le. Qed.

Lemma buf_write_full {A} (old w : list A) :
  length w = length old → buf_write old w = w.
Proof.
  intros H. unfold buf_write. rewrite H, drop_all. by rewrite app_nil_r.
Qed.

Lemma lookup_buf_write_l {A} (old w : list A) i :
  i < length w → buf_write old w !! i = w !! i.
Proof. intros. unfold buf_write. by rewrite lookup_app_l. Qed.

Lemma lookup_buf_write_r {A} (old w : list A) i :
  length w ≤ i → buf_write old w !! i = old !! i.
Proof.
  intros. unfold buf_write. rewrite lookup_app_r by done.
  rewrite lookup_drop. f_equal. lia.
Qed.
