(* ===== verification/Interaction.v ===== *)
(** * Interactive programs and a logic for them

    The user-space programs talk to libbpf, libc and the kernel and may loop
    forever.  They are interaction trees; every call is an event whose answer
    the environment chooses.  This file has the logic the [main] functions
    are verified with: a protocol (what a call requires, which answers the
    environment may give, how a call changes the tracked resources), a
    coinductive predicate [safe] (no call ever breaks the protocol, and the
    program returns only in states satisfying a postcondition), an inductive
    predicate [ends] (moreover the program returns, whatever the answers),
    their rules for sequencing and loops, and an executable interpreter the
    two are adequate for. *)
From S2P Require Import Prelude.
From ITree Require Import ITree ITreeFacts.
From Paco Require Import paco.

Notation "'let*' x ':=' t 'in' k" := (ITree.bind t (fun x => k))
  (at level 10, x binder, t at level 200, k at level 200) : c_scope.
Notation "t ;;; k" := (ITree.bind t (fun _ => k))
  (at level 62, right associativity) : c_scope.
Open Scope c_scope.

Lemma observe_bind_eq {E R U} (t : itree E R) (k : R → itree E U) :
  observe (ITree.bind t k) =
  match observe t with
  | RetF v => observe (k v)
  | TauF t' => TauF (ITree.bind t' k)
  | VisF e k' => VisF e (fun x => ITree.bind (k' x) k)
  end.
Proof.
  change (observe (ITree.bind t k)) with
    (observe (match observe t with
              | RetF v => k v
              | TauF t' => Tau (ITree.bind t' k)
              | VisF e k' => Vis e (fun x => ITree.bind (k' x) k)
              end)).
  by destruct (observe t).
Qed.

(** A protocol over events [E] with tracked state [St]. *)
Record protocol (E : Type → Type) (St : Type) := Protocol {
  pre : ∀ X, E X → St → bool;          (** the call is allowed *)
  resp : ∀ X, E X → St → X → Prop;     (** the environment may answer so *)
  post : ∀ X, E X → X → St → St;       (** the state after the answer *)
}.
Arguments Protocol {_ _} _ _ _.
Arguments pre {_ _} _ {_} _ _.
Arguments resp {_ _} _ {_} _ _ _.
Arguments post {_ _} _ {_} _ _ _.

Section Logic.
Context {E : Type → Type} {St : Type} (P : protocol E St).

(** One step of [safe]: the head of the tree obeys the protocol and every
    allowed answer leads to a state in [r]. *)
Definition safeF {R} (Q : R → St → Prop) (r : itree E R → St → Prop)
    (ot : itree' E R) (s : St) : Prop :=
  match ot with
  | RetF v => Q v s
  | TauF t => r t s
  | VisF e k => pre P e s = true ∧ ∀ x, resp P e s x → r (k x) (post P e x s)
  end.

Definition safe_ {R} (Q : R → St → Prop) (r : itree E R → St → Prop)
    (t : itree E R) (s : St) : Prop := safeF Q r (observe t) s.

Lemma safe_mon {R} (Q : R → St → Prop) : monotone2 (safe_ Q).
Proof.
  intros t s r r' IN LE. unfold safe_, safeF in *.
  destruct (observe t); [done|auto|]. destruct IN. split; auto.
Qed.
Hint Resolve safe_mon : paco.

Definition safe {R} (Q : R → St → Prop) (t : itree E R) (s : St) : Prop :=
  paco2 (safe_ Q) bot2 t s.

Lemma safe_unfold {R} (Q : R → St → Prop) t s :
  safe Q t s ↔ safeF Q (safe Q) (observe t) s.
Proof.
  split; intros Hs.
  - punfold Hs. change (safe_ Q (safe Q) t s).
    eapply (safe_mon Q); [exact Hs|]. by intros t' s' [|[]].
  - pfold. unfold safe_. eapply (safe_mon Q); [exact Hs|]. by left.
Qed.

(** ** Rules *)

Lemma safe_ret {R} (Q : R → St → Prop) v s : Q v s → safe Q (Ret v) s.
Proof. intros. by apply safe_unfold. Qed.

Lemma safe_tau {R} (Q : R → St → Prop) t s : safe Q t s → safe Q (Tau t) s.
Proof. intros. by apply safe_unfold. Qed.

Lemma safe_trigger {R} (Q : R → St → Prop) (e : E R) s :
  pre P e s = true → (∀ x, resp P e s x → Q x (post P e x s)) →
  safe Q (ITree.trigger e) s.
Proof.
  intros Hp Hx. apply safe_unfold. split; [done|]. intros x Hr. by apply safe_ret, Hx.
Qed.

Lemma safe_spin {R} (Q : R → St → Prop) s : safe Q ITree.spin s.
Proof. pcofix CIH. pfold. unfold safe_. cbn. by right. Qed.

Lemma safe_observe {R} (Q : R → St → Prop) t u s :
  observe t = observe u → safe Q u s → safe Q t s.
Proof. rewrite !safe_unfold. by intros ->. Qed.

Lemma safe_bind {R U} (Q : R → St → Prop) (Q' : U → St → Prop) t k s :
  safe Q t s → (∀ v s', Q v s' → safe Q' (k v) s') → safe Q' (ITree.bind t k) s.
Proof.
  intros Ht Hk. revert t s Ht. pcofix CIH. intros t s Ht.
  apply safe_unfold in Ht. unfold safeF in Ht.
  destruct (observe t) eqn:Ho.
  - assert (safe Q' (ITree.bind t k) s) as Hs.
    { eapply safe_observe; [|apply Hk, Ht]. by rewrite observe_bind_eq, Ho. }
    eapply paco2_mon; [exact Hs|done].
  - pfold. unfold safe_. rewrite observe_bind_eq, Ho. cbn. right. by apply CIH.
  - pfold. unfold safe_. rewrite observe_bind_eq, Ho. cbn. destruct Ht as [Hp Hx].
    split; [done|]. intros x Hr. right. by apply CIH, Hx.
Qed.

Lemma safe_conseq {R} (Q Q' : R → St → Prop) t s :
  safe Q t s → (∀ v s', Q v s' → Q' v s') → safe Q' t s.
Proof.
  intros Ht HQ. revert t s Ht. pcofix CIH. intros t s Ht.
  apply safe_unfold in Ht. pfold. unfold safe_, safeF in *.
  destruct (observe t); [auto|right; auto|]. destruct Ht. split; [done|].
  intros. right. auto.
Qed.

(** Loops: an invariant on the loop variable and the tracked state. *)
Definition loop_post {I R} (Inv : I → St → Prop) (Q : R → St → Prop)
    (lr : I + R) (s : St) : Prop :=
  match lr with inl i => Inv i s | inr v => Q v s end.

Lemma safe_iter {I R} (Inv : I → St → Prop) (Q : R → St → Prop)
    (body : I → itree E (I + R)) i s :
  (∀ i s, Inv i s → safe (loop_post Inv Q) (body i) s) → Inv i s →
  safe Q (ITree.iter body i) s.
Proof.
  intros Hb Hi.
  set (k := fun lr : I + R =>
         match lr with inl l => Tau (ITree.iter body l) | inr v => Ret v end).
  enough (∀ t u s, observe u = observe (ITree.bind t k) →
            safe (loop_post Inv Q) t s → safe Q u s) as Hgen.
  { eapply (Hgen (body i)); [done|by apply Hb]. }
  clear i s Hi. pcofix CIH. intros t u s Hu Ht.
  apply safe_unfold in Ht. unfold safeF in Ht.
  pfold. unfold safe_. rewrite Hu, observe_bind_eq. destruct (observe t) eqn:Ho.
  - destruct r0 as [i|v]; [|done]. right. eapply (CIH (body i)); [done|by apply Hb].
  - right. by eapply CIH.
  - destruct Ht as [Hp Hx]. split; [done|]. intros x Hr. right. eapply CIH; [done|].
    by apply Hx.
Qed.

(** ** Runs that go wrong

    [reaches t s v s']: some allowed answers make the program return [v];
    [breaks t s]: some allowed answers lead it to a call that is not. *)
Inductive reaches {R} : itree E R → St → R → St → Prop :=
| reaches_ret t v s : observe t = RetF v → reaches t s v s
| reaches_tau t t' s v s' : observe t = TauF t' → reaches t' s v s' → reaches t s v s'
| reaches_vis t X (e : E X) k s x v s' :
    observe t = VisF e k → pre P e s = true → resp P e s x →
    reaches (k x) (post P e x s) v s' → reaches t s v s'.

Inductive breaks {R} : itree E R → St → Prop :=
| breaks_now t X (e : E X) k s : observe t = VisF e k → pre P e s = false → breaks t s
| breaks_tau t t' s : observe t = TauF t' → breaks t' s → breaks t s
| breaks_vis t X (e : E X) k s x :
    observe t = VisF e k → pre P e s = true → resp P e s x →
    breaks (k x) (post P e x s) → breaks t s.

Lemma breaks_not_safe {R} (Q : R → St → Prop) t s : breaks t s → ¬ safe Q t s.
Proof.
  induction 1 as [t X e k s Ho Hp|t t' s Ho _ IH|t X e k s x Ho Hp Hr _ IH];
    intros Hs%safe_unfold; rewrite Ho in Hs; cbn in Hs.
  - destruct Hs as [Hs _]. congruence.
  - by apply IH.
  - apply IH, Hs, Hr.
Qed.

Lemma breaks_observe {R} (t u : itree E R) s : observe t = observe u → breaks u s → breaks t s.
Proof.
  intros Ho Hu. destruct Hu; [eapply breaks_now|eapply breaks_tau|eapply breaks_vis]; by rewrite ?Ho.
Qed.

Lemma breaks_bind {R U} (t : itree E R) (k : R → itree E U) s :
  breaks t s → breaks (ITree.bind t k) s.
Proof.
  induction 1 as [t X e k' s Ho Hp|t t' s Ho _ IH|t X e k' s x Ho Hp Hr _ IH].
  - eapply breaks_now; [by rewrite observe_bind_eq, Ho|done].
  - eapply breaks_tau; [by rewrite observe_bind_eq, Ho|done].
  - eapply breaks_vis; [by rewrite observe_bind_eq, Ho|done|done|done].
Qed.

Lemma reaches_breaks {R U} (t : itree E R) (k : R → itree E U) s v s' :
  reaches t s v s' → breaks (k v) s' → breaks (ITree.bind t k) s.
Proof.
  intros Ht Hk. induction Ht as [t v s Ho|t t' s v s' Ho _ IH|t X e k' s x v s' Ho Hp Hr _ IH].
  - eapply breaks_observe; [|exact Hk]. by rewrite observe_bind_eq, Ho.
  - eapply breaks_tau; [by rewrite observe_bind_eq, Ho|auto].
  - eapply breaks_vis; [by rewrite observe_bind_eq, Ho|done|done|auto].
Qed.

Lemma reaches_observe {R} (t u : itree E R) s v s' :
  observe t = observe u → reaches u s v s' → reaches t s v s'.
Proof.
  intros Ho Hu. destruct Hu; [eapply reaches_ret|eapply reaches_tau|eapply reaches_vis];
    try (by rewrite Ho); done.
Qed.

Lemma reaches_bind {R U} (t : itree E R) (k : R → itree E U) s v s' v' s'' :
  reaches t s v s' → reaches (k v) s' v' s'' → reaches (ITree.bind t k) s v' s''.
Proof.
  intros Ht Hk. induction Ht as [t v s Ho|t t' s v s' Ho _ IH|t X e k' s x v s' Ho Hp Hr _ IH].
  - eapply reaches_observe; [|exact Hk]. by rewrite observe_bind_eq, Ho.
  - eapply reaches_tau; [by rewrite observe_bind_eq, Ho|auto].
  - eapply reaches_vis; [by rewrite observe_bind_eq, Ho|done|done|auto].
Qed.

Lemma reaches_trigger {X} (e : E X) s x :
  pre P e s = true → resp P e s x → reaches (ITree.trigger e) s x (post P e x s).
Proof. intros Hp Hr. eapply reaches_vis; [done..|]. by apply reaches_ret. Qed.

(** One more round of a loop. *)
Lemma breaks_iter {I R} (body : I → itree E (I + R)) i j s s' :
  reaches (body i) s (inl j) s' → breaks (ITree.iter body j) s' → breaks (ITree.iter body i) s.
Proof.
  intros Hb Hj.
  eapply (breaks_observe _ (ITree.bind (body i) (fun lr =>
       match lr with inl l => Tau (ITree.iter body l) | inr v => Ret v end))); [done|].
  eapply reaches_breaks; [exact Hb|]. by eapply breaks_tau.
Qed.

Lemma breaks_iter_body {I R} (body : I → itree E (I + R)) i s :
  breaks (body i) s → breaks (ITree.iter body i) s.
Proof.
  intros Hb.
  eapply (breaks_observe _ (ITree.bind (body i) (fun lr =>
       match lr with inl l => Tau (ITree.iter body l) | inr v => Ret v end))); [done|].
  by apply breaks_bind.
Qed.

(** ** Total correctness *)

Inductive ends {R} (Q : R → St → Prop) : itree E R → St → Prop :=
| ends_ret t v s : observe t = RetF v → Q v s → ends Q t s
| ends_tau t t' s : observe t = TauF t' → ends Q t' s → ends Q t s
| ends_vis t X (e : E X) k s :
    observe t = VisF e k → pre P e s = true →
    (∀ x, resp P e s x → ends Q (k x) (post P e x s)) → ends Q t s.

Lemma ends_safe {R} (Q : R → St → Prop) t s : ends Q t s → safe Q t s.
Proof.
  induction 1 as [t v s Ho|t t' s Ho _ IH|t X e k s Ho Hp _ IH];
    apply safe_unfold; rewrite Ho; [done|done|]. split; [done|]. apply IH.
Qed.

Lemma ends_Ret {R} (Q : R → St → Prop) v s : Q v s → ends Q (Ret v) s.
Proof. intros. by eapply ends_ret. Qed.

Lemma ends_trigger {R} (Q : R → St → Prop) (e : E R) s :
  pre P e s = true → (∀ x, resp P e s x → Q x (post P e x s)) →
  ends Q (ITree.trigger e) s.
Proof. intros Hp Hx. eapply ends_vis; [done..|]. intros. by apply ends_Ret, Hx. Qed.

Lemma ends_observe {R} (Q : R → St → Prop) t u s :
  observe t = observe u → ends Q u s → ends Q t s.
Proof.
  intros Ho Hu. destruct Hu; [eapply ends_ret|eapply ends_tau|eapply ends_vis]; by rewrite ?Ho.
Qed.

Lemma ends_bind {R U} (Q : R → St → Prop) (Q' : U → St → Prop) t k s :
  ends Q t s → (∀ v s', Q v s' → ends Q' (k v) s') → ends Q' (ITree.bind t k) s.
Proof.
  intros Ht Hk. induction Ht as [t v s Ho|t t' s Ho _ IH|t X e k' s Ho Hp _ IH].
  - eapply ends_observe; [|by apply Hk]. by rewrite observe_bind_eq, Ho.
  - eapply ends_tau; [by rewrite observe_bind_eq, Ho|done].
  - eapply ends_vis; [by rewrite observe_bind_eq, Ho|done|done].
Qed.

Lemma ends_conseq {R} (Q Q' : R → St → Prop) t s :
  ends Q t s → (∀ v s', Q v s' → Q' v s') → ends Q' t s.
Proof.
  intros Ht HQ. induction Ht; [eapply ends_ret|eapply ends_tau|eapply ends_vis]; eauto.
Qed.

(** Loops that come to an end: each round decreases a measure. *)
Lemma ends_iter {I R} (Inv : nat → I → St → Prop) (Q : R → St → Prop)
    (body : I → itree E (I + R)) n i s :
  (∀ n i s, Inv n i s →
     ends (loop_post (fun j s' => ∃ m, m < n ∧ Inv m j s') Q) (body i) s) →
  Inv n i s → ends Q (ITree.iter body i) s.
Proof.
  intros Hb. revert i s. induction n as [n IH] using lt_wf_ind. intros i s Hi.
  eapply (ends_observe Q _ (ITree.bind (body i) (fun lr =>
       match lr with inl l => Tau (ITree.iter body l) | inr v => Ret v end))); [done|].
  eapply ends_bind; [by apply Hb|]. intros [j|v] s'; cbn; [|apply ends_Ret].
  intros (m & Hm & Hj). eapply ends_tau; [done|]. by eapply IH.
Qed.

(** ** Running a program

    An environment [h] answers every event from a world state [W]. *)
Inductive outcome (W R : Type) :=
| Done (v : R) (w : W) (s : St)
| Broken (w : W) (s : St)
| Running (w : W) (s : St).
Arguments Done {_ _} _ _ _.
Arguments Broken {_ _} _ _.
Arguments Running {_ _} _ _.

Fixpoint exec {W R} (h : ∀ X, E X → W → X * W) (fuel : nat) (t : itree E R)
    (w : W) (s : St) : outcome W R :=
  match fuel with
  | O => Running w s
  | S n =>
      match observe t with
      | RetF v => Done v w s
      | TauF t' => exec h n t' w s
      | VisF e k =>
          if pre P e s then let '(x, w') := h _ e w in exec h n (k x) w' (post P e x s)
          else Broken w s
      end
  end.

(** One call: the rest of the program goes on with the answer. *)
Lemma exec_call {W X R} (h : ∀ X, E X → W → X * W) fuel (e : E X) (k : X → itree E R) w s :
  pre P e s = true →
  exec h (S fuel) (ITree.bind (ITree.trigger e) k) w s =
  exec h fuel (k (h X e w).1) (h X e w).2 (post P e (h X e w).1 s).
Proof.
  intros Hp. cbn. rewrite Hp. destruct (h X e w) as [x w']. by destruct fuel.
Qed.

Lemma exec_broken {W X R} (h : ∀ X, E X → W → X * W) fuel (e : E X) (k : X → itree E R) w s :
  pre P e s = false → exec h (S fuel) (ITree.bind (ITree.trigger e) k) w s = Broken w s.
Proof. intros Hp. cbn. by rewrite Hp. Qed.

(** The environment only gives answers the protocol allows. *)
Definition respects {W} (h : ∀ X, E X → W → X * W) : Prop :=
  ∀ X (e : E X) w s, pre P e s = true → resp P e s (h X e w).1.

Lemma safe_exec {W R} (h : ∀ X, E X → W → X * W) (Q : R → St → Prop) fuel t w s :
  respects h → safe Q t s →
  match exec h fuel t w s with
  | Done v _ s' => Q v s'
  | Broken _ _ => False
  | Running _ _ => True
  end.
Proof.
  intros Hh. revert t w s. induction fuel as [|n IH]; intros t w s Ht; [done|].
  apply safe_unfold in Ht. cbn. unfold safeF in Ht. destruct (observe t); [done|by apply IH|].
  destruct Ht as [Hp Hx]. rewrite Hp. pose proof (Hh _ e w s Hp) as Hr.
  destruct (h _ e w) as [x w']. by apply IH, Hx.
Qed.

(** An environment whose answers depend on what happened before: [I]
    relates its world to the state of the protocol. *)
Definition follows {W} (I : W → St → Prop) (h : ∀ X, E X → W → X * W) : Prop :=
  ∀ X (e : E X) w s, I w s → pre P e s = true →
    resp P e s (h X e w).1 ∧ I (h X e w).2 (post P e (h X e w).1 s).

Lemma ends_follows {W R} (I : W → St → Prop) (h : ∀ X, E X → W → X * W) (Q : R → St → Prop) t w s :
  follows I h → ends Q t s → I w s →
  ∃ fuel v w' s', exec h fuel t w s = Done v w' s' ∧ Q v s' ∧ I w' s'.
Proof.
  intros Hh Ht. revert w.
  induction Ht as [t v s Ho|t t' s Ho _ IH|t X e k s Ho Hp _ IH]; intros w Hw.
  - exists 1, v, w, s. cbn. by rewrite Ho.
  - destruct (IH w Hw) as (n & v & w' & s' & He & HQ). exists (S n), v, w', s'.
    cbn. by rewrite Ho.
  - destruct (Hh _ e w s Hw Hp) as [Hr Hw']. destruct (h _ e w) as [x w1] eqn:Hx.
    destruct (IH x Hr w1 Hw') as (n & v & w' & s' & He & HQ). exists (S n), v, w', s'.
    cbn. by rewrite Ho, Hp, Hx.
Qed.

Lemma ends_exec {W R} (h : ∀ X, E X → W → X * W) (Q : R → St → Prop) t w s :
  respects h → ends Q t s →
  ∃ fuel v w' s', exec h fuel t w s = Done v w' s' ∧ Q v s'.
Proof.
  intros Hh Ht. destruct (ends_follows (fun _ _ => True) h Q t w s) as (f & v & w' & s' & He & HQ & _);
    [|done..|by exists f, v, w', s'].
  intros X e w0 s0 _ Hp. split; [by apply Hh|done].
Qed.

(** ** Runs that return

    [runs h t w s v w' s']: in the environment [h] the program returns [v]
    without breaking the protocol. *)
Definition runs {W R} (h : ∀ X, E X → W → X * W) (t : itree E R) (w : W) (s : St)
    (v : R) (w' : W) (s' : St) : Prop :=
  ∃ fuel, exec h fuel t w s = Done v w' s'.

Lemma runs_ret {W R} (h : ∀ X, E X → W → X * W) (v : R) w s : runs h (Ret v) w s v w s.
Proof. by exists 1. Qed.

Lemma runs_observe {W R} (h : ∀ X, E X → W → X * W) (t u : itree E R) w s v w' s' :
  observe t = observe u → runs h u w s v w' s' → runs h t w s v w' s'.
Proof.
  intros Ho [[|n] Hn]; [done|]. exists (S n). cbn in *. by rewrite Ho.
Qed.

Lemma runs_bind {W R U} (h : ∀ X, E X → W → X * W) (t : itree E R) (k : R → itree E U)
    w s v w1 s1 v' w2 s2 :
  runs h t w s v w1 s1 → runs h (k v) w1 s1 v' w2 s2 → runs h (ITree.bind t k) w s v' w2 s2.
Proof.
  intros [n Hn] Hk. revert t w s Hn. induction n as [|n IH]; intros t w s Hn; [done|].
  cbn in Hn. destruct (observe t) as [x|t'|X e k'] eqn:Ho.
  - injection Hn as -> -> ->. eapply runs_observe; [|exact Hk]. by rewrite observe_bind_eq, Ho.
  - destruct (IH _ _ _ Hn) as [f Hf]. exists (S f). cbn.
    by rewrite observe_bind_eq, Ho.
  - destruct (pre P e s) eqn:Hp; [|done]. destruct (h X e w) as [x w0] eqn:Hh.
    destruct (IH _ _ _ Hn) as [f Hf]. exists (S f). cbn.
    by rewrite observe_bind_eq, Ho, Hp, Hh.
Qed.

Lemma runs_trigger {W X} (h : ∀ X, E X → W → X * W) (e : E X) w s x w1 :
  pre P e s = true → h X e w = (x, w1) → runs h (ITree.trigger e) w s x w1 (post P e x s).
Proof. intros Hp Hh. exists 2. cbn. by rewrite Hp, Hh. Qed.

Lemma runs_iter {W I R} (h : ∀ X, E X → W → X * W) (body : I → itree E (I + R)) i
    w s lr w1 s1 v w2 s2 :
  runs h (body i) w s lr w1 s1 →
  match lr with
  | inl j => runs h (ITree.iter body j) w1 s1 v w2 s2
  | inr v' => v' = v ∧ w1 = w2 ∧ s1 = s2
  end →
  runs h (ITree.iter body i) w s v w2 s2.
Proof.
  intros Hb Hr.
  eapply (runs_observe h _ (ITree.bind (body i) (fun lr =>
       match lr with inl l => Tau (ITree.iter body l) | inr v => Ret v end))); [done|].
  eapply runs_bind; [exact Hb|]. destruct lr as [j|v'].
  - destruct Hr as [n Hn]. by exists (S n).
  - destruct Hr as (-> & -> & ->). apply runs_ret.
Qed.
End Logic.
Arguments Done {_ _ _} _ _ _.
Arguments Broken {_ _ _} _ _.
Arguments Running {_ _ _} _ _.

(** ** Two protocols at once

    The product of two protocols on the same calls: a call must be allowed by
    both, an answer is one both allow.  What a program was shown to do under
    each of them it does under the product. *)
Definition both {E St1 St2} (P1 : protocol E St1) (P2 : protocol E St2) : protocol E (St1 * St2) :=
  Protocol
    (fun X e s => pre P1 e s.1 && pre P2 e s.2)
    (fun X e s x => resp P1 e s.1 x ∧ resp P2 e s.2 x)
    (fun X e x s => (post P1 e x s.1, post P2 e x s.2)).

Section Both.
Context {E : Type → Type} {St1 St2 R : Type} (P1 : protocol E St1) (P2 : protocol E St2)
  (Q1 : R → St1 → Prop) (Q2 : R → St2 → Prop).

Definition both_post (v : R) (s : St1 * St2) : Prop := Q1 v s.1 ∧ Q2 v s.2.

Lemma safe_both t s1 s2 :
  safe P1 Q1 t s1 → safe P2 Q2 t s2 → safe (both P1 P2) both_post t (s1, s2).
Proof.
  unfold safe at 3. revert t s1 s2. pcofix CIH. intros t s1 s2 H1 H2.
  apply safe_unfold in H1, H2. pfold. unfold safe_, safeF in *. destruct (observe t).
  - by split.
  - right. by apply CIH.
  - destruct H1 as [Hp1 Hx1], H2 as [Hp2 Hx2]. split; [by cbn; rewrite Hp1, Hp2|].
    intros x [Hr1 Hr2]. right. by apply CIH; [apply Hx1|apply Hx2].
Qed.

Lemma ends_both t s1 s2 :
  ends P1 Q1 t s1 → safe P2 Q2 t s2 → ends (both P1 P2) both_post t (s1, s2).
Proof.
  intros H1. revert s2. induction H1 as [t v s1 Ho HQ|t t' s1 Ho _ IH|t X e k s1 Ho Hp _ IH];
    intros s2 H2; apply safe_unfold in H2; rewrite Ho in H2; cbn in H2.
  - by eapply ends_ret.
  - eapply ends_tau; [done|by apply IH].
  - destruct H2 as [Hp2 Hx2]. eapply ends_vis; [done|by cbn; rewrite Hp, Hp2|].
    intros x [Hr1 Hr2]. apply IH; [done|by apply Hx2].
Qed.
End Both.

(** A run under the product is a run under the first protocol. *)
Lemma exec_both {E St1 St2 W R} (P1 : protocol E St1) (P2 : protocol E St2)
    (h : ∀ X, E X → W → X * W) fuel (t : itree E R) w s1 s2 v w' s' :
  exec (both P1 P2) h fuel t w (s1, s2) = Done v w' s' → exec P1 h fuel t w s1 = Done v w' s'.1.
Proof.
  revert t w s1 s2. induction fuel as [|n IH]; intros t w s1 s2; cbn; [done|].
  destruct (observe t) as [x|t'|X e k]; [by intros [= <- <- <-]|apply IH|].
  destruct (pre P1 e s1); cbn; [|done]. destruct (pre P2 e s2); [|done].
  destruct (h X e w) as [x w1]. apply IH.
Qed.

(** Fewer answers are allowed: what holds for all of them still holds. *)
Lemma ends_fewer {E St R} (P P' : protocol E St) (Q : R → St → Prop) t s :
  (∀ X (e : E X) s, pre P e s = pre P' e s) → (∀ X (e : E X) s x, resp P' e s x → resp P e s x) →
  (∀ X (e : E X) x s, post P e x s = post P' e x s) →
  ends P Q t s → ends P' Q t s.
Proof.
  intros Hpre Hresp Hpost. induction 1 as [t v s Ho HQ|t t' s Ho _ IH|t X e k s Ho Hp _ IH].
  - by eapply ends_ret.
  - by eapply ends_tau.
  - eapply ends_vis; [done|by rewrite <-Hpre|]. intros x Hx. rewrite <-Hpost. by apply IH, Hresp.
Qed.
