(* ===== verification/CInt.v ===== *)
(** * Machine integers of the C code

    Integers are values of [Z] with their width written out: [wrap w] is the
    conversion to an unsigned type of [w] bits, [swrap w] the conversion to a
    signed one (two's complement).  Byte sequences are lists of [Z] in
    [0 .. 255], read and written with the byte order of the target. *)
From S2P Require Import Prelude.
Local Open Scope Z_scope.

Definition wrap (w x : Z) : Z := x mod 2 ^ w.
Definition swrap (w x : Z) : Z := (x + 2 ^ (w - 1)) mod 2 ^ w - 2 ^ (w - 1).

Definition u8 : Z → Z := wrap 8.
Definition u16 : Z → Z := wrap 16.
Definition u32 : Z → Z := wrap 32.
Definition u64 : Z → Z := wrap 64.
Definition s32 : Z → Z := swrap 32.
Definition s64 : Z → Z := swrap 64.

Definition is_u (w x : Z) : Prop := 0 ≤ x < 2 ^ w.
Definition is_s (w x : Z) : Prop := - 2 ^ (w - 1) ≤ x < 2 ^ (w - 1).

Lemma wrap_range w x : 0 ≤ w → is_u w (wrap w x).
Proof. intros. apply Z.mod_pos_bound, Z.pow_pos_nonneg; lia. Qed.

Lemma wrap_small w x : is_u w x → wrap w x = x.
Proof. intros. by apply Z.mod_small. Qed.

Lemma wrap_wrap w x : 0 ≤ w → wrap w (wrap w x) = wrap w x.
Proof. intros. by apply wrap_small, wrap_range. Qed.

Lemma pow2_half w : 0 < w → 2 ^ w = 2 * 2 ^ (w - 1).
Proof.
  intros. replace w with (Z.succ (w - 1)) at 1 by lia.
  rewrite Z.pow_succ_r; lia.
Qed.

Lemma swrap_range w x : 0 < w → is_s w (swrap w x).
Proof.
  intros Hw. unfold is_s, swrap. pose proof (pow2_half w Hw).
  pose proof (Z.pow_pos_nonneg 2 (w - 1) ltac:(lia) ltac:(lia)).
  pose proof (Z.mod_pos_bound (x + 2 ^ (w - 1)) (2 ^ w) ltac:(lia)). lia.
Qed.

Lemma swrap_small w x : 0 < w → is_s w x → swrap w x = x.
Proof.
  intros Hw [? ?]. unfold swrap. pose proof (pow2_half w Hw).
  rewrite Z.mod_small; lia.
Qed.

(** Converting to the signed type loses nothing the unsigned type of the
    same width keeps. *)
Lemma swrap_eq_iff w a b : 0 < w → swrap w a = swrap w b ↔ wrap w a = wrap w b.
Proof.
  intros Hw. unfold swrap, wrap.
  pose proof (Z.pow_pos_nonneg 2 w ltac:(lia) ltac:(lia)) as Hp.
  split; intros H.
  - assert ((a + 2 ^ (w - 1)) mod 2 ^ w = (b + 2 ^ (w - 1)) mod 2 ^ w) as E by lia.
    replace a with (a + 2 ^ (w - 1) - 2 ^ (w - 1)) by lia.
    replace b with (b + 2 ^ (w - 1) - 2 ^ (w - 1)) by lia.
    by rewrite Zminus_mod, E, <- Zminus_mod.
  - by rewrite Zplus_mod, H, <- Zplus_mod.
Qed.

Lemma swrap_wrap w x : 0 < w → swrap w (wrap w x) = swrap w x.
Proof. intros. apply swrap_eq_iff; [done|]. apply wrap_wrap. lia. Qed.

Lemma wrap_swrap w x : 0 < w → wrap w (swrap w x) = wrap w x.
Proof.
  intros Hw. apply swrap_eq_iff; [done|]. apply swrap_small; [done|]. by apply swrap_range.
Qed.

#[export] Hint Resolve wrap_range swrap_range : cmem.

(** ** Shifts and masks as arithmetic *)

Lemma shiftr_u w n x : is_u w x → 0 ≤ n ≤ w → is_u (w - n) (Z.shiftr x n).
Proof.
  intros [H0 H1] [Hn Hw]. unfold is_u. rewrite Z.shiftr_div_pow2 by done.
  pose proof (Z.pow_pos_nonneg 2 n ltac:(lia) ltac:(lia)).
  split; [apply Z.div_pos; lia|].
  apply Z.div_lt_upper_bound; [lia|].
  rewrite <- Z.pow_add_r by lia. by replace (n + (w - n)) with w by lia.
Qed.

Lemma land_ff x : Z.land x 255 = x mod 256.
Proof. change 255 with (Z.ones 8). by rewrite Z.land_ones. Qed.

Lemma land_shiftl_low a b n :
  0 ≤ n → 0 ≤ b < 2 ^ n → Z.land (Z.shiftl a n) b = 0.
Proof.
  intros Hn Hb. apply Z.bits_inj'. intros i Hi.
  rewrite Z.land_spec, Z.bits_0. destruct (Z.lt_ge_cases i n).
  - by rewrite Z.shiftl_spec_low.
  - rewrite <- (Z.mod_small b (2 ^ n)) by done.
    by rewrite Z.mod_pow2_bits_high, andb_false_r by lia.
Qed.

Lemma lor_shiftl_add a b n :
  0 ≤ n → 0 ≤ b < 2 ^ n → Z.lor (Z.shiftl a n) b = a * 2 ^ n + b.
Proof.
  intros Hn Hb. pose proof (land_shiftl_low a b n Hn Hb) as E.
  rewrite <- Z.shiftl_mul_pow2 by done.
  by rewrite <- Z.lxor_lor, <- Z.add_nocarry_lxor.
Qed.

(** ** Byte order

    Multi-byte loads use the byte order of the target the program is built
    for; the [ntoh] conversions swap on a little-endian target only. *)
Inductive endian := LE | BE.

Definition is_byte (b : Z) : Prop := is_u 8 b.

Fixpoint le_combine (bs : list Z) : Z :=
  match bs with
  | [] => 0
  | b :: t => b + 256 * le_combine t
  end.

Fixpoint le_split (n : nat) (x : Z) : list Z :=
  match n with
  | O => []
  | S n => x mod 256 :: le_split n (x / 256)
  end.

Definition load (en : endian) (bs : list Z) : Z :=
  match en with LE => le_combine bs | BE => le_combine (rev bs) end.

Definition store (en : endian) (n : nat) (x : Z) : list Z :=
  match en with LE => le_split n x | BE => rev (le_split n x) end.

Definition bswap16 (x : Z) : Z :=
  Z.lor (Z.shiftl (Z.land x 255) 8) (Z.land (Z.shiftr x 8) 255).

Definition bswap32 (x : Z) : Z :=
  Z.lor (Z.shiftl (Z.land x 255) 24)
    (Z.lor (Z.shiftl (Z.land (Z.shiftr x 8) 255) 16)
      (Z.lor (Z.shiftl (Z.land (Z.shiftr x 16) 255) 8)
        (Z.land (Z.shiftr x 24) 255))).

Definition ntohs (en : endian) (x : Z) : Z :=
  match en with LE => bswap16 x | BE => x end.
Definition htons : endian → Z → Z := ntohs.
Definition ntohl (en : endian) (x : Z) : Z :=
  match en with LE => bswap32 x | BE => x end.

Lemma length_le_split n x : length (le_split n x) = n.
Proof. revert x. induction n as [|n IH]; intros; cbn; [|rewrite IH]; done. Qed.

Lemma le_split_bytes n x : Forall is_byte (le_split n x).
Proof.
  revert x. induction n as [|n IH]; intros x; cbn; constructor; [|apply IH].
  apply (wrap_range 8 x). lia.
Qed.

Lemma le_combine_split n x : le_combine (le_split n x) = x mod 256 ^ Z.of_nat n.
Proof.
  revert x. induction n as [|n IH]; intros x; cbn [le_split le_combine].
  - by rewrite Z.mod_1_r.
  - rewrite IH, Nat2Z.inj_succ, Z.pow_succ_r by lia.
    rewrite Z.rem_mul_r; lia.
Qed.

Lemma le_combine_range bs :
  Forall is_byte bs → 0 ≤ le_combine bs < 256 ^ Z.of_nat (length bs).
Proof.
  induction 1 as [|b bs Hb _ IH]; cbn [le_combine length]; [lia|].
  rewrite Nat2Z.inj_succ, Z.pow_succ_r by lia.
  unfold is_byte, is_u in Hb. change (2 ^ 8) with 256 in Hb. lia.
Qed.

Lemma le_split_combine bs : Forall is_byte bs → le_split (length bs) (le_combine bs) = bs.
Proof.
  induction 1 as [|b bs Hb _ IH]; cbn [le_combine length le_split]; [done|].
  unfold is_byte, is_u in Hb. change (2 ^ 8) with 256 in Hb.
  rewrite (Z.mul_comm 256), Z.mod_add, Z.div_add, Z.mod_small, Z.div_small by lia.
  by rewrite Z.add_0_l, IH.
Qed.

Lemma load_store en n x : load en (store en n x) = x mod 256 ^ Z.of_nat n.
Proof. destruct en; cbn; [|rewrite rev_involutive]; apply le_combine_split. Qed.

Lemma store_load en bs : Forall is_byte bs → store en (length bs) (load en bs) = bs.
Proof.
  intros H. destruct en; cbn; [by apply le_split_combine|].
  rewrite <- length_rev, le_split_combine by by apply Forall_rev.
  apply rev_involutive.
Qed.

Lemma load_range en bs :
  Forall is_byte bs → 0 ≤ load en bs < 256 ^ Z.of_nat (length bs).
Proof.
  intros H. destruct en; cbn; [by apply le_combine_range|].
  rewrite <- (length_rev bs). by apply le_combine_range, Forall_rev.
Qed.

(** Values a network field holds: the big-endian reading of its bytes. *)
Definition be_value (bs : list Z) : Z := le_combine (rev bs).

Lemma bswap16_combine a b :
  is_byte a → is_byte b → bswap16 (a + 256 * b) = b + 256 * a.
Proof.
  unfold is_byte, is_u. change (2 ^ 8) with 256. intros Ha Hb. unfold bswap16.
  rewrite !land_ff, Z.shiftr_div_pow2 by done.
  change (2 ^ 8) with 256. rewrite lor_shiftl_add; change (2 ^ 8) with 256; zlia.
Qed.

Lemma bswap32_combine a b c d :
  is_byte a → is_byte b → is_byte c → is_byte d →
  bswap32 (a + 256 * (b + 256 * (c + 256 * d))) =
  d + 256 * (c + 256 * (b + 256 * a)).
Proof.
  unfold is_byte, is_u. change (2 ^ 8) with 256. intros Ha Hb Hc Hd. unfold bswap32.
  rewrite !land_ff, !Z.shiftr_div_pow2 by done.
  change (2 ^ 16) with 65536. change (2 ^ 24) with 16777216. change (2 ^ 8) with 256.
  set (x := a + 256 * (b + 256 * (c + 256 * d))).
  assert (x mod 256 = a) as -> by (subst x; zlia).
  assert ((x / 256) mod 256 = b) as -> by (subst x; zlia).
  assert ((x / 65536) mod 256 = c) as -> by (subst x; zlia).
  assert ((x / 16777216) mod 256 = d) as -> by (subst x; zlia).
  rewrite (lor_shiftl_add c), (lor_shiftl_add b), (lor_shiftl_add a);
    change (2 ^ 8) with 256; change (2 ^ 16) with 65536; change (2 ^ 24) with 16777216; lia.
Qed.

(** Network-to-host conversion of a loaded field gives the network value on
    either byte order. *)
Lemma ntohs_load en a b :
  is_byte a → is_byte b → ntohs en (load en [a; b]) = be_value [a; b].
Proof.
  intros. destruct en; cbn [ntohs load be_value rev app le_combine]; [|done].
  rewrite !Z.mul_0_r, !Z.add_0_r. by apply bswap16_combine.
Qed.

Lemma ntohl_load en a b c d :
  is_byte a → is_byte b → is_byte c → is_byte d →
  ntohl en (load en [a; b; c; d]) = be_value [a; b; c; d].
Proof.
  intros. destruct en; cbn [ntohl load be_value rev app le_combine]; [|done].
  rewrite !Z.mul_0_r, !Z.add_0_r. by apply bswap32_combine.
Qed.
