(* ===== verification/CFormat.v ===== *)
(** * C strings, [printf] conversions and [strtol]

    The parts of the C library the programs use on text: reading a
    NUL-terminated string out of a [char] array, the [printf] conversions of
    the format strings in the repository with their widths and flags,
    [snprintf]'s truncation, and [strtol]/[atoi] in base ten. *)
From S2P Require Import Prelude CInt.
From Stdlib Require Export Ascii.
From stdpp Require Export strings.
From Stdlib Require Import DecimalString HexadecimalString DecimalPos DecimalZ.
Local Open Scope Z_scope.

(** ** NUL-terminated strings in arrays *)

Definition nul : ascii := Ascii.zero.

(** [%s] on a [char] array: the characters before the first NUL, [None] when
    the array holds none (the read would leave the array). *)
Fixpoint cstr (bs : list ascii) : option string :=
  match bs with
  | [] => None
  | c :: t => if Ascii.eqb c nul then Some EmptyString
              else String c <$> cstr t
  end.

(** The bytes of a string with its terminator, as a copying helper writes
    them into an array of [n] characters: at most [n - 1] characters and the
    terminator. *)
Definition str_bytes (n : nat) (s : string) : list ascii :=
  take (n - 1) (String.list_ascii_of_string s) ++ [nul].

(** The text of a buffer up to its first NUL or its end, as [%s] of
    [bpf_printk] reads it. *)
Fixpoint text_of (bs : list ascii) : string :=
  match bs with
  | [] => EmptyString
  | c :: t => if Ascii.eqb c nul then EmptyString else String c (text_of t)
  end.

Lemma text_of_cstr bs s : cstr bs = Some s → text_of bs = s.
Proof.
  revert s. induction bs as [|c bs IH]; intros s; cbn; [done|].
  destruct (Ascii.eqb c nul); [by intros [= <-]|].
  destruct (cstr bs) as [u|]; cbn; [|done]. intros [= <-]. f_equal. by apply IH.
Qed.

Definition nul_free (s : string) : Prop :=
  Forall (fun c => c ≠ nul) (String.list_ascii_of_string s).

(** Reading back depends only on the bytes up to the terminator. *)
Lemma cstr_app_nul (w rest : list ascii) :
  nul ∈ w → cstr (w ++ rest) = cstr w.
Proof.
  induction w as [|c w IH]; intros Hin; [by apply not_elem_of_nil in Hin|].
  cbn. destruct (Ascii.eqb_spec c nul); [done|].
  rewrite IH; [done|]. apply elem_of_cons in Hin as [Hin|Hin]; congruence.
Qed.

Lemma cstr_buf_write (old w : list ascii) :
  nul ∈ w → cstr (buf_write old w) = cstr w.
Proof. apply cstr_app_nul. Qed.

Lemma cstr_some (w : list ascii) : nul ∈ w → is_Some (cstr w).
Proof.
  induction w as [|c w IH]; intros Hin; [by apply not_elem_of_nil in Hin|].
  cbn. destruct (Ascii.eqb_spec c nul); [by eexists|].
  apply elem_of_cons in Hin as [Hin|Hin]; [congruence|].
  destruct (IH Hin) as [s ->]. by eexists.
Qed.

Lemma cstr_str_bytes s n :
  nul_free s → (String.length s < n)%nat → cstr (str_bytes n s) = Some s.
Proof.
  revert n. unfold str_bytes, nul_free.
  induction s as [|c s IH]; intros n Hs Hn; cbn in *; [by destruct (n - 1)%nat|].
  destruct n as [|[|n]]; [lia..|]. apply Forall_cons in Hs as [Hc Hs].
  cbn. destruct (Ascii.eqb_spec c nul); [done|].
  specialize (IH (S n) Hs ltac:(lia)). cbn in IH.
  rewrite Nat.sub_0_r in IH. by rewrite IH.
Qed.

Lemma length_str_bytes n s : (0 < n)%nat → (length (str_bytes n s) ≤ n)%nat.
Proof. intros. unfold str_bytes. rewrite length_app, length_take. cbn. lia. Qed.

Lemma nul_str_bytes n s : nul ∈ str_bytes n s.
Proof. unfold str_bytes. apply elem_of_app. right. by apply list_elem_of_singleton. Qed.

(** ** Conversions *)

Fixpoint spaces (n : nat) : string :=
  match n with O => EmptyString | S n => String " " (spaces n) end.
Fixpoint zeros (n : nat) : string :=
  match n with O => EmptyString | S n => String "0" (zeros n) end.

(** [%-ws], [%ws] and [%0w]: padded on the right, on the left, with zeros. *)
Definition pad_right (w : nat) (s : string) : string := s +:+ spaces (w - String.length s).
Definition pad_left (w : nat) (s : string) : string := spaces (w - String.length s) +:+ s.
Definition pad_zero (w : nat) (s : string) : string := zeros (w - String.length s) +:+ s.

(** [%d], [%u], [%ld], [%llu] on a value of the converted type; [%x], [%lx]. *)
Definition dec (z : Z) : string := DecimalString.NilZero.string_of_int (Z.to_int z).
Definition hex (z : Z) : string := HexadecimalString.NilZero.string_of_int (Z.to_hex_int z).

(** A character sequence of [snprintf (dst, n, ...)]: at most [n - 1]
    characters are stored. *)
Definition snprintf (n : nat) (s : string) : string := String.substring 0 (n - 1) s.

Definition newline : string := String (Ascii.ascii_of_nat 10) EmptyString.
Definition tab : string := String (Ascii.ascii_of_nat 9) EmptyString.

(** ** [strtol] *)

Definition is_space (c : ascii) : bool :=
  let n := Ascii.nat_of_ascii c in
  (n =? 32)%nat || ((9 <=? n) && (n <=? 13))%nat.

Definition digit (c : ascii) : option Z :=
  let n := Z.of_nat (Ascii.nat_of_ascii c) in
  if (48 <=? n) && (n <=? 57) then Some (n - 48) else None.

(** The value of the longest digit prefix; [None] when there is none. *)
Fixpoint digits_from (acc : Z) (s : string) : Z :=
  match s with
  | EmptyString => acc
  | String c t => match digit c with
                  | Some d => digits_from (10 * acc + d) t
                  | None => acc
                  end
  end.

Fixpoint skip_space (s : string) : string :=
  match s with
  | String c t => if is_space c then skip_space t else s
  | EmptyString => EmptyString
  end.

Definition sign_of (s : string) : Z * string :=
  match s with
  | String "-" t => (-1, t)
  | String "+" t => (1, t)
  | _ => (1, s)
  end.

Definition LONG_MAX : Z := 2 ^ 63 - 1.
Definition LONG_MIN : Z := - 2 ^ 63.
Definition ERANGE : Z := 34.

(** [strtol (s, NULL, 10)]: the value and the [errno] it sets (0 when it
    leaves it alone). *)
Definition strtol (s : string) : Z * Z :=
  let '(sg, t) := sign_of (skip_space s) in
  let v := sg * digits_from 0 t in
  if v >? LONG_MAX then (LONG_MAX, ERANGE)
  else if v <? LONG_MIN then (LONG_MIN, ERANGE)
  else (v, 0).

(** [atoi] is [(int) strtol (s, NULL, 10)]. *)
Definition atoi (s : string) : Z := s32 (fst (strtol s)).

(** ** Printing and parsing decimal numbers are inverse *)

(** A text a digit run stops in front of. *)
Definition no_digit (s : string) : Prop :=
  match s with EmptyString => True | String c _ => digit c = None end.

Lemma digits_from_stop acc s : no_digit s → digits_from acc s = acc.
Proof. destruct s as [|c s]; [done|]. cbn. by intros ->. Qed.

Lemma string_app_cons c (s t : string) : String c s +:+ t = String c (s +:+ t).
Proof. done. Qed.

Lemma string_app_assoc (s t u : string) : (s +:+ t) +:+ u = s +:+ (t +:+ u).
Proof. induction s as [|c s IH]; [done|]. by rewrite !string_app_cons, IH. Qed.

Lemma string_app_empty_r (s : string) : s +:+ EmptyString = s.
Proof. induction s as [|c s IH]; [done|]. by rewrite string_app_cons, IH. Qed.

(** One digit of a printed number, consumed by [digits_from]. *)
Ltac eat_digit :=
  cbn [DecimalString.NilEmpty.string_of_uint]; rewrite string_app_cons; cbn [digits_from];
  match goal with
  | |- context [digit ?c] => let v := eval vm_compute in (digit c) in change (digit c) with v
  end; cbv beta iota.

Lemma digits_from_acc l acc rest :
  no_digit rest →
  digits_from (Z.pos acc) (DecimalString.NilEmpty.string_of_uint l +:+ rest) =
  Z.pos (Pos.of_uint_acc l acc).
Proof.
  intros Hr. revert acc.
  induction l as [|l IHl|l IHl|l IHl|l IHl|l IHl|l IHl|l IHl|l IHl|l IHl|l IHl];
    intros acc; [by apply digits_from_stop|..]; eat_digit;
    cbn [Pos.of_uint_acc]; rewrite <- IHl; f_equal; lia.
Qed.

Lemma digits_from_uint l rest :
  no_digit rest →
  digits_from 0 (DecimalString.NilEmpty.string_of_uint l +:+ rest) =
  Z.of_N (Pos.of_uint l).
Proof.
  intros Hr.
  induction l as [|l IHl|l _|l _|l _|l _|l _|l _|l _|l _|l _];
    [by apply digits_from_stop|eat_digit; apply IHl|..]; eat_digit;
    match goal with
    | |- digits_from ?a _ = _ => let v := eval vm_compute in a in change a with v
    end; by rewrite digits_from_acc.
Qed.

Lemma dec_nonneg z :
  0 ≤ z → ∃ l, dec z = DecimalString.NilEmpty.string_of_uint l ∧ l ≠ Decimal.Nil
               ∧ Z.of_N (Pos.of_uint l) = z.
Proof.
  intros Hz. destruct z as [|p|p]; [|cbn|lia].
  - by exists (Decimal.D0 Decimal.Nil).
  - exists (Pos.to_uint p).
    pose proof (DecimalPos.Unsigned.to_uint_nonnil p) as Hn.
    rewrite DecimalPos.Unsigned.of_to. split_and!; [|done|done].
    unfold dec. cbn. by destruct (Pos.to_uint p).
Qed.

Lemma digits_from_dec z rest :
  0 ≤ z → no_digit rest → digits_from 0 (dec z +:+ rest) = z.
Proof.
  intros Hz Hr. destruct (dec_nonneg z Hz) as (l & -> & _ & <-).
  by apply digits_from_uint.
Qed.

Lemma dec_neg p : dec (Z.neg p) = String "-" (dec (Z.pos p)).
Proof. done. Qed.

Lemma sign_dec_nonneg z :
  0 ≤ z → sign_of (skip_space (dec z)) = (1, dec z).
Proof.
  intros Hz. destruct (dec_nonneg z Hz) as (l & -> & Hn & _).
  by destruct l.
Qed.

(** What [%ld] prints, [strtol] reads back, for every [long]. *)
Lemma strtol_dec z : is_s 64 z → strtol (dec z) = (z, 0).
Proof.
  intros [Hlo Hhi]. unfold strtol, LONG_MAX, LONG_MIN.
  change (64 - 1) with 63 in *.
  destruct (Z.le_gt_cases 0 z) as [Hz|Hz].
  - rewrite sign_dec_nonneg by done.
    rewrite <- (string_app_empty_r (dec z)), digits_from_dec by done.
    rewrite Z.mul_1_l. destruct (Z.gtb_spec z (2 ^ 63 - 1)); [lia|].
    by destruct (Z.ltb_spec z (- 2 ^ 63)); [lia|].
  - destruct z as [|p|p]; [lia..|]. rewrite dec_neg.
    cbn [skip_space is_space sign_of].
    change (is_space "-") with false. cbn iota. cbn [sign_of].
    rewrite <- (string_app_empty_r (dec (Z.pos p))), digits_from_dec by done.
    change (-1 * Z.pos p) with (Z.neg p).
    destruct (Z.gtb_spec (Z.neg p) (2 ^ 63 - 1)); [lia|].
    by destruct (Z.ltb_spec (Z.neg p) (- 2 ^ 63)); [lia|].
Qed.

Lemma atoi_dec z : is_s 32 z → atoi (dec z) = z.
Proof.
  intros Hz. unfold atoi. rewrite strtol_dec; [by apply swrap_small|].
  unfold is_s in *. change (32 - 1) with 31 in *. change (64 - 1) with 63. lia.
Qed.

(** ** Lengths and truncation *)

Lemma string_length_app (s t : string) :
  String.length (s +:+ t) = (String.length s + String.length t)%nat.
Proof. induction s as [|c s IH]; [done|]. rewrite string_app_cons. cbn. by rewrite IH. Qed.

(** [snprintf] stores the whole text when the buffer is large enough. *)
Lemma snprintf_fits n s : (String.length s < n)%nat → snprintf n s = s.
Proof.
  unfold snprintf. intros Hl. assert (String.length s ≤ n - 1)%nat as Hn by lia.
  clear Hl. revert Hn. generalize (n - 1)%nat as k. clear n.
  induction s as [|c s IH]; intros [|k] Hn; cbn in *; try done; [lia|].
  rewrite IH; [done|lia].
Qed.

Lemma dec_byte_length b : is_byte b → (String.length (dec b) ≤ 3)%nat.
Proof.
  unfold is_byte, is_u. change (2 ^ 8) with 256. intros Hb.
  assert (forallb (fun n => String.length (dec (Z.of_nat n)) <=? 3)%nat (seq 0 256) = true) as Hall
    by (vm_compute; reflexivity).
  rewrite forallb_forall in Hall. specialize (Hall (Z.to_nat b)).
  rewrite Z2Nat.id in Hall by lia. apply Nat.leb_le, Hall, in_seq. lia.
Qed.
