(* ===== verification/BpfKernel.v ===== *)
(** * Kernel objects the BPF programs use

    The BPF maps, the ring buffer and the perf event array are kernel code,
    not code of this repository.  Each is a class of operations (the helpers
    the programs call) with a class of laws (what their documentation
    promises); the programs are written and verified against the classes.
    The instances at the end of the file are small executable
    implementations that satisfy the laws; witnesses run the programs on
    them. *)
From S2P Require Import Prelude CInt CFormat.
From stdpp Require Export gmap.
Local Open Scope Z_scope.

(** ** Hash maps: [BPF_MAP_TYPE_HASH] *)

Class BpfHash (M K V : Type) := {
  (** [bpf_map_lookup_elem]: the value, or [None] for a NULL result. *)
  map_lookup : M → K → option V;
  (** [bpf_map_update_elem (.., BPF_ANY)] and its return code. *)
  map_update : M → K → V → M * Z;
  (** [bpf_map_delete_elem] and its return code. *)
  map_delete : M → K → M * Z;
}.

(** A successful update binds the key and nothing else; a failed one (the
    map is full, say) changes nothing; after a delete the key is unbound. *)
Class BpfHashLaws M K V `{BpfHash M K V} := {
  update_eq m k v m' : map_update m k v = (m', 0) → map_lookup m' k = Some v;
  update_ne m k v m' r k' :
    map_update m k v = (m', r) → k ≠ k' → map_lookup m' k' = map_lookup m k';
  update_err m k v m' r :
    map_update m k v = (m', r) → r ≠ 0 → map_lookup m' k = map_lookup m k;
  delete_eq m k m' r : map_delete m k = (m', r) → map_lookup m' k = None;
  delete_ne m k m' r k' :
    map_delete m k = (m', r) → k ≠ k' → map_lookup m' k' = map_lookup m k';
}.

Section HashFacts.
Context {M K V : Type} `{BpfHashLaws M K V} `{EqDecision K}.

(** What a map holds, as a partial function: two maps are the same to a
    program when they agree on every lookup. *)
Definition map_same (m1 m2 : M) : Prop := ∀ k, map_lookup m1 k = map_lookup m2 k.

#[export] Instance map_same_equiv : Equivalence map_same.
Proof.
  split; [by intros m k| intros m1 m2 E k; by rewrite E
         |intros m1 m2 m3 E1 E2 k; by rewrite E1, E2].
Qed.

#[export] Instance map_lookup_proper :
  Proper (map_same ==> eq ==> eq) (map_lookup (M:=M) (K:=K) (V:=V)).
Proof. intros m1 m2 E k ? <-. apply E. Qed.

Lemma map_lookup_update m k v m' r k' :
  map_update m k v = (m', r) →
  map_lookup m' k' =
    if decide (r = 0 ∧ k = k') then Some v else map_lookup m k'.
Proof.
  intros E. destruct (decide (k = k')) as [<-|Hk].
  - destruct (decide (r = 0 ∧ k = k)) as [[-> _]|Hd]; [by eapply update_eq|].
    eapply update_err; [done|]. naive_solver.
  - rewrite decide_False by (intros [_ ?]; done). by eapply update_ne.
Qed.

Lemma map_lookup_delete m k m' r k' :
  map_delete m k = (m', r) →
  map_lookup m' k' = if decide (k = k') then None else map_lookup m k'.
Proof.
  intros E. destruct (decide (k = k')) as [<-|Hd]; [by eapply delete_eq|by eapply delete_ne].
Qed.

(** A property of all values survives updates with good values and
    deletions. *)
Definition map_all (P : V → Prop) (m : M) : Prop := ∀ k v, map_lookup m k = Some v → P v.

Lemma update_all P m k v : map_all P m → P v → map_all P (map_update m k v).1.
Proof.
  intros Hm Hv k' v'. destruct (map_update m k v) as [m' r] eqn:E. cbn.
  rewrite (map_lookup_update _ _ _ _ _ k' E). case_decide; [by intros [= <-]|apply Hm].
Qed.

Lemma delete_all P m k : map_all P m → map_all P (map_delete m k).1.
Proof.
  intros Hm k' v'. destruct (map_delete m k) as [m' r] eqn:E. cbn.
  rewrite (map_lookup_delete _ _ _ _ k' E). case_decide; [done|apply Hm].
Qed.

Lemma lookup_update_1 m k v k' :
  map_lookup (map_update m k v).1 k' =
    if decide ((map_update m k v).2 = 0 ∧ k = k') then Some v else map_lookup m k'.
Proof. apply map_lookup_update. by destruct (map_update m k v). Qed.

Lemma lookup_delete_1 m k k' :
  map_lookup (map_delete m k).1 k' = if decide (k = k') then None else map_lookup m k'.
Proof. apply map_lookup_delete with (r := (map_delete m k).2). by destruct (map_delete m k). Qed.

(** Deleting equal keys from equal maps keeps them equal. *)
Lemma delete_same m1 m2 k :
  map_same m1 m2 → map_same (map_delete m1 k).1 (map_delete m2 k).1.
Proof.
  intros E k'. destruct (map_delete m1 k) as [a ra] eqn:Ha.
  destruct (map_delete m2 k) as [b rb] eqn:Hb. cbn.
  rewrite (map_lookup_delete _ _ _ _ _ Ha), (map_lookup_delete _ _ _ _ _ Hb).
  case_decide; [done|apply E].
Qed.
End HashFacts.

(** A hash map with [max_entries]: replacing a value always succeeds, adding
    a key succeeds while fewer keys than that are bound. *)
Class BpfHashCap M K V `{BpfHash M K V} := {
  map_cap : M → nat;
  cap_update m k v : map_cap (map_update m k v).1 = map_cap m;
  cap_delete m k : map_cap (map_delete m k).1 = map_cap m;
  cap_bound m k v v' : map_lookup m k = Some v' → (map_update m k v).2 = 0;
  cap_room m k v (l : list K) :
    (∀ k', is_Some (map_lookup m k') → k' ∈ l) → (length l < map_cap m)%nat →
    (map_update m k v).2 = 0;
}.

(** ** Array maps: [BPF_MAP_TYPE_ARRAY] and its per-CPU variant

    Every index below [max_entries] always holds a value. *)
Class BpfArray (A V : Type) := {
  array_lookup : A → Z → option V;
  array_update : A → Z → V → A * Z;
}.

Class BpfArrayLaws A V `{BpfArray A V} := {
  array_update_eq a i v a' : array_update a i v = (a', 0) → array_lookup a' i = Some v;
  array_update_ne a i v a' r j :
    array_update a i v = (a', r) → i ≠ j → array_lookup a' j = array_lookup a j;
  array_update_err a i v a' r :
    array_update a i v = (a', r) → r ≠ 0 → array_lookup a' i = array_lookup a i;
  array_update_present a i v v' :
    array_lookup a i = Some v' → (array_update a i v).2 = 0;
}.

(** ** Ring buffer: [BPF_MAP_TYPE_RINGBUF]

    A reserved record is memory of the ring: it holds whatever an earlier
    record left there until the program writes it. *)
Class RingBuf (R T : Type) := {
  (** [bpf_ringbuf_reserve (&rb, size, 0)]: the record as found, or NULL. *)
  rb_reserve : R → Z → option (T * R);
  (** [bpf_ringbuf_submit (e, 0)]. *)
  rb_submit : R → T → R;
  (** Submitted records, oldest first, and records reserved but neither
      submitted nor discarded. *)
  rb_samples : R → list T;
  rb_pending : R → nat;
}.

Class RingBufLaws R T `{RingBuf R T} := {
  reserve_samples r n old r' :
    rb_reserve r n = Some (old, r') → rb_samples r' = rb_samples r;
  reserve_pending r n old r' :
    rb_reserve r n = Some (old, r') → rb_pending r' = S (rb_pending r);
  submit_samples r e p :
    rb_pending r = S p → rb_samples (rb_submit r e) = rb_samples r ++ [e];
  submit_pending r e p :
    rb_pending r = S p → rb_pending (rb_submit r e) = p;
}.

Section RingFacts.
Context {R T : Type} `{RingBufLaws R T}.

(** Reserving, filling and submitting adds one record and leaves no
    reservation behind. *)
Lemma reserve_submit_samples (r : R) n old r' (e : T) :
  rb_reserve r n = Some (old, r') →
  rb_samples (rb_submit r' e) = rb_samples r ++ [e].
Proof.
  intros E. rewrite (submit_samples _ _ (rb_pending r)); [|by eapply reserve_pending].
  by rewrite (reserve_samples _ _ _ _ E).
Qed.

Lemma reserve_submit_pending (r : R) n old r' (e : T) :
  rb_reserve r n = Some (old, r') → rb_pending (rb_submit r' e) = rb_pending r.
Proof. intros E. apply submit_pending. by eapply reserve_pending. Qed.
End RingFacts.

(** The memory of a ring that carries records of one size which, with the
    record header, divides the size of the ring: it starts as [zero] and is
    used again, so a reserved record holds [zero] or one of the records
    submitted before. *)
Class RingMem R T `{RingBuf R T} (zero : T) := {
  reserve_old r n old r' :
    rb_reserve r n = Some (old, r') → old = zero ∨ old ∈ rb_samples r;
}.

(** ** The same ring with several reservations open

    Handlers on different CPUs hold reservations at the same time.  A record
    then has a place in the ring from its reservation on: [slot_submit] fills
    that place, whatever was reserved since, and a reader gets the records in
    the order of their places. *)
Class RingSlots (R T : Type) := {
  (** [bpf_ringbuf_reserve (&rb, size, 0)]: the place, the record as found. *)
  slot_reserve : R → Z → option (nat * T * R);
  (** [bpf_ringbuf_submit (e, 0)] of the record at that place. *)
  slot_submit : R → nat → T → R;
  (** The records in order; [None] is reserved and not yet submitted. *)
  slots : R → list (option T);
}.

Class RingSlotsLaws R T `{RingSlots R T} := {
  slot_reserve_place r n t old r' :
    slot_reserve r n = Some (t, old, r') → t = length (slots r);
  slot_reserve_slots r n t old r' :
    slot_reserve r n = Some (t, old, r') → slots r' = slots r ++ [None];
  slot_submit_slots r t e :
    slots r !! t = Some None → slots (slot_submit r t e) = <[t := Some e]> (slots r);
}.

(** ** Perf event array: [BPF_MAP_TYPE_PERF_EVENT_ARRAY] *)
Class PerfArray (P T : Type) := {
  (** [bpf_perf_event_output (.., BPF_F_CURRENT_CPU, ..)] and its code. *)
  perf_output : P → T → P * Z;
  perf_events : P → list T;
}.

Class PerfArrayLaws P T `{PerfArray P T} := {
  output_ok p e p' : perf_output p e = (p', 0) → perf_events p' = perf_events p ++ [e];
  output_err p e p' r : perf_output p e = (p', r) → r ≠ 0 → perf_events p' = perf_events p;
}.

(** ** Executable instances *)

Definition E2BIG : Z := 7.
Definition ENOENT : Z := 2.
Definition ENOSPC : Z := 28.
Definition EFAULT : Z := 14.

(** A hash map of at most [cap] entries. *)
Record hmap (K V : Type) `{Countable K} := HMap { hm_cap : nat; hm_map : gmap K V }.
Arguments HMap {_ _ _ _} _ _.
Arguments hm_cap {_ _ _ _} _.
Arguments hm_map {_ _ _ _} _.

#[export] Instance hmap_hash {K V} `{Countable K} : BpfHash (hmap K V) K V := {
  map_lookup m k := hm_map m !! k;
  map_update m k v :=
    if decide (is_Some (hm_map m !! k) ∨ (size (hm_map m) < hm_cap m)%nat)
    then (HMap (hm_cap m) (<[k := v]> (hm_map m)), 0)
    else (m, - E2BIG);
  map_delete m k :=
    (HMap (hm_cap m) (delete k (hm_map m)),
     if decide (is_Some (hm_map m !! k)) then 0 else - ENOENT);
}.

#[export] Instance hmap_laws {K V} `{Countable K} : BpfHashLaws (hmap K V) K V.
Proof.
  split; cbn; intros; repeat case_decide; simplify_eq/=; by simplify_map_eq.
Qed.

#[export] Instance hmap_cap {K V} `{Countable K} : BpfHashCap (hmap K V) K V.
Proof.
  refine {| map_cap := hm_cap |}; cbn.
  - intros m k v. by case_decide.
  - done.
  - intros m k v v' E. by rewrite decide_True by (left; eauto).
  - intros m k v l Hl Hlen. rewrite decide_True; [done|]. right.
    rewrite <-size_dom. assert (dom (hm_map m) ⊆ list_to_set (C := gset K) l) as Hd.
    { intros k' Hk'. apply elem_of_list_to_set, Hl. by apply elem_of_dom. }
    apply subseteq_size in Hd.
    assert (size (list_to_set (C := gset K) l) ≤ length l)%nat.
    { clear. induction l as [|a l IH]; cbn; [by rewrite size_empty|].
      assert (size (list_to_set (C := gset K) l ∖ {[a]}) ≤ size (list_to_set (C := gset K) l))%nat
        by (apply subseteq_size, subseteq_difference_l; done).
      rewrite size_union_alt, size_singleton. lia. }
    lia.
Defined.

(** An array of fixed length. *)
#[export] Instance list_array {V} : BpfArray (list V) V := {
  array_lookup a i := if 0 <=? i then a !! Z.to_nat i else None;
  array_update a i v :=
    if (0 <=? i) && (Z.to_nat i <? length a)%nat then (<[Z.to_nat i := v]> a, 0)
    else (a, - E2BIG);
}.

#[export] Instance list_array_laws {V} : BpfArrayLaws (list V) V.
Proof.
  split; unfold array_lookup, array_update, list_array; intros a i v.
  - intros a'. destruct (0 <=? i) eqn:Hi; [|by intros [=]]. cbn [andb].
    destruct (Nat.ltb_spec (Z.to_nat i) (length a)); [|by intros [=]].
    intros [= <-]. by apply list_lookup_insert_eq.
  - intros a' r j Hu Hij. destruct (0 <=? j) eqn:Hj; [|done].
    destruct (0 <=? i) eqn:Hi; cbn [andb] in Hu; [|congruence].
    bool_facts. case_match; simplify_eq; [|done].
    apply list_lookup_insert_ne. lia.
  - intros a' r. by case_match; intros [= <- <-].
  - intros v' Hl. destruct (0 <=? i); [|done]. cbn [andb].
    apply lookup_lt_Some in Hl. by rewrite (proj2 (Nat.ltb_lt _ _) Hl).
Qed.

(** A ring of at most [rg_cap] outstanding records; [rg_stale n] is what the
    memory of the [n]-th record holds when it is reserved. *)
Record ring (T : Type) := Ring {
  rg_cap : nat; rg_stale : nat → T; rg_queue : list T; rg_open : nat }.
Arguments Ring {_} _ _ _ _.
Arguments rg_cap {_} _.
Arguments rg_stale {_} _ _.
Arguments rg_queue {_} _.
Arguments rg_open {_} _.

#[export] Instance ring_rb {T} : RingBuf (ring T) T := {
  rb_reserve r _ :=
    if (length (rg_queue r) + rg_open r <? rg_cap r)%nat
    then Some (rg_stale r (length (rg_queue r) + rg_open r)%nat,
               Ring (rg_cap r) (rg_stale r) (rg_queue r) (S (rg_open r)))
    else None;
  rb_submit r e := Ring (rg_cap r) (rg_stale r) (rg_queue r ++ [e]) (pred (rg_open r));
  rb_samples := rg_queue;
  rb_pending := rg_open;
}.

#[export] Instance ring_laws {T} : RingBufLaws (ring T) T.
Proof.
  split; unfold rb_reserve, rb_submit, rb_samples, rb_pending, ring_rb.
  - intros r n old r'. case_match; by intros [= <- <-].
  - intros r n old r'. case_match; by intros [= <- <-].
  - done.
  - intros r e p. cbn. by intros ->.
Qed.

(** A ring whose memory holds [stale] in every record: room left, submitted
    records, open reservations. *)
Definition fixed_ring {T} (stale : T) : RingBuf (nat * list T * nat) T := {|
  rb_reserve r _ := match r.1.1 with
                    | O => None
                    | S n => Some (stale, (n, r.1.2, S r.2))
                    end;
  rb_submit r e := (r.1.1, r.1.2 ++ [e], pred r.2);
  rb_samples r := r.1.2;
  rb_pending r := r.2;
|}.

Lemma fixed_ring_laws {T} (stale : T) : @RingBufLaws _ _ (fixed_ring stale).
Proof.
  split; cbn; intros [[[|c] q] o]; cbn; intros; by simplify_eq.
Qed.

(** A ring of [uc] records of memory that is used again from the start: the
    records submitted so far, open reservations. *)
Definition reuse_ring {T} (uc : nat) (zero : T) : RingBuf (list T * nat) T := {|
  rb_reserve r _ :=
    let n := (length r.1 + r.2)%nat in
    if (r.2 <? uc)%nat
    then Some (if (n <? uc)%nat then zero else default zero (r.1 !! (n - uc)%nat), (r.1, S r.2))
    else None;
  rb_submit r e := (r.1 ++ [e], pred r.2);
  rb_samples r := r.1;
  rb_pending r := r.2;
|}.

Lemma reuse_ring_laws {T} uc (zero : T) : @RingBufLaws _ _ (reuse_ring uc zero).
Proof.
  split; cbn.
  - intros r n old r'. case_match; by intros [= <- <-].
  - intros r n old r'. case_match; by intros [= <- <-].
  - done.
  - intros r e p. by intros ->.
Qed.

Lemma reuse_ring_mem {T} uc (zero : T) : @RingMem _ _ (reuse_ring uc zero) zero.
Proof.
  split. unfold rb_reserve, rb_samples, reuse_ring. cbv zeta. intros [h o] n old r'. cbn [fst snd].
  case_match; [|done]. intros [= <- <-]. case_match; [by left|].
  destruct (h !! (length h + o - uc)%nat) as [e|] eqn:E; [|by left]. right.
  by eapply list_elem_of_lookup_2.
Qed.

(** A ring of at most [sr_cap] records over its life; [sr_stale n] is what
    the memory of the [n]-th record holds when it is reserved. *)
Record slot_ring (T : Type) := SlotRing {
  sr_cap : nat; sr_stale : nat → T; sr_slots : list (option T) }.
Arguments SlotRing {_} _ _ _.
Arguments sr_cap {_} _.
Arguments sr_stale {_} _ _.
Arguments sr_slots {_} _.

#[export] Instance slot_ring_slots {T} : RingSlots (slot_ring T) T := {
  slot_reserve r _ :=
    let n := length (sr_slots r) in
    if (n <? sr_cap r)%nat
    then Some (n, sr_stale r n, SlotRing (sr_cap r) (sr_stale r) (sr_slots r ++ [None]))
    else None;
  slot_submit r t e := SlotRing (sr_cap r) (sr_stale r) (<[t := Some e]> (sr_slots r));
  slots := sr_slots;
}.

#[export] Instance slot_ring_laws {T} : RingSlotsLaws (slot_ring T) T.
Proof.
  split; unfold slot_reserve, slot_submit, slots, slot_ring_slots; cbv zeta.
  - intros r n t old r'. case_match; by intros [= <- <- <-].
  - intros r n t old r'. case_match; by intros [= <- <- <-].
  - done.
Qed.

(** A perf buffer that accepts [p.1] more events. *)
#[export] Instance perf_perf {T} : PerfArray (nat * list T) T := {
  perf_output p e := match p.1 with
                     | O => (p, - ENOSPC)
                     | S n => ((n, p.2 ++ [e]), 0)
                     end;
  perf_events := snd;
}.

#[export] Instance perf_laws {T} : PerfArrayLaws (nat * list T) T.
Proof. split; cbn; intros [[|n] l] e p'; cbn; naive_solver. Qed.

(** ** Layout of C structures

    [sizeof] of a structure from the sizes and alignments of its members. *)
Definition align_up (off al : Z) : Z := (off + al - 1) / al * al.

Definition struct_end (fields : list (Z * Z)) : Z :=
  fold_left (fun off f => align_up off (snd f) + fst f) fields 0.

Definition struct_align (fields : list (Z * Z)) : Z :=
  fold_left (fun al f => Z.max al (snd f)) fields 1.

Definition sizeof_struct (fields : list (Z * Z)) : Z :=
  align_up (struct_end fields) (struct_align fields).

(** ** The current task, as the helpers report it

    One value per run of a BPF program: the results of the helper calls the
    program makes about the task it runs on.  A helper that copies a string
    answers with its return code and the bytes it writes at the front of the
    destination. *)
Record kctx := KCtx {
  k_pid_tgid : Z;                        (** [bpf_get_current_pid_tgid ()] *)
  k_ktime : Z;                           (** [bpf_ktime_get_ns ()] *)
  k_parent_tgid : Z;                     (** [BPF_CORE_READ (task, real_parent, tgid)] *)
  k_exit_code : Z;                       (** [BPF_CORE_READ (task, exit_code)] *)
  k_comm : nat → Z * list ascii;         (** [bpf_get_current_comm (buf, n)] *)
  k_read_str : Z → nat → Z * list ascii; (** [bpf_probe_read_str (dst, n, addr)] *)
}.

(** Documented behaviour of those helpers: the ranges of the results, the
    copied command name always ends in a NUL (on failure the buffer is
    zeroed), a string copy that succeeds fits and ends in a NUL, one that
    fails fills the destination with zeros. *)
Record kctx_ok (k : kctx) : Prop := {
  ok_pid_tgid : is_u 64 (k_pid_tgid k);
  ok_ktime : is_u 64 (k_ktime k);
  ok_parent : is_s 32 (k_parent_tgid k);
  ok_exit_code : is_s 32 (k_exit_code k);
  ok_comm n : (0 < n)%nat →
    nul ∈ (k_comm k n).2 ∧ (length (k_comm k n).2 ≤ n)%nat;
  ok_read_str a n : (0 < n)%nat → 0 < (k_read_str k a n).1 →
    nul ∈ (k_read_str k a n).2 ∧ (length (k_read_str k a n).2 ≤ n)%nat;
  ok_read_fail a n : (0 < n)%nat → (k_read_str k a n).1 ≤ 0 →
    (k_read_str k a n).2 = repeat nul n;
}.

(** Either way the destination holds a terminated string. *)
Lemma read_str_terminated k a n :
  kctx_ok k → (0 < n)%nat →
  nul ∈ (k_read_str k a n).2 ∧ (length (k_read_str k a n).2 ≤ n)%nat.
Proof.
  intros Hk Hn. destruct (Z.lt_ge_cases 0 (k_read_str k a n).1) as [Hr|Hr];
    [by apply ok_read_str|].
  rewrite ok_read_fail by done. rewrite repeat_length. split; [|lia].
  destruct n as [|n]; [lia|]. cbn. left.
Qed.

(** The process id (thread group id) and thread id as the programs read
    them out of the packed result, stored in an [int]. *)
Definition pid_of (k : kctx) : Z := s32 (Z.shiftr (k_pid_tgid k) 32).
Definition tid_of (k : kctx) : Z := s32 (u32 (k_pid_tgid k)).

Lemma pid_of_range k : is_s 32 (pid_of k).
Proof. by apply swrap_range. Qed.
Lemma tid_of_range k : is_s 32 (tid_of k).
Proof. by apply swrap_range. Qed.
#[export] Hint Resolve pid_of_range tid_of_range ok_pid_tgid ok_ktime : cmem.

(** A task with given ids, for examples: times, parent, exit code and
    strings are given; copies succeed, except from address 0. *)
Definition mk_kctx (pid tid ktime ppid code : Z) (comm fname : string) : kctx :=
  KCtx (pid * 2 ^ 32 + tid) ktime ppid code
    (fun n => (0, str_bytes n comm))
    (fun a n => if a =? 0 then (- EFAULT, repeat nul n)
                else (Z.of_nat (length (str_bytes n fname)), str_bytes n fname)).

Lemma mk_kctx_ok pid tid ktime ppid code comm fname :
  is_u 32 pid → is_u 32 tid → is_u 64 ktime → is_s 32 ppid → is_s 32 code →
  kctx_ok (mk_kctx pid tid ktime ppid code comm fname).
Proof.
  unfold is_u. change (2 ^ 64) with (2 ^ 32 * 2 ^ 32). intros.
  split; cbn -[EFAULT]; try done; [unfold is_u; change (2 ^ 64) with (2 ^ 32 * 2 ^ 32); nia|..].
  - intros n Hn. split; [apply nul_str_bytes|by apply length_str_bytes].
  - intros a n Hn. destruct (a =? 0); cbn; [unfold EFAULT; lia|]. intros _.
    split; [apply nul_str_bytes|by apply length_str_bytes].
  - intros a n Hn. destruct (a =? 0); cbn; [done|].
    pose proof (nul_str_bytes n fname) as Hnul. destruct (str_bytes n fname); cbn; [|lia].
    by apply elem_of_nil in Hnul.
Qed.

Lemma pid_of_mk pid tid ktime ppid code comm fname :
  is_u 32 tid → pid_of (mk_kctx pid tid ktime ppid code comm fname) = s32 pid.
Proof.
  intros [? ?]. unfold pid_of, mk_kctx. cbn -[Z.pow].
  rewrite Z.shiftr_div_pow2, Z.add_comm, Z.div_add, Z.div_small; [done|done|lia..].
Qed.
