(* ===== verification/BootstrapBpf.v ===== *)
(** * bootstrap: the kernel side ([bootstrap.bpf.c])

    Two tracepoint handlers cooperate through the hash map [exec_start]
    (process id to the time of its last [exec]) and report through the ring
    buffer [rb]. *)
From S2P Require Import Prelude CInt CFormat BpfKernel.
Local Open Scope Z_scope.

Definition TASK_COMM_LEN : nat := 16.
Definition MAX_FILENAME_LEN : nat := 127.

(** [struct event] *)
Record event := Event {
  pid : Z;
  ppid : Z;
  exit_code : Z;
  duration_ns : Z;
  comm : list ascii;
  filename : list ascii;
  exit_event : bool;
}.

Definition sizeof_event : Z :=
  sizeof_struct [(4, 4); (4, 4); (4, 4); (8, 8);
                 (Z.of_nat TASK_COMM_LEN, 1); (Z.of_nat MAX_FILENAME_LEN, 1); (1, 1)].

(** The tracepoint record of [sched_process_exec]: its address and the
    [__data_loc] word that locates the file name inside it. *)
Record exec_ctx := ExecCtx { ctx_addr : Z; data_loc_filename : Z }.

(** What [handle_exec] writes into the reserved record [e]. *)
Definition exec_record (k : kctx) (ctx : exec_ctx) (e : event) : event :=
  let fname_off := Z.land (data_loc_filename ctx) 0xFFFF in
  {| exit_event := false;
     pid := pid_of k;
     ppid := k_parent_tgid k;
     comm := buf_write (comm e) (k_comm k TASK_COMM_LEN).2;
     filename := buf_write (filename e)
       (k_read_str k (u64 (ctx_addr ctx + fname_off)) MAX_FILENAME_LEN).2;
     exit_code := exit_code e;
     duration_ns := duration_ns e |}.

(** What [handle_exit] writes. *)
Definition exit_record (k : kctx) (dur : Z) (e : event) : event :=
  {| exit_event := true;
     duration_ns := dur;
     pid := pid_of k;
     ppid := k_parent_tgid k;
     exit_code := Z.land (Z.shiftr (k_exit_code k) 8) 0xff;
     comm := buf_write (comm e) (k_comm k TASK_COMM_LEN).2;
     filename := filename e |}.

Section Handlers.
Context {M R : Type} `{BpfHash M Z Z} `{RingBuf R event}.

Record bpf_state := BpfState { exec_start : M; rb : R }.

Definition handle_exec (min_duration_ns : Z) (k : kctx) (ctx : exec_ctx)
    (st : bpf_state) : bpf_state * Z :=
  let p := pid_of k in
  let ts := k_ktime k in
  let es := (map_update (exec_start st) p ts).1 in
  if negb (min_duration_ns =? 0) then (BpfState es (rb st), 0)
  else match rb_reserve (rb st) sizeof_event with
       | None => (BpfState es (rb st), 0)
       | Some (e, rb1) => (BpfState es (rb_submit rb1 (exec_record k ctx e)), 0)
       end.

(** The part of [handle_exit] after the map accesses: the duration filter
    and the report. *)
Definition exit_report (min_duration_ns dur : Z) (k : kctx) (es : M) (r : R)
    : bpf_state * Z :=
  if negb (min_duration_ns =? 0) && (dur <? min_duration_ns) then (BpfState es r, 0)
  else match rb_reserve r sizeof_event with
       | None => (BpfState es r, 0)
       | Some (e, rb1) => (BpfState es (rb_submit rb1 (exit_record k dur e)), 0)
       end.

Definition handle_exit (min_duration_ns : Z) (k : kctx) (st : bpf_state)
    : bpf_state * Z :=
  let p := pid_of k in
  let tid := tid_of k in
  if negb (p =? tid) then (st, 0)
  else match map_lookup (exec_start st) p with
       | Some start_ts =>
           let dur := u64 (k_ktime k - start_ts) in
           let es := (map_delete (exec_start st) p).1 in
           exit_report min_duration_ns dur k es (rb st)
       | None =>
           if negb (min_duration_ns =? 0) then (st, 0)
           else
             let es := (map_delete (exec_start st) p).1 in
             exit_report min_duration_ns 0 k es (rb st)
       end.

(** ** Runs: the tracepoints fire one after the other *)

Inductive kevent :=
| KExec (k : kctx) (ctx : exec_ctx)
| KExit (k : kctx).

Definition step (min_duration_ns : Z) (st : bpf_state) (ev : kevent) : bpf_state :=
  match ev with
  | KExec k ctx => (handle_exec min_duration_ns k ctx st).1
  | KExit k => (handle_exit min_duration_ns k st).1
  end.

Definition run (min_duration_ns : Z) (st : bpf_state) (evs : list kevent) : bpf_state :=
  fold_left (step min_duration_ns) evs st.
End Handlers.

Arguments bpf_state : clear implicits.
Arguments BpfState {_ _} _ _.

(** ** What the component promises

    The reports a reader of the ring buffer may rely on: the fields a record
    of each kind carries, without the ones that kind leaves unwritten. *)
Inductive report :=
| RExec (pid ppid : Z) (comm filename : option string)
| RExit (pid ppid code dur : Z) (comm : option string).

Definition report_of (e : event) : report :=
  if exit_event e
  then RExit (pid e) (ppid e) (exit_code e) (duration_ns e) (cstr (comm e))
  else RExec (pid e) (ppid e) (cstr (comm e)) (cstr (filename e)).

Definition set_start (s : Z → option Z) (p : Z) (v : option Z) : Z → option Z :=
  fun q => if q =? p then v else s q.

(** The file name a [sched_process_exec] record designates. *)
Definition exec_filename (k : kctx) (ctx : exec_ctx) : Z * list ascii :=
  k_read_str k (u64 (ctx_addr ctx + Z.land (data_loc_filename ctx) 0xFFFF)) MAX_FILENAME_LEN.

Definition wait_status (code : Z) : Z := (code / 256) mod 256.

(** The specification of one event.  [recorded] says that the map accepted
    the start time, [room] that the ring had room for a report; [s] maps a
    process to the time of its last recorded [exec]. *)
Definition spec_step (min : Z) (recorded room : bool) (s : Z → option Z) (ev : kevent)
    : list report * (Z → option Z) :=
  match ev with
  | KExec k ctx =>
      (if (min =? 0) && room
       then [RExec (pid_of k) (k_parent_tgid k) (cstr (k_comm k TASK_COMM_LEN).2)
               (cstr (exec_filename k ctx).2)]
       else [],
       if recorded then set_start s (pid_of k) (Some (k_ktime k)) else s)
  | KExit k =>
      if pid_of k =? tid_of k then
        let dur := match s (pid_of k) with
                   | Some t0 => (k_ktime k - t0) mod 2 ^ 64
                   | None => 0
                   end in
        (if room && (min <=? dur) then
           [RExit (pid_of k) (k_parent_tgid k) (wait_status (k_exit_code k)) dur
              (cstr (k_comm k TASK_COMM_LEN).2)]
         else [],
         set_start s (pid_of k) None)
      else ([], s)
  end.

(** The events the kernel delivers: documented helper behaviour. *)
Definition ev_ok (ev : kevent) : Prop :=
  match ev with KExec k _ | KExit k => kctx_ok k end.

Fixpoint spec_run (min : Z) (s : Z → option Z) (evs : list (kevent * (bool * bool)))
    : list report * (Z → option Z) :=
  match evs with
  | [] => ([], s)
  | (ev, (recorded, room)) :: t =>
      let '(rs, s1) := spec_step min recorded room s ev in
      let '(rs', s2) := spec_run min s1 t in
      (rs ++ rs', s2)
  end.

(** The map entry an event is about: the process that executed, the process
    whose main thread exits. *)
Definition ev_subject (ev : kevent) : option Z :=
  match ev with
  | KExec k _ => Some (pid_of k)
  | KExit k => if pid_of k =? tid_of k then Some (pid_of k) else None
  end.

Lemma sizeof_event_eq : sizeof_event = 168.
Proof. reflexivity. Qed.

(** The file name as stored is terminated, also when it could not be read. *)
Lemma exec_filename_terminated k ctx :
  kctx_ok k →
  nul ∈ (exec_filename k ctx).2 ∧ (length (exec_filename k ctx).2 ≤ MAX_FILENAME_LEN)%nat.
Proof. intros Hk. apply read_str_terminated; [done|unfold MAX_FILENAME_LEN; lia]. Qed.

Lemma wait_status_eq c : Z.land (Z.shiftr c 8) 0xff = wait_status c.
Proof. unfold wait_status. by rewrite land_ff, Z.shiftr_div_pow2. Qed.

Lemma wait_status_range c : is_u 8 (wait_status c).
Proof. unfold wait_status, is_u. change (2 ^ 8) with 256. zlia. Qed.

(** Read by the fields its kind defines, a record is the specified report,
    whatever the memory held before. *)
Lemma exec_record_report k ctx e :
  ev_ok (KExec k ctx) →
  report_of (exec_record k ctx e) =
  RExec (pid_of k) (k_parent_tgid k) (cstr (k_comm k TASK_COMM_LEN).2)
    (cstr (exec_filename k ctx).2).
Proof.
  intros Hk. cbn in Hk. unfold report_of; cbn. rewrite !cstr_buf_write; [done| |].
  - by apply exec_filename_terminated.
  - apply (ok_comm k Hk). unfold TASK_COMM_LEN. lia.
Qed.

Lemma exit_record_report k dur e :
  kctx_ok k →
  report_of (exit_record k dur e) =
  RExit (pid_of k) (k_parent_tgid k) (wait_status (k_exit_code k)) dur
    (cstr (k_comm k TASK_COMM_LEN).2).
Proof.
  intros Hk. unfold report_of; cbn -[Z.land]. rewrite cstr_buf_write, wait_status_eq; [done|].
  apply (ok_comm k Hk). unfold TASK_COMM_LEN. lia.
Qed.

Section Proofs.
Context {M R : Type} `{BpfHashLaws M Z Z} `{RingBufLaws R event}.
Implicit Types (st : bpf_state M R) (k : kctx).

(** Which of the two kernel objects accept an event in a given state. *)
Definition recorded st (ev : kevent) : bool :=
  match ev with
  | KExec k _ => (map_update (exec_start st) (pid_of k) (k_ktime k)).2 =? 0
  | KExit _ => false
  end.
Definition room st : bool :=
  match rb_reserve (rb st) sizeof_event with Some _ => true | None => false end.

Definition starts st : Z → option Z := map_lookup (exec_start st).

(** The new state adds the records [es] to the ring, leaves no record
    reserved, and has the start times [s]. *)
Definition moves st st' (es : list event) (s : Z → option Z) : Prop :=
  rb_samples (rb st') = rb_samples (rb st) ++ es ∧
  rb_pending (rb st') = rb_pending (rb st) ∧
  ∀ p, starts st' p = s p.

Lemma moves_quiet st es s :
  (∀ p, map_lookup es p = s p) → moves st (BpfState es (rb st)) [] s.
Proof. intros Hs. unfold moves. by rewrite app_nil_r. Qed.

Lemma moves_submit st es s n old rb1 e :
  rb_reserve (rb st) n = Some (old, rb1) → (∀ p, map_lookup es p = s p) →
  moves st (BpfState es (rb_submit rb1 e)) [e] s.
Proof.
  intros Hr Hs. split_and!; [by eapply reserve_submit_samples
    |by eapply reserve_submit_pending|done].
Qed.

Lemma update_starts st k p :
  map_lookup (map_update (exec_start st) (pid_of k) (k_ktime k)).1 p =
  (if (map_update (exec_start st) (pid_of k) (k_ktime k)).2 =? 0
   then set_start (starts st) (pid_of k) (Some (k_ktime k)) else starts st) p.
Proof.
  destruct (map_update (exec_start st) (pid_of k) (k_ktime k)) as [es r] eqn:E.
  cbn. rewrite (map_lookup_update _ _ _ _ _ p E). unfold set_start, starts.
  destruct (Z.eqb_spec r 0) as [->|Hr].
  - destruct (Z.eqb_spec p (pid_of k)) as [->|Hp];
      [rewrite decide_True by done | rewrite decide_False by (intros [??]; congruence)]; done.
  - by rewrite decide_False by (intros [??]; congruence).
Qed.

Lemma delete_starts st q p :
  map_lookup (map_delete (exec_start st) q).1 p = set_start (starts st) q None p.
Proof.
  destruct (map_delete (exec_start st) q) as [es r] eqn:E. cbn.
  rewrite (map_lookup_delete _ _ _ _ p E). unfold set_start, starts.
  destruct (Z.eqb_spec p q) as [->|Hp];
    [rewrite decide_True by done | rewrite decide_False by done]; done.
Qed.

(** The events of the kernel produce exactly the reports of the
    specification, in order, and the map holds exactly its start times. *)
Definition refines (st st' : bpf_state M R) (out : list report * (Z → option Z)) : Prop :=
  ∃ es, moves st st' es out.2 ∧ report_of <$> es = out.1.

Lemma refines_quiet st es s :
  (∀ p, map_lookup es p = s p) → refines st (BpfState es (rb st)) ([], s).
Proof. intros Hs. exists []. split; [by apply moves_quiet|done]. Qed.

Lemma refines_submit st es s n old rb1 e r :
  rb_reserve (rb st) n = Some (old, rb1) → (∀ p, map_lookup es p = s p) →
  report_of e = r → refines st (BpfState es (rb_submit rb1 e)) ([r], s).
Proof.
  intros Hr Hs <-. exists [e]. split; [by eapply moves_submit|done].
Qed.

Lemma handle_exec_refines min k ctx st :
  ev_ok (KExec k ctx) →
  refines st (handle_exec min k ctx st).1
    (spec_step min (recorded st (KExec k ctx)) (room st) (starts st) (KExec k ctx)).
Proof.
  intros Hev. pose proof (update_starts st k) as Hs.
  unfold handle_exec, spec_step, recorded, room.
  destruct (Z.eqb_spec min 0) as [->|Hm]; cbn [negb andb];
    [|by apply refines_quiet].
  destruct (rb_reserve (rb st) sizeof_event) as [[e rb1]|] eqn:Hr;
    [|by apply refines_quiet].
  eapply refines_submit; [done..|]. by apply exec_record_report.
Qed.

Lemma exit_report_refines min dur k st es s :
  kctx_ok k → (∀ p, map_lookup es p = s p) → 0 ≤ dur → 0 ≤ min →
  refines st (exit_report min dur k es (rb st)).1
    (if room st && (min <=? dur) then
       [RExit (pid_of k) (k_parent_tgid k) (wait_status (k_exit_code k)) dur
          (cstr (k_comm k TASK_COMM_LEN).2)]
     else [], s).
Proof.
  intros Hk Hs Hd Hm. unfold exit_report, room.
  replace (negb (min =? 0) && (dur <? min)) with (negb (min <=? dur)) by lia.
  destruct (min <=? dur); cbn [negb]; [|rewrite andb_false_r; by apply refines_quiet].
  rewrite andb_true_r.
  destruct (rb_reserve (rb st) sizeof_event) as [[e rb1]|] eqn:Hr;
    [|by apply refines_quiet].
  eapply refines_submit; [done..|]. by apply exit_record_report.
Qed.

Lemma handle_exit_refines min k st :
  kctx_ok k → 0 ≤ min →
  refines st (handle_exit min k st).1
    (spec_step min false (room st) (starts st) (KExit k)).
Proof.
  intros Hk Hm. unfold handle_exit, spec_step.
  pose proof (delete_starts st (pid_of k)) as Hd.
  destruct (Z.eqb_spec (pid_of k) (tid_of k)) as [_|_]; cbn [negb].
  2: { destruct st. by apply refines_quiet. }
  change (starts st (pid_of k)) with (map_lookup (exec_start st) (pid_of k)).
  destruct (map_lookup (exec_start st) (pid_of k)) as [t0|] eqn:Hl.
  - apply exit_report_refines; try done. apply (wrap_range 64). lia.
  - destruct (Z.eqb_spec min 0) as [->|Hm0]; cbn [negb];
      [by apply exit_report_refines|].
    rewrite (proj2 (Z.leb_gt min 0)), andb_false_r by lia.
    destruct st as [es r]. apply refines_quiet. intros p.
    unfold set_start, starts. destruct (Z.eqb_spec p (pid_of k)) as [->|]; done.
Qed.

Lemma step_refines min st ev :
  ev_ok ev → 0 ≤ min →
  refines st (step min st ev)
    (spec_step min (recorded st ev) (room st) (starts st) ev).
Proof.
  intros Hev Hm. destruct ev as [k ctx|k];
    [by apply handle_exec_refines|by apply handle_exit_refines].
Qed.

(** The events of a run, each with what the kernel objects answered. *)
Fixpoint annotate (min : Z) st (evs : list kevent) : list (kevent * (bool * bool)) :=
  match evs with
  | [] => []
  | ev :: t => (ev, (recorded st ev, room st)) :: annotate min (step min st ev) t
  end.

(** The start times after one event, whatever the event. *)
Lemma exit_report_starts min dur k es r : starts (exit_report min dur k es r).1 = map_lookup es.
Proof. unfold exit_report. by repeat case_cond. Qed.

Lemma step_starts min st ev p :
  starts (step min st ev) p =
  (spec_step min (recorded st ev) (room st) (starts st) ev).2 p.
Proof.
  destruct ev as [k ctx|k]; cbn [step spec_step recorded snd].
  - rewrite <- update_starts. unfold handle_exec. by repeat case_cond.
  - unfold handle_exit. destruct (Z.eqb_spec (pid_of k) (tid_of k)) as [_|_]; [|done].
    cbn [negb snd]. destruct (map_lookup (exec_start st) (pid_of k)) as [t0|] eqn:Hl.
    + rewrite exit_report_starts. apply delete_starts.
    + destruct (min =? 0); cbn [negb].
      * rewrite exit_report_starts. apply delete_starts.
      * unfold set_start, starts. destruct (Z.eqb_spec p (pid_of k)) as [->|]; done.
Qed.

(** An event about another process, or a thread exit, keeps an entry. *)
Lemma step_starts_frame min st ev p :
  ev_subject ev ≠ Some p → starts (step min st ev) p = starts st p.
Proof.
  rewrite step_starts. destruct ev as [k ctx|k]; cbn [spec_step ev_subject snd]; intros Hp.
  - case_match; [|done]. unfold set_start. destruct (Z.eqb_spec p (pid_of k)); congruence.
  - case_match; [|done]. unfold set_start. cbn.
    destruct (Z.eqb_spec p (pid_of k)); congruence.
Qed.

Lemma run_cons min st ev evs : run min st (ev :: evs) = run min (step min st ev) evs.
Proof. done. Qed.

Lemma run_starts_frame min evs st p :
  Forall (fun ev => ev_subject ev ≠ Some p) evs → starts (run min st evs) p = starts st p.
Proof.
  intros Hf. revert st. induction Hf as [|ev evs Hev _ IH]; intros st; [done|].
  by rewrite run_cons, IH, step_starts_frame.
Qed.

Lemma run_app min st evs evs' : run min st (evs ++ evs') = run min (run min st evs) evs'.
Proof. apply fold_left_app. Qed.

(** ** The specification respects equality of start times *)
Lemma spec_step_ext min a b s s' ev :
  (∀ p, s p = s' p) →
  (spec_step min a b s ev).1 = (spec_step min a b s' ev).1 ∧
  ∀ p, (spec_step min a b s ev).2 p = (spec_step min a b s' ev).2 p.
Proof.
  intros E. destruct ev as [k ctx|k]; cbn.
  - split; [done|]. intros p. destruct a; [|apply E]. unfold set_start. by case_match.
  - rewrite E. case_match; cbn; split; try done. intros p.
    unfold set_start. by case_match.
Qed.

Lemma refines_trans st1 st2 st3 a b :
  refines st1 st2 a → refines st2 st3 b → refines st1 st3 (a.1 ++ b.1, b.2).
Proof.
  intros (es & (Hq & Hp & _) & Hr) (es' & (Hq' & Hp' & Hs') & Hr').
  exists (es ++ es'). split; [|by rewrite fmap_app, Hr, Hr'].
  split_and!; [by rewrite Hq', Hq, app_assoc|congruence|done].
Qed.

Lemma run_refines_from min evs st s :
  Forall ev_ok evs → 0 ≤ min → (∀ p, starts st p = s p) →
  refines st (run min st evs) (spec_run min s (annotate min st evs)).
Proof.
  intros Hok Hm. revert st s. induction Hok as [|ev evs Hev _ IH]; intros st s Hs.
  - destruct st. by apply refines_quiet.
  - rewrite run_cons. cbn [annotate spec_run].
    pose proof (step_refines min st ev Hev Hm) as Hstep.
    destruct (spec_step_ext min (recorded st ev) (room st) _ _ ev Hs) as [E1 E2].
    destruct (spec_step min (recorded st ev) (room st) s ev) as [rs s1]; cbn in *.
    assert (∀ p, starts (step min st ev) p = s1 p) as Hs1.
    { intros p. by rewrite step_starts, E2. }
    specialize (IH (step min st ev) s1 Hs1).
    destruct (spec_run min s1 _) as [rs' s2]; cbn in *.
    rewrite <- E1. by eapply (refines_trans _ _ _ _ (rs', s2)).
Qed.

(** Every report of the specification in filtering mode. *)
Definition long_exit (min : Z) (r : report) : Prop :=
  match r with
  | RExec _ _ _ _ => False
  | RExit _ _ code dur _ => is_u 8 code ∧ min ≤ dur < 2 ^ 64
  end.

Lemma spec_step_long min a b s ev :
  0 < min → Forall (long_exit min) (spec_step min a b s ev).1.
Proof.
  intros Hm. destruct ev as [k ctx|k]; cbn [spec_step].
  - by rewrite (proj2 (Z.eqb_neq min 0)) by lia.
  - case_match; [|done]. cbn [fst]. destruct (b && _) eqn:Hb; [|done].
    bool_facts. apply Forall_singleton. split; [apply wait_status_range|].
    split; [done|]. case_match; [|lia]. apply Z.mod_pos_bound. lia.
Qed.

Lemma spec_run_long min s evs : 0 < min → Forall (long_exit min) (spec_run min s evs).1.
Proof.
  intros Hm. revert s. induction evs as [|[ev [a b]] evs IH]; intros s; [done|]. cbn.
  pose proof (spec_step_long min a b s ev Hm) as Hstep.
  destruct (spec_step min a b s ev) as [rs s1]; cbn in Hstep.
  specialize (IH s1). destruct (spec_run min s1 evs) as [rs' s2]; cbn in *.
  by apply Forall_app.
Qed.
End Proofs.

(** ** Properties *)
Section Properties.
Context {M R : Type} `{BpfHashLaws M Z Z} `{RingBufLaws R event}.
Implicit Types (st : bpf_state M R) (k : kctx).

(** C5. Refinement: over any sequence of exec and exit tracepoints, the
    records the two handlers submit to the ring are, read by the fields
    each kind defines, exactly the reports of the specification, in order,
    no reservation is left open, and [exec_start] holds exactly the
    specified start times; the handlers deviate from the specification
    only where the kernel refused an update or a reservation. *)
Theorem run_refines min st evs :
  Forall ev_ok evs → 0 ≤ min →
  let '(rs, s) := spec_run min (starts st) (annotate min st evs) in
  ∃ es, report_of <$> es = rs ∧
        rb_samples (rb (run min st evs)) = rb_samples (rb st) ++ es ∧
        rb_pending (rb (run min st evs)) = rb_pending (rb st) ∧
        ∀ p, starts (run min st evs) p = s p.
Proof.
  intros Hok Hm. pose proof (run_refines_from min evs st _ Hok Hm (fun p => eq_refl)) as Hr.
  destruct (spec_run min (starts st) (annotate min st evs)) as [rs s].
  destruct Hr as (es & (? & ? & ?) & ?). by exists es.
Qed.


(** C23. In filtering mode (a non-zero minimum) no exec is ever reported,
    and every record submitted over any run is an exit whose duration is at
    least the minimum and whose exit code fits a byte. *)
Theorem filter_only_long_exits min st evs :
  Forall ev_ok evs → 0 < min →
  ∃ es, rb_samples (rb (run min st evs)) = rb_samples (rb st) ++ es ∧
        Forall (fun e => exit_event e = true ∧ min ≤ duration_ns e < 2 ^ 64 ∧
                         is_u 8 (exit_code e)) es.
Proof.
  intros Hok Hm.
  destruct (run_refines_from min evs st _ Hok ltac:(lia) (fun p => eq_refl))
    as (es & (Hs & _) & Hrep).
  exists es. split; [done|].
  pose proof (spec_run_long min (starts st) (annotate min st evs) Hm) as Hl.
  rewrite <- Hrep, Forall_fmap in Hl. eapply Forall_impl; [exact Hl|].
  intros e. unfold compose, report_of. destruct (exit_event e); cbn; tauto.
Qed.

(** C22. The map never keeps a stale entry: an entry of [exec_start] after
    any run that started without one comes from an [exec] of that process
    in the run, carries that [exec]'s time, and the process has not exited
    since. *)
Theorem exec_start_sound min st evs p t :
  starts st p = None → starts (run min st evs) p = Some t →
  ∃ pre k ctx post, evs = pre ++ KExec k ctx :: post ∧
    pid_of k = p ∧ k_ktime k = t ∧
    Forall (fun ev => match ev with
                      | KExit _ => ev_subject ev ≠ Some p
                      | KExec _ _ => True
                      end) post.
Proof.
  intros Hs0. revert t. induction evs as [|ev evs IH] using rev_ind; intros t Ht;
    [cbn in Ht; congruence|].
  rewrite run_app, run_cons in Ht. cbn [run fold_left] in Ht.
  destruct (decide (ev_subject ev = Some p)) as [Hsub|Hsub].
  - rewrite step_starts in Ht. destruct ev as [k ctx|k]; cbn in Hsub, Ht.
    + destruct (_ =? 0).
      * unfold set_start in Ht. exists evs, k, ctx, [].
        injection Hsub as <-. rewrite Z.eqb_refl in Ht. by injection Ht as <-.
      * destruct (IH _ Ht) as (pre & k' & ctx' & post & -> & ? & ? & ?).
        exists pre, k', ctx', (post ++ [KExec k ctx]).
        split_and!; [by rewrite <- app_assoc|done..|]. by apply Forall_app_2; [|constructor].
    + destruct (Z.eqb_spec (pid_of k) (tid_of k)); [|done]. injection Hsub as <-.
      cbn in Ht. unfold set_start in Ht. by rewrite Z.eqb_refl in Ht.
  - rewrite step_starts_frame in Ht by done.
    destruct (IH _ Ht) as (pre & k' & ctx' & post & -> & ? & ? & ?).
    exists pre, k', ctx', (post ++ [ev]).
    split_and!; [by rewrite <- app_assoc|done..|].
    apply Forall_app_2; [done|]. constructor; [|done]. by destruct ev.
Qed.

(** Cleanup: after the exit of a process's main thread, on every path
    of the handler, [exec_start] has no entry for it, and a thread exit
    changes neither the map nor the ring. *)
Theorem exit_clears_start min st k :
  (pid_of k = tid_of k → starts (step min st (KExit k)) (pid_of k) = None) ∧
  (pid_of k ≠ tid_of k → step min st (KExit k) = st).
Proof.
  split; intros Hp.
  - rewrite step_starts. cbn. rewrite Hp, Z.eqb_refl. cbn.
    unfold set_start. by rewrite Z.eqb_refl.
  - cbn. unfold handle_exit. by rewrite (proj2 (Z.eqb_neq _ _) Hp).
Qed.
End Properties.

(** ** Concrete runs *)

Definition demo_stale : event :=
  Event 9 9 9 999 (repeat "x"%char 16) (repeat "y"%char 127) true.
Definition demo_st : bpf_state (hmap Z Z) (ring event) :=
  BpfState (HMap 64 ∅) (Ring 8 (fun _ => demo_stale) [] 0).
Definition demo_exec : kctx := mk_kctx 42 42 1000 1 0 "sh" "/bin/sh".
Definition demo_thread_exit : kctx := mk_kctx 42 43 2000 1 0 "sh" "".
Definition demo_exit : kctx := mk_kctx 42 42 6000 1 768 "sh" "".
Definition demo_evs : list kevent :=
  [KExec demo_exec (ExecCtx 4096 0x80018); KExit demo_thread_exit; KExit demo_exit].

Lemma demo_kctx_ok : kctx_ok demo_exec ∧ kctx_ok demo_thread_exit ∧ kctx_ok demo_exit.
Proof. split_and!; apply mk_kctx_ok; unfold is_u, is_s; lia. Qed.

Lemma demo_evs_ok : Forall ev_ok demo_evs.
Proof.
  destruct demo_kctx_ok as (? & ? & ?).
  by repeat (apply Forall_cons; split).
Qed.

Lemma run_refines_witness :
  Forall ev_ok demo_evs ∧ 0 ≤ 0 ∧
  (spec_run 0 (starts demo_st) (annotate 0 demo_st demo_evs)).1 =
    [RExec 42 1 (Some "sh") (Some "/bin/sh"); RExit 42 1 3 5000 (Some "sh")] ∧
  let '(rs, s) := spec_run 0 (starts demo_st) (annotate 0 demo_st demo_evs) in
  ∃ es, report_of <$> es = rs ∧
        rb_samples (rb (run 0 demo_st demo_evs)) = rb_samples (rb demo_st) ++ es ∧
        rb_pending (rb (run 0 demo_st demo_evs)) = rb_pending (rb demo_st) ∧
        ∀ p, starts (run 0 demo_st demo_evs) p = s p.
Proof.
  split; [apply demo_evs_ok|]. split; [lia|]. split; [vm_compute; reflexivity|].
  apply (run_refines 0 demo_st demo_evs); [apply demo_evs_ok|lia].
Defined.


Lemma filter_only_long_exits_witness :
  Forall ev_ok demo_evs ∧ 0 < 5000 ∧
  ∃ es, rb_samples (rb (run 5000 demo_st demo_evs)) = rb_samples (rb demo_st) ++ es ∧
        Forall (fun e => exit_event e = true ∧ 5000 ≤ duration_ns e < 2 ^ 64 ∧
                         is_u 8 (exit_code e)) es.
Proof.
  split; [apply demo_evs_ok|]. split; [lia|].
  apply (filter_only_long_exits 5000 demo_st demo_evs); [apply demo_evs_ok|lia].
Defined.

Lemma exec_start_sound_witness :
  starts (run 0 demo_st [KExec demo_exec (ExecCtx 4096 0x80018)]) 42 = Some 1000 ∧
  ∃ pre k ctx post, [KExec demo_exec (ExecCtx 4096 0x80018)] = pre ++ KExec k ctx :: post ∧
    pid_of k = 42 ∧ k_ktime k = 1000 ∧
    Forall (fun ev => match ev with
                      | KExit _ => ev_subject ev ≠ Some 42
                      | KExec _ _ => True
                      end) post.
Proof.
  split; [vm_compute; reflexivity|].
  apply (exec_start_sound 0 demo_st [KExec demo_exec (ExecCtx 4096 0x80018)] 42 1000);
    vm_compute; reflexivity.
Defined.

Lemma exit_clears_start_witness :
  (starts (step 0 demo_st (KExit demo_exit)) (pid_of demo_exit) = None) ∧
  step 0 demo_st (KExit demo_thread_exit) = demo_st.
Proof.
  split.
  - apply (exit_clears_start 0 demo_st demo_exit). reflexivity.
  - apply (exit_clears_start 0 demo_st demo_thread_exit). vm_compute. discriminate.
Defined.
