(* ===== verification/BootstrapConcurrent.v ===== *)
(** * bootstrap: the handlers on several CPUs

    The tracepoint handlers of different processes run at the same time on
    different CPUs and meet in [exec_start] and in the ring buffer.  Here a
    handler is a sequence of atomic steps, one per helper call on a shared
    object; the step relation lets the handlers of all processes take steps
    in any order.  The handlers of one process do not overlap: they run in
    its main thread.

    An event takes effect at one point of its handler: when it asks the ring
    for a record, or, if it never does, when it returns.  The log of a run
    lists the events in the order of these points, each with what the kernel
    objects (not the handler) answered: whether the map took the start time
    and whether the ring had room.  A handler that returns without asking
    the ring is logged as if there had been room: if the specification has a
    report for its event, the run is not a linearization. *)
From S2P Require Import Prelude CInt CFormat BpfKernel BootstrapBpf.
Local Open Scope Z_scope.

(** Where a handler is: the next call it makes on a shared object, with its
    local variables ([t] is the place of its record [e] in the ring). *)
Inductive pc :=
| Update (k : kctx) (ctx : exec_ctx)
| ExecReserve (k : kctx) (ctx : exec_ctx)
| ExecSubmit (k : kctx) (ctx : exec_ctx) (t : nat) (e : event)
| Lookup (k : kctx)
| Delete (k : kctx) (dur : Z)
| ExitReserve (k : kctx) (dur : Z)
| ExitSubmit (k : kctx) (dur : Z) (t : nat) (e : event).

(** An event of the log with what the map and the ring answered. *)
Abbreviation done_event := (kevent * (bool * bool))%type.

Definition pc_event (c : pc) : kevent :=
  match c with
  | Update k ctx | ExecReserve k ctx | ExecSubmit k ctx _ _ => KExec k ctx
  | Lookup k | Delete k _ | ExitReserve k _ | ExitSubmit k _ _ _ => KExit k
  end.

(** The process an event happens in. *)
Definition ev_pid (ev : kevent) : Z :=
  match ev with KExec k _ => pid_of k | KExit k => pid_of k end.

(** The first step of a handler, [None] if it returns at once. *)
Definition entry (ev : kevent) : option pc :=
  match ev with
  | KExec k ctx => Some (Update k ctx)
  | KExit k => if negb (pid_of k =? tid_of k) then None else Some (Lookup k)
  end.

(** A running handler; [seen] notes what the map answered to its update. *)
Record thread := Thread { at_pc : pc; seen : bool }.

Section Steps.
Context {M R : Type} `{BpfHash M Z Z} `{RingSlots R event}.

(** One step of a handler: where it goes on, [None] when it returns. *)
Definition advance (min : Z) (c : pc) (st : bpf_state M R) : option pc * bpf_state M R :=
  match c with
  | Update k ctx =>
      (if negb (min =? 0) then None else Some (ExecReserve k ctx),
       BpfState (map_update (exec_start st) (pid_of k) (k_ktime k)).1 (rb st))
  | ExecReserve k ctx =>
      match slot_reserve (rb st) sizeof_event with
      | None => (None, st)
      | Some (t, e, rb1) => (Some (ExecSubmit k ctx t e), BpfState (exec_start st) rb1)
      end
  | ExecSubmit k ctx t e =>
      (None, BpfState (exec_start st) (slot_submit (rb st) t (exec_record k ctx e)))
  | Lookup k =>
      match map_lookup (exec_start st) (pid_of k) with
      | Some start_ts => (Some (Delete k (u64 (k_ktime k - start_ts))), st)
      | None => if negb (min =? 0) then (None, st) else (Some (Delete k 0), st)
      end
  | Delete k dur =>
      (if negb (min =? 0) && (dur <? min) then None else Some (ExitReserve k dur),
       BpfState (map_delete (exec_start st) (pid_of k)).1 (rb st))
  | ExitReserve k dur =>
      match slot_reserve (rb st) sizeof_event with
      | None => (None, st)
      | Some (t, e, rb1) => (Some (ExitSubmit k dur t e), BpfState (exec_start st) rb1)
      end
  | ExitSubmit k dur t e =>
      (None, BpfState (exec_start st) (slot_submit (rb st) t (exit_record k dur e)))
  end.

(** What the kernel objects answer to a step, from their state alone. *)
Definition map_accepts (c : pc) (st : bpf_state M R) (before : bool) : bool :=
  match c with
  | Update k _ => (map_update (exec_start st) (pid_of k) (k_ktime k)).2 =? 0
  | _ => before
  end.
Definition ring_room (st : bpf_state M R) : bool :=
  match slot_reserve (rb st) sizeof_event with Some _ => true | None => false end.

(** The log entry of a step, if the event takes effect there. *)
Definition log_step (th : thread) (next : option pc) (st : bpf_state M R) : list done_event :=
  match at_pc th with
  | ExecReserve _ _ | ExitReserve _ _ => [(pc_event (at_pc th), (seen th, ring_room st))]
  | ExecSubmit _ _ _ _ | ExitSubmit _ _ _ _ => []
  | Update _ _ | Lookup _ | Delete _ _ =>
      match next with
      | Some _ => []
      | None => [(pc_event (at_pc th), (map_accepts (at_pc th) st (seen th), true))]
      end
  end.

(** The running handlers, by process, and the shared objects. *)
Record conc := Conc { running : gmap Z thread; shared : bpf_state M R }.

(** The handler of process [p], if there is one, takes a step. *)
Definition turn (min p : Z) (x : conc) : conc * list done_event :=
  match running x !! p with
  | None => (x, [])
  | Some th =>
      let '(next, st') := advance min (at_pc th) (shared x) in
      let now c := Thread c (map_accepts (at_pc th) (shared x) (seen th)) in
      (Conc (partial_alter (fun _ => now <$> next) p (running x)) st',
       log_step th next (shared x))
  end.

(** An event arrives, or a handler takes a step: the events that arrived and
    the ones that took effect. *)
Inductive cstep (min : Z) : conc → list kevent → list done_event → conc → Prop :=
| CStart ev c r st :
    ev_ok ev → entry ev = Some c → r !! ev_pid ev = None →
    cstep min (Conc r st) [ev] [] (Conc (<[ev_pid ev := Thread c false]> r) st)
| CIgnore ev x :
    ev_ok ev → entry ev = None → cstep min x [ev] [(ev, (false, true))] x
| CTurn p x : cstep min x [] (turn min p x).2 (turn min p x).1.

(** Any number of steps, with the events in the order they arrived and the
    log. *)
Inductive csteps (min : Z) : conc → list kevent → list done_event → conc → Prop :=
| CRefl x : csteps min x [] [] x
| CStep x1 e1 l1 x2 e2 l2 x3 :
    csteps min x1 e1 l1 x2 → cstep min x2 e2 l2 x3 → csteps min x1 (e1 ++ e2) (l1 ++ l2) x3.

(** A scheduler: the processes that get a turn, in order. *)
Fixpoint schedule (min : Z) (turns : list Z) (x : conc) : conc * list done_event :=
  match turns with
  | [] => (x, [])
  | p :: t =>
      let '(x1, l1) := turn min p x in
      let '(x2, l2) := schedule min t x1 in
      (x2, l1 ++ l2)
  end.

(** A handler left alone: at most [fuel] steps. *)
Fixpoint finish (min : Z) (fuel : nat) (c : pc) (st : bpf_state M R) : option (bpf_state M R) :=
  match fuel with
  | O => None
  | S n => match advance min c st with
           | (Some c', st') => finish min n c' st'
           | (None, st') => Some st'
           end
  end.
End Steps.
Arguments conc : clear implicits.
Arguments Conc {_ _} _ _.

(** ** What a step does *)

(** The duration an exit reports, from the start time the specification
    keeps. *)
Definition exit_dur (k : kctx) (start : option Z) : Z :=
  match start with Some t0 => u64 (k_ktime k - t0) | None => 0 end.

(** A handler in the middle of its work: [cur] is the entry of its process
    in the map, [old] the one the specification has given the log. *)
Definition thread_rel (min : Z) (th : thread) (cur old : option Z) : Prop :=
  match at_pc th with
  | Update _ _ | Lookup _ => cur = old
  | ExecReserve k _ => min = 0 ∧ cur = if seen th then Some (k_ktime k) else old
  | Delete k dur => cur = old ∧ dur = exit_dur k old
  | ExitReserve k dur => cur = None ∧ dur = exit_dur k old ∧ min ≤ dur
  | ExecSubmit _ _ _ _ | ExitSubmit _ _ _ _ => cur = old
  end.

(** The event, while it has not taken effect. *)
Definition unlogged (c : pc) : list kevent :=
  match c with ExecSubmit _ _ _ _ | ExitSubmit _ _ _ _ => [] | _ => [pc_event c] end.

(** The record a handler owes: its place and the report it will hold. *)
Definition promise (c : pc) : option (nat * report) :=
  match c with
  | ExecSubmit k ctx t e => Some (t, report_of (exec_record k ctx e))
  | ExitSubmit k dur t e => Some (t, report_of (exit_record k dur e))
  | _ => None
  end.

(** The steps a handler has left, at most. *)
Definition remaining (c : pc) : nat :=
  match c with
  | Update _ _ => 3 | ExecReserve _ _ => 2 | ExecSubmit _ _ _ _ => 1
  | Lookup _ => 4 | Delete _ _ => 3 | ExitReserve _ _ => 2 | ExitSubmit _ _ _ _ => 1
  end.

(** The three things a step does to the ring, with the reports [rs] the
    specification makes of it and what the handler owes before and after. *)
Inductive ring_step (sl : list (option event)) :
    list (option event) → list report → option (nat * report) → option (nat * report) → Prop :=
| RKeep : ring_step sl sl [] None None
| RReserve rep : ring_step sl (sl ++ [None]) [rep] None (Some (length sl, rep))
| RSubmit t e :
    ring_step sl (<[t := Some e]> sl) [] (Some (t, report_of e)) None.

Lemma spec_run_app min s l1 l2 :
  spec_run min s (l1 ++ l2) =
    ((spec_run min s l1).1 ++ (spec_run min (spec_run min s l1).2 l2).1,
     (spec_run min (spec_run min s l1).2 l2).2).
Proof.
  revert s. induction l1 as [|[ev [a b]] l1 IH]; intros s; cbn; [by destruct (spec_run min s l2)|].
  destruct (spec_step min a b s ev) as [rs s1]. rewrite IH.
  destruct (spec_run min s1 l1) as [rs1 s2]. cbn. by rewrite app_assoc.
Qed.

Lemma spec_run_one min s ev a b :
  spec_run min s [(ev, (a, b))] = spec_step min a b s ev.
Proof. cbn. destruct (spec_step min a b s ev). by rewrite app_nil_r. Qed.

(** Only the entry of the process of an event changes. *)
Lemma spec_step_other min a b s ev q :
  ev_subject ev ≠ Some q → (spec_step min a b s ev).2 q = s q.
Proof.
  destruct ev as [k ctx|k]; cbn; intros Hq.
  - destruct a; [|done]. unfold set_start. destruct (Z.eqb_spec q (pid_of k)); congruence.
  - destruct (pid_of k =? tid_of k); [|done]. unfold set_start. cbn.
    destruct (Z.eqb_spec q (pid_of k)); congruence.
Qed.

Lemma exit_dur_range k old : 0 ≤ exit_dur k old.
Proof. destruct old; cbn; [apply (wrap_range 64); lia|done]. Qed.

Lemma set_start_same s p v : set_start s p v p = v.
Proof. unfold set_start. by rewrite Z.eqb_refl. Qed.
Lemma set_start_ne s p v q : q ≠ p → set_start s p v q = s q.
Proof. unfold set_start. by intros Hq%Z.eqb_neq; rewrite Hq. Qed.

Section Proofs.
Context {M R : Type} `{BpfHashLaws M Z Z} `{RingSlotsLaws R event}.
Implicit Types (st : bpf_state M R) (k : kctx) (s : Z → option Z) (th : thread).

(** What the step of the handler [th] of process [p] amounts to, when the
    specification has start times [s]: the entry of [p] at most, the ring
    and the log. *)
Record step_outcome (min p : Z) th st s (next : option pc) st' : Prop := {
  so_map q : q ≠ p → starts st' q = starts st q;
  so_next : match next with
            | None => starts st' p = (spec_run min s (log_step th next st)).2 p
            | Some c' =>
                pc_event c' = pc_event (at_pc th) ∧
                thread_rel min (Thread c' (map_accepts (at_pc th) st (seen th)))
                  (starts st' p) ((spec_run min s (log_step th next st)).2 p)
            end;
  so_ring : ring_step (slots (rb st)) (slots (rb st')) (spec_run min s (log_step th next st)).1
              (promise (at_pc th)) (next ≫= promise);
  so_log : (log_step th next st).*1 ++ (if next is Some c' then unlogged c' else [])
           = unlogged (at_pc th);
}.

Lemma starts_update st k q :
  q ≠ pid_of k →
  starts (BpfState (map_update (exec_start st) (pid_of k) (k_ktime k)).1 (rb st)) q = starts st q.
Proof.
  intros Hq. unfold starts at 1. cbn. rewrite update_starts. case_match; [|done].
  by apply set_start_ne.
Qed.

Lemma reserve_ring st t e rb1 rep :
  slot_reserve (rb st) sizeof_event = Some (t, e, rb1) →
  ring_step (slots (rb st)) (slots rb1) [rep] None (Some (t, rep)).
Proof.
  intros Hr. rewrite (slot_reserve_place _ _ _ _ _ Hr), (slot_reserve_slots _ _ _ _ _ Hr).
  constructor.
Qed.

(** The steps of [handle_exec]. *)
Lemma exec_step min k ctx th st s :
  pc_event (at_pc th) = KExec k ctx → kctx_ok k →
  thread_rel min th (starts st (pid_of k)) (s (pid_of k)) →
  (∀ t rep, promise (at_pc th) = Some (t, rep) → slots (rb st) !! t = Some None) →
  step_outcome min (pid_of k) th st s (advance min (at_pc th) st).1 (advance min (at_pc th) st).2.
Proof.
  destruct th as [c sn]. intros He Hk Hrel Hown.
  destruct c; cbn in He; simplify_eq; cbn [advance thread_rel at_pc seen] in *.
  - destruct (Z.eqb_spec min 0) as [->|Hm]; cbn [negb fst snd]; split;
      try (by intros q Hq; apply starts_update); try by constructor.
    + cbn. split; [done|]. split; [done|]. rewrite <-Hrel. unfold starts at 1. cbn.
      rewrite update_starts. case_match; [by rewrite set_start_same|done].
    + unfold log_step. cbn [at_pc pc_event map_accepts seen]. rewrite spec_run_one. cbn.
      unfold starts at 1. cbn. rewrite update_starts. case_match; [by rewrite !set_start_same|done].
    + unfold log_step. cbn [at_pc pc_event map_accepts seen]. rewrite spec_run_one. cbn.
      rewrite (proj2 (Z.eqb_neq min 0)) by done. constructor.
  - destruct Hrel as [-> Hcur].
    assert (starts st (pid_of k) = (spec_step 0 sn (ring_room st) s (KExec k ctx)).2 (pid_of k)) as Hs.
    { rewrite Hcur. cbn. destruct sn; [by rewrite set_start_same|done]. }
    destruct (slot_reserve _ _) as [[[t e] rb1]|] eqn:Hr; cbn [fst snd]; split; try done;
      unfold log_step; cbn [at_pc pc_event seen]; rewrite ?spec_run_one; try done.
    + unfold ring_room. rewrite Hr. cbn -[exec_record report_of]. rewrite exec_record_report by done.
      by eapply reserve_ring.
    + unfold ring_room. rewrite Hr. cbn. constructor.
  - split; try done. cbn -[exec_record report_of].
    rewrite slot_submit_slots by (by eapply Hown). constructor.
Qed.

(** The steps of [handle_exit] in a main thread. *)
Lemma exit_step min k th st s :
  pc_event (at_pc th) = KExit k → pid_of k = tid_of k → kctx_ok k → 0 ≤ min →
  thread_rel min th (starts st (pid_of k)) (s (pid_of k)) →
  (∀ t rep, promise (at_pc th) = Some (t, rep) → slots (rb st) !! t = Some None) →
  step_outcome min (pid_of k) th st s (advance min (at_pc th) st).1 (advance min (at_pc th) st).2.
Proof.
  destruct th as [c sn]. intros He Ht Hk Hm Hrel Hown.
  pose proof (exit_dur_range k (s (pid_of k))) as Hd0.
  assert (∀ a b, spec_step min a b s (KExit k) =
    (if b && (min <=? exit_dur k (s (pid_of k)))
     then [RExit (pid_of k) (k_parent_tgid k) (wait_status (k_exit_code k))
             (exit_dur k (s (pid_of k))) (cstr (k_comm k TASK_COMM_LEN).2)] else [],
     set_start s (pid_of k) None)) as Hspec.
  { intros a b. unfold spec_step. by rewrite Ht, Z.eqb_refl, <-Ht. }
  destruct c; cbn in He; simplify_eq; cbn [advance thread_rel at_pc seen] in *.
  - unfold starts in Hrel.
    destruct (map_lookup (exec_start st) (pid_of k)) as [t0|] eqn:E.
    { split; try done; [|by constructor]. cbn. by rewrite <-Hrel. }
    destruct (Z.eqb_spec min 0) as [->|Hm0]; cbn [negb fst snd]; split; try done; try by constructor.
    + cbn. by rewrite <-Hrel.
    + unfold log_step. cbn [at_pc pc_event map_accepts seen]. rewrite spec_run_one, Hspec.
      cbn. by rewrite set_start_same.
    + unfold log_step. cbn [at_pc pc_event map_accepts seen]. rewrite spec_run_one, Hspec, <-Hrel.
      cbn -[Z.leb]. rewrite (proj2 (Z.leb_gt min 0)) by lia. constructor.
  - destruct Hrel as [Hcur Hdur].
    assert (∀ q, starts (BpfState (map_delete (exec_start st) (pid_of k)).1 (rb st)) q =
                 set_start (starts st) (pid_of k) None q) as Hdel by (intros q; apply delete_starts).
    replace (negb (min =? 0) && (dur <? min)) with (dur <? min) by lia.
    destruct (Z.ltb_spec dur min) as [Hlt|Hge]; cbn [fst snd]; split;
      try (intros q Hq; rewrite Hdel; by apply set_start_ne); try by constructor.
    + unfold log_step. cbn [at_pc pc_event map_accepts seen]. rewrite spec_run_one, Hspec.
      cbn. by rewrite Hdel, !set_start_same.
    + unfold log_step. cbn [at_pc pc_event map_accepts seen]. rewrite spec_run_one, Hspec, <-Hdur.
      cbn -[Z.leb]. rewrite (proj2 (Z.leb_gt min dur)) by lia. constructor.
    + cbn. by rewrite Hdel, set_start_same.
  - destruct Hrel as (Hcur & Hdur & Hge).
    destruct (slot_reserve _ _) as [[[t e] rb1]|] eqn:Hr; cbn [fst snd]; split; try done;
      unfold log_step; cbn [at_pc pc_event seen]; rewrite ?spec_run_one, ?Hspec; cbn -[Z.leb];
      rewrite ?set_start_same; try done; unfold ring_room; rewrite Hr; [|constructor].
    rewrite <-Hdur, (proj2 (Z.leb_le min dur)) by done. cbn [andb].
    change (Some (t, _)) with (Some (t, report_of (exit_record k dur e))).
    rewrite exit_record_report by done. by eapply reserve_ring.
  - split; try done. cbn -[exit_record report_of].
    rewrite slot_submit_slots by (by eapply Hown). constructor.
Qed.

Lemma advance_outcome min p th st s :
  ev_subject (pc_event (at_pc th)) = Some p → ev_ok (pc_event (at_pc th)) → 0 ≤ min →
  thread_rel min th (starts st p) (s p) →
  (∀ t rep, promise (at_pc th) = Some (t, rep) → slots (rb st) !! t = Some None) →
  step_outcome min p th st s (advance min (at_pc th) st).1 (advance min (at_pc th) st).2.
Proof.
  intros Hs Hok Hm. destruct (pc_event (at_pc th)) as [k ctx|k] eqn:E; cbn in Hs, Hok.
  - injection Hs as <-. by apply exec_step with ctx.
  - destruct (Z.eqb_spec (pid_of k) (tid_of k)); [|done]. injection Hs as <-. by apply exit_step.
Qed.

(** ** The invariant *)

(** The ring [sl] against the reports [rs] the specification made of the log
    since the ring was [base]: one record per report, in order; the ones not
    yet submitted are owed ([ow]) by one handler each. *)
Record ring_rel (base : list (option event)) (rs : list report)
    (ow : Z → option (nat * report)) (sl : list (option event)) : Prop := {
  rr_base : take (length base) sl = base;
  rr_len : length sl = (length base + length rs)%nat;
  rr_full i e : sl !! (length base + i)%nat = Some (Some e) → rs !! i = Some (report_of e);
  rr_open i : sl !! (length base + i)%nat = Some None → ∃ p rep, ow p = Some ((length base + i)%nat, rep);
  rr_held p t rep : ow p = Some (t, rep) →
    ∃ i, t = (length base + i)%nat ∧ sl !! t = Some None ∧ rs !! i = Some rep;
  rr_unique p q t rep rep' : ow p = Some (t, rep) → ow q = Some (t, rep') → p = q;
}.

Lemma ring_rel_init base : ring_rel base [] (fun _ => None) base.
Proof.
  assert (∀ i, base !! (length base + i)%nat = None) as E.
  { intros i. apply lookup_ge_None_2. lia. }
  split; try done; [by rewrite take_ge|..]; intros i; by rewrite E.
Qed.

(** The ring is full of submitted records once nobody owes one. *)
Lemma ring_rel_final base rs ow sl :
  ring_rel base rs ow sl → (∀ p, ow p = None) →
  ∃ es, sl = base ++ (Some <$> es) ∧ report_of <$> es = rs.
Proof.
  intros Hr Hnone. destruct Hr as [Hbase Hlen Hfull Hopen _ _].
  rewrite <-(take_drop (length base) sl), Hbase.
  assert (∀ i x, drop (length base) sl !! i = Some x →
            ∃ e, x = Some e ∧ rs !! i = Some (report_of e)) as Hx.
  { intros i [e|] Hi; rewrite lookup_drop in Hi; [eauto|].
    destruct (Hopen i Hi) as (p & rep & Hp). by rewrite Hnone in Hp. }
  assert (length (drop (length base) sl) = length rs) as Hl by (rewrite length_drop; lia).
  revert Hx Hl. generalize (drop (length base) sl) as tl. clear. revert rs.
  intros rs tl. revert rs. induction tl as [|x tl IH]; intros [|rep rs] Hx Hl; try done.
  { by exists []. }
  destruct (Hx 0%nat x eq_refl) as (e & -> & [= ->]).
  destruct (IH rs) as (es & Htl & <-); [intros i y; apply (Hx (S i) y)|by injection Hl|].
  exists (e :: es). by rewrite fmap_cons, (inj (app base) _ _ Htl).
Qed.

(** Each step keeps it: the record of a reservation is the last one, and a
    submission fills the place its handler owes and no other. *)
Lemma ring_rel_reserve base rs ow ow' sl rep p :
  ring_rel base rs ow sl → ow p = None → ow' p = Some (length sl, rep) →
  (∀ q, q ≠ p → ow' q = ow q) → ring_rel base (rs ++ [rep]) ow' (sl ++ [None]).
Proof.
  intros [Hbase Hlen Hfull Hopen Hheld Huniq] Ho Ho' Hne.
  assert (∀ q t r, ow q = Some (t, r) → (t < length sl)%nat) as Hlt.
  { intros q t r Hq. destruct (Hheld _ _ _ Hq) as (_ & _ & Hs & _). by eapply lookup_lt_Some. }
  split.
  - by rewrite take_app_le by lia.
  - rewrite !length_app. cbn. lia.
  - intros i e. rewrite lookup_app. case_match eqn:Hi.
    + intros [= ->]. rewrite lookup_app_l; [by apply Hfull|]. apply lookup_lt_Some in Hi. lia.
    + by destruct (_ - _)%nat as [|[]].
  - intros i Hi. destruct (decide (length base + i = length sl)%nat) as [E|E].
    + exists p, rep. by rewrite Ho', E.
    + apply lookup_app_Some in Hi as [Hi|[Hge Hi]]; [|apply lookup_lt_Some in Hi; cbn in Hi; lia].
      destruct (Hopen i Hi) as (q & r & Hq). exists q, r. rewrite Hne; [done|]. intros ->. congruence.
  - intros q t r Hq. destruct (decide (q = p)) as [->|Hqp].
    + rewrite Ho' in Hq. injection Hq as <- <-. exists (length rs).
      split_and!; [lia|by rewrite list_lookup_middle..].
    + rewrite Hne in Hq by done. pose proof (Hlt _ _ _ Hq).
      destruct (Hheld _ _ _ Hq) as (i & -> & Hs & Hi). exists i.
      split_and!; [done|by rewrite lookup_app_l|]. by apply lookup_app_l_Some.
  - intros q q' t r r' Hq Hq'.
    destruct (decide (q = p)) as [->|Hqp], (decide (q' = p)) as [->|Hqp']; [done|..];
      rewrite ?Ho' in *; rewrite ?Hne in * by done; simplify_eq; [..|by eapply Huniq].
    + pose proof (Hlt _ _ _ Hq'). lia.
    + pose proof (Hlt _ _ _ Hq). lia.
Qed.

Lemma ring_rel_submit base rs ow ow' sl t e p :
  ring_rel base rs ow sl → ow p = Some (t, report_of e) → ow' p = None →
  (∀ q, q ≠ p → ow' q = ow q) → ring_rel base rs ow' (<[t := Some e]> sl).
Proof.
  intros [Hbase Hlen Hfull Hopen Hheld Huniq] Ho Ho' Hne.
  destruct (Hheld _ _ _ Ho) as (j & Ht & Hs & Hj).
  assert (∀ q t' r, ow' q = Some (t', r) → ow q = Some (t', r) ∧ t' ≠ t) as Hother.
  { intros q t' r Hq. destruct (decide (q = p)) as [->|Hqp]; [congruence|].
    rewrite Hne in Hq by done. split; [done|]. intros ->. by eapply Hqp, Huniq. }
  assert (∀ i x, <[t := Some e]> sl !! (length base + i)%nat = Some x →
    (i = j ∧ x = Some e) ∨ sl !! (length base + i)%nat = Some x ∧ i ≠ j) as Hlook.
  { intros i x. destruct (decide (t = length base + i)%nat) as [E|E].
    - rewrite <-E, list_lookup_insert_eq by (by eapply lookup_lt_Some). intros [= <-].
      left. split; [lia|done].
    - rewrite list_lookup_insert_ne by done. right. split; [done|lia]. }
  split.
  - by rewrite take_insert_ge by lia.
  - by rewrite length_insert.
  - intros i e' Hi. destruct (Hlook _ _ Hi) as [[-> [= <-]]|[Hi' _]]; [done|by apply Hfull].
  - intros i Hi. destruct (Hlook _ _ Hi) as [[_ [=]]|[Hi' Hij]]. destruct (Hopen i Hi') as (q & r & Hq).
    exists q, r. rewrite Hne; [done|]. intros ->. rewrite Ho in Hq. injection Hq as -> _. lia.
  - intros q t' r Hq. destruct (Hother _ _ _ Hq) as [Hq' Hn].
    destruct (Hheld _ _ _ Hq') as (i & -> & Hs' & Hi). exists i.
    split_and!; [done|by rewrite list_lookup_insert_ne|done].
  - intros q q' t' r r' Hq Hq'. destruct (Hother _ _ _ Hq), (Hother _ _ _ Hq'). by eapply Huniq.
Qed.

Lemma ring_rel_ext base rs ow ow' sl :
  ring_rel base rs ow sl → (∀ q, ow' q = ow q) → ring_rel base rs ow' sl.
Proof.
  intros [? ? ? Hopen ? ?] E. split; try done; intros; rewrite ?E in *; eauto.
  destruct (Hopen i ltac:(done)) as (q & r & ?). exists q, r. by rewrite E.
Qed.

Lemma ring_rel_step base rs ow ow' sl sl' rs1 p :
  ring_rel base rs ow sl → ring_step sl sl' rs1 (ow p) (ow' p) → (∀ q, q ≠ p → ow' q = ow q) →
  ring_rel base (rs ++ rs1) ow' sl'.
Proof.
  intros Hr Hstep Hne. remember (ow p) as o eqn:Ho. remember (ow' p) as o' eqn:Ho'.
  destruct Hstep as [|rep|t e]; rewrite ?app_nil_r.
  - eapply ring_rel_ext; [done|]. intros q. destruct (decide (q = p)) as [->|]; [congruence|auto].
  - by eapply ring_rel_reserve.
  - by eapply ring_rel_submit.
Qed.

(** The reports and the start times the specification makes of a log. *)
Abbreviation spec_reports min st0 log := (spec_run min (starts st0) log).1.
Abbreviation spec_starts min st0 log := (spec_run min (starts st0) log).2.

(** What a handler of process [q] owes the ring, and its event while it has
    not taken effect. *)
Definition owes (r : gmap Z thread) (q : Z) : option (nat * report) :=
  r !! q ≫= fun th => promise (at_pc th).
Definition waiting (r : gmap Z thread) (o : option Z) : list kevent :=
  match o ≫= fun p => r !! p with Some th => unlogged (at_pc th) | None => [] end.

(** The events of one process; of [None], the thread exits. *)
Definition events_of (o : option Z) (evs : list kevent) : list kevent :=
  filter (fun ev => ev_subject ev = o) evs.

(** A state [x] reached from [st0] after the events [evs] with log [log]. *)
Record inv (min : Z) st0 (evs : list kevent) (log : list done_event) (x : conc M R) : Prop := {
  inv_idle p : running x !! p = None → starts (shared x) p = spec_starts min st0 log p;
  inv_busy p th : running x !! p = Some th →
    ev_subject (pc_event (at_pc th)) = Some p ∧ ev_ok (pc_event (at_pc th)) ∧
    thread_rel min th (starts (shared x) p) (spec_starts min st0 log p);
  inv_ring : ring_rel (slots (rb st0)) (spec_reports min st0 log) (owes (running x))
               (slots (rb (shared x)));
  inv_log o : events_of o evs = events_of o log.*1 ++ waiting (running x) o;
}.

Lemma inv_init min st : inv min st [] [] (Conc ∅ st).
Proof.
  split; cbn; try done.
  - eapply ring_rel_ext; [apply ring_rel_init|]. intros q. unfold owes. by rewrite lookup_empty.
  - intros [p|]; [|done]. unfold waiting. cbn. by rewrite lookup_empty.
Qed.

Lemma events_of_app o l1 l2 : events_of o (l1 ++ l2) = events_of o l1 ++ events_of o l2.
Proof. apply filter_app. Qed.

Lemma events_of_one o ev :
  events_of o [ev] = if decide (ev_subject ev = o) then [ev] else [].
Proof. unfold events_of. rewrite filter_cons. by case_decide. Qed.

Lemma inv_start min st0 evs log r st ev c :
  inv min st0 evs log (Conc r st) → ev_ok ev → entry ev = Some c → r !! ev_pid ev = None →
  inv min st0 (evs ++ [ev]) log (Conc (<[ev_pid ev := Thread c false]> r) st).
Proof.
  intros [Hidle Hbusy Hring Hlog] Hok He Hp. pose proof (Hidle _ Hp) as Hs. cbn in *.
  assert (pc_event c = ev ∧ ev_subject ev = Some (ev_pid ev) ∧ unlogged c = [ev] ∧ promise c = None ∧
          ∀ cur, thread_rel min (Thread c false) cur cur) as (Hc & Hsub & Hun & Hpr & Hrel).
  { destruct ev as [k ctx|k]; cbn in He |- *; [by injection He as <-|].
    destruct (pid_of k =? tid_of k); [|done]. by injection He as <-. }
  split; cbn.
  - intros q [Hq _]%lookup_insert_None. by apply Hidle.
  - intros q th [[<- <-]|[_ Hq]]%lookup_insert_Some; [|by apply Hbusy]. cbn. rewrite Hc.
    split_and!; [done|done|]. rewrite Hs. apply Hrel.
  - eapply ring_rel_ext; [done|]. intros q. unfold owes.
    destruct (decide (q = ev_pid ev)) as [->|Hq]; [|by rewrite lookup_insert_ne].
    by rewrite lookup_insert_eq, Hp.
  - intros o. rewrite events_of_app, Hlog, events_of_one, <-app_assoc. f_equal.
    unfold waiting. destruct o as [q|]; cbn; [|by rewrite decide_False by congruence].
    destruct (decide (q = ev_pid ev)) as [->|Hq].
    + by rewrite lookup_insert_eq, Hp, decide_True.
    + rewrite lookup_insert_ne, decide_False by congruence. by rewrite app_nil_r.
Qed.

(** A thread exit changes nothing. *)
Lemma inv_ignore min st0 evs log x ev :
  inv min st0 evs log x → entry ev = None →
  inv min st0 (evs ++ [ev]) (log ++ [(ev, (false, true))]) x.
Proof.
  intros [Hidle Hbusy Hring Hlog] He.
  assert (ev_subject ev = None ∧ ∀ s, spec_step min false true s ev = ([], s)) as [Hsub Hspec].
  { destruct ev as [k ctx|k]; cbn in He |- *; [done|]. by destruct (pid_of k =? tid_of k). }
  assert (spec_run min (starts st0) (log ++ [(ev, (false, true))]) =
          spec_run min (starts st0) log) as E.
  { rewrite spec_run_app, spec_run_one, Hspec. cbn. rewrite app_nil_r. by destruct (spec_run _ _ log). }
  split; rewrite ?E; try done. intros o. rewrite fmap_app, !events_of_app, Hlog. cbn [fmap list_fmap fst].
  rewrite events_of_one. destruct o as [q|]; [|unfold waiting; cbn; by rewrite !app_nil_r].
  by rewrite Hsub, decide_False, !app_nil_r by done.
Qed.

Lemma spec_run_other min s q l :
  Forall (fun a : done_event => ev_subject a.1 ≠ Some q) l → (spec_run min s l).2 q = s q.
Proof.
  intros Hl. revert s. induction Hl as [|[ev [a b]] l Hev _ IH]; intros s; [done|]. cbn.
  pose proof (spec_step_other min a b s ev q Hev) as E.
  destruct (spec_step min a b s ev) as [rs s1]. specialize (IH s1).
  destruct (spec_run min s1 l) as [rs2 s2]. cbn in *. congruence.
Qed.

(** A step logs no event but its own. *)
Lemma log_step_event th next st :
  Forall (fun a : done_event => a.1 = pc_event (at_pc th)) (log_step th next st).
Proof. unfold log_step. repeat case_match; by repeat constructor. Qed.

Lemma events_of_log th next st o :
  events_of o (log_step th next st).*1 =
  if decide (ev_subject (pc_event (at_pc th)) = o) then (log_step th next st).*1 else [].
Proof.
  pose proof (log_step_event th next st) as Hf. unfold events_of.
  induction Hf as [|a l Ha _ IH]; [by case_decide|].
  rewrite fmap_cons, filter_cons, IH, Ha. by case_decide.
Qed.

(** An event goes from the waiting ones to the log. *)
Lemma waiting_turn (r : gmap Z thread) p th next st b o :
  r !! p = Some th → ev_subject (pc_event (at_pc th)) = Some p →
  (log_step th next st).*1 ++ (if next is Some c' then unlogged c' else []) = unlogged (at_pc th) →
  waiting r o = events_of o (log_step th next st).*1 ++
    waiting (partial_alter (fun _ => (fun c => Thread c b) <$> next) p r) o.
Proof.
  intros Hp Hsub Hl. rewrite events_of_log, Hsub. unfold waiting.
  destruct o as [q|]; [|by rewrite decide_False by done]. cbn. destruct (decide (q = p)) as [->|Hq].
  - rewrite Hp, lookup_partial_alter_eq, decide_True, <-Hl by done. by destruct next.
  - by rewrite lookup_partial_alter_ne, decide_False by congruence.
Qed.

Lemma inv_turn min st0 evs log x p :
  inv min st0 evs log x → 0 ≤ min →
  inv min st0 evs (log ++ (turn min p x).2) (turn min p x).1.
Proof.
  intros Hi Hm. unfold turn. destruct (running x !! p) as [th|] eqn:Hp; [|by rewrite app_nil_r].
  destruct Hi as [Hidle Hbusy Hring Hlog]. destruct (Hbusy p th Hp) as (Hsub & Hok & Hrel).
  assert (owes (running x) p = promise (at_pc th)) as How by (unfold owes; by rewrite Hp).
  destruct (advance_outcome min p th (shared x) (spec_starts min st0 log) Hsub Hok Hm Hrel)
    as [Hmap Hnext Hr Hl].
  { intros t rep Ht. rewrite <-How in Ht. by destruct (rr_held _ _ _ _ Hring _ _ _ Ht) as (? & _ & ? & _). }
  destruct (advance min (at_pc th) (shared x)) as [next st'] eqn:Ha. cbn [fst snd] in *.
  set (log1 := log_step th next (shared x)) in *.
  assert (∀ q, q ≠ p → spec_starts min st0 (log ++ log1) q = spec_starts min st0 log q) as Hspec.
  { intros q Hq. rewrite spec_run_app. apply spec_run_other.
    eapply Forall_impl; [apply log_step_event|]. intros a ->. congruence. }
  split; cbn [running shared].
  - intros q Hq. destruct (decide (q = p)) as [->|Hne].
    + rewrite lookup_partial_alter_eq in Hq. destruct next; [done|]. by rewrite spec_run_app.
    + rewrite lookup_partial_alter_ne in Hq by done. rewrite Hmap, Hspec by done. by apply Hidle.
  - intros q th1 Hq. destruct (decide (q = p)) as [->|Hne].
    + rewrite lookup_partial_alter_eq in Hq. destruct next as [c'|]; [|done]. injection Hq as <-.
      destruct Hnext as [Hev Hrel']. cbn [at_pc]. rewrite Hev, spec_run_app. done.
    + rewrite lookup_partial_alter_ne in Hq by done. rewrite Hmap, Hspec by done. by apply Hbusy.
  - rewrite spec_run_app. cbn [fst]. apply ring_rel_step with (owes (running x)) (slots (rb (shared x))) p.
    + done.
    + rewrite How. unfold owes at 1. rewrite lookup_partial_alter_eq. by destruct next.
    + intros q Hq. unfold owes. by rewrite lookup_partial_alter_ne.
  - intros o. rewrite fmap_app, events_of_app, <-app_assoc, Hlog. f_equal.
    by apply waiting_turn.
Qed.

Lemma csteps_inv min st evs log x :
  csteps min (Conc ∅ st) evs log x → 0 ≤ min → inv min st evs log x.
Proof.
  intros Hs Hm. remember (Conc ∅ st) as x0 eqn:E.
  induction Hs as [x|x1 e1 l1 x2 e2 l2 x3 _ IH Hstep]; [subst; apply inv_init|].
  specialize (IH E). destruct Hstep as [ev c r st1 Hok He Hp|ev x Hok He|p x].
  - rewrite app_nil_r. by apply inv_start.
  - by apply inv_ignore.
  - rewrite app_nil_r. by apply inv_turn.
Qed.

Lemma schedule_cons min p turns (x : conc M R) :
  schedule min (p :: turns) x =
  ((schedule min turns (turn min p x).1).1,
   (turn min p x).2 ++ (schedule min turns (turn min p x).1).2).
Proof. cbn [schedule]. destruct (turn min p x) as [x1 l1]. cbn. by destruct (schedule min turns x1). Qed.

Lemma schedule_inv min turns st evs log x :
  inv min st evs log x → 0 ≤ min →
  inv min st evs (log ++ (schedule min turns x).2) (schedule min turns x).1.
Proof.
  intros Hi Hm. revert log x Hi. induction turns as [|p turns IH]; intros log x Hi.
  { cbn. by rewrite app_nil_r. }
  rewrite schedule_cons. cbn [fst snd]. rewrite app_assoc. by apply IH, inv_turn.
Qed.

(** ** What the runs promise *)

(** The run that took the kernel objects from [st] to [st'] while [evs]
    arrived is the sequential run [log] of the specification. *)
Record linearized (min : Z) st (evs : list kevent) (log : list done_event) st' : Prop := {
  (** one record per report of the specification, in its order, all
      submitted *)
  lin_ring : ∃ es, slots (rb st') = slots (rb st) ++ (Some <$> es) ∧
                   report_of <$> es = spec_reports min st log;
  lin_starts p : starts st' p = spec_starts min st log p;
  (** every event is in the log once, those of a process in their order *)
  lin_events o : events_of o log.*1 = events_of o evs;
}.

Lemma inv_linearized min st evs log x :
  inv min st evs log x → running x = ∅ → linearized min st evs log (shared x).
Proof.
  intros [Hidle _ Hring Hlog] Hx. split.
  - eapply ring_rel_final; [done|]. intros q. unfold owes. by rewrite Hx, lookup_empty.
  - intros p. apply Hidle. by rewrite Hx, lookup_empty.
  - intros o. rewrite Hlog, Hx. assert (waiting ∅ o = []) as ->; [|rewrite app_nil_r; reflexivity].
    unfold waiting. destruct o as [q|]; cbn; [by rewrite lookup_empty|done].
Qed.

Lemma advance_remaining min c st c' :
  (advance min c st).1 = Some c' → (remaining c' < remaining c)%nat.
Proof. destruct c; cbn; repeat case_match; cbn; intros; simplify_eq; cbn; lia. Qed.

(** The turns a schedule gives a process. *)
Definition turns_of (p : Z) (turns : list Z) : nat := length (filter (fun q => q = p) turns).

Lemma turns_of_cons p q turns :
  turns_of p (q :: turns) = ((if decide (q = p) then 1 else 0) + turns_of p turns)%nat.
Proof. unfold turns_of. rewrite filter_cons. by case_decide. Qed.

Lemma schedule_finishes min turns (x : conc M R) :
  (∀ p th, running x !! p = Some th → (remaining (at_pc th) ≤ turns_of p turns)%nat) →
  running (schedule min turns x).1 = ∅.
Proof.
  revert x. induction turns as [|p turns IH]; intros x Hr.
  { apply map_eq. intros p. rewrite lookup_empty. destruct (running x !! p) as [th|] eqn:E; [|done].
    specialize (Hr p th E). by destruct (at_pc th); cbn in Hr; lia. }
  assert (∀ q th, running (turn min p x).1 !! q = Some th →
            (remaining (at_pc th) ≤ turns_of q turns)%nat) as Hr1.
  { unfold turn. intros q th Hq. destruct (running x !! p) as [th0|] eqn:Hp.
    2: { cbn in Hq. specialize (Hr q th Hq). rewrite turns_of_cons, decide_False in Hr by congruence. done. }
    pose proof (advance_remaining min (at_pc th0) (shared x)) as Hdec.
    destruct (advance min (at_pc th0) (shared x)) as [next st']. cbn in Hq, Hdec.
    destruct (decide (p = q)) as [<-|Hne].
    - rewrite lookup_partial_alter_eq in Hq. destruct next as [c'|]; [|done]. injection Hq as <-.
      specialize (Hr p th0 Hp). rewrite turns_of_cons, decide_True in Hr by done.
      specialize (Hdec c' eq_refl). cbn. lia.
    - rewrite lookup_partial_alter_ne in Hq by done. specialize (Hr q th Hq).
      by rewrite turns_of_cons, decide_False in Hr. }
  rewrite schedule_cons. by apply IH.
Qed.
End Proofs.

(** ** Properties *)
Section Properties.
Context {M R : Type} `{BpfHashLaws M Z Z} `{RingSlotsLaws R event}.

(** C2. Linearizability: however the helper calls of handlers on different
    CPUs interleave, once all handlers have returned the ring holds one
    submitted record per report of the specification for the log, in the
    order of the log, and nothing else; [exec_start] holds the start times of
    that sequential run; and the log contains every event that arrived
    exactly once, the events of each process in the order they arrived. *)
Theorem concurrent_refines min (st : bpf_state M R) evs log st' :
  0 ≤ min → csteps min (Conc ∅ st) evs log (Conc ∅ st') → linearized min st evs log st'.
Proof. intros Hm Hs. apply (inv_linearized _ _ _ _ (Conc ∅ st')); [by apply csteps_inv|done]. Qed.

(** C13. Wait-freedom and total correctness: take any state the handlers can
    be in, in the middle of any number of events.  Under every schedule that
    gives each running handler at least the turns it has left, which are
    never more than four, all handlers return, whatever the kernel objects
    answer, and what the whole run leaves in the ring and in [exec_start] is
    what the specification says of its log. *)
Theorem handlers_finish min (st : bpf_state M R) evs log x turns :
  0 ≤ min → csteps min (Conc ∅ st) evs log x →
  (∀ p th, running x !! p = Some th → (remaining (at_pc th) ≤ turns_of p turns)%nat) →
  let '(x', log') := schedule min turns x in
  running x' = ∅ ∧ linearized min st evs (log ++ log') (shared x').
Proof.
  intros Hm Hs Hr. pose proof (schedule_finishes min turns x Hr) as Hf.
  pose proof (schedule_inv min turns st evs log x (csteps_inv _ _ _ _ _ Hs Hm) Hm) as Hi.
  destruct (schedule min turns x) as [x' log']. split; [done|]. by apply inv_linearized.
Qed.

(** The ring as a single handler sees it: the record it submits is the one
    it reserved last. *)
#[local] Instance last_slot : RingBuf R event := {
  rb_reserve r n := '(t, old, r') ← slot_reserve r n; Some (old, r');
  rb_submit r e := slot_submit r (pred (length (slots r))) e;
  rb_samples r := omap id (slots r);
  rb_pending r := length (filter (fun o => o = None) (slots r));
}.

(** The decomposition is that of the code: started on its event and run
    without interruption, the sequence of steps ends within four of them in
    exactly the state the handler as a whole produces. *)
Lemma steps_are_handlers min (st : bpf_state M R) ev :
  match entry ev with
  | None => step min st ev = st
  | Some c => finish min 4 c st = Some (step min st ev)
  end.
Proof.
  assert (∀ (r : R) n t old r', slot_reserve r n = Some (t, old, r') → pred (length (slots r')) = t) as Ht.
  { intros r n t old r' Hr. rewrite (slot_reserve_slots _ _ _ _ _ Hr), length_app. cbn.
    rewrite (slot_reserve_place _ _ _ _ _ Hr). lia. }
  destruct st as [es r]. destruct ev as [k ctx|k]; cbn [entry step].
  - unfold handle_exec. cbn. destruct (min =? 0); cbn; [|done].
    destruct (slot_reserve r _) as [[[t old] r']|] eqn:Hr; cbn; [|done]. by rewrite (Ht _ _ _ _ _ Hr).
  - unfold handle_exit. destruct (pid_of k =? tid_of k); cbn; [|done]. unfold exit_report. cbn.
    destruct (map_lookup es (pid_of k)) as [t0|]; cbn.
    + destruct (negb (min =? 0) && _); cbn; [done|].
      destruct (slot_reserve r _) as [[[t old] r']|] eqn:Hr; cbn; [|done]. by rewrite (Ht _ _ _ _ _ Hr).
    + destruct (min =? 0) eqn:Em; cbn; [|done]. rewrite Em. cbn.
      destruct (slot_reserve r _) as [[[t old] r']|] eqn:Hr; cbn; [|done]. by rewrite (Ht _ _ _ _ _ Hr).
Qed.
End Properties.

(** ** A concrete interleaving

    Process 42 executes a program while process 7, started at time 1000,
    exits; each step of one is followed by a step of the other, and process
    7 submits its record last. *)
Definition conc_st : bpf_state (hmap Z Z) (slot_ring event) :=
  BpfState (HMap 64 {[7 := 1000]}) (SlotRing 8 (fun _ => demo_stale) []).
Definition conc_exit : kctx := mk_kctx 7 7 6000 1 768 "sleep" "".
Definition conc_evs : list kevent := [KExec demo_exec (ExecCtx 4096 0x80018); KExit conc_exit].
Definition conc_start : conc (hmap Z Z) (slot_ring event) :=
  Conc (<[7 := Thread (Lookup conc_exit) false]>
        (<[42 := Thread (Update demo_exec (ExecCtx 4096 0x80018)) false]> ∅)) conc_st.
Definition conc_turns : list Z := [7; 7; 7; 42; 42; 42; 7].

Lemma conc_started : csteps 0 (Conc ∅ conc_st) conc_evs [] conc_start.
Proof.
  eapply (CStep _ _ [_] [] _ [_] []).
  - eapply (CStep _ _ [] [] _ [_] []); [constructor|].
    apply (CStart 0 (KExec demo_exec (ExecCtx 4096 0x80018))); [apply demo_kctx_ok|reflexivity..].
  - apply (CStart 0 (KExit conc_exit)); [|reflexivity..].
    apply mk_kctx_ok; unfold is_u, is_s; lia.
Qed.

Definition conc_end : conc (hmap Z Z) (slot_ring event) := (schedule 0 conc_turns conc_start).1.
Definition conc_log : list done_event := (schedule 0 conc_turns conc_start).2.

Example conc_end_records :
  omap id (slots (rb (shared conc_end))) ≫= (fun e => [report_of e]) =
    [RExit 7 1 3 5000 (Some "sleep"); RExec 42 1 (Some "sh") (Some "/bin/sh")]%string.
Proof. vm_compute. reflexivity. Qed.

Lemma handlers_finish_witness :
  running conc_end = ∅ ∧ linearized 0 conc_st conc_evs ([] ++ conc_log) (shared conc_end).
Proof.
  assert (∀ p th, running conc_start !! p = Some th →
            (remaining (at_pc th) ≤ turns_of p conc_turns)%nat) as Hr.
  { intros p th Hp. unfold conc_start in Hp. cbn [running] in Hp.
    apply lookup_insert_Some in Hp as [[<- <-]|[_ Hp]]; [vm_compute; lia|].
    apply lookup_insert_Some in Hp as [[<- <-]|[_ Hp]]; [vm_compute; lia|].
    by rewrite lookup_empty in Hp. }
  pose proof (handlers_finish 0 conc_st conc_evs [] conc_start conc_turns ltac:(lia) conc_started Hr) as Hf.
  unfold conc_end, conc_log. by destruct (schedule 0 conc_turns conc_start).
Defined.

Lemma schedule_csteps {M R} `{BpfHash M Z Z} `{RingSlots R event} min turns (x0 x : conc M R) evs log :
  csteps min x0 evs log x →
  csteps min x0 evs (log ++ (schedule min turns x).2) (schedule min turns x).1.
Proof.
  revert log x. induction turns as [|p turns IH]; intros log x Hs; [cbn; by rewrite app_nil_r|].
  apply (CStep _ _ _ _ _ [] (turn min p x).2 (turn min p x).1) in Hs; [|constructor].
  rewrite app_nil_r in Hs. rewrite schedule_cons. cbn [fst snd]. rewrite app_assoc. by apply IH.
Qed.

Lemma concurrent_refines_witness :
  linearized 0 conc_st conc_evs conc_log (shared conc_end).
Proof.
  apply (concurrent_refines 0 conc_st conc_evs conc_log (shared conc_end)); [lia|].
  pose proof (schedule_csteps 0 conc_turns _ _ _ _ conc_started) as Hs. fold conc_log in Hs.
  fold conc_end in Hs. replace (Conc ∅ (shared conc_end)) with conc_end; [done|].
  vm_compute. reflexivity.
Defined.
