(* ===== verification/BootstrapLimits.v ===== *)
(** * bootstrap: the limits of its kernel objects and the types of its records

    The declared size of [exec_start], when it is enough, and the fields of
    the records within the types of [struct event]. *)
From S2P Require Import Prelude CInt CFormat BpfKernel BootstrapBpf.
Local Open Scope Z_scope.

(** [exec_start] as declared: an empty hash map of 8192 entries. *)
Definition exec_start_max_entries : nat := Z.to_nat 8192.
Definition exec_start_map : hmap Z Z := HMap exec_start_max_entries ∅.

(** ** The processes that are being timed *)

(** The processes that executed a program and have not exited, after one
    more event. *)
Definition alive_step (l : list Z) (ev : kevent) : list Z :=
  match ev with
  | KExec k _ => if decide (pid_of k ∈ l) then l else pid_of k :: l
  | KExit k => if pid_of k =? tid_of k then filter (fun p => p ≠ pid_of k) l else l
  end.
Definition alive (evs : list kevent) : list Z := fold_left alive_step evs [].

(** At every point of the run at most [n] processes are being timed. *)
Fixpoint within (n : nat) (l : list Z) (evs : list kevent) : bool :=
  match evs with
  | [] => true
  | ev :: t => (length (alive_step l ev) <=? n)%nat && within n (alive_step l ev) t
  end.

Definition is_exec (ev : kevent) : bool := match ev with KExec _ _ => true | KExit _ => false end.

Section Limits.
Context {M R : Type} `{BpfHashLaws M Z Z} `{!BpfHashCap M Z Z} `{RingBufLaws R event}.
Implicit Types (st : bpf_state M R).

Definition timed st (l : list Z) : Prop := ∀ p, is_Some (starts st p) ↔ p ∈ l.

(** Enough room for the event: its update succeeds. *)
Lemma exec_recorded st l k ctx :
  timed st l → (length (alive_step l (KExec k ctx)) ≤ map_cap (exec_start st))%nat →
  recorded st (KExec k ctx) = true.
Proof.
  intros Ht Hn. cbn in *. apply Z.eqb_eq. destruct (decide (pid_of k ∈ l)) as [Hin|Hout].
  - destruct (proj2 (Ht _) Hin) as [t0 E]. by eapply cap_bound.
  - eapply cap_room; [intros q Hq; by apply Ht|]. cbn in Hn. lia.
Qed.

Lemma timed_step min st l ev :
  timed st l → (is_exec ev = true → recorded st ev = true) →
  timed (step min st ev) (alive_step l ev).
Proof.
  intros Ht Hr p. rewrite step_starts. destruct ev as [k ctx|k]; cbn [spec_step alive_step snd].
  - rewrite (Hr eq_refl). unfold set_start. destruct (Z.eqb_spec p (pid_of k)) as [->|Hp].
    + case_decide; rewrite ?elem_of_cons; split; eauto.
    + rewrite (Ht p). case_decide; [done|]. rewrite elem_of_cons. naive_solver.
  - destruct (pid_of k =? tid_of k); [|apply Ht]. cbn. rewrite list_elem_of_filter.
    unfold set_start. destruct (Z.eqb_spec p (pid_of k)) as [->|Hp].
    + split; [by intros [? ?]|naive_solver].
    + rewrite (Ht p). naive_solver.
Qed.

Lemma step_cap min st ev : map_cap (exec_start (step min st ev)) = map_cap (exec_start st).
Proof.
  destruct ev as [k ctx|k]; cbn [step].
  - unfold handle_exec. rewrite <-(cap_update (exec_start st) (pid_of k) (k_ktime k)).
    by repeat case_cond.
  - pose proof (cap_delete (exec_start st) (pid_of k)) as Hd.
    unfold handle_exit, exit_report. by repeat case_cond.
Qed.

(** C16. As long as no more processes are being timed at once than the map
    has entries, every [exec] is recorded, and at the end the map holds an
    entry for exactly the processes that executed a program and have not
    exited: nothing is lost and nothing is left behind. *)
Theorem no_start_lost min st evs :
  (∀ p, starts st p = None) → within (map_cap (exec_start st)) [] evs = true →
  Forall (fun x => is_exec x.1 = true → x.2.1 = true) (annotate min st evs) ∧
  ∀ p, is_Some (starts (run min st evs) p) ↔ p ∈ alive evs.
Proof.
  intros Hnone. assert (timed st []) as Ht.
  { intros p. rewrite Hnone. split; [by intros [? ?]|by intros ?%not_elem_of_nil]. }
  clear Hnone. unfold alive. revert Ht. generalize (@nil Z) as l. revert st.
  induction evs as [|ev evs IH]; intros st l Ht Hw; cbn [annotate fold_left]; [done|].
  cbn in Hw. apply andb_true_iff in Hw as [Hn Hw]. apply Nat.leb_le in Hn.
  assert (is_exec ev = true → recorded st ev = true) as Hr.
  { destruct ev as [k ctx|k]; [|done]. intros _. by eapply exec_recorded. }
  rewrite run_cons. destruct (IH (step min st ev) (alive_step l ev)) as [IH1 IH2].
  - by apply timed_step.
  - by rewrite step_cap.
  - split; [by constructor|done].
Qed.

(** ** Types *)

(** The members of the record hold values of their types. *)
Record typed (e : event) : Prop := {
  t_pid : is_s 32 (pid e);
  t_ppid : is_s 32 (ppid e);
  t_exit_code : is_u 32 (exit_code e);
  t_duration : is_u 64 (duration_ns e);
  t_comm : length (comm e) = TASK_COMM_LEN;
  t_filename : length (filename e) = MAX_FILENAME_LEN;
}.

(** Memory of the ring read as a record: whatever the bytes are, each member
    is a value of its type. *)
Definition ring_typed : Prop := ∀ (r : R) n e r', rb_reserve r n = Some (e, r') → typed e.

Lemma comm_fits k old :
  kctx_ok k → length old = TASK_COMM_LEN →
  length (buf_write old (k_comm k TASK_COMM_LEN).2) = TASK_COMM_LEN.
Proof.
  intros Hk Hl. destruct (ok_comm k Hk TASK_COMM_LEN) as [_ Hn]; [unfold TASK_COMM_LEN; lia|].
  rewrite length_buf_write; lia.
Qed.

Lemma exec_record_typed k ctx e : ev_ok (KExec k ctx) → typed e → typed (exec_record k ctx e).
Proof.
  intros Hk [? ? ? ? Hc Hn]. cbn in Hk. split; cbn; try done.
  - apply pid_of_range.
  - apply (ok_parent k Hk).
  - by apply comm_fits.
  - rewrite length_buf_write; [done|]. rewrite Hn. by apply exec_filename_terminated.
Qed.

Lemma exit_record_typed k dur e :
  kctx_ok k → is_u 64 dur → typed e → typed (exit_record k dur e).
Proof.
  intros Hk Hd [? ? ? ? Hc Hn]. split; cbn -[Z.land]; try done.
  - apply pid_of_range.
  - apply (ok_parent k Hk).
  - rewrite wait_status_eq. pose proof (wait_status_range (k_exit_code k)) as Hw.
    unfold is_u in *. lia.
  - by apply comm_fits.
Qed.

Lemma exit_report_typed min dur k es (r : R) :
  ring_typed → kctx_ok k → is_u 64 dur → Forall typed (rb_samples r) →
  Forall typed (rb_samples (rb (exit_report (M := M) min dur k es r).1)).
Proof.
  intros Hring Hk Hd Hs. unfold exit_report. case_match; [done|].
  destruct (rb_reserve r sizeof_event) as [[e rb1]|] eqn:Hr; [|done]. cbn.
  rewrite (reserve_submit_samples _ _ _ _ _ Hr). apply Forall_app. split; [done|].
  apply Forall_singleton, exit_record_typed; [done..|]. by eapply Hring.
Qed.

Lemma step_typed min st ev :
  ring_typed → ev_ok ev → Forall typed (rb_samples (rb st)) →
  Forall typed (rb_samples (rb (step min st ev))).
Proof.
  intros Hring Hev Hs. destruct ev as [k ctx|k]; cbn [step].
  - unfold handle_exec. case_match; [done|].
    destruct (rb_reserve (rb st) sizeof_event) as [[e rb1]|] eqn:Hr; [|done]. cbn.
    rewrite (reserve_submit_samples _ _ _ _ _ Hr). apply Forall_app. split; [done|].
    apply Forall_singleton, exec_record_typed; [done|]. by eapply Hring.
  - unfold handle_exit. case_match; [done|]. case_match.
    + apply exit_report_typed; try done. by apply wrap_range.
    + case_match; [done|]. by apply exit_report_typed.
Qed.

(** C21. Over any run every record in the ring holds values of the types of
    [struct event]: signed 32-bit ids, an exit code and a duration within
    their widths, arrays of the declared lengths. *)
Theorem records_typed min st evs :
  ring_typed → Forall ev_ok evs → Forall typed (rb_samples (rb st)) →
  Forall typed (rb_samples (rb (run min st evs))).
Proof.
  intros Hring Hok. revert st. induction Hok as [|ev evs Hev _ IH]; intros st Hs; [done|].
  rewrite run_cons. by apply IH, step_typed.
Qed.
End Limits.

(** ** Concrete runs *)

(** [exec_start] at its declared size, a process that is timed and exits
    while another one stays. *)
Definition limits_st : bpf_state (hmap Z Z) (ring event) :=
  BpfState exec_start_map (Ring 8 (fun _ => demo_stale) [] 0).
Definition limits_evs : list kevent :=
  KExec (mk_kctx 7 7 900 1 0 "sleep" "/bin/sleep") (ExecCtx 4096 0x80018) :: demo_evs.

Lemma no_start_lost_witness :
  alive limits_evs = [7] ∧
  Forall (fun x => is_exec x.1 = true → x.2.1 = true) (annotate 0 limits_st limits_evs) ∧
  ∀ p, is_Some (starts (run 0 limits_st limits_evs) p) ↔ p ∈ alive limits_evs.
Proof.
  split; [vm_compute; reflexivity|].
  apply (no_start_lost 0 limits_st limits_evs); [|vm_compute; reflexivity].
  intros p. unfold starts. cbn. apply lookup_empty.
Defined.

Lemma demo_stale_typed : typed demo_stale.
Proof. split; cbn; unfold is_u, is_s; try lia; reflexivity. Qed.

Lemma records_typed_witness :
  let _ := fixed_ring demo_stale in
  Forall typed (rb_samples (rb (run 0 (BpfState exec_start_map (8%nat, [], 0%nat)) demo_evs))).
Proof.
  cbv zeta. pose proof (fixed_ring_laws demo_stale) as Hl.
  apply (records_typed (H1 := fixed_ring demo_stale) 0
           (BpfState exec_start_map (8%nat, [], 0%nat)) demo_evs).
  - intros [[[|c] q] o] n e r'; cbn; intros; simplify_eq. apply demo_stale_typed.
  - apply demo_evs_ok.
  - constructor.
Defined.
