(* ===== verification/BootstrapUser.v ===== *)
(** * bootstrap: the user side ([bootstrap.c]) without [main]

    Command line handling, the libbpf print callback and the ring buffer
    callback that prints one line per record. *)
From S2P Require Import Prelude CInt CFormat BpfKernel BootstrapBpf.
Local Open Scope Z_scope.

(** [static struct env] *)
Record env := Env { verbose : bool; min_duration_ms : Z }.

(** What one call of an argp parser does: return a code with the new
    settings, or print a usage message and leave the program. *)
Inductive parse_res (E : Type) :=
| PRet (e : E) (code : Z)
| PUsage (err : string).
Arguments PRet {_} _ _.
Arguments PUsage {_} _.

Definition ARGP_KEY_ARG : Z := 0.
Definition ARGP_ERR_UNKNOWN : Z := 7.

Definition parse_arg (key : Z) (arg : string) (e : env) : parse_res env :=
  if key =? 118 (* 'v' *) then PRet (Env true (min_duration_ms e)) 0
  else if key =? 100 (* 'd' *) then
    let '(v, errno) := strtol arg in
    if negb (errno =? 0) || (v <=? 0)
    then PUsage ("Invalid duration: " +:+ arg +:+ newline)
    else PRet (Env (verbose e) v) 0
  else if key =? ARGP_KEY_ARG then PUsage ""
  else PRet e ARGP_ERR_UNKNOWN.

(** [argp_parse]: the parser is called on the options and arguments in
    order; a non-zero code stops the parse and is returned. *)
Fixpoint argp_parse {E} (parser : Z → string → E → parse_res E) (e : E)
    (args : list (Z * string)) : parse_res E :=
  match args with
  | [] => PRet e 0
  | (key, arg) :: t =>
      match parser key arg e with
      | PUsage m => PUsage m
      | PRet e1 c => if c =? 0 then argp_parse parser e1 t else PRet e1 c
      end
  end.

Definition LIBBPF_DEBUG : Z := 2.

(** [text] is the message [vfprintf] would print; the result is what goes to
    stderr and the code. *)
Definition libbpf_print_fn (e : env) (level : Z) (text : string) : string * Z :=
  if (level =? LIBBPF_DEBUG) && negb (verbose e) then (EmptyString, 0)
  else (text, Z.of_nat (String.length text)).

(** [skel->rodata->min_duration_ns = env.min_duration_ms * 1000000ULL]: the
    [long] is converted to [unsigned long long] first. *)
Definition min_duration_ns (e : env) : Z := u64 (u64 (min_duration_ms e) * 1000000).

(** The line printed for a record, [None] if a string in it is not
    terminated; [ts] is the current time as [strftime] renders it. *)
Definition line_head (ts kind c : string) (p pp : Z) : string :=
  pad_right 8 ts +:+ " " +:+ pad_right 5 kind +:+ " " +:+ pad_right 16 c +:+ " " +:+
  pad_right 7 (dec p) +:+ " " +:+ pad_right 7 (dec pp) +:+ " ".

Definition handle_event (ts : string) (e : event) : option string :=
  if exit_event e then
    c ← cstr (comm e);
    Some (line_head ts "EXIT" c (pid e) (ppid e) +:+ "[" +:+ dec (exit_code e) +:+ "]" +:+
          (if negb (duration_ns e =? 0)
           then " (" +:+ dec (duration_ns e / 1000000) +:+ "ms)" else "") +:+ newline)
  else
    c ← cstr (comm e);
    f ← cstr (filename e);
    Some (line_head ts "EXEC" c (pid e) (ppid e) +:+ f +:+ newline).

(** ** What a report looks like to the reader *)
Definition print_report (ts : string) (r : report) : option string :=
  match r with
  | RExit p pp code dur c =>
      c ← c;
      Some (line_head ts "EXIT" c p pp +:+ "[" +:+ dec code +:+ "]" +:+
            (if negb (dur =? 0) then " (" +:+ dec (dur / 1000000) +:+ "ms)" else "") +:+ newline)
  | RExec p pp c f =>
      c ← c; f ← f;
      Some (line_head ts "EXEC" c p pp +:+ f +:+ newline)
  end.

Example handle_event_exit :
  handle_event "19:18:38"
    (Event 3817429 3817424 1 60999999 (str_bytes 16 "python3") (repeat "?"%char 127) true) =
  Some ("19:18:38 EXIT  python3          3817429 3817424 [1] (60ms)" +:+ newline).
Proof. reflexivity. Qed.

Lemma handle_event_report ts e : handle_event ts e = print_report ts (report_of e).
Proof. unfold handle_event, report_of. by destruct (exit_event e). Qed.

Definition terminated (r : report) : Prop :=
  match r with
  | RExit _ _ _ _ c => is_Some c
  | RExec _ _ c f => is_Some c ∧ is_Some f
  end.

Lemma print_report_some ts r : terminated r → is_Some (print_report ts r).
Proof.
  destruct r as [p pp c f|p pp code dur c]; cbn; [intros [[c' ->] [f' ->]]|intros [c' ->]];
    cbn; by eexists.
Qed.

Lemma comm_terminated k : kctx_ok k → is_Some (cstr (k_comm k TASK_COMM_LEN).2).
Proof. intros Hk. apply cstr_some, (ok_comm k Hk). unfold TASK_COMM_LEN. lia. Qed.

Lemma spec_step_terminated min a b s ev :
  ev_ok ev → Forall terminated (spec_step min a b s ev).1.
Proof.
  destruct ev as [k ctx|k]; cbn [ev_ok spec_step]; intros Hk.
  - cbn [fst]. case_match; [|done]. apply Forall_singleton.
    split; [by apply comm_terminated|].
    by apply cstr_some, exec_filename_terminated.
  - case_match; [|done]. cbn [fst]. case_match; [|done].
    apply Forall_singleton. by apply comm_terminated.
Qed.

Lemma spec_run_terminated min s evs :
  Forall (fun x => ev_ok x.1) evs → Forall terminated (spec_run min s evs).1.
Proof.
  intros Hok. revert s.
  induction Hok as [|[ev [a b]] evs Hev _ IH]; intros s; [done|]. cbn in *.
  pose proof (spec_step_terminated min a b s ev Hev) as Hstep.
  destruct (spec_step min a b s ev) as [rs s1]. specialize (IH s1).
  destruct (spec_run min s1 evs) as [rs' s2]. by apply Forall_app.
Qed.

Section Properties.
Context {M R : Type} `{BpfHashLaws M Z Z} `{RingBufLaws R event}.

Lemma annotate_ok min (st : bpf_state M R) evs :
  Forall ev_ok evs → Forall (fun x => ev_ok x.1) (annotate min st evs).
Proof.
  intros Hok. revert st. induction Hok; intros st; cbn; by constructor.
Qed.

(** End to end: the lines user space prints for the records of a run
    are the renderings of the specified reports, each of them a complete
    line.  In particular nothing of what the ring memory held before (the
    fields and array tails the kernel side leaves unwritten) reaches the
    output. *)
Theorem printed_lines min (st : bpf_state M R) evs ts :
  Forall ev_ok evs → 0 ≤ min →
  ∃ es lines,
    rb_samples (rb (run min st evs)) = rb_samples (rb st) ++ es ∧
    handle_event ts <$> es = Some <$> lines ∧
    print_report ts <$> (spec_run min (starts st) (annotate min st evs)).1 = Some <$> lines.
Proof.
  intros Hok Hm.
  destruct (run_refines_from min evs st _ Hok Hm (fun p => eq_refl)) as (es & (Hs & _) & Hrep).
  pose proof (spec_run_terminated min (starts st) _ (annotate_ok min st evs Hok)) as Ht.
  exists es.
  assert (handle_event ts <$> es =
          print_report ts <$> (spec_run min (starts st) (annotate min st evs)).1) as Hpr.
  { rewrite <- Hrep, <- list_fmap_compose. apply list_fmap_ext.
    intros _ e _. apply handle_event_report. }
  rewrite Hpr. clear Hpr Hrep.
  induction Ht as [|r rs Hr _ [lines IH]]; [by exists []|].
  destruct (print_report_some ts r Hr) as [l Hl]. destruct IH as (? & IH & _).
  exists (l :: lines). cbn. by rewrite Hl, IH.
Qed.
End Properties.

Lemma printed_lines_witness :
  Forall ev_ok demo_evs ∧ 0 ≤ 0 ∧
  ∃ es lines,
    rb_samples (rb (run 0 demo_st demo_evs)) = rb_samples (rb demo_st) ++ es ∧
    handle_event "10:00:00" <$> es = Some <$> lines ∧
    print_report "10:00:00" <$> (spec_run 0 (starts demo_st) (annotate 0 demo_st demo_evs)).1
      = Some <$> lines.
Proof.
  split; [apply demo_evs_ok|]. split; [lia|].
  apply (printed_lines 0 demo_st demo_evs "10:00:00"); [apply demo_evs_ok|lia].
Defined.

(** Command line round trip: [-d] with the decimal text of a [long] sets
    the minimum duration to it when it is positive, and otherwise ends the
    program with a usage message. *)
Theorem parse_arg_duration n e :
  is_s 64 n →
  parse_arg 100 (dec n) e =
    if 0 <? n then PRet (Env (verbose e) n) 0
    else PUsage ("Invalid duration: " +:+ dec n +:+ newline).
Proof.
  intros Hn. unfold parse_arg. cbn [Z.eqb]. rewrite strtol_dec by done. cbn [negb Z.eqb orb].
  destruct (Z.leb_spec n 0), (Z.ltb_spec 0 n); (done || lia).
Qed.

Lemma parse_arg_duration_witness :
  is_s 64 50 ∧ parse_arg 100 (dec 50) (Env false 0) = PRet (Env false 50) 0.
Proof.
  split; [unfold is_s; lia|]. apply (parse_arg_duration 50 (Env false 0)). unfold is_s. lia.
Defined.

(** C39. The threshold handed to the kernel is the requested number of
    milliseconds in nanoseconds exactly up to 18446744073709 ms; every larger
    request is accepted by the option parser and wraps around to a smaller
    threshold. *)
Theorem min_duration_exact e :
  0 < min_duration_ms e ≤ LONG_MAX →
  (min_duration_ns e = min_duration_ms e * 1000000 ↔ min_duration_ms e ≤ 18446744073709) ∧
  (18446744073709 < min_duration_ms e → min_duration_ns e < min_duration_ms e * 1000000).
Proof.
  unfold LONG_MAX. intros [Hlo Hhi]. unfold min_duration_ns, u64.
  rewrite (wrap_small 64 (min_duration_ms e)) by (unfold is_u; lia).
  pose proof (wrap_range 64 (min_duration_ms e * 1000000) ltac:(lia)) as Hr.
  unfold is_u in Hr. change (2 ^ 64) with 18446744073709551616 in Hr.
  assert (min_duration_ms e ≤ 18446744073709 →
          wrap 64 (min_duration_ms e * 1000000) = min_duration_ms e * 1000000) as Hex.
  { intros. apply wrap_small. unfold is_u. change (2 ^ 64) with 18446744073709551616. lia. }
  split; [split; [|done]; lia|lia].
Qed.

Lemma min_duration_exact_witness :
  (min_duration_ns (Env false 50) = 50 * 1000000 ↔ 50 ≤ 18446744073709) ∧
  (18446744073709 < 50 → min_duration_ns (Env false 50) < 50 * 1000000).
Proof. apply (min_duration_exact (Env false 50)). cbn. unfold LONG_MAX. lia. Defined.

(** A request that wraps to zero switches the filter off. *)
Example min_duration_wraps_to_zero : min_duration_ns (Env false (2 ^ 58)) = 0.
Proof. reflexivity. Qed.
