(* ===== verification/SockfilterBpf.v ===== *)
(** * sockfilter: the kernel side ([sockfilter.bpf.c], [sockfilter.h])

    A socket filter that reports unfragmented IPv4 packets through a ring
    buffer.  The byte order of the target is a parameter. *)
From S2P Require Import Prelude CInt CFormat BpfKernel.
Local Open Scope Z_scope.

Definition IP_MF : Z := 0x2000.
Definition IP_OFFSET : Z := 0x1FFF.
Definition ETH_HLEN : Z := 14.
Definition ETH_P_IP : Z := 0x0800.
Definition IPPROTO_GRE : Z := 47.

(** Offsets in [struct iphdr]. *)
Definition off_frag_off : Z := 6.
Definition off_protocol : Z := 9.
Definition off_saddr : Z := 12.
Definition off_daddr : Z := 16.

(** [struct so_event]; the anonymous union is its [ports] member, and
    [port16] the other view of the same bytes. *)
Record so_event := SoEvent {
  src_addr : Z;
  dst_addr : Z;
  ports : Z;
  ip_proto : Z;
  pkt_type : Z;
  ifindex : Z;
}.

Definition port16 (en : endian) (e : so_event) (i : nat) : Z :=
  load en (take 2 (drop (2 * i) (store en 4 (ports e)))).

Definition sizeof_so_event : Z :=
  sizeof_struct [(4, 4); (4, 4); (4, 4); (4, 4); (4, 4); (4, 4)].

(** The packet buffer: [bpf_skb_load_bytes (skb, off, to, n)] answers with a
    code and the bytes it stores in [to]. *)
Record sk_buff := SkBuff {
  skb_load : Z → nat → Z * list Z;
  skb_pkt_type : Z;
  skb_ifindex : Z;
  skb_len : Z;
}.

(** Documented behaviour: inside the packet the helper copies its bytes,
    outside it fails; the destination is written either way. *)
Record skb_holds (pkt : list Z) (skb : sk_buff) : Prop := {
  holds_bytes : Forall is_byte pkt;
  holds_in off n : 0 ≤ off → (Z.to_nat off + n ≤ length pkt)%nat →
    skb_load skb off n = (0, take n (drop (Z.to_nat off) pkt));
  holds_out off n : (length pkt < Z.to_nat off + n)%nat → (skb_load skb off n).1 < 0;
  holds_len off n : length (skb_load skb off n).2 = n;
}.

Definition skb_u (en : endian) (skb : sk_buff) (off : Z) (n : nat) : Z :=
  load en (skb_load skb off n).2.

Section Handler.
Context (en : endian) {R : Type} `{RingBuf R so_event}.

Definition ip_is_fragment (skb : sk_buff) (nhoff : Z) : Z :=
  let frag_off := ntohs en (skb_u en skb (u32 (nhoff + off_frag_off)) 2) in
  Z.land frag_off (Z.lor IP_MF IP_OFFSET).

(** Filling the reserved record [e]: [ip_proto] is a four-byte member of
    which one byte is loaded. *)
Definition fill_event (skb : sk_buff) (e : so_event) : so_event :=
  let nhoff := ETH_HLEN in
  let proto := load en (buf_write (store en 4 (ip_proto e))
                          (skb_load skb (u32 (nhoff + off_protocol)) 1).2) in
  let not_gre := negb (proto =? IPPROTO_GRE) in
  let src := if not_gre then skb_u en skb (u32 (nhoff + off_saddr)) 4 else src_addr e in
  let dst := if not_gre then skb_u en skb (u32 (nhoff + off_daddr)) 4 else dst_addr e in
  let verlen := skb_u en skb (u32 (nhoff + 0)) 1 in
  {| ip_proto := proto;
     src_addr := src;
     dst_addr := dst;
     ports := skb_u en skb (u32 (nhoff + Z.shiftl (Z.land verlen 0xF) 2)) 4;
     pkt_type := skb_pkt_type skb;
     ifindex := skb_ifindex skb |}.

Definition socket_handler (skb : sk_buff) (rb : R) : R * Z :=
  let nhoff := ETH_HLEN in
  let proto := ntohs en (skb_u en skb 12 2) in
  if negb (proto =? ETH_P_IP) then (rb, 0)
  else if negb (ip_is_fragment skb nhoff =? 0) then (rb, 0)
  else match rb_reserve rb sizeof_so_event with
       | None => (rb, 0)
       | Some (e, rb1) => (rb_submit rb1 (fill_event skb e), skb_len skb)
       end.
End Handler.

(** ** The packets the filter is about *)

Definition field (pkt : list Z) (off n : nat) : Z := be_value (take n (drop off pkt)).

(** An IPv4 header behind an Ethernet header, with the first four bytes of
    its payload inside the packet. *)
Definition ihl (pkt : list Z) : nat := Z.to_nat (field pkt 14 1 mod 16).
Definition is_ipv4 (pkt : list Z) : bool := field pkt 12 2 =? 0x0800.
Definition more_fragments (pkt : list Z) : bool := Z.testbit (field pkt 20 2) 13.
Definition fragment_offset (pkt : list Z) : Z := field pkt 20 2 mod 2 ^ 13.
Definition fragmented (pkt : list Z) : bool :=
  more_fragments pkt || negb (fragment_offset pkt =? 0).
Definition complete (pkt : list Z) : Prop :=
  (34 ≤ length pkt)%nat ∧ (14 + 4 * ihl pkt + 4 ≤ length pkt)%nat.

Definition proto_of (pkt : list Z) : Z := field pkt 23 1.
Definition saddr_of (pkt : list Z) : Z := field pkt 26 4.
Definition daddr_of (pkt : list Z) : Z := field pkt 30 4.
Definition sport_of (pkt : list Z) : Z := field pkt (14 + 4 * ihl pkt) 2.
Definition dport_of (pkt : list Z) : Z := field pkt (14 + 4 * ihl pkt + 2) 2.

(** ** Reading fields *)

Lemma ntohs_load_list en l :
  Forall is_byte l → length l = 2%nat → ntohs en (load en l) = be_value l.
Proof.
  intros Hb Hl. destruct l as [|a [|b [|]]]; try done.
  rewrite !Forall_cons in Hb. destruct Hb as (? & ? & _). by apply ntohs_load.
Qed.

Lemma ntohl_load_list en l :
  Forall is_byte l → length l = 4%nat → ntohl en (load en l) = be_value l.
Proof.
  intros Hb Hl. destruct l as [|a [|b [|c [|d [|]]]]]; try done.
  rewrite !Forall_cons in Hb. destruct Hb as (? & ? & ? & ? & _). by apply ntohl_load.
Qed.

Lemma load_single en l : length l = 1%nat → load en l = be_value l.
Proof. destruct l as [|a [|]]; try done. by destruct en. Qed.

Lemma slice_bytes (pkt : list Z) off n : Forall is_byte pkt → Forall is_byte (take n (drop off pkt)).
Proof. intros. by apply Forall_take, Forall_drop. Qed.

Lemma slice_length (pkt : list Z) off n :
  (off + n ≤ length pkt)%nat → length (take n (drop off pkt)) = n.
Proof. intros. rewrite length_take, length_drop. lia. Qed.

Lemma field_range pkt off n :
  Forall is_byte pkt → (off + n ≤ length pkt)%nat →
  0 ≤ field pkt off n < 256 ^ Z.of_nat n.
Proof.
  intros Hb Hl. unfold field. pose proof (load_range BE _ (slice_bytes pkt off n Hb)) as Hr.
  by rewrite slice_length in Hr.
Qed.

Section Fields.
Context (en : endian) (pkt : list Z) (skb : sk_buff) (Hskb : skb_holds pkt skb).

Lemma skb_slice (off n : nat) :
  (off + n ≤ length pkt)%nat → (skb_load skb (Z.of_nat off) n).2 = take n (drop off pkt).
Proof.
  intros. rewrite (holds_in _ _ Hskb) by lia. cbn. by rewrite Nat2Z.id.
Qed.

Lemma skb_u16 off :
  (off + 2 ≤ length pkt)%nat → ntohs en (skb_u en skb (Z.of_nat off) 2) = field pkt off 2.
Proof.
  intros. unfold skb_u. rewrite skb_slice by done.
  apply ntohs_load_list; [apply slice_bytes, Hskb|by apply slice_length].
Qed.

Lemma skb_u32 off :
  (off + 4 ≤ length pkt)%nat → ntohl en (skb_u en skb (Z.of_nat off) 4) = field pkt off 4.
Proof.
  intros. unfold skb_u. rewrite skb_slice by done.
  apply ntohl_load_list; [apply slice_bytes, Hskb|by apply slice_length].
Qed.

Lemma skb_u8 off :
  (off + 1 ≤ length pkt)%nat → skb_u en skb (Z.of_nat off) 1 = field pkt off 1.
Proof.
  intros. unfold skb_u. rewrite skb_slice by done. by apply load_single, slice_length.
Qed.
End Fields.

(** The mask of the fragment test keeps exactly the "more fragments" bit and
    the fragment offset. *)
Lemma fragment_mask pkt :
  (Z.land (field pkt 20 2) (Z.lor IP_MF IP_OFFSET) =? 0) = negb (fragmented pkt).
Proof.
  unfold fragmented, more_fragments, fragment_offset. set (x := field pkt 20 2).
  change (Z.lor IP_MF IP_OFFSET) with (Z.ones 14). rewrite Z.land_ones by lia.
  pose proof (Z.testbit_spec' x 13 ltac:(lia)) as Hb.
  change (2 ^ 13) with 8192 in *. change (2 ^ 14) with (8192 * 2).
  rewrite Z.rem_mul_r by lia. rewrite <- Hb.
  pose proof (Z.mod_pos_bound x 8192 ltac:(lia)).
  destruct (Z.testbit x 13); cbn [Z.b2z orb negb]; [lia|].
  rewrite negb_involutive. f_equal. lia.
Qed.

Lemma verlen_ihl (pkt : list Z) :
  Forall is_byte pkt → (15 ≤ length pkt)%nat →
  Z.shiftl (Z.land (field pkt 14 1) 0xF) 2 = Z.of_nat (4 * ihl pkt).
Proof.
  intros Hb Hl. unfold ihl. pose proof (field_range pkt 14 1 Hb ltac:(lia)).
  change 0xF with (Z.ones 4). rewrite Z.land_ones, Z.shiftl_mul_pow2 by lia.
  change (2 ^ 4) with 16. pose proof (Z.mod_pos_bound (field pkt 14 1) 16 ltac:(lia)). lia.
Qed.

(** The two-byte views of a four-byte load are its halves. *)
Lemma port16_load en l e (i : nat) :
  Forall is_byte l → length l = 4%nat → ports e = load en l →
  port16 en e i = load en (take 2 (drop (2 * i) l)).
Proof.
  intros Hb Hl Hp. unfold port16. rewrite Hp. replace 4%nat with (length l).
  by rewrite store_load.
Qed.

(** What a one-byte load leaves in a four-byte member. *)
Lemma byte_into_u32 en old b :
  is_u 32 old → is_byte b →
  load en (buf_write (store en 4 old) [b]) =
  match en with LE => b + 256 * (old / 256) | BE => b * 2 ^ 24 + old mod 2 ^ 24 end.
Proof.
  unfold is_u, is_byte. change (2 ^ 32) with 4294967296. intros Ho Hb.
  unfold buf_write, load, store. destruct en; cbn [le_split rev app drop length le_combine].
  - pose proof (le_combine_split 3 (old / 256)) as E. cbn [le_split le_combine] in E.
    rewrite E. change (256 ^ Z.of_nat 3) with 16777216. rewrite Z.mod_small by zlia. lia.
  - pose proof (le_combine_split 3 old) as E. cbn [le_split le_combine] in E.
    change (256 ^ Z.of_nat 3) with (2 ^ 24) in E. change (2 ^ 24) with 16777216 in *. lia.
Qed.

Section Filling.
Context (en : endian) (pkt : list Z) (skb : sk_buff) (Hskb : skb_holds pkt skb).

Lemma fill_proto e :
  (24 ≤ length pkt)%nat → is_u 32 (ip_proto e) →
  ip_proto (fill_event en skb e) =
  match en with
  | LE => proto_of pkt + 256 * (ip_proto e / 256)
  | BE => proto_of pkt * 2 ^ 24 + ip_proto e mod 2 ^ 24
  end.
Proof.
  intros Hl Hp. unfold fill_event, proto_of; cbn [ip_proto].
  change (u32 (ETH_HLEN + off_protocol)) with (Z.of_nat 23).
  rewrite (skb_slice pkt skb Hskb) by lia.
  pose proof (slice_bytes pkt 23 1 (holds_bytes _ _ Hskb)) as Hb.
  pose proof (slice_length pkt 23 1 ltac:(lia)) as Hn. unfold field.
  destruct (take 1 (drop 23 pkt)) as [|b [|]]; try done.
  apply Forall_cons in Hb as [Hb _]. rewrite (byte_into_u32 en _ b Hp Hb).
  unfold be_value; cbn [rev app le_combine]. by rewrite Z.mul_0_r, Z.add_0_r.
Qed.

Lemma fill_ports e :
  complete pkt →
  ntohs en (port16 en (fill_event en skb e) 0) = sport_of pkt ∧
  ntohs en (port16 en (fill_event en skb e) 1) = dport_of pkt.
Proof.
  intros [H34 Hc]. pose proof (holds_bytes _ _ Hskb) as Hb.
  set (off := (14 + 4 * ihl pkt)%nat) in *.
  assert (ports (fill_event en skb e) = load en (take 4 (drop off pkt))) as Hp.
  { unfold fill_event; cbn [ports]. change (u32 (ETH_HLEN + 0)) with (Z.of_nat 14).
    rewrite (skb_u8 en pkt skb Hskb) by lia. rewrite verlen_ihl by (done || lia).
    unfold skb_u, ETH_HLEN. change 14 with (Z.of_nat 14). rewrite <- Nat2Z.inj_add.
    fold off. unfold u32. rewrite wrap_small.
    - by rewrite (skb_slice pkt skb Hskb) by lia.
    - unfold is_u, off, ihl. pose proof (Z.mod_pos_bound (field pkt 14 1) 16 ltac:(lia)). lia. }
  pose proof (slice_bytes pkt off 4 Hb) as Hb4.
  pose proof (slice_length pkt off 4 ltac:(lia)) as Hl4.
  rewrite !(port16_load en _ _ _ Hb4 Hl4 Hp). unfold sport_of, dport_of, field.
  fold off. change (2 * 0)%nat with 0%nat. change (2 * 1)%nat with 2%nat.
  assert (take 2 (drop 0 (take 4 (drop off pkt))) = take 2 (drop off pkt)) as ->
    by by rewrite drop_0, take_take.
  assert (take 2 (drop 2 (take 4 (drop off pkt))) = take 2 (drop (off + 2) pkt)) as ->.
  { rewrite <- drop_drop. generalize (drop off pkt). intros [|? [|? [|? [|? ?]]]]; done. }
  split; (apply ntohs_load_list; [by apply slice_bytes|apply slice_length; lia]).
Qed.

Lemma fill_addrs e :
  (34 ≤ length pkt)%nat →
  let e1 := fill_event en skb e in
  (ip_proto e1 ≠ IPPROTO_GRE →
     ntohl en (src_addr e1) = saddr_of pkt ∧ ntohl en (dst_addr e1) = daddr_of pkt) ∧
  (ip_proto e1 = IPPROTO_GRE → src_addr e1 = src_addr e ∧ dst_addr e1 = dst_addr e).
Proof.
  intros Hl e1. unfold e1, fill_event; cbn [ip_proto src_addr dst_addr].
  change (u32 (ETH_HLEN + off_saddr)) with (Z.of_nat 26).
  change (u32 (ETH_HLEN + off_daddr)) with (Z.of_nat 30).
  split; intros Hg.
  - rewrite (proj2 (Z.eqb_neq _ _) Hg). cbn [negb].
    split; by rewrite (skb_u32 en pkt skb Hskb) by lia.
  - by rewrite Hg.
Qed.
End Filling.

Section Properties.
Context (en : endian) {R : Type} `{RingBufLaws R so_event}.

Lemma socket_handler_ipv4 pkt skb (r : R) :
  skb_holds pkt skb → (22 ≤ length pkt)%nat →
  socket_handler en skb r =
  if is_ipv4 pkt && negb (fragmented pkt) then
    match rb_reserve r sizeof_so_event with
    | None => (r, 0)
    | Some (e, rb1) => (rb_submit rb1 (fill_event en skb e), skb_len skb)
    end
  else (r, 0).
Proof.
  intros Hs Hl. unfold socket_handler, ip_is_fragment, is_ipv4.
  change 12 with (Z.of_nat 12). rewrite (skb_u16 en pkt skb Hs) by lia.
  change (u32 (ETH_HLEN + off_frag_off)) with (Z.of_nat 20).
  rewrite (skb_u16 en pkt skb Hs) by lia. rewrite fragment_mask, negb_involutive.
  unfold ETH_P_IP. by destruct (field pkt 12 2 =? 2048), (fragmented pkt).
Qed.

(** C35. Filtering: a packet that is not IPv4, or is a fragment (any offset,
    or more fragments to come), is dropped without touching the ring. *)
Theorem socket_handler_filters pkt skb (r : R) :
  skb_holds pkt skb → (22 ≤ length pkt)%nat →
  is_ipv4 pkt = false ∨ fragmented pkt = true →
  socket_handler en skb r = (r, 0).
Proof.
  intros Hs Hl Hf. rewrite (socket_handler_ipv4 pkt) by done.
  destruct (is_ipv4 pkt); [|done]. destruct Hf as [Hf|Hf]; [done|]. by rewrite Hf.
Qed.

End Properties.

(** C36. The protocol number on a little-endian target: a one-byte load into
    the four-byte member keeps the three upper bytes the ring memory held,
    so the record carries the packet's protocol exactly when those bytes
    were zero, and then they are zero in the new record too (so a ring that
    starts zeroed stays right). *)
Theorem ip_proto_little_endian pkt skb e0 :
  skb_holds pkt skb → (24 ≤ length pkt)%nat → is_u 32 (ip_proto e0) →
  (ip_proto (fill_event LE skb e0) = proto_of pkt ↔ ip_proto e0 < 256) ∧
  (ip_proto e0 < 256 → 0 ≤ ip_proto (fill_event LE skb e0) < 256).
Proof.
  intros Hs Hl Hp. rewrite (fill_proto LE pkt skb Hs e0 Hl Hp).
  pose proof (field_range pkt 23 1 (holds_bytes _ _ Hs) ltac:(lia)) as Hf.
  change (256 ^ Z.of_nat 1) with 256 in Hf. unfold proto_of. unfold is_u in Hp.
  split; [|zlia]. split; zlia.
Qed.

(** C37. On a big-endian target the byte lands in the most significant
    position: whatever the ring held, a packet with a non-zero protocol gets
    a number of at least 2^24, never its own. *)
Theorem ip_proto_big_endian pkt skb e0 :
  skb_holds pkt skb → (24 ≤ length pkt)%nat → is_u 32 (ip_proto e0) → 0 < proto_of pkt →
  2 ^ 24 ≤ ip_proto (fill_event BE skb e0) ∧
  ip_proto (fill_event BE skb e0) ≠ proto_of pkt.
Proof.
  intros Hs Hl Hp H0. rewrite (fill_proto BE pkt skb Hs e0 Hl Hp).
  pose proof (field_range pkt 23 1 (holds_bytes _ _ Hs) ltac:(lia)) as Hf.
  change (256 ^ Z.of_nat 1) with 256 in Hf. unfold proto_of in *.
  pose proof (Z.mod_pos_bound (ip_proto e0) (2 ^ 24) ltac:(lia)).
  change (2 ^ 24) with 16777216 in *. lia.
Qed.

(** C38. GRE on a little-endian target, with zero upper bytes of [ip_proto]
    in the ring memory: the addresses of a GRE packet are not loaded, so the
    submitted record carries the addresses of whatever record that memory held
    before. *)
Theorem gre_addresses_stale pkt skb e0 :
  skb_holds pkt skb → (34 ≤ length pkt)%nat → 0 ≤ ip_proto e0 < 256 →
  proto_of pkt = IPPROTO_GRE →
  src_addr (fill_event LE skb e0) = src_addr e0 ∧
  dst_addr (fill_event LE skb e0) = dst_addr e0.
Proof.
  intros Hs Hl Hp Hg. apply (fill_addrs LE pkt skb Hs e0 Hl).
  rewrite (fill_proto LE pkt skb Hs e0); [|lia|unfold is_u; lia].
  rewrite Hg, Z.div_small by lia. reflexivity.
Qed.

(** ** A concrete packet: UDP from 10.0.0.1:1000 to 10.0.0.2:53 *)

Definition demo_pkt (proto : Z) : list Z :=
  [0;0;0;0;0;0; 0;0;0;0;0;0; 8;0;
   0x45;0; 0;32; 0;1; 0x40;0; 64;proto; 0;0; 10;0;0;1; 10;0;0;2;
   3;232; 0;53; 0;12; 0;0; 1;2;3;4].

Definition mk_skb (pkt : list Z) : sk_buff := {|
  skb_load off n :=
    let bs := take n (drop (Z.to_nat off) pkt) in
    if (Z.to_nat off + n <=? length pkt)%nat then (0, bs) else (-14, repeat 0 n);
  skb_pkt_type := 0; skb_ifindex := 1; skb_len := Z.of_nat (length pkt) |}.

Lemma mk_skb_holds pkt : Forall is_byte pkt → skb_holds pkt (mk_skb pkt).
Proof.
  intros Hb. split; [done|..]; unfold skb_load, mk_skb; intros off n.
  - intros _ Hl. by rewrite (proj2 (Nat.leb_le _ _) Hl).
  - intros Hl. by rewrite (proj2 (Nat.leb_gt _ _) Hl).
  - destruct (Nat.leb_spec (Z.to_nat off + n) (length pkt)); cbn.
    + by apply slice_length.
    + apply repeat_length.
Qed.

Lemma demo_pkt_bytes proto : is_byte proto → Forall is_byte (demo_pkt proto).
Proof.
  intros. unfold demo_pkt. repeat (apply Forall_cons; split); try done; unfold is_byte, is_u; lia.
Qed.

Definition demo_stale : so_event := SoEvent 0x04030201 0x08070605 7 6 1 9.
Definition demo_ring : ring so_event := Ring 4 (fun _ => demo_stale) [] 0.

Lemma socket_handler_filters_witness :
  is_ipv4 (<[12%nat := 0x86]> (demo_pkt 17)) = false ∧
  socket_handler LE (mk_skb (<[12%nat := 0x86]> (demo_pkt 17))) demo_ring = (demo_ring, 0).
Proof.
  split; [reflexivity|].
  apply (socket_handler_filters LE (<[12%nat := 0x86]> (demo_pkt 17))).
  - apply mk_skb_holds. apply Forall_insert; [apply demo_pkt_bytes|]; unfold is_byte, is_u; lia.
  - vm_compute. lia.
  - left. reflexivity.
Defined.


Lemma ip_proto_little_endian_witness :
  (ip_proto (fill_event LE (mk_skb (demo_pkt 17)) demo_stale) = 17 ↔ 6 < 256) ∧
  (6 < 256 → 0 ≤ ip_proto (fill_event LE (mk_skb (demo_pkt 17)) demo_stale) < 256).
Proof.
  apply (ip_proto_little_endian (demo_pkt 17) (mk_skb (demo_pkt 17)) demo_stale).
  - apply mk_skb_holds, demo_pkt_bytes. unfold is_byte, is_u; lia.
  - vm_compute; lia.
  - unfold is_u; cbn; lia.
Defined.

Lemma ip_proto_big_endian_witness :
  2 ^ 24 ≤ ip_proto (fill_event BE (mk_skb (demo_pkt 17)) demo_stale) ∧
  ip_proto (fill_event BE (mk_skb (demo_pkt 17)) demo_stale) ≠ proto_of (demo_pkt 17).
Proof.
  apply (ip_proto_big_endian (demo_pkt 17) (mk_skb (demo_pkt 17)) demo_stale).
  - apply mk_skb_holds, demo_pkt_bytes. unfold is_byte, is_u; lia.
  - vm_compute; lia.
  - unfold is_u; cbn; lia.
  - reflexivity.
Defined.

Lemma gre_addresses_stale_witness :
  src_addr (fill_event LE (mk_skb (demo_pkt 47)) demo_stale) = 0x04030201 ∧
  dst_addr (fill_event LE (mk_skb (demo_pkt 47)) demo_stale) = 0x08070605.
Proof.
  apply (gre_addresses_stale (demo_pkt 47) (mk_skb (demo_pkt 47)) demo_stale).
  - apply mk_skb_holds, demo_pkt_bytes. unfold is_byte, is_u; lia.
  - vm_compute; lia.
  - cbn; lia.
  - reflexivity.
Defined.
