(* ===== verification/TraceconBpf.v ===== *)
(** * tracecon: the kernel side ([tracecon.bpf.c])

    Four probes cooperate through three hash maps: pending name lookups and
    pending connects per thread, and host names per resolved address.  Every
    finished connect is reported through the perf event array [events]. *)
From S2P Require Import Prelude CInt CFormat BpfKernel.
Local Open Scope Z_scope.

Definition HOSTNAME_LEN : nat := 84.

(** [struct lookup] *)
Record lookup := Lookup { c : list ascii; results : Z }.

(** [struct event]; [tag] is 0 for [IP], 1 for [HOSTNAME]. *)
Record event := Event { tag : Z; ip : list Z; hostname : list ascii }.
Definition IP : Z := 0.
Definition HOSTNAME : Z := 1.

Definition zero_chars (n : nat) : list ascii := repeat nul n.
Definition event_zero : event := Event 0 (repeat 0 4) (zero_chars HOSTNAME_LEN).
Definition lookup_zero : lookup := Lookup (zero_chars HOSTNAME_LEN) 0.

(** Offsets of [ai_addr] in [struct addrinfo] and of [sin_addr] in
    [struct sockaddr_in]. *)
Definition off_ai_addr : Z := 24.
Definition off_sin_addr : Z := 4.

(** What the helpers answer in one probe: the packed ids, the bytes
    [bpf_probe_read_user] stores for an address and a size, the characters
    [bpf_probe_read_user_str] stores, and the peer address of a socket. *)
Record tctx := TCtx {
  t_pid_tgid : Z;
  t_read_user : Z → nat → list Z;
  t_read_user_str : Z → nat → Z * list ascii;
  t_daddr : Z → Z;
}.

Section Probes.
Context (en : endian) (target_pid : Z).
Context {ML MH MS MP : Type} `{BpfHash ML Z lookup} `{BpfHash MH Z lookup}
  `{BpfHash MS Z Z} `{PerfArray MP event}.

Record state := State { lookups : ML; hostnames : MH; sockets : MS; events : MP }.

Definition get_tid (k : tctx) : Z :=
  let tgid := t_pid_tgid k in
  let pid := s32 (Z.shiftr tgid 32) in
  if negb (target_pid =? 0) && negb (target_pid =? pid) then 0
  else u32 tgid.

Definition getaddrinfo_enter (k : tctx) (hostname res : Z) (st : state) : state :=
  let tid := get_tid k in
  if tid =? 0 then st
  else
    let l := Lookup (buf_write (c lookup_zero)
                       (t_read_user_str k hostname HOSTNAME_LEN).2) res in
    State (map_update (lookups st) tid l).1 (hostnames st) (sockets st) (events st).

(** The address the resolver stored first: [results[0]->ai_addr->sin_addr]. *)
Definition first_addr (k : tctx) (l : lookup) : Z :=
  let result := load en (t_read_user k (results l) 8) in
  let addr := load en (t_read_user k (u64 (result + off_ai_addr)) 8) in
  load en (t_read_user k (u64 (addr + off_sin_addr)) 4).

Definition getaddrinfo_exit (k : tctx) (ret : Z) (st : state) : state :=
  let tid := get_tid k in
  let cleanup h := State (map_delete (lookups st) tid).1 h (sockets st) (events st) in
  if tid =? 0 then st
  else if negb (ret =? 0) then cleanup (hostnames st)
  else match map_lookup (lookups st) tid with
       | None => st
       | Some l => cleanup (map_update (hostnames st) (first_addr k l) l).1
       end.

Definition tcp_v4_connect_enter (k : tctx) (sk : Z) (st : state) : state :=
  let tid := get_tid k in
  if tid =? 0 then st
  else State (lookups st) (hostnames st) (map_update (sockets st) tid sk).1 (events st).

Definition tcp_v4_connect_exit (k : tctx) (ret : Z) (st : state) : state :=
  let tid := get_tid k in
  let cleanup h ev := State (lookups st) h (map_delete (sockets st) tid).1 ev in
  if tid =? 0 then st
  else if negb (ret =? 0) then cleanup (hostnames st) (events st)
  else match map_lookup (sockets st) tid with
       | None => st
       | Some sk =>
           let daddr := t_daddr k sk in
           match map_lookup (hostnames st) daddr with
           | None =>
               let ev := Event IP (store en 4 daddr) (hostname event_zero) in
               cleanup (hostnames st) (perf_output (events st) ev).1
           | Some l =>
               let ev := Event HOSTNAME (ip event_zero) (take HOSTNAME_LEN (c l)) in
               cleanup (map_delete (hostnames st) daddr).1 (perf_output (events st) ev).1
           end
       end.

(** ** Runs: the probes of all threads, interleaved *)

Inductive probe :=
| GaiEnter (k : tctx) (hostname res : Z)
| GaiExit (k : tctx) (ret : Z)
| ConEnter (k : tctx) (sk : Z)
| ConExit (k : tctx) (ret : Z).

Definition step (st : state) (p : probe) : state :=
  match p with
  | GaiEnter k h r => getaddrinfo_enter k h r st
  | GaiExit k ret => getaddrinfo_exit k ret st
  | ConEnter k sk => tcp_v4_connect_enter k sk st
  | ConExit k ret => tcp_v4_connect_exit k ret st
  end.

Definition run (st : state) (ps : list probe) : state := fold_left step ps st.

Definition probe_ctx (p : probe) : tctx :=
  match p with
  | GaiEnter k _ _ | GaiExit k _ | ConEnter k _ | ConExit k _ => k
  end.

Definition probe_tid (p : probe) : Z := get_tid (probe_ctx p).
End Probes.

Arguments state : clear implicits.
Arguments State {_ _ _ _} _ _ _ _.
Arguments lookups {_ _ _ _} _.
Arguments hostnames {_ _ _ _} _.
Arguments sockets {_ _ _ _} _.
Arguments events {_ _ _ _} _.

(** ** Well-formed names and events *)

Definition name_ok (s : list ascii) : Prop := length s = HOSTNAME_LEN ∧ nul ∈ s.

Definition event_ok (e : event) : Prop :=
  (tag e = IP ∨ tag e = HOSTNAME) ∧ length (ip e) = 4%nat ∧ Forall is_byte (ip e) ∧
  name_ok (hostname e).

(** Documented behaviour of the string copy: it fits, and it is terminated
    (or leaves at least the last byte of the buffer alone). *)
Definition tctx_ok (k : tctx) : Prop := ∀ a n, (0 < n)%nat →
  let w := (t_read_user_str k a n).2 in
  (length w ≤ n)%nat ∧ (nul ∈ w ∨ (length w < n)%nat).

Lemma zero_name_ok : name_ok (zero_chars HOSTNAME_LEN).
Proof. split; [done|]. by apply list_elem_of_here. Qed.

Lemma zero_chars_tail n m : (m < n)%nat → nul ∈ drop m (zero_chars n).
Proof.
  unfold zero_chars. revert n. induction m as [|m IH]; intros [|n] Hm; cbn; try lia.
  - apply list_elem_of_here.
  - apply IH. lia.
Qed.

Lemma read_name_ok k a :
  tctx_ok k → name_ok (buf_write (c lookup_zero) (t_read_user_str k a HOSTNAME_LEN).2).
Proof.
  intros Hk. destruct (Hk a HOSTNAME_LEN) as [Hl Hn]; [unfold HOSTNAME_LEN; lia|].
  set (w := (t_read_user_str k a HOSTNAME_LEN).2) in *. cbn [c lookup_zero]. split.
  - rewrite length_buf_write; [done|]. unfold zero_chars. by rewrite repeat_length.
  - unfold buf_write. apply elem_of_app. destruct Hn; [by left|right]. by apply zero_chars_tail.
Qed.

Section Proofs.
Context (en : endian) (target_pid : Z).
Context {ML MH MS MP : Type} `{BpfHashLaws ML Z lookup} `{BpfHashLaws MH Z lookup}
  `{BpfHashLaws MS Z Z} `{PerfArrayLaws MP event}.
Implicit Types st : state ML MH MS MP.

Abbreviation tid_of := (get_tid target_pid).
Abbreviation step := (step en target_pid).
Abbreviation run := (run en target_pid).
Abbreviation probe_tid := (probe_tid target_pid).

Lemma tracecon_run_cons st p ps : run st (p :: ps) = run (step st p) ps.
Proof. done. Qed.

(** A probe of another thread keeps a thread's pending entries. *)
Lemma step_frame st p tid :
  probe_tid p ≠ tid →
  map_lookup (lookups (step st p)) tid = map_lookup (lookups st) tid ∧
  map_lookup (sockets (step st p)) tid = map_lookup (sockets st) tid.
Proof.
  intros Ht. destruct p as [k h r|k ret|k sk|k ret]; cbn in *.
  - unfold getaddrinfo_enter. case_cond; [done|]. cbn. split; [|done].
    by rewrite lookup_update_1, decide_False by (intros [??]; done).
  - unfold getaddrinfo_exit. repeat case_cond; try done; cbn; split; try done;
      by rewrite lookup_delete_1, decide_False by done.
  - unfold tcp_v4_connect_enter. case_cond; [done|]. cbn. split; [done|].
    by rewrite lookup_update_1, decide_False by (intros [??]; done).
  - unfold tcp_v4_connect_exit. repeat case_cond; try done; cbn; split; try done;
      by rewrite lookup_delete_1, decide_False by done.
Qed.

Lemma run_frame st ps tid :
  Forall (fun p => probe_tid p ≠ tid) ps →
  map_lookup (lookups (run st ps)) tid = map_lookup (lookups st) tid ∧
  map_lookup (sockets (run st ps)) tid = map_lookup (sockets st) tid.
Proof.
  intros Hps. revert st. induction Hps as [|p ps Hp _ IH]; intros st; [done|].
  rewrite tracecon_run_cons. destruct (IH (step st p)) as [-> ->]. by apply step_frame.
Qed.

(** ** The invariant *)
Definition wf st : Prop :=
  map_all (fun l => name_ok (c l)) (lookups st) ∧
  map_all (fun l => name_ok (c l)) (hostnames st) ∧
  Forall event_ok (perf_events (events st)).

Lemma output_wf (p : MP) e :
  Forall event_ok (perf_events p) → event_ok e → Forall event_ok (perf_events (perf_output p e).1).
Proof.
  intros Hp He. destruct (perf_output p e) as [p' r] eqn:Ho. cbn.
  destruct (decide (r = 0)) as [->|Hr].
  - rewrite (output_ok _ _ _ Ho). apply Forall_app_2; [done|]. by apply Forall_singleton.
  - by rewrite (output_err _ _ _ _ Ho Hr).
Qed.

Definition probe_ok (p : probe) : Prop := tctx_ok (probe_ctx p).

Lemma store_bytes x : length (store en 4 x) = 4%nat ∧ Forall is_byte (store en 4 x).
Proof.
  destruct en; cbn [store].
  - split; [apply length_le_split|apply le_split_bytes].
  - rewrite length_rev. split; [apply length_le_split|apply Forall_rev, le_split_bytes].
Qed.

Lemma step_wf st p : probe_ok p → wf st → wf (step st p).
Proof.
  intros Hp (Hl & Hh & He). destruct p as [k h r|k ret|k sk|k ret]; cbn in *.
  - unfold getaddrinfo_enter. case_cond; [done|].
    split_and!; cbn; [|done|done]. apply update_all; [done|]. by apply read_name_ok.
  - unfold getaddrinfo_exit. repeat case_cond; try done; split_and!; cbn; try done;
      try (by apply delete_all). apply update_all; [done|]. by eapply Hl.
  - unfold tcp_v4_connect_enter. by case_cond.
  - unfold tcp_v4_connect_exit.
    repeat case_cond; try done; split_and!; cbn [lookups hostnames sockets events]; try done.
    + by apply delete_all.
    + apply output_wf; [done|].
      assert (name_ok (c l)) as [Hlen Hnul] by by eapply Hh.
      split_and!; cbn [tag ip hostname event_zero]; [by right|done|repeat constructor; done|].
      rewrite <- Hlen, firstn_all. done.
    + apply output_wf; [done|]. destruct (store_bytes (t_daddr k z)).
      split_and!; cbn; [by left|done|done|apply zero_name_ok].
Qed.

(** C14. Invariant of the whole component, over any interleaving of probes of
    any threads: the names in both name tables are NUL-terminated buffers
    of the declared size, and so is the host name of every event handed to
    user space, whose tag is one of the two known tags and whose address is
    four bytes. *)
Theorem tracecon_run_wf st ps : Forall probe_ok ps → wf st → wf (run st ps).
Proof.
  intros Hps. revert st. induction Hps as [|p ps Hp _ IH]; intros st Hst; [done|].
  rewrite tracecon_run_cons. by apply IH, step_wf.
Qed.

(** Target filter: with a target process set, the probes of every other
    process change nothing. *)
Theorem other_process_ignored st p :
  target_pid ≠ 0 → target_pid ≠ s32 (Z.shiftr (t_pid_tgid (probe_ctx p)) 32) →
  step st p = st.
Proof.
  intros Ht Hp.
  assert (tid_of (probe_ctx p) = 0) as Htid.
  { unfold get_tid. by rewrite (proj2 (Z.eqb_neq _ _) Ht), (proj2 (Z.eqb_neq _ _) Hp). }
  destruct p as [k h r|k ret|k sk|k ret]; cbn in Htid |- *.
  - unfold getaddrinfo_enter. by rewrite Htid.
  - unfold getaddrinfo_exit. by rewrite Htid.
  - unfold tcp_v4_connect_enter. by rewrite Htid.
  - unfold tcp_v4_connect_exit. by rewrite Htid.
Qed.


End Proofs.

(** ** A concrete run: thread 7 resolves a name to 10.0.0.9 and connects to
    it while thread 8 connects to 10.0.0.8. *)

Definition demo_state
    : state (hmap Z lookup) (hmap Z lookup) (hmap Z Z) (nat * list event) :=
  State (HMap 16 ∅) (HMap 16 ∅) (HMap 16 ∅) (16%nat, []).

(** User memory: the result pointer at 100 leads to the list node at 200,
    whose [ai_addr] leads to the socket address at 300. *)
Definition demo_read (a : Z) (n : nat) : list Z :=
  if a =? 100 then le_split 8 200
  else if a =? 224 then le_split 8 300
  else if a =? 304 then [10; 0; 0; 9]
  else repeat 0 n.

Definition demo_ctx (pid tid daddr : Z) : tctx :=
  TCtx (pid * 2 ^ 32 + tid) demo_read (fun _ n => (1, str_bytes n "example.org"))
    (fun _ => daddr).

Lemma demo_ctx_ok pid tid daddr : tctx_ok (demo_ctx pid tid daddr).
Proof.
  intros a n Hn. cbn. split; [by apply length_str_bytes|left; apply nul_str_bytes].
Qed.

Definition peer9 : Z := le_combine [10; 0; 0; 9].
Definition peer8 : Z := le_combine [10; 0; 0; 8].

Definition demo_probes : list probe :=
  [GaiEnter (demo_ctx 5 7 0) 50 100; ConEnter (demo_ctx 5 8 0) 900;
   GaiExit (demo_ctx 5 7 0) 0; ConExit (demo_ctx 5 8 peer8) 0;
   ConEnter (demo_ctx 5 7 0) 901; ConExit (demo_ctx 5 7 peer9) 0].

Lemma demo_probes_ok : Forall probe_ok demo_probes.
Proof. repeat (apply Forall_cons; split); try done; apply demo_ctx_ok. Qed.

Lemma demo_state_wf : wf demo_state.
Proof. split_and!; [by intros k v|by intros k v|constructor]. Qed.

Lemma tracecon_run_wf_witness :
  (fun e => (tag e, ip e, cstr (hostname e))) <$>
    perf_events (events (run LE 0 demo_state demo_probes)) =
    [(IP, [10; 0; 0; 8], Some EmptyString); (HOSTNAME, [0; 0; 0; 0], Some "example.org"%string)] ∧
  wf (run LE 0 demo_state demo_probes).
Proof.
  split; [vm_compute; reflexivity|].
  apply (tracecon_run_wf LE 0 demo_state demo_probes); [apply demo_probes_ok|apply demo_state_wf].
Defined.

Lemma other_process_ignored_witness :
  step LE 6 demo_state (ConEnter (demo_ctx 5 7 0) 900) = demo_state.
Proof.
  apply (other_process_ignored LE 6 demo_state (ConEnter (demo_ctx 5 7 0) 900));
    vm_compute; discriminate.
Defined.


