(* ===== verification/ProfileBpf.v ===== *)
(** * profile: the kernel side ([profile.bpf.c])

    A program on the perf event of every CPU: it captures the command name
    and the kernel and user stacks of the interrupted task and sends them
    through the ring buffer [events]. *)
From S2P Require Import Prelude CInt CFormat BpfKernel.
Local Open Scope Z_scope.

Definition TASK_COMM_LEN : nat := 16.
Definition MAX_STACK_DEPTH : nat := 128.

(** [struct stacktrace_event] *)
Record stacktrace_event := StacktraceEvent {
  pid : Z;
  cpu_id : Z;
  comm : list ascii;
  kstack_sz : Z;
  ustack_sz : Z;
  kstack : list Z;
  ustack : list Z;
}.

Definition sizeof_stack_trace : Z := 8 * Z.of_nat MAX_STACK_DEPTH.

Definition sizeof_stacktrace_event : Z :=
  sizeof_struct [(4, 4); (4, 4); (Z.of_nat TASK_COMM_LEN, 1); (4, 4); (4, 4);
                 (sizeof_stack_trace, 8); (sizeof_stack_trace, 8)].

(** The helpers about the interrupted CPU: its number, and
    [bpf_get_stack (ctx, buf, size, flags)] for the kernel stack and for the
    user stack ([BPF_F_USER_STACK]) with the words it writes at the front of
    [buf]. *)
Record perf_ctx := PerfCtx {
  p_cpu : Z;
  p_stack : bool → Z → Z * list Z;
}.

(** Documented behaviour of [bpf_get_stack]: a negative error, or the number
    of bytes copied, which the buffer holds. *)
Record perf_ctx_ok (x : perf_ctx) : Prop := {
  ok_cpu : is_u 32 (p_cpu x);
  ok_stack user size : 0 ≤ size →
    (- 2 ^ 31 ≤ (p_stack x user size).1 < 0 ∧ (8 * Z.of_nat (length (p_stack x user size).2) ≤ size)) ∨
    ((p_stack x user size).1 = 8 * Z.of_nat (length (p_stack x user size).2) ∧
     (p_stack x user size).1 ≤ size);
  ok_frames user size : Forall (is_u 64) (p_stack x user size).2;
}.

Section Program.
Context {R : Type} `{RingBuf R stacktrace_event}.

(** What [profile] writes into the reserved record [e]. *)
Definition fill (k : kctx) (x : perf_ctx) (e : stacktrace_event) : stacktrace_event :=
  let c := k_comm k TASK_COMM_LEN in
  let ks := p_stack x false sizeof_stack_trace in
  let us := p_stack x true sizeof_stack_trace in
  {| pid := u32 (pid_of k);
     cpu_id := u32 (s32 (p_cpu x));
     comm := let named := buf_write (comm e) c.2 in
             if negb (c.1 =? 0) then <[0%nat := nul]> named else named;
     kstack_sz := s32 ks.1;
     kstack := buf_write (kstack e) ks.2;
     ustack_sz := s32 us.1;
     ustack := buf_write (ustack e) us.2 |}.

Definition profile (k : kctx) (x : perf_ctx) (events : R) : R * Z :=
  match rb_reserve events sizeof_stacktrace_event with
  | None => (events, 1)
  | Some (e, events1) => (rb_submit events1 (fill k x e), 0)
  end.

(** The samples of a run, one after the other. *)
Definition run (events : R) (samples : list (kctx * perf_ctx)) : R :=
  fold_left (fun r s => (profile s.1 s.2 r).1) samples events.
End Program.

(** ** What user space may rely on

    The arrays have their declared sizes. *)
Definition shaped (e : stacktrace_event) : Prop :=
  length (comm e) = TASK_COMM_LEN ∧ length (kstack e) = MAX_STACK_DEPTH ∧
  length (ustack e) = MAX_STACK_DEPTH.

(** The part of a stack array that holds frames. *)
Definition frames (sz : Z) (stack : list Z) : list Z := take (Z.to_nat (sz / 8)) stack.

(** A record that can be printed without reading past any of its arrays. *)
Record readable (e : stacktrace_event) : Prop := {
  r_shaped : shaped e;
  r_comm : is_Some (cstr (comm e));
  r_ids : is_u 32 (pid e) ∧ is_u 32 (cpu_id e);
  r_kstack : is_s 32 (kstack_sz e) ∧ kstack_sz e ≤ sizeof_stack_trace;
  r_ustack : is_s 32 (ustack_sz e) ∧ ustack_sz e ≤ sizeof_stack_trace;
}.

Section Proofs.
Implicit Types (k : kctx) (x : perf_ctx) (e : stacktrace_event).

Lemma stack_word x user :
  perf_ctx_ok x →
  let s := p_stack x user sizeof_stack_trace in
  s32 s.1 = s.1 ∧ is_s 32 s.1 ∧ s.1 ≤ sizeof_stack_trace ∧
  (length s.2 ≤ MAX_STACK_DEPTH)%nat.
Proof.
  intros Hx. cbn zeta.
  assert (0 ≤ sizeof_stack_trace) as H0 by (vm_compute; congruence).
  pose proof (ok_stack x Hx user sizeof_stack_trace H0) as Hs.
  destruct (p_stack x user sizeof_stack_trace) as [n w]. cbn in *.
  unfold sizeof_stack_trace, MAX_STACK_DEPTH in *.
  assert (is_s 32 n) as Hr by (unfold is_s; lia).
  split; [by apply swrap_small|]. repeat split; try apply Hr; lia.
Qed.

(** A captured stack is found again in the record. *)
Lemma frames_written x user old :
  perf_ctx_ok x → 0 ≤ (p_stack x user sizeof_stack_trace).1 →
  let s := p_stack x user sizeof_stack_trace in
  frames (s32 s.1) (buf_write old s.2) = s.2.
Proof.
  intros Hx Hn. cbn zeta. destruct (stack_word x user Hx) as (-> & _).
  assert (0 ≤ sizeof_stack_trace) as H0 by (vm_compute; congruence).
  destruct (ok_stack x Hx user sizeof_stack_trace H0) as [|[E _]]; [lia|].
  unfold frames. rewrite E, Z.mul_comm, Z.div_mul, Nat2Z.id by done.
  rewrite take_buf_write by done. by apply take_ge.
Qed.

Lemma fill_shaped k x e :
  kctx_ok k → perf_ctx_ok x → shaped e → shaped (fill k x e).
Proof.
  intros Hk Hx (Hc & Hks & Hus). unfold fill, shaped; cbn [comm kstack ustack].
  destruct (ok_comm k Hk TASK_COMM_LEN) as [_ Hl]; [unfold TASK_COMM_LEN; lia|].
  pose proof (stack_word x false Hx) as (_ & _ & _ & Hkl).
  pose proof (stack_word x true Hx) as (_ & _ & _ & Hul).
  rewrite !length_buf_write by lia. split; [|done].
  case_match; rewrite ?length_insert, length_buf_write; lia.
Qed.

(** The command name of the record: the task's, or none on failure. *)
Lemma fill_comm k x e :
  kctx_ok k → shaped e →
  cstr (comm (fill k x e)) =
  if (k_comm k TASK_COMM_LEN).1 =? 0 then cstr (k_comm k TASK_COMM_LEN).2 else Some EmptyString.
Proof.
  intros Hk (Hc & _). unfold fill; cbn [comm].
  destruct (ok_comm k Hk TASK_COMM_LEN) as [Hn _]; [unfold TASK_COMM_LEN; lia|].
  destruct (_ =? 0); cbn [negb]; [by apply cstr_buf_write|].
  destruct (buf_write _ _) as [|c l] eqn:E; [|done].
  apply (f_equal length) in E. unfold buf_write in E.
  rewrite length_app, length_drop, Hc in E. unfold TASK_COMM_LEN in E. cbn in E. lia.
Qed.

Lemma fill_readable k x e :
  kctx_ok k → perf_ctx_ok x → shaped e → readable (fill k x e).
Proof.
  intros Hk Hx He.
  pose proof (stack_word x false Hx) as (E1 & ? & ? & _).
  pose proof (stack_word x true Hx) as (E2 & ? & ? & _).
  split.
  - by apply fill_shaped.
  - rewrite fill_comm by done. case_match; [|done]. apply cstr_some.
    by apply (ok_comm k Hk TASK_COMM_LEN); unfold TASK_COMM_LEN; lia.
  - split; apply wrap_range; auto with cmem.
  - cbn [kstack_sz fill]. by rewrite E1.
  - cbn [ustack_sz fill]. by rewrite E2.
Qed.
End Proofs.

(** ** Runs *)

Section Runs.
Context {R : Type} `{RingBufLaws R stacktrace_event}.

(** Ring memory holds records of the declared layout. *)
Definition ring_shaped : Prop := ∀ r n e r', rb_reserve r n = Some (e, r') → shaped e.
Definition sample_fine (s : kctx * perf_ctx) : Prop := kctx_ok s.1 ∧ perf_ctx_ok s.2.

Lemma profile_step k x r :
  rb_samples (profile k x r).1 =
    rb_samples r ++ match rb_reserve r sizeof_stacktrace_event with
                    | Some (e, _) => [fill k x e]
                    | None => []
                    end ∧
  rb_pending (profile k x r).1 = rb_pending r.
Proof.
  unfold profile. destruct (rb_reserve _ _) as [[e r']|] eqn:E; cbn.
  - split; [by eapply reserve_submit_samples|by eapply reserve_submit_pending].
  - by rewrite app_nil_r.
Qed.

(** C17. Whatever is sampled and in whatever order, every record in the ring
    is safe to print: its command name is terminated and its stack sizes
    stay within its arrays; no reservation is left open. *)
Theorem profile_run_readable r samples :
  ring_shaped → Forall sample_fine samples → Forall readable (rb_samples r) →
  Forall readable (rb_samples (run r samples)) ∧
  rb_pending (run r samples) = rb_pending r.
Proof.
  intros Hr Hs. revert r. induction Hs as [|[k x] samples [Hk Hx] _ IH]; intros r Hok; [done|].
  unfold run; cbn [fold_left fst snd]. change (fold_left _ samples ?r1) with (run r1 samples).
  destruct (profile_step k x r) as [E1 E2]. rewrite <-E2. apply IH. rewrite E1.
  apply Forall_app. split; [done|]. destruct (rb_reserve _ _) as [[e r']|] eqn:E; [|done].
  apply Forall_singleton, fill_readable; [done..|]. by eapply Hr.
Qed.

(** C18. One sample: if the ring has room exactly one record is added, with
    the process, the CPU, the task's command name (empty when the helper
    fails) and, for each stack that could be captured, exactly the captured
    frames; otherwise nothing changes and the program reports 1. *)
Theorem profile_reports k x r :
  ring_shaped → kctx_ok k → perf_ctx_ok x →
  match rb_reserve r sizeof_stacktrace_event with
  | None => profile k x r = (r, 1)
  | Some _ =>
      (profile k x r).2 = 0 ∧
      ∃ e, rb_samples (profile k x r).1 = rb_samples r ++ [e] ∧
        pid e = u32 (k_pid_tgid k / 2 ^ 32) ∧ cpu_id e = p_cpu x ∧
        cstr (comm e) = (if (k_comm k TASK_COMM_LEN).1 =? 0
                         then cstr (k_comm k TASK_COMM_LEN).2 else Some EmptyString) ∧
        (∀ n fs, p_stack x false sizeof_stack_trace = (n, fs) →
           kstack_sz e = n ∧ (0 ≤ n → frames (kstack_sz e) (kstack e) = fs)) ∧
        (∀ n fs, p_stack x true sizeof_stack_trace = (n, fs) →
           ustack_sz e = n ∧ (0 ≤ n → frames (ustack_sz e) (ustack e) = fs))
  end.
Proof.
  intros Hr Hk Hx. pose proof (profile_step k x r) as [E _]. revert E. unfold profile.
  destruct (rb_reserve _ _) as [[e r']|] eqn:Hv; [|done].
  cbn [fst snd]. intros E. split; [done|]. exists (fill k x e).
  split; [done|]. split_and!.
  - cbn [pid fill]. unfold pid_of, u32, s32. rewrite Z.shiftr_div_pow2 by done.
    by apply wrap_swrap.
  - cbn [cpu_id fill]. unfold u32, s32. rewrite wrap_swrap by done.
    apply wrap_small, (ok_cpu x Hx).
  - apply fill_comm; [done|by eapply Hr].
  - intros n fs Hp. pose proof (stack_word x false Hx) as (Es & _).
    pose proof (frames_written x false (kstack e) Hx) as Hf.
    cbn [kstack_sz kstack fill]. rewrite Hp in Es, Hf |- *. cbn [fst snd] in *. by rewrite Es in *.
  - intros n fs Hp. pose proof (stack_word x true Hx) as (Es & _).
    pose proof (frames_written x true (ustack e) Hx) as Hf.
    cbn [ustack_sz ustack fill]. rewrite Hp in Es, Hf |- *. cbn [fst snd] in *. by rewrite Es in *.
Qed.
End Runs.

(** ** A concrete run *)

Definition stale : stacktrace_event :=
  StacktraceEvent 0 0 (repeat "x"%char TASK_COMM_LEN) 0 0
    (repeat 0xdead MAX_STACK_DEPTH) (repeat 0xbeef MAX_STACK_DEPTH).
#[local] Instance demo_rb : RingBuf (nat * list stacktrace_event * nat) stacktrace_event :=
  fixed_ring stale.
#[local] Instance demo_rb_laws : RingBufLaws (nat * list stacktrace_event * nat) stacktrace_event :=
  fixed_ring_laws stale.

Lemma demo_ring_shaped : ring_shaped (R := nat * list stacktrace_event * nat).
Proof. intros [[[|c] q] o] n e r'; cbn; [done|]. by intros [= <- <-]. Qed.

Definition demo_task : kctx := mk_kctx 7 7 0 1 0 "cc1" "".
(** Three kernel frames; the user stack cannot be read. *)
Definition demo_perf : perf_ctx :=
  PerfCtx 2 (fun user size =>
    if user then (-14, []) else if size <? 24 then (-14, []) else (24, [0x10; 0x20; 0x30])).

Lemma demo_task_ok : kctx_ok demo_task.
Proof. apply mk_kctx_ok; unfold is_u, is_s; lia. Qed.

Lemma demo_perf_ok : perf_ctx_ok demo_perf.
Proof.
  split; [unfold is_u; cbn; lia| |].
  - intros [] size Hs; cbn; [lia|]. destruct (Z.ltb_spec size 24); cbn; lia.
  - intros [] size; cbn; [done|]. case_match; [done|].
    repeat constructor; unfold is_u; lia.
Qed.

Definition demo_record : stacktrace_event := fill demo_task demo_perf stale.

Definition demo_samples : list (kctx * perf_ctx) := replicate 3 (demo_task, demo_perf).

(** The ring has room for two of the three samples. *)
Lemma profile_run_readable_witness :
  rb_samples (run (2%nat, [], 0%nat) demo_samples) = [demo_record; demo_record] ∧
  Forall readable (rb_samples (run (2%nat, [], 0%nat) demo_samples)).
Proof.
  split; [vm_compute; reflexivity|].
  apply (profile_run_readable (2%nat, [], 0%nat) demo_samples).
  - apply demo_ring_shaped.
  - apply Forall_replicate. split; [apply demo_task_ok|apply demo_perf_ok].
  - constructor.
Defined.

Lemma profile_reports_witness :
  rb_reserve (1%nat, [], 0%nat) sizeof_stacktrace_event = Some (stale, (0%nat, [], 1%nat)) ∧
  (profile demo_task demo_perf (1%nat, [], 0%nat)).2 = 0 ∧
  frames (kstack_sz demo_record) (kstack demo_record) = [0x10; 0x20; 0x30].
Proof.
  split; [reflexivity|]. split; [|vm_compute; reflexivity].
  apply (profile_reports demo_task demo_perf (1%nat, [], 0%nat)
           demo_ring_shaped demo_task_ok demo_perf_ok).
Defined.
