(* ===== verification/TaskIterBpf.v ===== *)
(** * task_iter: the kernel side ([task_iter.bpf.c])

    An iterator program run once per task: it describes the task in a
    per-CPU buffer and writes the buffer to the iterator's file. *)
From S2P Require Import Prelude CInt CFormat BpfKernel.
Local Open Scope Z_scope.

Definition TASK_COMM_LEN : nat := 16.
Definition MAX_STACK_LEN : nat := 127.

(** [struct task_info] *)
Record task_info := TaskInfo {
  pid : Z;
  tid : Z;
  state : Z;
  comm : list ascii;
  kstack_len : Z;
  kstack : list Z;
}.

(** The two layouts of the state member of [struct task_struct]. *)
Inductive task_layout :=
| task_struct___pre514 (state : Z)
| task_struct___post514 (__state : Z).

(** The branch of [bpf_core_field_exists] is resolved when the program is
    loaded; the result is converted to [__u32]. *)
Definition get_task_state (arg : task_layout) : Z :=
  match arg with
  | task_struct___pre514 state => u32 state
  | task_struct___post514 __state => u32 __state
  end.

(** A task, and what the helpers report of it:
    [bpf_probe_read_kernel_str (dst, n, task->comm)] and
    [bpf_get_task_stack (task, buf, size, 0)] with what they write at the
    front of their buffer. *)
Record task := Task {
  t_tgid : Z;
  t_pid : Z;
  t_layout : task_layout;
  t_comm : nat → Z * list ascii;
  t_stack : Z → Z * list Z;
}.

(** Documented behaviour: ids are [pid_t]; a copied name is terminated and
    fits, and a failed copy leaves the buffer alone or clears it; a stack is
    a negative error or a number of bytes that fits the buffer. *)
Record task_ok (t : task) : Prop := {
  ok_ids : is_s 32 (t_tgid t) ∧ is_s 32 (t_pid t);
  ok_tcomm n : (0 < n)%nat →
    (nul ∈ (t_comm t n).2 ∨ (t_comm t n).1 < 0 ∧ (t_comm t n).2 = []) ∧
    (length (t_comm t n).2 ≤ n)%nat;
  ok_tstack size : 0 ≤ size →
    (- 4095 ≤ (t_stack t size).1 ≤ 0 ∧ 8 * Z.of_nat (length (t_stack t size).2) ≤ size) ∨
    (0 < (t_stack t size).1 ≤ size ∧
     (t_stack t size).1 = 8 * Z.of_nat (length (t_stack t size).2));
}.

(** The iterator's file: [bpf_seq_write] appends a record or fails. *)
Class SeqFile (S T : Type) := {
  seq_write : S → T → S * Z;
  seq_records : S → list T;
}.
Class SeqFileLaws S T `{SeqFile S T} := {
  seq_write_ok s e s' : seq_write s e = (s', 0) → seq_records s' = seq_records s ++ [e];
  seq_write_err s e s' r : seq_write s e = (s', r) → r ≠ 0 → seq_records s' = seq_records s;
}.

(** [sizeof (__u64) * MAX_STACK_LEN] *)
Definition stack_bytes : Z := 8 * Z.of_nat MAX_STACK_LEN.

(** [res <= 0 ? res : res / sizeof (t->kstack[0])]: the operands have the
    common type [unsigned long]; the result is stored in an [int]. *)
Definition to_kstack_len (res : Z) : Z :=
  s32 (if res <=? 0 then u64 res else u64 res / 8).

(** What [get_tasks] stores into the buffer. *)
Definition describe (t : task) (b : task_info) : task_info :=
  let st := t_stack t stack_bytes in
  {| pid := t_tgid t;
     tid := t_pid t;
     state := get_task_state (t_layout t);
     comm := buf_write (comm b) (t_comm t TASK_COMM_LEN).2;
     kstack := buf_write (kstack b) st.2;
     kstack_len := to_kstack_len st.1 |}.

Section Program.
Context {A S : Type} `{BpfArray A task_info} `{SeqFile S task_info}.

Definition get_tasks (ctx_task : option task) (task_info_buf : A) (seq : S) : A * S * Z :=
  match ctx_task with
  | None => (task_info_buf, seq, 0)
  | Some task =>
      match array_lookup task_info_buf 0 with
      | None => (task_info_buf, seq, 0)
      | Some t =>
          let t1 := describe task t in
          ((array_update task_info_buf 0 t1).1, (seq_write seq t1).1, 0)
      end
  end.

(** One pass of the iterator: the program runs on each task, then once with
    a NULL task. *)
Definition pass (tasks : list task) (buf : A) (seq : S) : A * S :=
  fold_left (fun st t => (get_tasks t st.1 st.2).1) (map Some tasks ++ [None]) (buf, seq).
End Program.

(** ** What a reader may rely on *)

Definition frames (i : task_info) : list Z := take (Z.to_nat (kstack_len i)) (kstack i).

(** The record can be printed without reading past its arrays. *)
Definition printable (i : task_info) : Prop :=
  is_Some (cstr (comm i)) ∧ (length (kstack i) = MAX_STACK_LEN)%nat ∧
  is_s 32 (kstack_len i) ∧ kstack_len i ≤ Z.of_nat MAX_STACK_LEN.

(** The record is about this task. *)
Definition describes (t : task) (i : task_info) : Prop :=
  pid i = t_tgid t ∧ tid i = t_pid t ∧
  state i = get_task_state (t_layout t) ∧
  (nul ∈ (t_comm t TASK_COMM_LEN).2 → cstr (comm i) = cstr (t_comm t TASK_COMM_LEN).2) ∧
  match t_stack t stack_bytes with
  | (res, words) => if res <=? 0 then kstack_len i = res else frames i = words
  end.

Section Proofs.
Implicit Types (t : task) (b : task_info).

Lemma kstack_len_error res : - 4095 ≤ res ≤ 0 → to_kstack_len res = res.
Proof.
  intros. unfold to_kstack_len. rewrite (proj2 (Z.leb_le _ _)) by lia.
  unfold s32, u64. transitivity (swrap 32 res).
  - apply swrap_eq_iff; [done|]. unfold wrap. change (2 ^ 64) with (2 ^ 32 * 2 ^ 32).
    rewrite Z.rem_mul_r by done. rewrite Z.mul_comm, Z.add_mod, Z.mod_mul by done.
    by rewrite Z.add_0_r, !Z.mod_mod.
  - apply swrap_small; [done|]. unfold is_s. lia.
Qed.

Lemma kstack_len_frames n :
  (n ≤ MAX_STACK_LEN)%nat → (0 < n)%nat → to_kstack_len (8 * Z.of_nat n) = Z.of_nat n.
Proof.
  intros Hn H0. unfold MAX_STACK_LEN in Hn. unfold to_kstack_len.
  rewrite (proj2 (Z.leb_gt _ _)) by lia. unfold u64, s32.
  rewrite wrap_small by (unfold is_u; lia).
  rewrite Z.mul_comm, Z.div_mul by done. apply swrap_small; [done|]. unfold is_s. lia.
Qed.

(** The length stored, in both cases. *)
Lemma describe_len t b :
  task_ok t →
  let '(res, words) := t_stack t stack_bytes in
  (length words ≤ MAX_STACK_LEN)%nat ∧
  if res <=? 0 then kstack_len (describe t b) = res ∧ - 4095 ≤ res
  else kstack_len (describe t b) = Z.of_nat (length words).
Proof.
  intros Ht. pose proof (ok_tstack t Ht stack_bytes ltac:(vm_compute; congruence)) as Hs.
  cbn [kstack_len describe]. destruct (t_stack t stack_bytes) as [res words]. cbn [fst snd] in *.
  unfold stack_bytes in Hs. split; [lia|]. case_cond.
  - destruct Hs as [[Hs _]|[Hs _]]; [|lia]. rewrite kstack_len_error by lia. lia.
  - destruct Hs as [[Hs _]|[Hs ->]]; [lia|]. apply kstack_len_frames; lia.
Qed.

Lemma describe_printable t b : task_ok t → printable b → printable (describe t b).
Proof.
  intros Ht (Hc & Hl & _). pose proof (describe_len t b Ht) as Hlen.
  destruct (ok_tcomm t Ht TASK_COMM_LEN) as [Hn _]; [unfold TASK_COMM_LEN; lia|].
  split; [|split]; cbn [comm kstack describe].
  - destruct Hn as [Hn|[_ ->]]; [|done]. rewrite cstr_buf_write by done. by apply cstr_some.
  - destruct (t_stack t stack_bytes) as [res words]. destruct Hlen as [Hlen _].
    cbn [snd]. rewrite length_buf_write; lia.
  - destruct (t_stack t stack_bytes) as [res words] eqn:E. destruct Hlen as [Hw Hlen].
    unfold is_s, MAX_STACK_LEN in *. case_cond_in Hlen; lia.
Qed.

Lemma describe_describes t b : task_ok t → describes t (describe t b).
Proof.
  intros Ht. pose proof (describe_len t b Ht) as Hlen.
  split_and!; [done..| |].
  - intros Hn. by apply cstr_buf_write.
  - destruct (t_stack t stack_bytes) as [res words] eqn:E. destruct Hlen as [_ Hlen].
    case_cond; [by destruct Hlen|]. unfold frames. rewrite Hlen, Nat2Z.id.
    cbn [kstack describe]. rewrite E. cbn [snd]. rewrite take_buf_write by done. by apply take_ge.
Qed.
End Proofs.

(** ** A whole pass *)

Section Pass.
Context {A S : Type} `{BpfArrayLaws A task_info} `{SeqFileLaws S task_info}.

(** The file has room for the records of this pass. *)
Definition seq_accepts (P : S → Prop) : Prop :=
  ∀ s e, P s → (seq_write s e).2 = 0 ∧ P (seq_write s e).1.

Lemma get_tasks_step t (buf : A) (seq : S) b :
  array_lookup buf 0 = Some b →
  get_tasks (Some t) buf seq =
    ((array_update buf 0 (describe t b)).1, (seq_write seq (describe t b)).1, 0) ∧
  array_lookup (array_update buf 0 (describe t b)).1 0 = Some (describe t b).
Proof.
  intros Hb. cbn. rewrite Hb. split; [done|].
  pose proof (array_update_present buf 0 (describe t b) b Hb) as Hp.
  destruct (array_update buf 0 (describe t b)) as [buf' r] eqn:E. cbn in *. subst r.
  by eapply array_update_eq.
Qed.

Lemma pass_records tasks (buf : A) (seq : S) P b :
  seq_accepts P → P seq → array_lookup buf 0 = Some b → printable b → Forall task_ok tasks →
  ∃ recs, seq_records (fold_left (fun st t => (get_tasks t st.1 st.2).1)
                         (map Some tasks) (buf, seq)).2 = seq_records seq ++ recs ∧
    Forall2 describes tasks recs ∧ Forall printable recs.
Proof.
  intros Hacc. revert buf seq b. induction tasks as [|t tasks IH]; intros buf seq b HP Hb Hpr Hts.
  - exists []. by rewrite app_nil_r.
  - apply Forall_cons in Hts as [Ht Hts]. cbn [map fold_left].
    destruct (get_tasks_step t buf seq b Hb) as [E Hb']. cbn [fst snd]. rewrite E. cbn [fst snd].
    pose proof (describe_printable t b Ht Hpr) as Hpr'.
    destruct (Hacc seq (describe t b) HP) as [Hw HP'].
    destruct (seq_write seq (describe t b)) as [seq' r] eqn:Es. cbn in *. subst r.
    destruct (IH _ seq' _ HP' Hb' Hpr' Hts) as (recs & E' & Hd & Hr).
    exists (describe t b :: recs). rewrite E', (seq_write_ok _ _ _ Es), <-app_assoc.
    split; [done|]. split; constructor; by auto using describe_describes.
Qed.

(** A pass of the iterator over any list of tasks, into a file with
    room, writes exactly one record per task, in order; each carries the ids,
    the state (of either kernel layout), the name and the stack of its own
    task although they share one buffer, and can be printed safely. *)
Theorem tasks_listed tasks (buf : A) (seq : S) P b :
  seq_accepts P → P seq → array_lookup buf 0 = Some b → printable b → Forall task_ok tasks →
  ∃ recs, seq_records (pass tasks buf seq).2 = seq_records seq ++ recs ∧
    Forall2 describes tasks recs ∧ Forall printable recs.
Proof.
  intros. unfold pass. rewrite fold_left_app. cbn [fold_left get_tasks].
  rewrite <-surjective_pairing. by eapply pass_records.
Qed.
End Pass.

(** ** A concrete pass *)

#[export] Instance list_seq : SeqFile (list task_info) task_info :=
  {| seq_write s e := (s ++ [e], 0); seq_records s := s |}.
#[export] Instance list_seq_laws : SeqFileLaws (list task_info) task_info.
Proof. split; cbn; naive_solver. Qed.

Definition zero_info : task_info :=
  TaskInfo 0 0 0 (replicate TASK_COMM_LEN nul) 0 (replicate MAX_STACK_LEN 0).

Definition mk_task (tgid tid : Z) (l : task_layout) (name : string) (stack : list Z) : task :=
  Task tgid tid l (fun n => (1, str_bytes n name))
    (fun size => if 8 * Z.of_nat (length stack) <=? size
                 then (8 * Z.of_nat (length stack), stack) else (-14, [])).

Lemma mk_task_ok tgid tid l name stack :
  is_s 32 tgid → is_s 32 tid → task_ok (mk_task tgid tid l name stack).
Proof.
  intros. split; [done| |]; cbn.
  - intros n Hn. split; [left; apply nul_str_bytes|by apply length_str_bytes].
  - intros size Hs. case_cond; cbn; lia.
Qed.

Definition demo_tasks : list task :=
  [mk_task 1 1 (task_struct___pre514 1) "systemd" [0x10; 0x20];
   mk_task 70 71 (task_struct___post514 0x402) "kworker/0:1" []].

(** The second record does not show the stack of the first task. *)
Lemma tasks_listed_witness :
  map (fun i => (pid i, tid i, state i, cstr (comm i), frames i))
    (seq_records (pass demo_tasks [zero_info] []).2)
  = [(1, 1, 1, Some "systemd", [0x10; 0x20]);
     (70, 71, 0x402, Some "kworker/0:1", [])]%string ∧
  ∃ recs, seq_records (pass demo_tasks [zero_info] []).2 = seq_records ([] : list task_info) ++ recs ∧
    Forall2 describes demo_tasks recs ∧ Forall printable recs.
Proof.
  split; [vm_compute; reflexivity|].
  apply (tasks_listed demo_tasks [zero_info] [] (fun _ => True) zero_info).
  - by intros s e _.
  - done.
  - reflexivity.
  - split; [eexists; reflexivity|]. split; [reflexivity|]. cbn [kstack_len zero_info]. unfold is_s, MAX_STACK_LEN. lia.
  - repeat (apply Forall_cons_2; [apply mk_task_ok; unfold is_s; lia|]). constructor.
Defined.
