(* ===== verification/UserSpace.v ===== *)
(** * The calls of the user-space programs and their protocol

    [sysE T] lists the calls the [main] functions make into libbpf, libc,
    blazesym and the kernel ([T] is the type of the records their ring
    buffer delivers).  [sys] is the protocol of those calls: it tracks every
    object a program holds with its stage, allows a call only on an object
    in the right stage, and constrains the answers to the documented ones. *)
From S2P Require Import Prelude Interaction CInt CFormat BpfKernel.
From ITree Require Import ITree.
From Paco Require Import paco.
Local Open Scope Z_scope.

(** A pointer is its address, 0 for NULL. *)
Abbreviation ptr := Z (only parsing).

(** The members of [struct perf_event_attr] the programs set. *)
Record perf_attr := PerfAttr {
  attr_type : Z; attr_config : Z; attr_sample_freq : Z; attr_freq : Z }.

(** The kinds of objects; [KStale] are the numbers of descriptors that
    another object closed and the program still has. *)
Inductive kind := KSkel | KRing | KLink | KFd | KSym | KSyms | KMem | KHook | KFilter | KStale.

(** [PerfEvent]: a perf event descriptor, as it was opened; [Bound]: a link of a
    program to such a descriptor; [Released]: a hook the program has given
    up, which the kernel may keep. *)
Inductive stage :=
| Opened | Loaded | Attached | Live | Released
| PerfEvent (attr : perf_attr) (pid cpu group_fd flags : Z)
| Bound (prog : string) (fd : Z).

#[export] Instance perf_attr_eq_dec : EqDecision perf_attr.
Proof. solve_decision. Defined.
#[export] Instance kind_eq_dec : EqDecision kind.
Proof. solve_decision. Defined.
#[export] Instance stage_eq_dec : EqDecision stage.
Proof. solve_decision. Defined.

Definition kind_code (k : kind) : nat :=
  match k with
  | KSkel => 0 | KRing => 1 | KLink => 2 | KFd => 3 | KSym => 4
  | KSyms => 5 | KMem => 6 | KHook => 7 | KFilter => 8 | KStale => 9
  end.
Definition kind_decode (n : nat) : option kind :=
  [KSkel; KRing; KLink; KFd; KSym; KSyms; KMem; KHook; KFilter; KStale] !! n.
#[export] Instance kind_countable : Countable kind.
Proof. apply (inj_countable kind_code kind_decode). by intros []. Defined.

(** What blazesym reports of an address ([blazesym.h]). *)
Record code_info := CodeInfo { ci_dir : option string; ci_file : option string; ci_line : Z }.
Record inlined_fn := InlinedFn { in_name : option string; in_info : code_info }.
Record blaze_sym := BlazeSym {
  sym_name : option string; sym_addr : Z; sym_offset : Z; sym_info : code_info;
  sym_inlined : list inlined_fn }.

(** The objects a program holds. *)
Abbreviation live := (gmap (kind * Z) stage).

Variant sysE (T : Type) : Type → Type :=
(** BPF skeleton: [X_bpf__open], [.._open_and_load], [.._load], [.._attach],
    [.._destroy], stores to [skel->rodata] and [skel->bss] *)
| SkelOpen : sysE T ptr
| SkelOpenLoad : sysE T ptr
| SkelLoad (s : ptr) : sysE T Z
| SkelAttach (s : ptr) : sysE T Z
| SkelDestroy (s : ptr) : sysE T unit
| SetRodata (s : ptr) (field : string) (v : Z) : sysE T unit
| SetBss (s : ptr) (field : string) (v : Z) : sysE T unit
(** [bpf_map__fd], [bpf_program__fd], [bpf_link__fd (skel->links.x)],
    [bpf_map__update_elem] *)
| MapFd (s : ptr) (map : string) : sysE T Z
| ProgFd (s : ptr) (prog : string) : sysE T Z
| LinkFd (s : ptr) (link : string) : sysE T Z
| MapUpdate (s : ptr) (map : string) (key v : Z) : sysE T Z
(** [bpf_program__attach_uprobe_opts] and [.._attach_usdt] with the link
    stored in the skeleton, which then owns it *)
| AttachUprobe (s : ptr) (prog func : string) (retprobe : bool) (pid : Z) : sysE T ptr
| AttachUsdt (s : ptr) (prog : string) (pid : Z) : sysE T ptr
(** [bpf_program__attach_perf_event], [bpf_link__destroy] (the answer, which
    the program does not see, tells whether the descriptor the link was
    attached to was closed with it) *)
| AttachPerf (s : ptr) (prog : string) (pefd : Z) : sysE T ptr
| LinkDestroy (l : ptr) : sysE T bool
(** [parse_cpu_mask_file] (its result, [*mask] as a pointer and as an
    array), [libbpf_num_possible_cpus], [syscall (__NR_perf_event_open, ..)] *)
| ParseCpuMask : sysE T (Z * ptr * list bool)
| NumPossibleCpus : sysE T Z
| PerfEventOpen (attr : perf_attr) (pid cpu group_fd flags : Z) : sysE T Z
(** [blaze_symbolizer_new], [.._free], [blaze_symbolize_process_abs_addrs]
    and [.._kernel_abs_addrs] ([pid] 0), [blaze_syms_free],
    [blaze_err_str (blaze_err_last ())] *)
| SymbolizerNew : sysE T ptr
| SymbolizerFree (y : ptr) : sysE T unit
| Symbolize (y : ptr) (pid : Z) (addrs : list Z) : sysE T (ptr * list blaze_sym)
| SymsFree (p : ptr) : sysE T unit
| BlazeErr : sysE T string
(** [malloc] and [calloc] (with the size in bytes), [free] *)
| Malloc (size : Z) : sysE T ptr
| Calloc (size : Z) : sysE T ptr
| Free (p : ptr) : sysE T unit
(** [ring_buffer__new], [.._poll] (with the records it hands to the
    callback), [.._free] *)
| RbNew (fd : Z) : sysE T ptr
| RbPoll (rb : ptr) (timeout : Z) : sysE T (Z * list T)
| RbFree (rb : ptr) : sysE T unit
(** traffic control: [bpf_tc_hook_create], [.._destroy] (besides its code,
    whether it took the filters off the hook, which the program does not
    see), [bpf_tc_attach], [bpf_tc_detach] *)
| TcHookCreate : sysE T Z
| TcHookDestroy : sysE T (Z * bool)
| TcAttach (prog_fd : Z) : sysE T Z
| TcDetach : sysE T Z
(** [libbpf_set_print], [signal] (true unless it answers [SIG_ERR]), a read
    of the flag the signal handler sets, [getpid], [errno], [strerror (errno)], [sleep],
    [stat ("/proc/self/ns/pid")], [setjmp] *)
| SetPrint : sysE T unit
| Signal (sig : Z) : sysE T bool
| ReadFlag : sysE T bool
| GetPid : sysE T Z
| GetErrno : sysE T Z
| StrError : sysE T string
| Sleep (secs : Z) : sysE T unit
| StatPidNs : sysE T (option (Z * Z))
| SetJmp : sysE T Z
(** [printf], [fprintf (stderr, ..)], the time as [%H:%M:%S] *)
| Stdout (text : string) : sysE T unit
| Stderr (text : string) : sysE T unit
| TimeOfDay : sysE T string
(** [socket] (also any other call that opens a descriptor), [bind],
    [if_nametoindex], [if_indextoname], [setsockopt (SO_ATTACH_BPF)],
    [bpf_iter_create], [close] *)
| Socket : sysE T Z
| Bind (fd ifindex : Z) : sysE T Z
| IfNameToIndex (name : string) : sysE T Z
| IfIndexToName (ifindex : Z) : sysE T (option string)
| AttachBpf (sock prog_fd : Z) : sysE T Z
| IterCreate (link_fd : Z) : sysE T Z
| ReadIter (fd : Z) : sysE T (Z * option T)
| Close (fd : Z) : sysE T Z
(** behaviour the language leaves undefined: the value of an uninitialised
    variable is used, an array is read out of bounds *)
| Undefined : sysE T unit.
Arguments SkelOpen {_}. Arguments SkelOpenLoad {_}.
Arguments SkelLoad {_} _. Arguments SkelAttach {_} _. Arguments SkelDestroy {_} _.
Arguments SetRodata {_} _ _ _. Arguments SetBss {_} _ _ _.
Arguments MapFd {_} _ _. Arguments ProgFd {_} _ _. Arguments LinkFd {_} _ _.
Arguments MapUpdate {_} _ _ _ _.
Arguments AttachUprobe {_} _ _ _ _ _. Arguments AttachUsdt {_} _ _ _.
Arguments AttachPerf {_} _ _ _. Arguments LinkDestroy {_} _.
Arguments ParseCpuMask {_}. Arguments NumPossibleCpus {_}.
Arguments PerfEventOpen {_} _ _ _ _ _. Arguments SymbolizerNew {_}. Arguments SymbolizerFree {_} _.
Arguments Symbolize {_} _ _ _. Arguments SymsFree {_} _. Arguments BlazeErr {_}.
Arguments Malloc {_} _. Arguments Calloc {_} _. Arguments Free {_} _.
Arguments RbNew {_} _. Arguments RbPoll {_} _ _. Arguments RbFree {_} _.
Arguments TcHookCreate {_}. Arguments TcHookDestroy {_}.
Arguments TcAttach {_} _. Arguments TcDetach {_}.
Arguments SetPrint {_}. Arguments Signal {_} _. Arguments ReadFlag {_}.
Arguments GetPid {_}. Arguments GetErrno {_}. Arguments StrError {_}. Arguments Sleep {_} _. Arguments StatPidNs {_}. Arguments SetJmp {_}.
Arguments Stdout {_} _. Arguments Stderr {_} _. Arguments TimeOfDay {_}.
Arguments Socket {_}. Arguments Bind {_} _ _. Arguments IfNameToIndex {_} _.
Arguments IfIndexToName {_} _. Arguments AttachBpf {_} _ _. Arguments IterCreate {_} _.
Arguments ReadIter {_} _. Arguments Close {_} _.
Arguments Undefined {_}.

Definition ask {T X} (e : sysE T X) : itree (sysE T) X := ITree.trigger e.

(** Reaching undefined behaviour ends the model of the program. *)
Definition undefined {T X} : itree (sysE T) X :=
  ITree.bind (ask Undefined) (fun _ => ITree.spin).

(** ** The tracked objects *)

Definition at_stage (m : live) (k : kind) (h : Z) (ok : stage → bool) : bool :=
  match m !! (k, h) with Some st => ok st | None => false end.
Definition is_opened (st : stage) : bool := match st with Opened => true | _ => false end.
Definition is_loaded (st : stage) : bool := match st with Loaded => true | _ => false end.
Definition is_created (st : stage) : bool :=
  match st with Loaded | Attached => true | _ => false end.
Definition any_stage (st : stage) : bool := true.
Definition is_live (st : stage) : bool := match st with Live => true | _ => false end.

(** A new pointer or descriptor, if the call succeeded. *)
Definition got (k : kind) (ok : bool) (h : Z) (st : stage) (m : live) : live :=
  if ok then <[(k, h) := st]> m else m.
Definition gone (k : kind) (h : Z) (m : live) : live := delete (k, h) m.
(** A descriptor closed behind the program's back. *)
Definition closed_behind (fd : Z) (m : live) : live :=
  match m !! (KFd, fd) with
  | Some _ => <[(KStale, fd) := Live]> (gone KFd fd m)
  | None => m
  end.

(** A pointer result: NULL, or the address of a new object. *)
Definition fresh_ptr (m : live) (k : kind) (x : Z) : Prop :=
  x = 0 ∨ (0 < x ∧ m !! (k, x) = None).
(** A descriptor result: negative, or a new descriptor. *)
Definition fresh_fd (m : live) (x : Z) : Prop :=
  is_s 32 x ∧ (x < 0 ∨ m !! (KFd, x) = None).
(** A status result: zero or a negative error number. *)
Definition status (x : Z) : Prop := - 4095 ≤ x ≤ 0.

Definition sys_pre {T X} (e : sysE T X) (m : live) : bool :=
  match e with
  | SkelLoad s | SetRodata s _ _ => at_stage m KSkel s is_opened
  | SkelAttach s => at_stage m KSkel s is_loaded
  | SetBss s _ _ => at_stage m KSkel s any_stage
  | MapFd s _ | ProgFd s _ | LinkFd s _ | MapUpdate s _ _ _
  | AttachUprobe s _ _ _ _ | AttachUsdt s _ _ => at_stage m KSkel s is_created
  | AttachPerf s _ fd => at_stage m KSkel s is_created && at_stage m KFd fd any_stage
  | SkelDestroy s => (s =? 0) || at_stage m KSkel s any_stage
  | LinkDestroy l => (l =? 0) || at_stage m KLink l any_stage
  | RbNew fd => 0 <=? fd
  | RbPoll r _ => at_stage m KRing r any_stage
  | RbFree r => (r =? 0) || at_stage m KRing r any_stage
  | TcHookDestroy => at_stage m KHook 1 is_live
  | TcDetach => at_stage m KFilter 1 any_stage
  | Bind fd _ | AttachBpf fd _ | ReadIter fd => at_stage m KFd fd any_stage
  | IterCreate fd => 0 <=? fd
  | Close fd => (fd <? 0) || at_stage m KFd fd any_stage || at_stage m KStale fd any_stage
  | SymbolizerFree y => (y =? 0) || at_stage m KSym y any_stage
  | Symbolize y _ _ => at_stage m KSym y any_stage
  | SymsFree p => (p =? 0) || at_stage m KSyms p any_stage
  | Free p => (p =? 0) || at_stage m KMem p any_stage
  | Undefined => false
  | _ => true
  end.

(** Two calls leave something to the library.  [bpf_link__destroy] may or may
    not close the descriptor the link was attached to; if it does, the
    program's number is stale: it may be closed again, to no effect, unless
    the number was given out anew.  [bpf_tc_hook_destroy] on an ingress hook
    does not remove the hook ([tc.c]); it may take the filters off. *)
Definition sys_post {T X} (e : sysE T X) : X → live → live :=
  match e in sysE _ X return X → live → live with
  | SkelOpen => fun x => got KSkel (negb (x =? 0)) x Opened
  | SkelOpenLoad => fun x => got KSkel (negb (x =? 0)) x Loaded
  | SkelLoad s => fun x => got KSkel (x =? 0) s Loaded
  | SkelAttach s => fun x => got KSkel (x =? 0) s Attached
  | SkelDestroy s => fun _ => gone KSkel s
  | AttachPerf _ prog fd => fun x => got KLink (negb (x =? 0)) x (Bound prog fd)
  | LinkDestroy l => fun closed m =>
      if l =? 0 then m
      else match m !! (KLink, l) with
           | Some (Bound _ fd) => if closed then closed_behind fd (gone KLink l m) else gone KLink l m
           | _ => gone KLink l m
           end
  | ParseCpuMask => fun x => got KMem (negb (x.1.2 =? 0)) x.1.2 Live
  | SymbolizerNew => fun x => got KSym (negb (x =? 0)) x Live
  | SymbolizerFree y => fun _ => gone KSym y
  | Symbolize _ _ _ => fun x => got KSyms (negb (x.1 =? 0)) x.1 Live
  | SymsFree p => fun _ => gone KSyms p
  | Malloc _ | Calloc _ => fun x => got KMem (negb (x =? 0)) x Live
  | Free p => fun _ => gone KMem p
  | RbNew _ => fun x => got KRing (negb (x =? 0)) x Live
  | RbFree r => fun _ => gone KRing r
  | TcHookCreate => fun x => got KHook (x =? 0) 1 Live
  | TcHookDestroy => fun x m =>
      let m' : live := <[(KHook, 1) := Released]> m in
      if x.2 then gone KFilter 1 m' else m'
  | TcAttach _ => fun x => got KFilter (x =? 0) 1 Live
  | TcDetach => fun x m => if x =? 0 then gone KFilter 1 m else m
  | Socket | IterCreate _ => fun x => got KFd (0 <=? x) x Live
  | PerfEventOpen attr pid cpu group_fd flags => fun x =>
      got KFd (0 <=? x) x (PerfEvent attr pid cpu group_fd flags)
  | Close fd => fun _ m => gone KStale fd (gone KFd fd m)
  | _ => fun _ m => m
  end.

(** [sample_ok] is what the kernel side promises of the records it sends. *)
Definition sys_resp {T} (sample_ok : T → Prop) {X} (e : sysE T X) (m : live) : X → Prop :=
  match e in sysE _ X return X → Prop with
  | SkelOpen | SkelOpenLoad => fresh_ptr m KSkel
  | SkelLoad _ | SkelAttach _ | MapUpdate _ _ _ _ => status
  | MapFd _ _ | ProgFd _ _ | LinkFd _ _ => fun x => 0 ≤ x
  | AttachUprobe _ _ _ _ _ | AttachUsdt _ _ _ => fun x => 0 ≤ x
  | AttachPerf _ _ _ => fresh_ptr m KLink
  | RbNew _ => fresh_ptr m KRing
  | ParseCpuMask => fun x => status x.1.1 ∧ fresh_ptr m KMem x.1.2 ∧
                             (x.1.1 = 0 → x.1.2 ≠ 0)
  | NumPossibleCpus => is_s 32
  | SymbolizerNew => fresh_ptr m KSym
  | Symbolize _ _ _ => fun x =>
      fresh_ptr m KSyms x.1 ∧
      Forall (fun sym => Forall (fun i => is_Some (in_name i)) (sym_inlined sym)) x.2
  | Malloc _ | Calloc _ => fresh_ptr m KMem
  | RbPoll _ _ => fun x => is_s 32 x.1 ∧ (x.1 < 0 ∨ x.1 = Z.of_nat (length x.2)) ∧
                           Forall sample_ok x.2
  | TcHookCreate | TcAttach _ | TcDetach => status
  | TcHookDestroy => fun x => status x.1
  | GetPid => fun x => 0 < x < 2 ^ 31
  | GetErrno => fun x => 0 < x ≤ 4095
  | SetJmp => fun x => x = 0
  | Socket | IterCreate _ | PerfEventOpen _ _ _ _ _ => fresh_fd m
  | Bind _ _ | AttachBpf _ _ | Close _ => fun x => x = 0 ∨ x = -1
  | IfNameToIndex _ => is_u 32
  | ReadIter _ => fun x => match x.2 with
                           | Some t => 0 < x.1 ∧ sample_ok t
                           | None => x.1 ≤ 0
                           end
  | _ => fun _ => True
  end.

(** The state of the protocol: the objects held, and how many more reads of
    the signal flag may answer [false] ([None]: no signal need ever come). *)
Abbreviation ustate := (live * option nat)%type.

Definition tick {T X} (e : sysE T X) (n : option nat) : option nat :=
  match e with ReadFlag => pred <$> n | _ => n end.

Definition flag_resp {T X} (e : sysE T X) (n : option nat) : X → Prop :=
  match e in sysE _ X return X → Prop with
  | ReadFlag => fun b => n = Some O → b = true
  | _ => fun _ => True
  end.

(** [good] narrows the answers further, for statements about particular
    environments. *)
Definition sys_with {T} (sample_ok : T → Prop) (good : ∀ X, sysE T X → X → Prop)
    : protocol (sysE T) ustate :=
  Protocol
    (fun X e s => sys_pre e s.1)
    (fun X e s x => sys_resp sample_ok e s.1 x ∧ flag_resp e s.2 x ∧ good X e x)
    (fun X e x s => (sys_post e x s.1, tick e s.2)).

Definition any_answer {T} X (e : sysE T X) (x : X) : Prop := True.
Abbreviation sys sample_ok := (sys_with sample_ok any_answer).

(** An environment in which nothing fails: every object is created, every
    call succeeds, polls are at most interrupted. *)
Definition EINTR : Z := 4.
Definition happy {T} X (e : sysE T X) : X → Prop :=
  match e in sysE _ X return X → Prop with
  | SkelOpen | SkelOpenLoad | RbNew _ | AttachUprobe _ _ _ _ _ | AttachUsdt _ _ _
  | AttachPerf _ _ _ | SymbolizerNew | Malloc _ | Calloc _ => fun x => x ≠ 0
  | ParseCpuMask => fun x => x.1.1 = 0
  | NumPossibleCpus => fun x => 0 < x
  | Symbolize _ _ _ => fun x => x.1 ≠ 0
  | SkelLoad _ | SkelAttach _ | MapUpdate _ _ _ _ | TcHookCreate | TcAttach _ | TcDetach
  | Bind _ _ | AttachBpf _ _ => fun x => x = 0
  | Socket | IterCreate _ | PerfEventOpen _ _ _ _ _ => fun x => 0 ≤ x
  | RbPoll _ _ => fun x => 0 ≤ x.1 ∨ x.1 = - EINTR
  | ReadIter _ => fun x => 0 ≤ x.1
  | Signal _ => fun b => b = true
  | StatPidNs => fun o => is_Some o
  | _ => fun _ => True
  end.

(** ** Facts for the proofs *)

Lemma at_stage_insert m k h st ok :
  ok st = true → at_stage (<[(k, h) := st]> m) k h ok = true.
Proof. intros. unfold at_stage. by rewrite lookup_insert_eq. Qed.

Lemma at_stage_insert_ne m k h st k' h' ok :
  (k, h) ≠ (k', h') → at_stage (<[(k, h) := st]> m) k' h' ok = at_stage m k' h' ok.
Proof. intros. unfold at_stage. by rewrite lookup_insert_ne. Qed.

Lemma at_stage_delete_ne m k h k' h' ok :
  (k, h) ≠ (k', h') → at_stage (delete (k, h) m) k' h' ok = at_stage m k' h' ok.
Proof. intros. unfold at_stage. by rewrite lookup_delete_ne. Qed.

Lemma at_stage_fresh m k h h' :
  m !! (k, h) = None → at_stage m k h' any_stage = true → h ≠ h'.
Proof. unfold at_stage. intros Hn Ha <-. by rewrite Hn in Ha. Qed.

#[export] Hint Resolve at_stage_insert : cmem.

(** Equality of two explicit sets of held objects. *)
Ltac live_eq :=
  apply map_eq; intros [? ?]; unfold gone, got; cbn [fst snd];
  repeat first [rewrite lookup_delete | rewrite lookup_insert | rewrite lookup_empty];
  repeat case_decide; simplify_eq; try done.

(** The precondition of a call on an explicit set of held objects. *)
Ltac live_pre :=
  cbn [sys_pre]; unfold got, gone;
  repeat first
    [ reflexivity
    | rewrite at_stage_insert by reflexivity
    | rewrite at_stage_insert_ne by congruence
    | rewrite at_stage_delete_ne by congruence
    | rewrite orb_true_r ];
  try lia.

Section Rules.
Context {T : Type} (ok : T → Prop) (good : ∀ X, sysE T X → X → Prop).

Lemma safe_call {X R : Type} (Q : R → ustate → Prop) (e : sysE T X) k m n :
  sys_pre e m = true →
  (∀ x, sys_resp ok e m x → flag_resp e n x → good X e x →
        safe (sys_with ok good) Q (k x) (sys_post e x m, tick e n)) →
  safe (sys_with ok good) Q (ITree.bind (ask e) k) (m, n).
Proof.
  intros Hp Hk.
  eapply safe_bind with (Q := fun x s => sys_resp ok e m x ∧ flag_resp e n x ∧
                                         good X e x ∧ s = (sys_post e x m, tick e n)).
  - apply safe_trigger; [done|]. by intros x (? & ? & ?).
  - intros x s (? & ? & ? & ->). by apply Hk.
Qed.

Lemma ends_call {X R : Type} (Q : R → ustate → Prop) (e : sysE T X) k m n :
  sys_pre e m = true →
  (∀ x, sys_resp ok e m x → flag_resp e n x → good X e x →
        ends (sys_with ok good) Q (k x) (sys_post e x m, tick e n)) →
  ends (sys_with ok good) Q (ITree.bind (ask e) k) (m, n).
Proof.
  intros Hp Hk.
  eapply ends_bind with (Q := fun x s => sys_resp ok e m x ∧ flag_resp e n x ∧
                                         good X e x ∧ s = (sys_post e x m, tick e n)).
  - apply ends_trigger; [done|]. by intros x (? & ? & ?).
  - intros x s (? & ? & ? & ->). by apply Hk.
Qed.

(** A program that is safe however late the signal comes is safe when it need
    not come at all. *)
Lemma safe_any_signal {R} (Q : R → live → Prop) t m o :
  (∀ n, ends (sys_with ok good) (fun v s => Q v s.1) t (m, Some n)) →
  safe (sys_with ok good) (fun v s => Q v s.1) t (m, o).
Proof.
  intros He. assert (∀ n, safe (sys_with ok good) (fun v s => Q v s.1) t (m, Some n)) as Hs
    by (intros n; apply ends_safe, He). clear He.
  destruct o as [n|]; [apply Hs|]. revert t m Hs. pcofix CIH. intros t m Hs.
  assert (∀ n, safeF (sys_with ok good) (fun v s => Q v s.1)
            (safe (sys_with ok good) (fun v s => Q v s.1)) (observe t) (m, Some n)) as Hu
    by (intros n; by apply safe_unfold).
  clear Hs. pfold. unfold safe_, safeF in *. destruct (observe t) as [v|t'|X e k].
  - apply (Hu O).
  - right. by apply CIH.
  - split; [apply (Hu O)|]. intros x (Hr & _ & Hg). right. cbn [post sys_with fst snd].
    assert (tick e None = None) as -> by (by destruct e). apply CIH. intros n.
    destruct (Hu n) as [_ Hx]. destruct (Hu (S n)) as [_ Hx'].
    specialize (Hx x). specialize (Hx' x). destruct e; first [by apply Hx | by apply Hx'].
Qed.

(** A call under a second protocol. *)
Lemma safe_call_both {St2 X R : Type} (P2 : protocol (sysE T) St2) (Q : R → ustate * St2 → Prop)
    (e : sysE T X) k m n s2 :
  sys_pre e m = true → pre P2 e s2 = true →
  (∀ x, sys_resp ok e m x → resp P2 e s2 x →
        safe (both (sys_with ok good) P2) Q (k x) ((sys_post e x m, tick e n), post P2 e x s2)) →
  safe (both (sys_with ok good) P2) Q (ITree.bind (ask e) k) ((m, n), s2).
Proof.
  intros Hp Hp2 Hk.
  eapply safe_bind with (Q := fun x s => sys_resp ok e m x ∧ resp P2 e s2 x ∧
                                s = ((sys_post e x m, tick e n), post P2 e x s2)).
  - apply safe_trigger; [cbn; by rewrite Hp, Hp2|]. by intros x [(? & _ & _) ?].
  - intros x s (? & ? & ->). by apply Hk.
Qed.

Lemma ends_call_both {St2 X R : Type} (P2 : protocol (sysE T) St2) (Q : R → ustate * St2 → Prop)
    (e : sysE T X) k m n s2 :
  sys_pre e m = true → pre P2 e s2 = true →
  (∀ x, sys_resp ok e m x → good X e x → resp P2 e s2 x →
        ends (both (sys_with ok good) P2) Q (k x) ((sys_post e x m, tick e n), post P2 e x s2)) →
  ends (both (sys_with ok good) P2) Q (ITree.bind (ask e) k) ((m, n), s2).
Proof.
  intros Hp Hp2 Hk.
  eapply ends_bind with (Q := fun x s => sys_resp ok e m x ∧ good X e x ∧ resp P2 e s2 x ∧
                                s = ((sys_post e x m, tick e n), post P2 e x s2)).
  - apply ends_trigger; [cbn; by rewrite Hp, Hp2|]. by intros x [(? & _ & ?) ?].
  - intros x s (? & ? & ? & ->). by apply Hk.
Qed.

(** A loop over the elements of an array: the ring buffer callback on the
    records of a poll, for one. *)
Fixpoint each {A} (f : A → itree (sysE T) unit) (l : list A) : itree (sysE T) unit :=
  match l with
  | [] => Ret tt
  | e :: t => ITree.bind (f e) (fun _ => each f t)
  end.

Lemma ends_each {A} (P : A → Prop) f l s :
  (∀ e, P e → ends (sys_with ok good) (fun _ s' => s' = s) (f e) s) → Forall P l →
  ends (sys_with ok good) (fun _ s' => s' = s) (each f l) s.
Proof.
  intros Hf Hl. induction Hl as [|e l He _ IH]; cbn; [by apply ends_Ret|].
  eapply ends_bind; [by apply Hf|]. by intros _ s' ->.
Qed.

(** [for (i = lo; i < lo + n; i++) f (i)] *)
Fixpoint for_range (n lo : nat) (f : nat → itree (sysE T) unit) : itree (sysE T) unit :=
  match n with
  | O => Ret tt
  | S n' => ITree.bind (f lo) (fun _ => for_range n' (S lo) f)
  end.

(** An access to [a[i]]: outside the array it is undefined. *)
Definition at_index {A X} (l : list A) (i : nat) (f : A → itree (sysE T) X) : itree (sysE T) X :=
  match l !! i with Some v => f v | None => undefined end.

Lemma for_range_each {A} (f : A → itree (sysE T) unit) (l : list A) n :
  length l = n → for_range n 0 (fun i => at_index l i f) = each f l.
Proof.
  intros <-. enough (∀ k, k ≤ length l → for_range (length l - k) k (fun i => at_index l i f) =
                         each f (drop k l))%nat as H.
  { specialize (H 0%nat). rewrite Nat.sub_0_r in H. apply H. lia. }
  intros k. remember (length l - k)%nat as d eqn:Hd. revert k Hd.
  induction d as [|d IH]; intros k Hd Hk; cbn.
  - by rewrite drop_ge by lia.
  - destruct (lookup_lt_is_Some_2 l k) as [v Hv]; [lia|].
    rewrite (drop_S _ v) by done. cbn. unfold at_index at 1. rewrite Hv. by rewrite IH by lia.
Qed.

(** Loops of the form [while (!flag) ...]: every round reads the flag once,
    goes on only when it was not set, and keeps the objects held. *)
Section FlagLoop.
Context {I R : Type} (body : I → itree (sysE T) (I + R)) (m : live)
  (J : I → Prop) (Q : R → Prop).

Definition flag_round : Prop := ∀ i n, J i →
  ends (sys_with ok good)
    (loop_post (fun j s => s = (m, pred <$> n) ∧ n ≠ Some O ∧ J j)
               (fun v s => s.1 = m ∧ Q v))
    (body i) (m, n).

(** A round that starts by reading the flag: the rest of it runs only when
    the flag was not set. *)
Lemma flag_round_read (v : I → R) (rest : I → itree (sysE T) (I + R)) :
  (∀ i, body i = ITree.bind (ask ReadFlag) (fun b : bool => if b then Ret (inr (v i)) else rest i)) →
  (∀ i, J i → Q (v i)) →
  (∀ i n, J i → n ≠ Some O →
     ends (sys_with ok good)
       (loop_post (fun j s => s = (m, pred <$> n) ∧ n ≠ Some O ∧ J j) (fun r s => s.1 = m ∧ Q r))
       (rest i) (m, pred <$> n)) →
  flag_round.
Proof.
  intros Hbody Hv Hrest i n Hi. rewrite Hbody.
  apply ends_call; [done|]. intros b _ Hb _. cbn [sys_post tick flag_resp] in *.
  destruct b; [apply ends_Ret; split; [done|by apply Hv]|].
  apply Hrest; [done|]. intros ->. by specialize (Hb eq_refl).
Qed.

Lemma flag_loop_ends i n :
  flag_round → J i →
  ends (sys_with ok good) (fun v s => s.1 = m ∧ Q v) (ITree.iter body i) (m, Some n).
Proof.
  intros Hb Hi.
  apply (ends_iter (sys_with ok good) (fun k j s => s = (m, Some k) ∧ J j)) with (n := n); [|done].
  intros k j s [-> Hj]. eapply ends_conseq; [apply (Hb j (Some k) Hj)|].
  intros [j'|v] s'; cbn; [|done]. intros (-> & Hk & Hj').
  destruct k as [|k]; [done|]. exists k. cbn. split; [lia|done].
Qed.
End FlagLoop.
End Rules.

(** Keep the held objects in the form of nested inserts. *)
Ltac live_norm := unfold got, gone; cbn [negb]; rewrite ?insert_insert_eq.

(** One call of a program: show it is allowed, name its answer. *)
Ltac sys_call x Hx :=
  first [apply safe_call | apply ends_call];
  [live_pre
  |let Hg := fresh "Hg" in
   intros x Hx _ Hg; cbn [sys_resp sys_post tick happy] in Hx, Hg |- *;
   match type of Hg with any_answer _ _ _ => clear Hg | _ => idtac end].

(** Straight-line code: take every call and every branch up to the next loop
    or function. *)
Ltac sys_branch :=
  match goal with
  | |- _ (if negb ?b then _ else _) _ => destruct b eqn:?
  | |- _ (if ?b then _ else _) _ => destruct b eqn:?
  end; live_norm.

Ltac sys_run :=
  repeat first
    [ sys_branch
    | lazymatch goal with
      | |- _ (ITree.bind (ask _) _) _ =>
          let x := fresh "x" in let Hx := fresh "Hx" in sys_call x Hx; live_norm
      end ].

(** Environments whose polls do not fail. *)
Definition polls_fine {T} (good : ∀ X, sysE T X → X → Prop) : Prop :=
  ∀ rb t x, good _ (RbPoll rb t) x → 0 ≤ x.1 ∨ x.1 = - EINTR.
Lemma happy_polls_fine {T} : polls_fine (@happy T).
Proof. by intros rb t x. Qed.

(** ** An executable environment

    Handles are numbered from [w_next]; the signal flag reads [false]
    [w_flags] times; polls answer from [w_polls], then deliver nothing;
    iterator reads answer from [w_reads], then report the end.  [w_out] is
    what was printed, newest first. *)
Record world (T : Type) := World {
  w_next : Z; w_flags : nat; w_polls : list (Z * list T); w_reads : list T;
  w_out : list string }.
Arguments World {_} _ _ _ _ _.
Arguments w_next {_} _. Arguments w_flags {_} _. Arguments w_polls {_} _.
Arguments w_reads {_} _. Arguments w_out {_} _.

Definition w_fresh {T} (w : world T) : Z * world T :=
  (w_next w, World (w_next w + 1) (w_flags w) (w_polls w) (w_reads w) (w_out w)).
Definition w_print {T} (t : string) (w : world T) : world T :=
  World (w_next w) (w_flags w) (w_polls w) (w_reads w) (t :: w_out w).

Definition answer {T} X (e : sysE T X) (w : world T) : X * world T :=
  match e in sysE _ X return X * world T with
  | SkelOpen | SkelOpenLoad | RbNew _ | AttachUprobe _ _ _ _ _ | AttachUsdt _ _ _
  | AttachPerf _ _ _ | Socket | IterCreate _ | PerfEventOpen _ _ _ _ _ | SymbolizerNew
  | Malloc _ | Calloc _ => w_fresh w
  | ParseCpuMask => let '(p, w') := w_fresh w in ((0, p, [true; false; true]), w')
  | NumPossibleCpus => (4, w)
  | Symbolize _ _ _ => let '(p, w') := w_fresh w in ((p, []), w')
  | BlazeErr => ("no symbols"%string, w)
  | LinkDestroy _ => (true, w)
  | TcHookDestroy => ((0, true), w)
  | SkelLoad _ | SkelAttach _ | MapUpdate _ _ _ _ | TcHookCreate
  | TcAttach _ | TcDetach | Bind _ _ | AttachBpf _ _ | Close _ => (0, w)
  | MapFd _ _ | ProgFd _ _ | LinkFd _ _ | IfNameToIndex _ => (1, w)
  | RbPoll _ _ =>
      match w_polls w with
      | [] => ((0, []), w)
      | p :: t => (p, World (w_next w) (w_flags w) t (w_reads w) (w_out w))
      end
  | ReadIter _ =>
      match w_reads w with
      | [] => ((0, None), w)
      | r :: t => ((1, Some r), World (w_next w) (w_flags w) (w_polls w) t (w_out w))
      end
  | ReadFlag =>
      match w_flags w with
      | O => (true, w)
      | S n => (false, World (w_next w) n (w_polls w) (w_reads w) (w_out w))
      end
  | Signal _ => (true, w)
  | GetPid => (4242, w)
  | GetErrno => (1, w)
  | SetJmp => (0, w)
  | StrError => ("Operation not permitted"%string, w)
  | StatPidNs => (Some (3, 5), w)
  | Stdout t | Stderr t => (tt, w_print t w)
  | TimeOfDay => ("12:00:00"%string, w)
  | IfIndexToName _ => (Some "lo"%string, w)
  | SymbolizerFree _ | SymsFree _ | Free _
  | SkelDestroy _ | SetRodata _ _ _ | SetBss _ _ _ | RbFree _
  | SetPrint | Sleep _ | Undefined => (tt, w)
  end.

(** One call of a program run in this environment. *)
Ltac run_call :=
  eapply runs_bind;
  [apply runs_trigger; [cbn [pre sys_with fst]; live_pre|reflexivity]|];
  cbn [fst snd post sys_with sys_post tick w_next w_flags w_polls w_reads w_out w_fresh w_print];
  unfold got; rewrite ?Z.eqb_refl; live_norm.

(** Printing a list of lines. *)
Definition w_prints {T} (lines : list string) (w : world T) : world T :=
  foldl (fun w t => w_print t w) w lines.

Lemma w_prints_world {T} lines k f polls reads out :
  w_prints lines (World (T := T) k f polls reads out) = World k f polls reads (reverse lines ++ out).
Proof.
  revert out. induction lines as [|l lines IH]; intros out; [done|].
  rewrite reverse_cons, <-app_assoc. apply (IH (l :: out)).
Qed.

(** A loop whose body prints one line per element prints them in order. *)
Lemma each_prints {T A} (ok : T → Prop) (f : A → itree (sysE T) unit) (l : list A) lines w s :
  Forall2 (fun a t => ∀ w, runs (sys ok) answer (f a) w s tt (w_print t w) s) l lines →
  runs (sys ok) answer (each f l) w s tt (w_prints lines w) s.
Proof.
  intros Hl. revert w. induction Hl as [|a t l lines Ha _ IH]; intros w; [apply runs_ret|].
  eapply runs_bind; [apply Ha|]. apply IH.
Qed.
