(* ===== verification/Output.v ===== *)
(** * What a program was told and what it printed

    A second protocol for the calls of [UserSpace]: it records the answers a
    program's output depends on and the text it prints.  A program is given a
    notion of "these records have been shown"; the protocol allows it to ask
    for more records only when everything delivered so far has been shown, so
    that runs which never return are covered too. *)
From S2P Require Import Prelude Interaction CInt CFormat BpfKernel UserSpace.
From ITree Require Import ITree.
Local Open Scope Z_scope.

Inductive obs (T : Type) :=
| Delivered (l : list T)                    (** records handed to the program *)
| TimeWas (ts : string)                     (** the time of day *)
| NameWas (name : option string)            (** the name of an interface *)
| SymbolsWere (pid : Z) (addrs : list Z) (syms : option (list blaze_sym))
                                            (** the symbols of addresses of a process *)
| ErrorWas (msg : string)                   (** why there are none *)
| Configured (field : string) (v : Z)       (** a store to the program's data *)
| Printed (text : string).                  (** standard output *)
Arguments Delivered {_} _. Arguments TimeWas {_} _. Arguments NameWas {_} _.
Arguments SymbolsWere {_} _ _ _. Arguments ErrorWas {_} _. Arguments Configured {_} _ _.
Arguments Printed {_} _.

Abbreviation trace T := (list (obs T)).

Definition obs_of {T X} (e : sysE T X) : X → trace T :=
  match e in sysE _ X return X → trace T with
  | RbPoll _ _ => fun x => [Delivered x.2]
  | ReadIter _ => fun x => match x.2 with Some t => [Delivered [t]] | None => [] end
  | TimeOfDay => fun ts => [TimeWas ts]
  | IfIndexToName _ => fun o => [NameWas o]
  | Symbolize _ pid addrs => fun r => [SymbolsWere pid addrs (if r.1 =? 0 then None else Some r.2)]
  | BlazeErr => fun m => [ErrorWas m]
  | SetRodata _ f v | SetBss _ f v => fun _ => [Configured f v]
  | Stdout t => fun _ => [Printed t]
  | _ => fun _ => []
  end.

Section Trace.
Context {T : Type}.
Implicit Types (tr : trace T).

Definition delivered tr : list T :=
  tr ≫= fun o => match o with Delivered l => l | _ => [] end.
Definition written tr : list string :=
  tr ≫= fun o => match o with Printed t => [t] | _ => [] end.
Definition times tr : list string :=
  tr ≫= fun o => match o with TimeWas t => [t] | _ => [] end.
Definition names tr : list (option string) :=
  tr ≫= fun o => match o with NameWas n => [n] | _ => [] end.
Definition configured tr : list (string * Z) :=
  tr ≫= fun o => match o with Configured f v => [(f, v)] | _ => [] end.
(** One answer per stack: its symbols, or the reason there are none. *)
Definition symbols tr : list (list blaze_sym + string) :=
  tr ≫= fun o => match o with
                 | SymbolsWere _ _ (Some l) => [inl l]
                 | ErrorWas m => [inr m]
                 | _ => []
                 end.
(** The questions: a process (0 for the kernel) and addresses. *)
Definition queries tr : list (Z * list Z) :=
  tr ≫= fun o => match o with SymbolsWere pid addrs _ => [(pid, addrs)] | _ => [] end.

Lemma delivered_app tr1 tr2 : delivered (tr1 ++ tr2) = delivered tr1 ++ delivered tr2.
Proof. apply bind_app. Qed.
Lemma written_app tr1 tr2 : written (tr1 ++ tr2) = written tr1 ++ written tr2.
Proof. apply bind_app. Qed.
Lemma times_app tr1 tr2 : times (tr1 ++ tr2) = times tr1 ++ times tr2.
Proof. apply bind_app. Qed.
Lemma names_app tr1 tr2 : names (tr1 ++ tr2) = names tr1 ++ names tr2.
Proof. apply bind_app. Qed.
Lemma configured_app tr1 tr2 : configured (tr1 ++ tr2) = configured tr1 ++ configured tr2.
Proof. apply bind_app. Qed.
Lemma symbols_app tr1 tr2 : symbols (tr1 ++ tr2) = symbols tr1 ++ symbols tr2.
Proof. apply bind_app. Qed.
Lemma queries_app tr1 tr2 : queries (tr1 ++ tr2) = queries tr1 ++ queries tr2.
Proof. apply bind_app. Qed.
End Trace.

(** Standard output as one text. *)
Definition text (l : list string) : string := foldr String.append EmptyString l.

Lemma text_app l1 l2 : text (l1 ++ l2) = text l1 +:+ text l2.
Proof. unfold text. induction l1 as [|s l1 IH]; cbn; [done|]. by rewrite IH, string_app_assoc. Qed.

Create Rewrite HintDb trace.
#[export] Hint Rewrite @delivered_app @written_app @times_app @names_app @configured_app @symbols_app @queries_app : trace.

(** The projections of an extended trace. *)
Ltac trace_simpl :=
  autorewrite with trace in *; cbn [obs_of delivered written times names configured symbols queries mbind list_bind app] in *;
  rewrite ?app_nil_r in *.

(** What the answers promise, as in the protocol of the objects. *)
Definition obs_resp {T} (sample_ok : T → Prop) {X} (e : sysE T X) : X → Prop :=
  match e in sysE _ X return X → Prop with
  | RbPoll _ _ => fun x => Forall sample_ok x.2
  | ReadIter _ => fun x => match x.2 with
                           | Some t => 0 < x.1 ∧ sample_ok t
                           | None => x.1 ≤ 0
                           end
  | Symbolize _ _ _ => fun x =>
      Forall (fun sym => Forall (fun i => is_Some (in_name i)) (sym_inlined sym)) x.2
  | _ => fun _ => True
  end.

(** They add nothing to the protocol of the objects. *)
Lemma sys_obs_resp {T} (ok : T → Prop) X (e : sysE T X) m x : sys_resp ok e m x → obs_resp ok e x.
Proof. destruct e; cbn; tauto. Qed.

Section Tracing.
Context {T : Type} (ok : T → Prop) (shown : list T → trace T → Prop)
  `{!RelDecision shown}.
Implicit Types (tr : trace T).

Definition tracing : protocol (sysE T) (trace T) :=
  Protocol
    (fun X e tr => match e with
                   | RbPoll _ _ | ReadIter _ => bool_decide (shown (delivered tr) tr)
                   | _ => true
                   end)
    (fun X e tr x => obs_resp ok e x)
    (fun X e x tr => tr ++ obs_of e x).

(** A call that does not ask for records. *)
Lemma trace_call {X R : Type} (Q : R → trace T → Prop) (e : sysE T X) k tr :
  match e with RbPoll _ _ | ReadIter _ => shown (delivered tr) tr | _ => True end →
  (∀ x, obs_resp ok e x → safe tracing Q (k x) (tr ++ obs_of e x)) →
  safe tracing Q (ITree.bind (ask e) k) tr.
Proof.
  intros Hp Hk.
  eapply safe_bind with (Q := fun x tr' => obs_resp ok e x ∧ tr' = tr ++ obs_of e x).
  - apply safe_trigger; [|done]. destruct e; cbn; try done; by apply bool_decide_eq_true_2.
  - intros x s [Hx ->]. by apply Hk.
Qed.

(** Undefined behaviour is the concern of the protocol of the objects. *)
Lemma trace_undefined {R} (Q : R → trace T → Prop) tr : safe tracing Q undefined tr.
Proof. apply trace_call; [done|]. intros [] _. apply safe_spin. Qed.

(** Code that asks for no records, prints nothing and asks nothing the output
    depends on. *)
Definition quiet {R} (t : itree (sysE T) R) : Prop :=
  ∀ tr, safe tracing (fun _ tr' => tr' = tr) t tr.

Definition silent {X} (e : sysE T X) : Prop :=
  match e with RbPoll _ _ | ReadIter _ => False | _ => ∀ x, obs_of e x = [] end.

Lemma quiet_ask {X} (e : sysE T X) : silent e → quiet (ask e).
Proof.
  intros He tr. apply safe_trigger; [by destruct e|]. intros x _. cbn [post tracing].
  assert (obs_of e x = []) as ->; [by destruct e|apply app_nil_r].
Qed.

Lemma quiet_ret {R} (v : R) : quiet (Ret v).
Proof. intros tr. by apply safe_ret. Qed.

Lemma quiet_undefined {R} : quiet (R := R) undefined.
Proof. intros tr. apply trace_undefined. Qed.

Lemma quiet_bind {X R} (t : itree (sysE T) X) (k : X → itree (sysE T) R) :
  quiet t → (∀ x, quiet (k x)) → quiet (ITree.bind t k).
Proof. intros Ht Hk tr. eapply safe_bind; [apply Ht|]. intros x tr' ->. apply Hk. Qed.

Lemma quiet_for_range (f : nat → itree (sysE T) unit) n lo :
  (∀ i, quiet (f i)) → quiet (for_range n lo f).
Proof.
  intros Hf. revert lo. induction n as [|n IH]; intros lo; cbn; [apply quiet_ret|].
  apply quiet_bind; [apply Hf|]. intros _. apply IH.
Qed.

Lemma quiet_at_index {A R} (l : list A) i (f : A → itree (sysE T) R) :
  (∀ a, quiet (f a)) → quiet (at_index l i f).
Proof. intros Hf. unfold at_index. destruct (l !! i); [apply Hf|apply quiet_undefined]. Qed.

(** The callback shows a record. *)
Definition shows (f : T → itree (sysE T) unit) : Prop :=
  ∀ d e tr, ok e → shown d tr →
    safe tracing (fun _ tr' => shown (d ++ [e]) tr' ∧ delivered tr' = delivered tr) (f e) tr.

Lemma shows_each f l d tr :
  shows f → Forall ok l → shown d tr →
  safe tracing (fun _ tr' => shown (d ++ l) tr' ∧ delivered tr' = delivered tr) (each f l) tr.
Proof.
  intros Hf Hl. revert d tr. induction Hl as [|e l He _ IH]; intros d tr Hd; cbn [each].
  - apply safe_ret. by rewrite app_nil_r.
  - eapply safe_bind; [by apply Hf|]. intros _ tr1 [H1 E1].
    eapply safe_conseq; [by apply (IH (d ++ [e]))|]. intros _ tr2 [H2 E2].
    rewrite <-app_assoc in H2. by rewrite E2.
Qed.

(** A poll and the callback on its records. *)
Lemma shows_poll {R} f (Q : R → trace T → Prop) rb timeout (k : Z * list T → itree (sysE T) R) tr :
  shows f → (∀ d l tr, shown d tr → shown d (tr ++ [Delivered l])) →
  shown (delivered tr) tr →
  (∀ x tr', shown (delivered tr') tr' → safe tracing Q (k x) tr') →
  safe tracing Q (ITree.bind (ask (RbPoll rb timeout))
                    (fun x => ITree.bind (each f x.2) (fun _ => k x))) tr.
Proof.
  intros Hf Hframe Hd Hk. apply trace_call; [done|]. intros x Hx. cbn in Hx.
  eapply safe_bind; [apply (shows_each f x.2 (delivered tr)); [done..|by apply Hframe]|].
  intros _ tr' [H1 E]. apply Hk. rewrite E. trace_simpl. done.
Qed.
End Tracing.

(** A call whose answer is not recorded, or is in the trace from here on. *)
Ltac trace_step x := apply trace_call; [try done|]; intros x ?; cbn [obs_of obs_resp] in *; rewrite ?app_nil_r.

(** Straight-line code up to the next loop or function. *)
Ltac trace_run :=
  repeat first
    [ match goal with
      | |- _ (if negb ?b then _ else _) _ => destruct b eqn:?
      | |- _ (if ?b then _ else _) _ => destruct b eqn:?
      end; cbn [negb]
    | lazymatch goal with
      | |- _ (ITree.bind (ask _) _) _ => let x := fresh "x" in trace_step x
      end ].

(** Straight-line code that prints nothing. *)
Ltac quiet_run :=
  repeat first
    [ apply quiet_ret | apply quiet_undefined
    | apply quiet_ask; (done || by intros [])
    | apply quiet_for_range; intros ? | apply quiet_at_index; intros ?
    | apply quiet_bind; [|intros ?]
    | match goal with
      | |- quiet _ _ (if ?b then _ else _) => destruct b
      | |- quiet _ _ (match ?o with Some _ => _ | None => _ end) => destruct o
      end ].
