(* ===== verification/BootstrapMain.v ===== *)
(** * bootstrap: [main] of [bootstrap.c]

    The program as an interaction tree, the resource safety of all its runs,
    and its termination once the signal arrives. *)
From S2P Require Import Prelude Interaction CInt CFormat BpfKernel BootstrapBpf BootstrapUser UserSpace.
From ITree Require Import ITree.
Local Open Scope Z_scope.

Definition SIGINT : Z := 2.
Definition SIGTERM : Z := 15.
Definition EX_USAGE : Z := 64.

(** The ring buffer callback with its effects. *)
Definition on_event (e : event) : itree (sysE event) unit :=
  let* ts := ask TimeOfDay in
  match handle_event ts e with
  | Some line => ask (Stdout line)
  | None => undefined
  end.

Definition header : string :=
  pad_right 8 "TIME" +:+ " " +:+ pad_right 5 "EVENT" +:+ " " +:+ pad_right 16 "COMM" +:+ " " +:+
  pad_right 7 "PID" +:+ " " +:+ pad_right 7 "PPID" +:+ " " +:+ "FILENAME/EXIT CODE" +:+ newline.

Definition cleanup (rb skel : ptr) (err : Z) : itree (sysE event) Z :=
  ask (RbFree rb) ;;;
  ask (SkelDestroy skel) ;;;
  Ret (if err <? 0 then - err else 0).

(** [while (!exiting) { ... }]; the loop variable is [err]. *)
Definition poll_body (rb : ptr) (err : Z) : itree (sysE event) (Z + Z) :=
  let* exiting := ask ReadFlag in
  if (exiting : bool) then Ret (inr err)
  else
    let* r := ask (RbPoll rb 100) in
    each on_event r.2 ;;;
    if r.1 =? - EINTR then Ret (inr 0)
    else if r.1 <? 0 then
      ask (Stdout ("Error polling perf buffer: " +:+ dec r.1 +:+ newline)) ;;;
      Ret (inr r.1)
    else Ret (inl r.1).

Definition main (args : list (Z * string)) : itree (sysE event) Z :=
  match argp_parse parse_arg (Env false 0) args with
  | PUsage msg => ask (Stderr msg) ;;; Ret EX_USAGE
  | PRet env err =>
    if negb (err =? 0) then Ret err
    else
      ask SetPrint ;;;
      ask (Signal SIGINT) ;;;
      ask (Signal SIGTERM) ;;;
      let* skel := ask SkelOpen in
      if skel =? 0 then
        ask (Stderr ("Failed to open and load BPF skeleton" +:+ newline)) ;;; Ret 1
      else
        ask (SetRodata skel "min_duration_ns" (min_duration_ns env)) ;;;
        let* err := ask (SkelLoad skel) in
        if negb (err =? 0) then
          ask (Stderr ("Failed to load and verify BPF skeleton" +:+ newline)) ;;;
          cleanup 0 skel err
        else
          let* err := ask (SkelAttach skel) in
          if negb (err =? 0) then
            ask (Stderr ("Failed to attach BPF skeleton" +:+ newline)) ;;;
            cleanup 0 skel err
          else
            let* fd := ask (MapFd skel "rb") in
            let* rb := ask (RbNew fd) in
            if rb =? 0 then
              ask (Stderr ("Failed to create ring buffer" +:+ newline)) ;;;
              cleanup 0 skel (-1)
            else
              ask (Stdout header) ;;;
              let* err := ITree.iter (poll_body rb) err in
              cleanup rb skel err
  end.

(** What the kernel side promises of the records (see the end-to-end theorem
    of the callback): their strings are terminated. *)
Definition sample_ok (e : event) : Prop := terminated (report_of e).

Section Proofs.
Context (good : ∀ X, sysE event X → X → Prop).
Implicit Types (n : option nat) (m : live).

Lemma bootstrap_on_event_ends e s :
  sample_ok e → ends (sys_with sample_ok good) (fun _ s' => s' = s) (on_event e) s.
Proof.
  intros He. destruct s as [m n]. unfold on_event. sys_call ts Hts.
  rewrite handle_event_report. destruct (print_report_some ts _ He) as [line ->].
  by apply ends_trigger.
Qed.

(** [err] at the loop: an [int]; not negative when polls do not fail. *)
Definition loop_err (err : Z) : Prop := is_s 32 err ∧ (polls_fine good → 0 ≤ err).

Lemma bootstrap_poll_round rb m :
  at_stage m KRing rb any_stage = true →
  flag_round sample_ok good (poll_body rb) m loop_err loop_err.
Proof.
  intros Hrb. eapply (flag_round_read _ _ _ _ _ _ id); [reflexivity|done|].
  intros err n Herr Hn.
  apply ends_call; [done|]. intros [r l] Hr _ Hg. cbn [sys_resp sys_post tick fst snd] in *.
  destruct Hr as (Hr & _ & Hl).
  eapply ends_bind; [eapply ends_each; [intros e; apply bootstrap_on_event_ends|done]|].
  intros _ s ->. case_cond; [by apply ends_Ret|].
  case_cond; [|by apply ends_Ret].
  apply ends_call; [done|]. intros ? _ _ _. apply ends_Ret. split; [done|].
  split; [done|]. intros Hf. destruct (Hf _ _ _ Hg); cbn in *; lia.
Qed.

(** Leaving through [cleanup]: everything held is released, once. *)
Definition finished (code : Z) (s : ustate) : Prop := s.1 = ∅ ∧ 0 ≤ code.

Lemma bootstrap_cleanup_ends rb skel err st n m :
  (rb = 0 ∧ m = <[(KSkel, skel) := st]> ∅ ∨
   m = <[(KRing, rb) := Live]> (<[(KSkel, skel) := st]> ∅)) →
  ends (sys_with sample_ok good)
    (fun code s => finished code s ∧ (0 ≤ err → code = 0)) (cleanup rb skel err) (m, n).
Proof.
  intros Hm. unfold cleanup.
  destruct Hm as [[-> ->]| ->]; sys_call u Hu; sys_call v Hv;
    apply ends_Ret; (split; [split; [live_eq|case_cond; lia]|case_cond; lia]).
Qed.

Lemma cleanup_finished rb skel err st n m :
  (rb = 0 ∧ m = <[(KSkel, skel) := st]> ∅ ∨
   m = <[(KRing, rb) := Live]> (<[(KSkel, skel) := st]> ∅)) →
  ends (sys_with sample_ok good) finished (cleanup rb skel err) (m, n).
Proof. intros Hm. eapply ends_conseq; [by eapply bootstrap_cleanup_ends|]. by intros v s' [? _]. Qed.
End Proofs.

Lemma argp_parse_code args e :
  match argp_parse parse_arg e args with PRet _ c => 0 ≤ c | PUsage _ => True end.
Proof.
  revert e. induction args as [|[key arg] args IH]; intros e; cbn; [done|].
  destruct (parse_arg key arg e) as [e1 c|m] eqn:Hp; [|done].
  case_cond; [apply IH|]. unfold parse_arg in Hp.
  repeat case_cond_in Hp; simplify_eq; unfold ARGP_ERR_UNKNOWN in *; lia.
Qed.

(** Graceful exit: if the signal flag is seen set after at most [n] reads,
    [main] returns, whatever else the environment does, with everything
    released and a non-negative exit code. *)
Theorem bootstrap_main_ends args n : ends (sys sample_ok) finished (main args) (∅, Some n).
Proof.
  unfold main. pose proof (argp_parse_code args (Env false 0)) as Hc.
  destruct (argp_parse parse_arg (Env false 0) args) as [env err|msg].
  2: { sys_call u Hu. by apply ends_Ret. }
  sys_run; try (apply ends_Ret; done).
  1, 3, 4: eapply cleanup_finished; by left.
  eapply ends_bind.
  - eapply (flag_loop_ends sample_ok any_answer); [apply bootstrap_poll_round; by rewrite at_stage_insert|].
    unfold loop_err, is_s, status in *. lia.
  - intros v [m' n'] [Hm _]. cbn in Hm. subst m'. eapply cleanup_finished. by right.
Qed.

(** Resource safety of [main], for every command line and every behaviour
    of the environment, also on runs that never end: the skeleton is
    parameterised before it is loaded, attached after, the ring buffer is
    polled only while it exists, no unterminated string is printed, and on
    every path that returns everything that was created has been released
    exactly once and the exit code is not negative. *)
Theorem bootstrap_main_safe args n : safe (sys sample_ok) finished (main args) (∅, n).
Proof.
  apply (safe_any_signal _ _ (fun code m => m = ∅ ∧ 0 ≤ code)). intros k. apply bootstrap_main_ends.
Qed.

(** Exit status: when the options parse, nothing fails and the program is
    ended by a signal, it returns 0, however many records the last poll
    delivered. *)
Theorem bootstrap_main_exit_zero args env n :
  argp_parse parse_arg (Env false 0) args = PRet env 0 →
  ends (sys_with sample_ok happy) (fun code s => code = 0 ∧ s.1 = ∅) (main args) (∅, Some n).
Proof.
  intros Ha. unfold main. rewrite Ha.
  sys_run; try lia.
  eapply ends_bind.
  - eapply (flag_loop_ends sample_ok happy); [apply bootstrap_poll_round; by rewrite at_stage_insert|].
    unfold loop_err, is_s, status in *. lia.
  - intros v [m' n'] [Hm [_ Hv]]. cbn in Hm. subst m'.
    eapply ends_conseq; [eapply bootstrap_cleanup_ends; by right|].
    intros code s' [[? _] Hc]. split; [|done]. apply Hc, Hv, happy_polls_fine.
Qed.

Definition demo_record : event :=
  Event 7 1 0 0 (str_bytes 16 "sh") (str_bytes 127 "/bin/sh") false.

(** A run that ends with a signal right after a poll of two records. *)
Lemma bootstrap_main_exit_zero_witness :
  argp_parse parse_arg (Env false 0) [(118, EmptyString)] = PRet (Env true 0) 0 ∧
  (∃ w, exec (sys sample_ok) answer 80 (main [(118, EmptyString)])
          (World 10 1 [(2, [demo_record; demo_record])] [] []) (∅, Some 1%nat)
        = Done 0 w (∅, Some O)) ∧
  ends (sys_with sample_ok happy) (fun code s => code = 0 ∧ s.1 = ∅)
    (main [(118, EmptyString)]) (∅, Some 1%nat).
Proof.
  split; [reflexivity|]. split; [eexists; vm_compute; reflexivity|].
  apply (bootstrap_main_exit_zero [(118, EmptyString)] (Env true 0) 1). reflexivity.
Defined.

(** ** Output *)

(** The records a run delivers, and their lines at the fixed time of the
    executable environment. *)
Definition poll_records (polls : list (Z * list event)) : list event := concat (map snd polls).
Definition has_line (e : event) (line : string) : Prop := handle_event "12:00:00" e = Some line.

Lemma on_event_prints e line m w :
  has_line e line →
  runs (sys sample_ok) answer (on_event e) w (m, None) tt (w_print line w) (m, None).
Proof.
  intros He. unfold on_event. run_call. unfold has_line in He. rewrite He.
  by apply runs_trigger.
Qed.

(** The poll loop prints the lines of all records and leaves with a
    non-negative [err]. *)
Lemma poll_loop_prints rb polls lines k out err m :
  at_stage m KRing rb any_stage = true → 0 ≤ err → Forall (fun p => 0 ≤ p.1) polls →
  Forall2 has_line (poll_records polls) lines →
  ∃ err', 0 ≤ err' ∧
    runs (sys sample_ok) answer (ITree.iter (poll_body rb) err)
      (World k (length polls) polls [] out) (m, None)
      err' (World k 0 [] [] (reverse lines ++ out)) (m, None).
Proof.
  intros Hrb. revert lines out err. induction polls as [|[r recs] polls IH];
    intros lines out err He Hp Hl.
  - inversion Hl; subst. exists err. split; [done|].
    eapply (runs_iter _ _ _ _ _ _ (inr err)); [|done]. unfold poll_body. run_call. apply runs_ret.
  - apply Forall_cons in Hp as [Hr Hp]. cbn in Hr.
    unfold poll_records in Hl. cbn [map concat snd] in Hl.
    apply Forall2_app_inv_l in Hl as (l1 & l2 & H1 & H2 & ->).
    destruct (IH l2 (reverse l1 ++ out) r Hr Hp H2) as (err' & He' & Hrun).
    exists err'. split; [done|]. eapply (runs_iter _ _ _ _ _ _ (inl r)).
    + unfold poll_body. cbn [length]. run_call. eapply runs_bind; [by apply runs_trigger|].
      cbn [fst snd post sys_with sys_post tick w_next w_flags w_polls w_reads w_out fmap option_fmap option_map].
      eapply runs_bind.
      { apply each_prints. eapply Forall2_impl; [exact H1|]. intros e l Hl w. by apply on_event_prints. }
      rewrite (proj2 (Z.eqb_neq r (- EINTR))) by (unfold EINTR; lia).
      rewrite (proj2 (Z.ltb_ge r 0)) by lia. rewrite w_prints_world. apply runs_ret.
    + by rewrite reverse_app, <-app_assoc.
Qed.

(** Complete output: when the options parse and nothing fails, bootstrap
    prints the header and then, for any sequence of polls that deliver any
    records, exactly the line of each record in order; after the signal it
    releases everything and returns 0. *)
Theorem bootstrap_prints_all args env polls lines k :
  0 < k → argp_parse parse_arg (Env false 0) args = PRet env 0 →
  Forall (fun p => 0 ≤ p.1) polls → Forall2 has_line (poll_records polls) lines →
  runs (sys sample_ok) answer (main args) (World k (length polls) polls [] []) (∅, None)
    0 (World (k + 2) 0 [] [] (reverse (header :: lines))) (∅, None).
Proof.
  intros Hk Ha Hp Hl. unfold main. rewrite Ha.
  do 4 run_call. rewrite (proj2 (Z.eqb_neq k 0)) by lia. live_norm.
  do 5 run_call. rewrite (proj2 (Z.eqb_neq (k + 1) 0)) by lia. live_norm.
  run_call.
  match goal with |- runs _ _ _ _ (?m, _) _ _ _ =>
    destruct (poll_loop_prints (k + 1) polls lines (k + 1 + 1) [header] 0 m) as (err & He & Hrun);
      [live_pre|done..|]
  end.
  eapply runs_bind; [exact Hrun|]. unfold cleanup. do 2 run_call.
  rewrite (proj2 (Z.ltb_ge err 0)) by done. rewrite reverse_cons, <-Z.add_assoc.
  match goal with |- runs _ _ _ _ (?m, _) _ _ _ => replace m with (∅ : live) by live_eq end.
  apply runs_ret.
Qed.

Lemma bootstrap_prints_all_witness :
  runs (sys sample_ok) answer (main [(118, EmptyString)])
    (World 10 2 [(2, [demo_record; demo_record]); (0, [])] [] []) (∅, None)
    0 (World 12 0 [] []
        (reverse (header :: replicate 2
           ("12:00:00 EXEC  sh               7       1       /bin/sh" +:+ newline)))) (∅, None).
Proof.
  apply (bootstrap_prints_all [(118, EmptyString)] (Env true 0)
           [(2, [demo_record; demo_record]); (0, [])] _ 10).
  - lia.
  - reflexivity.
  - repeat (apply Forall_cons_2; [cbn; lia|]). constructor.
  - repeat constructor.
Defined.
