(* ===== verification/BootstrapOutput.v ===== *)
(** * bootstrap: the output of the whole system

    What [bootstrap.c] prints, in every environment, and what that says about
    the processes when the records come from [bootstrap.bpf.c]. *)
From S2P Require Import Prelude Interaction CInt CFormat BpfKernel BootstrapBpf BootstrapUser UserSpace Output BootstrapMain.
From ITree Require Import ITree.
Local Open Scope Z_scope.

(** The settings of a command line and the threshold they give. *)
Definition settings (args : list (Z * string)) : env :=
  match argp_parse parse_arg (Env false 0) args with PRet e _ => e | PUsage _ => Env false 0 end.
Definition threshold (args : list (Z * string)) : Z := min_duration_ns (settings args).

Section Shown.
Context (args : list (Z * string)).

(** The records [d] have been shown: the kernel side got the threshold, and
    the output is the header, then for each record its line at the time it
    was handled. *)
Definition lines_shown (d : list event) (tr : trace event) : Prop :=
  configured tr = [("min_duration_ns"%string, threshold args)] ∧
  length (times tr) = length d ∧
  Some <$> written tr = Some header :: zip_with handle_event (times tr) d.

#[local] Instance lines_shown_dec : RelDecision lines_shown.
Proof. intros d tr. unfold lines_shown. apply _. Defined.

Lemma lines_shown_frame d l tr : lines_shown d tr → lines_shown d (tr ++ [Delivered l]).
Proof. unfold lines_shown. intros (H0 & H1 & H2). trace_simpl. done. Qed.

Lemma bootstrap_on_event_shows : shows sample_ok lines_shown on_event.
Proof.
  intros d e tr He (Hc & Hl & Hp). unfold on_event. trace_step ts.
  rewrite handle_event_report. destruct (print_report_some ts _ He) as [line Hline]. rewrite Hline.
  apply safe_trigger; [done|]. intros [] _. cbn [post tracing]. unfold lines_shown. trace_simpl.
  split; [|done]. rewrite !length_app, Hl. split; [done|]. split; [done|].
  rewrite fmap_app, Hp, zip_with_app by done. cbn. by rewrite handle_event_report, Hline.
Qed.

(** What is on standard output when [main] returns: nothing when it did not
    get to the ring buffer, otherwise the lines of all records delivered and
    possibly the message of a failed poll. *)
Definition poll_error (r : Z) : string := "Error polling perf buffer: " +:+ dec r +:+ newline.

Definition output_complete (tr : trace event) : Prop :=
  delivered tr = [] ∧ written tr = [] ∨
  ∃ tail, configured tr = [("min_duration_ns"%string, threshold args)] ∧
    length (times tr) = length (delivered tr) ∧
    Some <$> written tr = Some header :: zip_with handle_event (times tr) (delivered tr) ++ (Some <$> tail) ∧
    (tail = [] ∨ ∃ r, r < 0 ∧ tail = [poll_error r]).

Lemma output_complete_all tr : lines_shown (delivered tr) tr → output_complete tr.
Proof. intros (H0 & H1 & H2). right. exists []. rewrite app_nil_r. auto. Qed.

Lemma output_complete_error r tr :
  r < 0 → lines_shown (delivered tr) tr → output_complete (tr ++ [Printed (poll_error r)]).
Proof.
  intros Hr (H0 & H1 & H2). right. exists [poll_error r]. trace_simpl. rewrite fmap_app, H2. eauto 7.
Qed.

Abbreviation output := (tracing sample_ok lines_shown).

Lemma bootstrap_poll_loop_output rb err tr :
  lines_shown (delivered tr) tr →
  safe output (fun _ tr' => output_complete tr') (ITree.iter (poll_body rb) err) tr.
Proof.
  intros Htr. apply (safe_iter _ (fun _ tr => lines_shown (delivered tr) tr)); [|done].
  clear err tr Htr. intros err tr Htr. unfold poll_body. trace_step exiting.
  destruct exiting; [by apply safe_ret, output_complete_all|].
  apply (shows_poll _ _ on_event); [apply bootstrap_on_event_shows|apply lines_shown_frame|done|].
  clear tr Htr. intros x tr Htr. case_cond; [by apply safe_ret, output_complete_all|].
  case_cond; [|by apply safe_ret]. trace_step u. apply safe_ret. by apply output_complete_error.
Qed.

Lemma bootstrap_cleanup_output rb skel err tr :
  output_complete tr → safe output (fun _ tr' => output_complete tr') (cleanup rb skel err) tr.
Proof. intros Htr. unfold cleanup. trace_step u. trace_step v. by apply safe_ret. Qed.

Lemma bootstrap_main_output : safe output (fun _ tr => output_complete tr) (main args) [].
Proof.
  assert (output_complete []) as H0 by (by left).
  unfold main.
  assert (∀ e c, argp_parse parse_arg (Env false 0) args = PRet e c → threshold args = min_duration_ns e)
    as Ht by (unfold threshold, settings; by intros e c ->).
  destruct (argp_parse parse_arg (Env false 0) args) as [env err|msg].
  2: { trace_step u. by apply safe_ret. }
  specialize (Ht _ _ eq_refl).
  trace_run; try (by apply safe_ret); try (by apply bootstrap_cleanup_output; left).
  eapply safe_bind; [apply bootstrap_poll_loop_output; unfold lines_shown; by rewrite Ht|].
  intros err3 tr. apply bootstrap_cleanup_output.
Qed.
End Shown.
#[export] Existing Instance lines_shown_dec.
Abbreviation output args := (tracing sample_ok (lines_shown args)).

(** C4. bootstrap, for every command line and every environment: the skeleton
    is parameterised before it is loaded and attached after, objects are used
    only while they exist, no unterminated string is printed, and a return
    leaves everything released exactly once and a non-negative code; more
    records are asked for only when the kernel side was given the threshold
    and the lines of all records delivered so far are printed, each once, in
    order, with the time at which it was handled, so that this holds on runs
    that never end too; and once a signal comes [main] returns so. *)
Theorem bootstrap_output args o n :
  let P := both (sys sample_ok) (output args) in
  let Q code (s : ustate * trace event) := finished code s.1 ∧ output_complete args s.2 in
  safe P Q (main args) ((∅, o), []) ∧ ends P Q (main args) ((∅, Some n), []).
Proof.
  split; [apply (safe_both (sys sample_ok) (output args) finished (fun _ tr => output_complete args tr))
         |apply (ends_both (sys sample_ok) (output args) finished (fun _ tr => output_complete args tr))];
    auto using bootstrap_main_safe, bootstrap_main_ends, bootstrap_main_output.
Qed.

(** ** The records of the kernel side *)

Section System.
Context {M R : Type} `{BpfHashLaws M Z Z} `{RingBufLaws R event}.

(** The lines of records that are a prefix of what a run left in the ring are
    the renderings of a prefix of the specified reports. *)
Lemma prefix_reports min (st : bpf_state M R) evs d ts :
  Forall ev_ok evs → 0 ≤ min → rb_samples (rb st) = [] →
  d `prefix_of` rb_samples (rb (run min st evs)) →
  (report_of <$> d) `prefix_of` (spec_run min (starts st) (annotate min st evs)).1 ∧
  zip_with handle_event ts d = zip_with print_report ts (report_of <$> d).
Proof.
  intros Hok Hm Hempty [rest Hd].
  destruct (run_refines_from min evs st _ Hok Hm (fun p => eq_refl)) as (es & (Hs & _) & Hrep).
  rewrite Hempty in Hs. cbn in Hs. rewrite Hd in Hs. subst es. split.
  - rewrite <-Hrep, fmap_app. by apply prefix_app_r.
  - rewrite zip_with_fmap_r. apply zip_with_ext; [|done|done]. intros. apply handle_event_report.
Qed.

(** C1. The system: with the records of the kernel side, run on any sequence
    of process events with the threshold of the command line, what bootstrap
    has printed when a signal ends it is the header and the renderings of the
    first reports the specification gives for those events, as many as the
    polls delivered, with their times; then possibly a poll error. *)
Theorem bootstrap_system args (st : bpf_state M R) evs n :
  Forall ev_ok evs → rb_samples (rb st) = [] →
  let min := threshold args in
  ends (both (sys sample_ok) (output args))
    (fun code s => finished code s.1 ∧
       (delivered s.2 `prefix_of` rb_samples (rb (run min st evs)) →
        ∃ rs, rs `prefix_of` (spec_run min (starts st) (annotate min st evs)).1 ∧
              length rs = length (delivered s.2) ∧
              (written s.2 = [] ∧ rs = [] ∨
               ∃ tail, Some <$> written s.2 =
                         Some header :: zip_with print_report (times s.2) rs ++ (Some <$> tail) ∧
                       (tail = [] ∨ ∃ r, r < 0 ∧ tail = [poll_error r]))))
    (main args) ((∅, Some n), []).
Proof.
  intros Hok Hempty min. eapply ends_conseq.
  - apply (ends_both (sys sample_ok) (output args) finished (fun _ tr => output_complete args tr));
      [apply bootstrap_main_ends|apply bootstrap_main_output].
  - intros code [s tr] [Hf Htr]. cbn [fst snd] in *. split; [done|]. intros Hd.
    destruct (prefix_reports min st evs (delivered tr) (times tr)) as [Hpre Hzip]; [done| |done..|].
    { apply (wrap_range 64). lia. }
    exists (report_of <$> delivered tr). split; [done|]. rewrite length_fmap. split; [done|].
    destruct Htr as [[-> Hp]|(tail & _ & _ & Hp & Htail)]; [by left|]. right. exists tail.
    split; [|done].
    rewrite <-Hzip. exact Hp.
Qed.
End System.

(** The records of a shell that runs for five microseconds, delivered by one
    poll. *)
Definition demo_polls : list (Z * list event) :=
  [(2, rb_samples (rb (run 0 demo_st demo_evs)))].

Definition run_text (args : list (Z * string)) (polls : list (Z * list event)) : list string :=
  match exec (both (sys sample_ok) (output args)) answer 100 (main args)
          (World 10 (length polls) polls [] []) ((∅, Some (length polls)), []) with
  | Done _ _ s => written s.2
  | _ => []
  end.

Lemma bootstrap_system_witness :
  run_text [] demo_polls =
    [header;
     "12:00:00 EXEC  sh               42      1       /bin/sh" +:+ newline;
     "12:00:00 EXIT  sh               42      1       [3] (0ms)" +:+ newline] ∧
  ends (both (sys sample_ok) (output []))
    (fun code s => finished code s.1 ∧
       (delivered s.2 `prefix_of` rb_samples (rb (run 0 demo_st demo_evs)) →
        ∃ rs, rs `prefix_of` (spec_run 0 (starts demo_st) (annotate 0 demo_st demo_evs)).1 ∧
              length rs = length (delivered s.2) ∧
              (written s.2 = [] ∧ rs = [] ∨
               ∃ tail, Some <$> written s.2 =
                         Some header :: zip_with print_report (times s.2) rs ++ (Some <$> tail) ∧
                       (tail = [] ∨ ∃ r, r < 0 ∧ tail = [poll_error r]))))
    (main []) ((∅, Some 1%nat), []).
Proof.
  split; [vm_compute; reflexivity|].
  apply (bootstrap_system [] demo_st demo_evs 1); [apply demo_evs_ok|reflexivity].
Defined.
