(* ===== verification/SockfilterUser.v ===== *)
(** * sockfilter: the user side ([sockfilter.c])

    Address formatting, the protocol table, the ring buffer callback, the
    raw socket and [main]. *)
From S2P Require Import Prelude Interaction CInt CFormat BpfKernel SockfilterBpf UserSpace.
From ITree Require Import ITree.
Local Open Scope Z_scope.

(** [snprintf (dst, 16, "%u.%u.%u.%u", ...)] *)
Definition dotted (a b c d : Z) : string :=
  dec a +:+ "." +:+ dec b +:+ "." +:+ dec c +:+ "." +:+ dec d.

Definition ltoa (addr : Z) : string :=
  snprintf 16 (dotted (Z.land (Z.shiftr addr 24) 0xFF) (Z.land (Z.shiftr addr 16) 0xFF)
                      (Z.land (Z.shiftr addr 8) 0xFF) (Z.land addr 0xFF)).

(** [ipproto_mapping]: a designated-initialiser array; the entries not named
    in it are NULL. *)
Definition ipproto_mapping (i : Z) : option string :=
  match i with
  | 0 => Some "IP" | 1 => Some "ICMP" | 2 => Some "IGMP" | 4 => Some "IPIP"
  | 6 => Some "TCP" | 8 => Some "EGP" | 12 => Some "PUP" | 17 => Some "UDP"
  | 22 => Some "IDP" | 29 => Some "TP" | 33 => Some "DCCP" | 41 => Some "IPV6"
  | 46 => Some "RSVP" | 47 => Some "GRE" | 50 => Some "ESP" | 51 => Some "AH"
  | 92 => Some "MTP" | 94 => Some "BEETPH" | 98 => Some "ENCAP" | 103 => Some "PIM"
  | 108 => Some "COMP" | 132 => Some "SCTP" | 136 => Some "UDPLITE" | 137 => Some "MPLS"
  | 255 => Some "RAW"
  | _ => None
  end%string.

Definition PACKET_HOST : Z := 0.

(** What the callback prints: nothing, a line, or a line with a NULL string
    argument (which the language does not define). *)
Inductive printed := Quiet | Line (text : string) | NullString.

Section Callback.
(** [IPPROTO_MAX] comes from a kernel header; it grew over time. *)
Context (IPPROTO_MAX : Z) (en : endian).

(** The guards of [handle_event] before it asks for the interface name. *)
Definition wanted (e : so_event) : bool :=
  if negb (pkt_type e =? PACKET_HOST) then false
  else if (ip_proto e <? 0) || (IPPROTO_MAX <=? ip_proto e) then false
  else true.

Definition handle_event (ifname : option string) (e : so_event) : printed :=
  if wanted e then
    match ifname with
    | None => Quiet
    | Some ifname =>
        let sstr := ltoa (ntohl en (src_addr e)) in
        let dstr := ltoa (ntohl en (dst_addr e)) in
        match ipproto_mapping (ip_proto e) with
        | None => NullString
        | Some proto =>
            Line ("interface: " +:+ ifname +:+ tab +:+ "protocol: " +:+ proto +:+ tab +:+
                  sstr +:+ ":" +:+ dec (ntohs en (port16 en e 0)) +:+ "(src) -> " +:+
                  dstr +:+ ":" +:+ dec (ntohs en (port16 en e 1)) +:+ "(dst)" +:+ newline)
        end
    end
  else Quiet.

Definition on_event (e : so_event) : itree (sysE so_event) unit :=
  if wanted e then
    let* ifname := ask (IfIndexToName (ifindex e)) in
    match handle_event ifname e with
    | Quiet => Ret tt
    | Line l => ask (Stdout l)
    | NullString => undefined
    end
  else Ret tt.

Definition ARGP_ERR_UNKNOWN : Z := 7.
Definition EX_USAGE : Z := 64.

(** [parse_arg] on the single setting [env.interface]; [None] is a usage
    exit. *)
Definition parse_arg (key : Z) (arg : string) (interface : string) : option (string * Z) :=
  if key =? 105 (* 'i' *) then Some (arg, 0)
  else if key =? 0 (* ARGP_KEY_ARG *) then None
  else Some (interface, ARGP_ERR_UNKNOWN).

Fixpoint parse_args (args : list (Z * string)) (interface : string) : option (string * Z) :=
  match args with
  | [] => Some (interface, 0)
  | (key, arg) :: t =>
      match parse_arg key arg interface with
      | None => None
      | Some (i, c) => if c =? 0 then parse_args t i else Some (i, c)
      end
  end.

Definition open_raw_sock (name : string) : itree (sysE so_event) Z :=
  let* sock := ask Socket in
  if sock <? 0 then
    ask (Stderr ("Failed to create raw socket" +:+ newline)) ;;; Ret (-1)
  else
    let* ifindex := ask (IfNameToIndex name) in
    let* r := ask (Bind sock ifindex) in
    if r <? 0 then
      let* err := ask StrError in
      ask (Stderr ("Failed to bind to " +:+ name +:+ ": " +:+ err +:+ newline)) ;;;
      ask (Close sock) ;;;
      Ret (-1)
    else Ret sock.

Definition cleanup (rb skel : ptr) (err : Z) : itree (sysE so_event) Z :=
  ask (RbFree rb) ;;;
  ask (SkelDestroy skel) ;;;
  Ret (- err).

Definition poll_body (rb : ptr) (err : Z) : itree (sysE so_event) (Z + Z) :=
  let* exiting := ask ReadFlag in
  if (exiting : bool) then Ret (inr err)
  else
    let* r := ask (RbPoll rb 100) in
    each on_event r.2 ;;;
    if r.1 =? - EINTR then Ret (inr 0)
    else if r.1 <? 0 then
      ask (Stderr ("Error polling perf buffer: " +:+ dec r.1 +:+ newline)) ;;;
      Ret (inr r.1)
    else
      ask (Sleep 1) ;;; Ret (inl r.1).

Definition main (args : list (Z * string)) : itree (sysE so_event) Z :=
  match parse_args args "lo" with
  | None => Ret EX_USAGE
  | Some (interface, err) =>
    if negb (err =? 0) then Ret (- err)
    else
      ask SetPrint ;;;
      ask (Signal 2) ;;;
      ask (Signal 15) ;;;
      let* skel := ask SkelOpenLoad in
      if skel =? 0 then
        ask (Stderr ("Failed to open and load BPF skeleton" +:+ newline)) ;;; Ret 1
      else
        let* fd := ask (MapFd skel "rb") in
        let* rb := ask (RbNew fd) in
        if rb =? 0 then
          ask (Stderr ("Failed to create ring buffer" +:+ newline)) ;;;
          cleanup 0 skel (-1)
        else
          let* sock := open_raw_sock interface in
          if sock <? 0 then
            ask (Stderr ("Failed to open raw socket" +:+ newline)) ;;;
            cleanup rb skel (-2)
          else
            let* prog_fd := ask (ProgFd skel "socket_handler") in
            let* r := ask (AttachBpf sock prog_fd) in
            if negb (r =? 0) then
              ask (Stderr ("Failed to attach to raw socket" +:+ newline)) ;;;
              cleanup rb skel (-3)
            else
              let* err := ITree.iter (poll_body rb) err in
              cleanup rb skel err
  end.
End Callback.

(** ** Address text *)

Lemma dotted_length a b c d :
  is_byte a → is_byte b → is_byte c → is_byte d →
  (String.length (dotted a b c d) ≤ 15)%nat.
Proof.
  intros Ha Hb Hc Hd. unfold dotted. rewrite !string_length_app.
  pose proof (dec_byte_length a Ha). pose proof (dec_byte_length b Hb).
  pose proof (dec_byte_length c Hc). pose proof (dec_byte_length d Hd). cbn. lia.
Qed.

Lemma ltoa_bytes a b c d :
  is_byte a → is_byte b → is_byte c → is_byte d →
  ltoa (be_value [a; b; c; d]) = dotted a b c d.
Proof.
  intros Ha Hb Hc Hd. unfold ltoa, be_value; cbn [rev app le_combine].
  rewrite !land_ff, !Z.shiftr_div_pow2 by done.
  change (2 ^ 24) with 16777216. change (2 ^ 16) with 65536. change (2 ^ 8) with 256.
  set (x := d + 256 * (c + 256 * (b + 256 * (a + 256 * 0)))).
  unfold is_byte, is_u in *. change (2 ^ 8) with 256 in *.
  assert (x mod 256 = d) as -> by (subst x; zlia).
  assert ((x / 256) mod 256 = c) as -> by (subst x; zlia).
  assert ((x / 65536) mod 256 = b) as -> by (subst x; zlia).
  assert ((x / 16777216) mod 256 = a) as -> by (subst x; zlia).
  apply snprintf_fits. pose proof (dotted_length a b c d Ha Hb Hc Hd). lia.
Qed.

(** [ltoa] renders an address as the dotted decimal text of its four
    bytes, most significant first; the 16-byte buffer always holds the whole
    text and its terminator. *)
Theorem ltoa_dotted a b c d :
  is_byte a → is_byte b → is_byte c → is_byte d →
  ltoa (be_value [a; b; c; d]) = dotted a b c d ∧
  (String.length (ltoa (be_value [a; b; c; d])) < 16)%nat.
Proof.
  intros Ha Hb Hc Hd. rewrite ltoa_bytes by done. split; [done|].
  pose proof (dotted_length a b c d Ha Hb Hc Hd). lia.
Qed.

Lemma ltoa_dotted_witness : 
  ltoa (be_value [192; 168; 100; 200]) = "192.168.100.200"%string ∧
  (String.length (ltoa (be_value [192; 168; 100; 200])%Z) < 16)%nat.
Proof. apply (ltoa_dotted 192 168 100 200); unfold is_byte, is_u; lia. Defined.

(** The packet's own address text. *)
Definition addr_text (pkt : list Z) (off : nat) : string :=
  match take 4 (drop off pkt) with
  | [a; b; c; d] => dotted a b c d
  | _ => EmptyString
  end.

Lemma ltoa_field pkt off :
  Forall is_byte pkt → (off + 4 ≤ length pkt)%nat → ltoa (field pkt off 4) = addr_text pkt off.
Proof.
  intros Hb Hl. unfold field, addr_text.
  pose proof (slice_bytes pkt off 4 Hb) as Hs. pose proof (slice_length pkt off 4 Hl) as Hn.
  destruct (take 4 (drop off pkt)) as [|a [|b [|c [|d [|]]]]]; try done.
  rewrite !Forall_cons in Hs. destruct Hs as (? & ? & ? & ? & _). by apply ltoa_bytes.
Qed.

(** The line the program means to print for a packet. *)
Definition packet_line (ifname proto : string) (pkt : list Z) : string :=
  "interface: " +:+ ifname +:+ tab +:+ "protocol: " +:+ proto +:+ tab +:+
  addr_text pkt 26 +:+ ":" +:+ dec (sport_of pkt) +:+ "(src) -> " +:+
  addr_text pkt 30 +:+ ":" +:+ dec (dport_of pkt) +:+ "(dst)" +:+ newline.

(** The record of a packet addressed to this host passes the guards of the
    callback when its protocol number is below [IPPROTO_MAX]. *)
Lemma fill_wanted max pkt skb e0 :
  skb_holds pkt skb → (24 ≤ length pkt)%nat → 0 ≤ ip_proto e0 < 256 →
  skb_pkt_type skb = PACKET_HOST → proto_of pkt < max →
  ip_proto (fill_event LE skb e0) = proto_of pkt ∧
  wanted max (fill_event LE skb e0) = true.
Proof.
  intros Hs Hl Hp Ht Hm.
  pose proof (field_range pkt 23 1 (holds_bytes _ _ Hs) ltac:(lia)) as Hf.
  assert (ip_proto (fill_event LE skb e0) = proto_of pkt) as Hpr.
  { rewrite (fill_proto LE pkt skb Hs e0) by (unfold is_u; lia).
    rewrite Z.div_small by lia. lia. }
  split; [done|]. unfold wanted. rewrite Hpr. cbn [pkt_type fill_event]. rewrite Ht.
  cbn [Z.eqb PACKET_HOST negb]. unfold proto_of in *.
  by rewrite (proj2 (Z.ltb_ge _ _)), (proj2 (Z.leb_gt _ _)) by lia.
Qed.

(** One packet on a little-endian target: for a complete unfragmented
    IPv4 packet to this host whose protocol has a name and is not GRE, the
    line printed for the record the kernel side submits names the interface
    and the protocol and shows the packet's own addresses and ports. *)
Theorem packet_printed max pkt skb e0 ifname proto :
  skb_holds pkt skb → complete pkt → 0 ≤ ip_proto e0 < 256 →
  skb_pkt_type skb = PACKET_HOST → proto_of pkt < max → proto_of pkt ≠ IPPROTO_GRE →
  ipproto_mapping (proto_of pkt) = Some proto →
  handle_event max LE (Some ifname) (fill_event LE skb e0) =
  Line (packet_line ifname proto pkt).
Proof.
  intros Hs Hc Hp Ht Hm Hg Hn. pose proof (holds_bytes _ _ Hs) as Hb.
  destruct Hc as [H34 Hc].
  destruct (fill_wanted max pkt skb e0 Hs ltac:(lia) Hp Ht Hm) as [Hpr Hw].
  destruct (fill_ports LE pkt skb Hs e0 (conj H34 Hc)) as [Hsp Hdp].
  destruct (fill_addrs LE pkt skb Hs e0 H34) as [Ha _].
  destruct (Ha ltac:(by rewrite Hpr)) as [Hsa Hda].
  unfold handle_event. rewrite Hw, Hpr, Hn, Hsa, Hda, Hsp, Hdp.
  unfold saddr_of, daddr_of. by rewrite !ltoa_field by (done || lia).
Qed.

Lemma packet_printed_witness :
  handle_event 263 LE (Some "lo") (fill_event LE (mk_skb (demo_pkt 17)) demo_stale) =
  Line ("interface: lo" +:+ tab +:+ "protocol: UDP" +:+ tab +:+
        "10.0.0.1:1000(src) -> 10.0.0.2:53(dst)" +:+ newline).
Proof.
  apply (packet_printed 263 (demo_pkt 17) (mk_skb (demo_pkt 17)) demo_stale "lo" "UDP").
  - apply mk_skb_holds, demo_pkt_bytes. unfold is_byte, is_u; lia.
  - split; vm_compute; lia.
  - cbn; lia.
  - reflexivity.
  - reflexivity.
  - discriminate.
  - reflexivity.
Defined.

(** A protocol number below [IPPROTO_MAX] that the table does not name
    makes the callback pass a NULL pointer for [%s]. *)
Theorem unnamed_protocol_null max pkt skb e0 ifname :
  skb_holds pkt skb → (24 ≤ length pkt)%nat → 0 ≤ ip_proto e0 < 256 →
  skb_pkt_type skb = PACKET_HOST → proto_of pkt < max →
  ipproto_mapping (proto_of pkt) = None →
  handle_event max LE (Some ifname) (fill_event LE skb e0) = NullString.
Proof.
  intros Hs Hl Hp Ht Hm Hn.
  destruct (fill_wanted max pkt skb e0 Hs Hl Hp Ht Hm) as [Hpr Hw].
  unfold handle_event. by rewrite Hw, Hpr, Hn.
Qed.

Lemma unnamed_protocol_null_witness :
  handle_event 263 LE (Some "lo") (fill_event LE (mk_skb (demo_pkt 89)) demo_stale) = NullString.
Proof.
  apply (unnamed_protocol_null 263 (demo_pkt 89)).
  - apply mk_skb_holds, demo_pkt_bytes. unfold is_byte, is_u; lia.
  - vm_compute; lia.
  - cbn; lia.
  - reflexivity.
  - reflexivity.
  - reflexivity.
Defined.

(** ** [main] *)

Section MainProofs.
Context (max : Z) (en : endian) (good : ∀ X, sysE so_event X → X → Prop).
Implicit Types (n : option nat) (m : live).

(** The records the program can print: a wanted record has a protocol with
    a name. *)
Definition sample_ok (e : so_event) : Prop :=
  wanted max e = true → is_Some (ipproto_mapping (ip_proto e)).

Lemma sockfilter_on_event_ends e s :
  sample_ok e → ends (sys_with sample_ok good) (fun _ s' => s' = s) (on_event max en e) s.
Proof.
  intros He. destruct s as [m n]. unfold on_event, handle_event.
  destruct (wanted max e) eqn:Hw; [|by apply ends_Ret].
  destruct (He Hw) as [p Hp]. sys_call ifname Hi. rewrite Hp.
  destruct ifname; [by apply ends_trigger|by apply ends_Ret].
Qed.

Definition loop_err (err : Z) : Prop := is_s 32 err ∧ (polls_fine good → 0 ≤ err).

Lemma sockfilter_poll_round rb m :
  at_stage m KRing rb any_stage = true →
  flag_round sample_ok good (poll_body max en rb) m loop_err loop_err.
Proof.
  intros Hrb. eapply (flag_round_read _ _ _ _ _ _ id); [reflexivity|done|].
  intros err n Herr Hn.
  apply ends_call; [done|]. intros [r l] Hr _ Hg. cbn [sys_resp sys_post tick fst snd] in *.
  destruct Hr as (Hr & _ & Hl).
  eapply ends_bind; [eapply ends_each; [intros e; apply sockfilter_on_event_ends|done]|].
  intros _ s ->. case_cond; [by apply ends_Ret|]. case_cond.
  - apply ends_call; [done|]. intros ? _ _ _. apply ends_Ret. split; [done|].
    split; [done|]. intros Hf. destruct (Hf _ _ _ Hg); cbn in *; lia.
  - apply ends_call; [done|]. intros ? _ _ _. by apply ends_Ret.
Qed.

Lemma sockfilter_cleanup_ends rb skel err n m :
  (rb =? 0) || at_stage m KRing rb any_stage = true →
  at_stage m KSkel skel any_stage = true →
  ends (sys_with sample_ok good)
    (fun code s => code = - err ∧ s.1 = gone KSkel skel (gone KRing rb m))
    (cleanup rb skel err) (m, n).
Proof.
  intros Hr Hs. unfold cleanup.
  apply ends_call; [done|]. intros ? _ _ _. cbn [sys_post tick].
  apply ends_call; [|intros ? _ _ _; by apply ends_Ret].
  cbn [sys_pre]. unfold gone. rewrite at_stage_delete_ne by done. by rewrite Hs, orb_true_r.
Qed.

(** [open_raw_sock] leaves a bound socket, or nothing. *)
Lemma open_raw_sock_ends name n m :
  (∀ fd, m !! (KStale, fd) = None) →
  ends (sys_with sample_ok good)
    (fun sock s => s.2 = n ∧
       (sock < 0 ∧ s.1 = m ∨
        0 ≤ sock ∧ m !! (KFd, sock) = None ∧ s.1 = <[(KFd, sock) := Live]> m))
    (open_raw_sock name) (m, n).
Proof.
  intros Hst. unfold open_raw_sock. sys_call sock Hsock. destruct Hsock as [_ Hsock]. live_norm.
  destruct (Z.ltb_spec sock 0) as [Hn|Hp].
  - rewrite (proj2 (Z.leb_gt 0 sock)) by lia. sys_call u Hu. apply ends_Ret. split; [done|].
    left. split; [lia|done].
  - rewrite (proj2 (Z.leb_le 0 sock)) by lia. destruct Hsock as [|Hf]; [lia|].
    sys_run; apply ends_Ret; split; try done.
    + left. split; [lia|]. cbn. rewrite delete_insert_id by done. by apply delete_id.
    + right. split_and!; [lia|done|done].
Qed.
End MainProofs.

(** At the end the ring buffer and the skeleton are gone; a raw socket that
    was opened is still open. *)
Definition finished (code : Z) (s : ustate) : Prop :=
  s.1 = ∅ ∨ ∃ fd, s.1 = <[(KFd, fd) := Live]> ∅.

(** Leaving through [cleanup] from each of the states it is reached in. *)
Ltac leave_cleanup :=
  eapply ends_conseq;
  [apply sockfilter_cleanup_ends; live_pre
  |intros ? [? ?] [? Hm]; cbn [fst snd] in Hm; subst; unfold finished; cbn [fst snd]].

(** Graceful exit: once the signal flag is seen set [main] returns, with at
    most the raw socket left. *)
Theorem sockfilter_main_ends max en args n :
  ends (sys (sample_ok max)) finished (main max en args) (∅, Some n).
Proof.
  unfold main. destruct (parse_args args "lo") as [[interface err]|];
    [|apply ends_Ret; by left].
  sys_run; try (apply ends_Ret; by left).
  - leave_cleanup. left. live_eq.
  - eapply ends_bind.
    { apply open_raw_sock_ends. intros fd. by rewrite !lookup_insert_ne by congruence. }
    intros sock [m' n'] [Hn Hm]. cbn [fst snd] in Hn, Hm. subst n'.
    destruct Hm as [[Hneg ->]|(Hpos & _ & ->)].
    + rewrite (proj2 (Z.ltb_lt sock 0) Hneg). sys_call u Hu. leave_cleanup. left. live_eq.
    + rewrite (proj2 (Z.ltb_ge sock 0) Hpos). sys_run.
      * eapply ends_bind.
        -- eapply (flag_loop_ends (sample_ok max) any_answer); [apply sockfilter_poll_round; live_pre|].
           unfold loop_err, is_s. lia.
        -- intros v [m' n'] [Hm _]. cbn in Hm. subst m'. leave_cleanup. right. exists sock. live_eq.
      * leave_cleanup. right. exists sock. live_eq.
Qed.

(** Resource safety of [main] for every command line and environment
    whose records carry named protocols, also on runs that never end: calls
    are made only on objects that exist and in their order, the ring buffer
    and the skeleton are released exactly once on every path; the only object
    that may outlive [main] is the raw socket. *)
Theorem sockfilter_main_safe max en args n :
  safe (sys (sample_ok max)) finished (main max en args) (∅, n).
Proof.
  apply (safe_any_signal _ _ (fun _ m => m = ∅ ∨ ∃ fd, m = <[(KFd, fd) := Live]> ∅)). intros k.
  apply sockfilter_main_ends.
Qed.

Lemma open_raw_sock_happy max name n m :
  ends (sys_with (sample_ok max) happy)
    (fun sock s => 0 ≤ sock ∧ s = (<[(KFd, sock) := Live]> m, n))
    (open_raw_sock name) (m, n).
Proof.
  unfold open_raw_sock. sys_call sock Hsock. cbn in Hg. live_norm.
  rewrite (proj2 (Z.leb_le 0 sock) Hg), (proj2 (Z.ltb_ge sock 0) Hg).
  sys_call i Hi. sys_call r Hr. cbn in Hg0, Hg1. subst r. by apply ends_Ret.
Qed.

(** When nothing fails and a signal ends the program, the raw socket is
    still open at the end. *)
Lemma sockfilter_main_socket_open max en args interface n :
  parse_args args "lo" = Some (interface, 0) →
  ends (sys_with (sample_ok max) happy) (fun _ s => ∃ fd, s.1 = <[(KFd, fd) := Live]> ∅)
    (main max en args) (∅, Some n).
Proof.
  intros Ha. unfold main. rewrite Ha. sys_run; try (cbn in *; lia).
  eapply ends_bind; [apply open_raw_sock_happy|].
  intros sock s [Hpos ->]. rewrite (proj2 (Z.ltb_ge sock 0) Hpos). sys_run; try (cbn in *; lia).
  eapply ends_bind.
  - eapply (flag_loop_ends (sample_ok max) happy); [apply sockfilter_poll_round; live_pre|].
    unfold loop_err, is_s. lia.
  - intros v [m' n'] [Hm _]. cbn in Hm. subst m'. leave_cleanup. exists sock. live_eq.
Qed.

(** The answer of the last poll, 0 before the first; the answers are those of
    an environment in which nothing fails. *)
Definition last_poll : protocol (sysE so_event) Z :=
  Protocol (fun X e z => true) (fun X e z x => happy X e x)
    (fun X e => match e in sysE _ X return X → Z → Z with
                | RbPoll _ _ => fun x _ => x.1
                | _ => fun _ z => z
                end).

Lemma last_poll_call {X R} (Q : R → Z → Prop) (e : sysE so_event X) k z :
  (∀ x, happy X e x → safe last_poll Q (k x) (post last_poll e x z)) →
  safe last_poll Q (ITree.bind (ask e) k) z.
Proof.
  intros Hk. eapply (safe_bind _ (fun x z' => happy X e x ∧ z' = post last_poll e x z)).
  - by apply safe_trigger.
  - intros x z' [Hx ->]. by apply Hk.
Qed.

Ltac last_poll_run :=
  repeat first
    [ match goal with
      | |- safe _ _ (if negb ?b then _ else _) _ => destruct b eqn:?
      | |- safe _ _ (if ?b then _ else _) _ => destruct b eqn:?
      end; cbn [negb]
    | apply last_poll_call; let x := fresh "x" in let Hx := fresh "Hx" in
      intros x Hx; cbn [post last_poll happy] in * ];
  bool_facts; try (exfalso; lia).

Lemma on_event_last_poll max en l z :
  safe last_poll (fun _ z' => z' = z) (each (on_event max en) l) z.
Proof.
  induction l as [|e l IH]; cbn [each]; [by apply safe_ret|].
  eapply (safe_bind _ (fun _ z' => z' = z)); [|by intros _ ? ->].
  unfold on_event. destruct (wanted max e); [|by apply safe_ret]. apply last_poll_call. intros name _.
  destruct (handle_event max en name e); [by apply safe_ret|by apply safe_trigger|].
  apply last_poll_call. intros [] _. apply safe_spin.
Qed.

(** The variable [err] in the loop and what [main] returns. *)
Lemma sockfilter_main_last_poll max en args interface :
  parse_args args "lo" = Some (interface, 0) →
  safe last_poll (fun code z => code = - Z.max 0 z) (main max en args) 0.
Proof.
  intros Ha. unfold main. rewrite Ha. cbn [negb Z.eqb]. last_poll_run.
  eapply (safe_bind _ (fun sock z => 0 ≤ sock ∧ z = 0)).
  { unfold open_raw_sock. last_poll_run; by apply safe_ret. }
  intros sock z [Hs ->]. last_poll_run.
  eapply (safe_bind _ (fun err z => err = Z.max 0 z)).
  - apply (safe_iter _ (fun err z => err = Z.max 0 z)); [|done]. intros err z ->. unfold poll_body.
    apply last_poll_call. intros exiting _. destruct exiting; [by apply safe_ret|].
    apply last_poll_call. intros [r l] Hr. cbn [post last_poll happy fst snd] in *. unfold EINTR in *.
    eapply safe_bind; [apply on_event_last_poll|]. intros _ z' ->.
    last_poll_run; apply safe_ret; cbn; lia.
  - intros err z ->. unfold cleanup. last_poll_run. by apply safe_ret.
Qed.

(** C34. When nothing fails and a signal ends the program, the raw socket is
    still open at the end and the returned value is minus the number of
    records the last poll delivered, 0 if that poll was interrupted or there
    was none. *)
Theorem sockfilter_main_leaks_socket max en args interface n :
  parse_args args "lo" = Some (interface, 0) →
  ends (both (sys_with (sample_ok max) happy) last_poll)
    (fun code s => code = - Z.max 0 s.2 ∧ ∃ fd, s.1.1 = <[(KFd, fd) := Live]> ∅)
    (main max en args) ((∅, Some n), 0).
Proof.
  intros Ha. eapply ends_conseq.
  - apply (ends_both (sys_with (sample_ok max) happy) last_poll).
    + by eapply sockfilter_main_socket_open.
    + by eapply sockfilter_main_last_poll.
  - by intros code s [? ?].
Qed.

Definition demo_world : world so_event :=
  World 10 1 [(3, [demo_stale; demo_stale; demo_stale])] [] [].

Lemma sockfilter_main_leaks_socket_witness :
  parse_args [(105, "eth0")] "lo" = Some ("eth0", 0)%string ∧
  (∃ w, exec (both (sys (sample_ok 263)) last_poll) answer 60 (main 263 LE [(105, "eth0")])
          demo_world ((∅, Some 1%nat), 0)
        = Done (-3) w ((<[(KFd, 12) := Live]> ∅, Some O), 3)) ∧
  ends (both (sys_with (sample_ok 263) happy) last_poll)
    (fun code s => code = - Z.max 0 s.2 ∧ ∃ fd, s.1.1 = <[(KFd, fd) := Live]> ∅)
    (main 263 LE [(105, "eth0"%string)]) ((∅, Some 1%nat), 0).
Proof.
  split; [reflexivity|]. split; [eexists; vm_compute; reflexivity|].
  apply (sockfilter_main_leaks_socket 263 LE [(105, "eth0"%string)] "eth0" 1). reflexivity.
Defined.
