(* ===== verification/SockfilterOutput.v ===== *)
(** * sockfilter: the output of the whole system

    What [sockfilter.c] prints, in every environment, and what that says
    about the packets when the records come from [sockfilter.bpf.c]. *)
From S2P Require Import Prelude Interaction CInt CFormat BpfKernel SockfilterBpf UserSpace Output SockfilterUser.
From ITree Require Import ITree.
Local Open Scope Z_scope.

Section Shown.
Context (max : Z) (en : endian).

Definition record_line (name : option string) (e : so_event) : option string :=
  match handle_event max en name e with Line l => Some l | _ => None end.

(** The records [d] have been shown: an interface name was asked for each
    record that passes the guards, and the output is the line of each of
    those whose interface has a name. *)
Definition packets_shown (d : list so_event) (tr : trace so_event) : Prop :=
  let w := filter (fun e => wanted max e = true) d in
  length (names tr) = length w ∧ written tr = omap id (zip_with record_line (names tr) w).

#[local] Instance packets_shown_dec : RelDecision packets_shown.
Proof. intros d tr. unfold packets_shown. apply _. Defined.

Abbreviation output := (tracing (sample_ok max) packets_shown).

Lemma packets_shown_frame d l tr : packets_shown d tr → packets_shown d (tr ++ [Delivered l]).
Proof. unfold packets_shown. intros [H1 H2]. trace_simpl. done. Qed.

Lemma sockfilter_on_event_shows : shows (sample_ok max) packets_shown (on_event max en).
Proof.
  intros d e tr He [Hl Hp]. unfold on_event. cbn zeta in Hl, Hp.
  destruct (wanted max e) eqn:Hw.
  2: { apply safe_ret. split; [|done]. unfold packets_shown. rewrite filter_app.
       rewrite filter_cons_False by congruence. by rewrite filter_nil, app_nil_r. }
  destruct (He Hw) as [p Hmap]. trace_step name.
  assert (∀ tr', written tr' = written tr ++ option_list (record_line name e) → names tr' = names tr ++ [name] →
            delivered tr' = delivered tr →
            packets_shown (d ++ [e]) tr' ∧ delivered tr' = delivered tr) as Hdone.
  { intros tr' H1 H2 H3. split; [|done]. unfold packets_shown. rewrite filter_app.
    rewrite filter_cons_True, filter_nil by done. rewrite H1, H2, !length_app, Hl. split; [done|].
    rewrite zip_with_app by done. rewrite omap_app, Hp. cbn. by destruct (record_line name e). }
  unfold record_line in Hdone. unfold handle_event in *. rewrite Hw, Hmap in *.
  destruct name as [name|].
  - apply safe_trigger; [done|]. intros [] _. cbn [post tracing]. apply Hdone; by trace_simpl.
  - apply safe_ret. apply Hdone; by trace_simpl.
Qed.

Lemma sockfilter_poll_loop_output rb err tr :
  packets_shown (delivered tr) tr →
  safe output (fun _ tr' => packets_shown (delivered tr') tr') (ITree.iter (poll_body max en rb) err) tr.
Proof.
  intros Htr. apply (safe_iter _ (fun _ tr => packets_shown (delivered tr) tr)); [|done].
  clear err tr Htr. intros err tr Htr. unfold poll_body. trace_step exiting.
  destruct exiting; [by apply safe_ret|].
  apply (shows_poll _ _ (on_event max en)); [apply sockfilter_on_event_shows|apply packets_shown_frame|done|].
  clear tr Htr. intros x tr Htr. trace_run; by apply safe_ret.
Qed.

Lemma sockfilter_cleanup_output rb skel err tr :
  packets_shown (delivered tr) tr →
  safe output (fun _ tr' => packets_shown (delivered tr') tr') (cleanup rb skel err) tr.
Proof. intros Htr. unfold cleanup. trace_run. by apply safe_ret. Qed.

Lemma open_raw_sock_output name :
  safe output (fun _ tr' => tr' = []) (open_raw_sock name) [].
Proof. unfold open_raw_sock. trace_run; by apply safe_ret. Qed.

Lemma sockfilter_main_output args :
  safe output (fun _ tr => packets_shown (delivered tr) tr) (main max en args) [].
Proof.
  assert (packets_shown (delivered []) []) as H0 by done.
  unfold main. destruct (parse_args args "lo") as [[interface err]|]; [|by apply safe_ret].
  trace_run; try (by apply safe_ret); try (by apply sockfilter_cleanup_output).
  eapply safe_bind; [apply open_raw_sock_output|]. intros sock tr ->.
  trace_run; try (by apply sockfilter_cleanup_output).
  eapply safe_bind; [by apply sockfilter_poll_loop_output|]. intros err3 tr. apply sockfilter_cleanup_output.
Qed.
End Shown.
#[export] Existing Instance packets_shown_dec.
Abbreviation output max en := (tracing (sample_ok max) (packets_shown max en)).

(** C11. sockfilter, for every command line, byte order and environment whose
    records carry named protocols: objects are used in the order the library
    requires and only the raw socket may be left at the end; more records are
    asked for only when everything delivered so far is shown, so that also on
    runs that never end the output is exactly the line of each record that
    passes the guards, in order; and once a signal comes [main] returns so. *)
Theorem sockfilter_output max en args o n :
  let P := both (sys (sample_ok max)) (output max en) in
  let Q code (s : ustate * trace so_event) :=
    finished code s.1 ∧ packets_shown max en (delivered s.2) s.2 in
  safe P Q (main max en args) ((∅, o), []) ∧ ends P Q (main max en args) ((∅, Some n), []).
Proof.
  split; [apply (safe_both (sys (sample_ok max)) (output max en) finished
                   (fun _ tr => packets_shown max en (delivered tr) tr))
         |apply (ends_both (sys (sample_ok max)) (output max en) finished
                   (fun _ tr => packets_shown max en (delivered tr) tr))];
    auto using sockfilter_main_safe, sockfilter_main_ends, sockfilter_main_output.
Qed.

(** ** The records of the kernel side *)

(** A packet with the buffer that holds it. *)
Abbreviation packet := (list Z * sk_buff)%type.

(** Zeroed memory as a record. *)
Definition zero_event : so_event := SoEvent 0 0 0 0 0 0.

Section System.
Context {R : Type} `{RingBufLaws R so_event} `{!RingMem R so_event zero_event}.
Implicit Types (p : packet) (ps : list packet) (r : R).

(** The handler on each packet that arrives. *)
Definition receive r p : R := (socket_handler LE p.2 r).1.
Definition receive_all r ps : R := fold_left receive ps r.

(** The packets that are recorded: unfragmented IPv4, when the ring has
    room. *)
Definition recorded p : bool := is_ipv4 p.1 && negb (fragmented p.1).
Fixpoint captured r ps : list packet :=
  match ps with
  | [] => []
  | p :: t => (if recorded p && bool_decide (is_Some (rb_reserve r sizeof_so_event)) then [p] else [])
              ++ captured (receive r p) t
  end.

(** The packets the theorem is about: the buffer holds the packet, and if it
    is recorded its headers are complete and its protocol has a name and is
    not GRE. *)
Record ordinary p : Prop := {
  o_holds : skb_holds p.1 p.2;
  o_length : (22 ≤ length p.1)%nat;
  o_complete : recorded p = true → complete p.1;
  o_named : recorded p = true → is_Some (ipproto_mapping (proto_of p.1));
  o_not_gre : recorded p = true → proto_of p.1 ≠ IPPROTO_GRE;
}.

(** Records whose upper bytes of [ip_proto] are zero. *)
Definition clean (e : so_event) : Prop := 0 ≤ ip_proto e < 256.

(** In a ring whose memory starts zeroed and is used again, reserved memory
    is clean as long as what was submitted is. *)
Lemma reserve_clean r n e r' :
  rb_reserve r n = Some (e, r') → Forall clean (rb_samples r) → clean e.
Proof.
  intros Hr Hc. destruct (reserve_old _ _ _ _ Hr) as [->|Hin]; [unfold clean; cbn; lia|].
  by eapply Forall_forall in Hc.
Qed.

(** A record of the packet. *)
Definition record_of (e : so_event) p : Prop :=
  ∃ e0, clean e0 ∧ e = fill_event LE p.2 e0.

(** And what is submitted for an ordinary packet is clean. *)
Lemma record_clean e p : record_of e p → ordinary p → recorded p = true → clean e.
Proof.
  intros (e0 & He0 & ->) Hp Hr. unfold clean in *. pose proof (o_holds p Hp) as Hh.
  destruct (o_complete p Hp Hr) as [H34 _].
  rewrite (fill_proto LE p.1 p.2 Hh e0) by (unfold is_u; lia).
  pose proof (field_range p.1 23 1 (holds_bytes _ _ Hh) ltac:(lia)) as Hf.
  change (256 ^ Z.of_nat 1) with 256 in Hf. unfold proto_of. rewrite Z.div_small by lia. lia.
Qed.

Lemma receive_samples r p :
  Forall clean (rb_samples r) → ordinary p →
  ∃ es, rb_samples (receive r p) = rb_samples r ++ es ∧ Forall clean es ∧
        Forall2 record_of es
          (if recorded p && bool_decide (is_Some (rb_reserve r sizeof_so_event)) then [p] else []).
Proof.
  intros Hring Hp. pose proof (o_holds p Hp) as Hh. pose proof (o_length p Hp) as Hl.
  unfold receive. rewrite (socket_handler_ipv4 LE p.1) by done. fold (recorded p).
  destruct (recorded p) eqn:Hrec.
  2: { exists []. by rewrite app_nil_r. }
  destruct (rb_reserve r sizeof_so_event) as [[e0 r1]|] eqn:Er; cbn [fst andb].
  - rewrite bool_decide_eq_true_2 by by eexists. exists [fill_event LE p.2 e0].
    assert (record_of (fill_event LE p.2 e0) p) as Hr.
    { exists e0. split; [by eapply reserve_clean|done]. }
    split; [by eapply reserve_submit_samples|]. split; [|by repeat constructor].
    apply Forall_singleton. by eapply record_clean.
  - rewrite bool_decide_eq_false_2 by by intros [? ?]. exists []. by rewrite app_nil_r.
Qed.

Lemma receive_all_samples r ps :
  Forall clean (rb_samples r) → Forall ordinary ps →
  ∃ es, rb_samples (receive_all r ps) = rb_samples r ++ es ∧ Forall2 record_of es (captured r ps).
Proof.
  intros Hring Hps. revert r Hring.
  induction Hps as [|p ps Hp _ IH]; intros r Hring; cbn [captured receive_all fold_left].
  { exists []. by rewrite app_nil_r. }
  destruct (receive_samples r p Hring Hp) as (es1 & E1 & C1 & F1).
  destruct (IH (receive r p)) as (es2 & E2 & F2); [rewrite E1; by apply Forall_app|].
  exists (es1 ++ es2). split.
  - unfold receive_all in E2. by rewrite E2, E1, app_assoc.
  - by apply Forall2_app.
Qed.

Lemma captured_ordinary r ps :
  Forall ordinary ps → Forall (fun p => ordinary p ∧ recorded p = true) (captured r ps).
Proof.
  intros Hps. revert r. induction Hps as [|p ps Hp _ IH]; intros r; cbn; [done|].
  apply Forall_app. split; [|apply IH]. destruct (recorded p) eqn:Er; cbn; [|done].
  by case_bool_decide; [apply Forall_singleton|].
Qed.

(** ** The lines of packets *)

Context (max : Z).

Definition to_host p : bool := (skb_pkt_type p.2 =? PACKET_HOST) && (proto_of p.1 <? max).
Definition packet_text (name : option string) p : option string :=
  match name, ipproto_mapping (proto_of p.1) with
  | Some name, Some proto => Some (packet_line name proto p.1)
  | _, _ => None
  end.

Lemma record_packet e p name :
  record_of e p → ordinary p → recorded p = true →
  wanted max e = to_host p ∧ (to_host p = true → record_line max LE name e = packet_text name p).
Proof.
  intros (e0 & He0 & ->) Hp Hr. unfold clean in *. pose proof (o_holds p Hp) as Hh.
  destruct (o_complete p Hp Hr) as [H34 Hc]. destruct (o_named p Hp Hr) as [proto Hn].
  unfold to_host. destruct (Z.eqb_spec (skb_pkt_type p.2) PACKET_HOST) as [Ht|Ht]; cbn [andb].
  2: { split; [|done]. unfold wanted. cbn [pkt_type fill_event].
       by rewrite (proj2 (Z.eqb_neq _ _) Ht). }
  destruct (Z.ltb_spec (proto_of p.1) max) as [Hm|Hm].
  - split; [apply (fill_wanted max p.1 p.2 e0 Hh); (done || lia)|]. intros _. unfold record_line, packet_text.
    destruct name as [name|]; [|unfold handle_event; by destruct (wanted max _)].
    rewrite (packet_printed max p.1 p.2 e0 name proto) by (done || by apply o_not_gre). by rewrite Hn.
  - split; [|done]. unfold wanted. rewrite (fill_proto LE p.1 p.2 Hh e0) by (unfold is_u; lia).
    rewrite Z.div_small, Z.mul_0_r, Z.add_0_r by lia.
    case_cond; [done|]. by rewrite (proj2 (Z.leb_le max _)), orb_true_r.
Qed.

(** Lines of records are lines of their packets. *)
Lemma records_packets es ps ns :
  Forall2 record_of es ps → Forall (fun p => ordinary p ∧ recorded p = true) ps →
  length (filter (fun e => wanted max e = true) es) = length (filter (fun p => to_host p = true) ps) ∧
  zip_with (record_line max LE) ns (filter (fun e => wanted max e = true) es) =
  zip_with packet_text ns (filter (fun p => to_host p = true) ps).
Proof.
  intros Hes. revert ns. induction Hes as [|e p es ps He _ IH]; intros ns; [by destruct ns|].
  rewrite Forall_cons. intros [[Ho Hr] Hps]. rewrite !filter_cons.
  destruct (record_packet e p (default None (head ns)) He Ho Hr) as [-> Hline].
  destruct (to_host p) eqn:Et; [rewrite !decide_True by done|rewrite !decide_False by done; by apply IH].
  destruct ns as [|name ns]; cbn [length zip_with]; [by destruct (IH [] Hps) as [-> _]|].
  destruct (IH ns Hps) as [-> E]. cbn in Hline. by rewrite Hline, E.
Qed.

(** C6. The system on a little-endian target with a ring whose memory starts
    zeroed and is used again: with the records of the kernel side, run on any
    sequence of ordinary packets (those recorded have complete headers and a
    named protocol other than GRE), what sockfilter has printed when a signal
    ends it are the lines of the first captured packets, as many as the polls
    delivered: for each of them addressed to this host, in order, the
    interface, protocol, addresses and ports that stand in the packet. *)
Theorem sockfilter_system args r ps n :
  Forall ordinary ps → rb_samples r = [] →
  ends (both (sys (sample_ok max)) (output max LE))
    (fun code s => finished code s.1 ∧
       (delivered s.2 `prefix_of` rb_samples (receive_all r ps) →
        let qs := filter (fun p => to_host p = true)
                    (take (length (delivered s.2)) (captured r ps)) in
        length (names s.2) = length qs ∧
        written s.2 = omap id (zip_with packet_text (names s.2) qs)))
    (main max LE args) ((∅, Some n), []).
Proof.
  intros Hps Hr. eapply ends_conseq.
  - apply (ends_both (sys (sample_ok max)) (output max LE) finished
             (fun _ tr => packets_shown max LE (delivered tr) tr));
      auto using sockfilter_main_ends, sockfilter_main_output.
  - intros code [s tr] [Hf [Hl Hw]]. cbn [fst snd] in *. split; [done|]. intros [rest Hd].
    destruct (receive_all_samples r ps) as (es & Hes & Hrec); [by rewrite Hr|done|].
    rewrite Hr, Hd in Hes. cbn in Hes. subst es.
    pose proof (captured_ordinary r ps Hps) as Hcap.
    apply Forall2_app_inv_l in Hrec as (l1 & l2 & Hrec & _ & Hcapt).
    rewrite Hcapt in Hcap. apply Forall_app in Hcap as [Hcap _].
    pose proof (Forall2_length _ _ _ Hrec) as Hlen.
    rewrite Hcapt, Hlen, take_app_length.
    destruct (records_packets (delivered tr) l1 (names tr) Hrec Hcap) as [E1 E2].
    by rewrite Hl, Hw, E1, E2.
Qed.
End System.

(** A UDP datagram to this host. *)
Definition demo_packet : packet := (demo_pkt 17, mk_skb (demo_pkt 17)).

Lemma demo_packet_ordinary : ordinary demo_packet.
Proof.
  split; cbn [fst snd demo_packet].
  - apply mk_skb_holds, demo_pkt_bytes. unfold is_byte, is_u. lia.
  - vm_compute. lia.
  - intros _. split; vm_compute; lia.
  - intros _. by eexists.
  - discriminate.
Qed.

Definition run_text (polls : list (Z * list so_event)) : list string :=
  match exec (both (sys (sample_ok 263)) (output 263 LE)) answer 100 (main 263 LE [])
          (World 10 (length polls) polls [] []) ((∅, Some (length polls)), []) with
  | Done _ _ s => written s.2
  | _ => []
  end.

(** The ring has memory for one record: the second packet is recorded over
    the first. *)
Lemma sockfilter_system_witness :
  let _ := reuse_ring 1 zero_event in
  let r := receive_all ([], 0%nat) [demo_packet; demo_packet] in
  run_text [(2, rb_samples r)] =
    replicate 2 ("interface: lo" +:+ tab +:+ "protocol: UDP" +:+ tab +:+
                 "10.0.0.1:1000(src) -> 10.0.0.2:53(dst)" +:+ newline) ∧
  ends (both (sys (sample_ok 263)) (output 263 LE))
    (fun code s => finished code s.1 ∧
       (delivered s.2 `prefix_of` rb_samples r →
        let qs := filter (fun p => to_host 263 p = true)
                    (take (length (delivered s.2)) (captured ([], 0%nat) [demo_packet; demo_packet])) in
        length (names s.2) = length qs ∧
        written s.2 = omap id (zip_with packet_text (names s.2) qs)))
    (main 263 LE []) ((∅, Some 1%nat), []).
Proof.
  cbv zeta. split; [vm_compute; reflexivity|].
  pose proof (reuse_ring_laws 1 zero_event) as Hl. pose proof (reuse_ring_mem 1 zero_event) as Hm.
  apply (sockfilter_system (H := reuse_ring 1 zero_event) 263 [] ([], 0%nat)
           [demo_packet; demo_packet] 1); [|reflexivity].
  repeat (apply Forall_cons_2; [apply demo_packet_ordinary|]). constructor.
Defined.
