(* ===== verification/ProfileUser.v ===== *)
(** * profile: printing and options of the user side ([profile.c])

    The ring buffer callback with its symbolization, and the command line. *)
From S2P Require Import Prelude Interaction CInt CFormat BpfKernel ProfileBpf UserSpace.
From ITree Require Import ITree.
Local Open Scope Z_scope.

Abbreviation prog := (itree (sysE stacktrace_event)).

(** [printf ("%s/%s:%u")] or [printf ("%s:%u")] of a source location, [None]
    where the code prints no location. *)
Definition location (ci : option code_info) : option string :=
  match ci with
  | Some (CodeInfo (Some dir) (Some file) line) => Some (dir +:+ "/" +:+ file +:+ ":" +:+ dec line)
  | Some (CodeInfo None (Some file) line) => Some (file +:+ ":" +:+ dec line)
  | _ => None
  end.

Definition print_frame (name : string) (input_addr addr offset : Z) (ci : option code_info)
    : prog unit :=
  if negb (input_addr =? 0) then
    ask (Stdout (pad_zero 16 (hex input_addr) +:+ ": " +:+ name +:+ " @ 0x" +:+ hex addr +:+
                 "+0x" +:+ hex offset)) ;;;
    match location ci with
    | Some l => ask (Stdout (" " +:+ l +:+ newline))
    | None => ask (Stdout newline)
    end
  else
    ask (Stdout (pad_left 16 "" +:+ "  " +:+ name)) ;;;
    match location ci with
    | Some l => ask (Stdout ("@ " +:+ l +:+ " [inlined]" +:+ newline))
    | None => ask (Stdout ("[inlined]" +:+ newline))
    end.

(** One inlined function of a frame. *)
Definition show_inlined (i : inlined_fn) : prog unit :=
  match in_name i with
  | Some name => print_frame name 0 0 0 (Some (in_info i))
  | None => undefined
  end.

(** The body of the loop over the frames. *)
Definition show_frame (syms : list blaze_sym) (stack : list Z) (i : nat) : prog unit :=
  at_index stack i (fun a =>
    match syms !! i with
    | Some (BlazeSym (Some name) addr offset info inlined) =>
        print_frame name a addr offset (Some info) ;;;
        each show_inlined inlined
    | _ => ask (Stdout (pad_zero 16 (hex a) +:+ ": <no-symbol>" +:+ newline))
    end).

Definition show_stack_trace (symbolizer : ptr) (stack : list Z) (stack_sz pid : Z) : prog unit :=
  if Z.of_nat (length stack) <? stack_sz then undefined
  else
    let* r := ask (Symbolize symbolizer pid (take (Z.to_nat stack_sz) stack)) in
    if r.1 =? 0 then
      let* e := ask BlazeErr in
      ask (Stdout ("  failed to symbolize addresses: " +:+ e +:+ newline))
    else
      for_range (Z.to_nat stack_sz) 0 (show_frame r.2 stack) ;;;
      ask (SymsFree r.1).

(** [event->kstack_sz / sizeof (__u64)] as an [int] *)
Definition stack_len (sz : Z) : Z := s32 (u64 sz / 8).

Definition event_handler (symbolizer : ptr) (e : stacktrace_event) : prog Z :=
  if (kstack_sz e <=? 0) && (ustack_sz e <=? 0) then Ret 1
  else
    match cstr (comm e) with
    | None => undefined
    | Some c =>
        ask (Stdout ("COMM: " +:+ c +:+ " (pid=" +:+ dec (s32 (pid e)) +:+ ") @ CPU " +:+
                     dec (s32 (cpu_id e)) +:+ newline)) ;;;
        (if 0 <? kstack_sz e then
           ask (Stdout ("Kernel:" +:+ newline)) ;;;
           show_stack_trace symbolizer (kstack e) (stack_len (kstack_sz e)) 0
         else ask (Stdout ("No Kernel Stack" +:+ newline))) ;;;
        (if 0 <? ustack_sz e then
           ask (Stdout ("Userspace:" +:+ newline)) ;;;
           show_stack_trace symbolizer (ustack e) (stack_len (ustack_sz e)) (s32 (pid e))
         else ask (Stdout ("No Userspace Stack" +:+ newline))) ;;;
        ask (Stdout newline) ;;;
        Ret 0
    end.

(** ** The command line: the results of [getopt_long] in order *)

Record opts := Opts { freq : Z; sw_event : bool }.

Fixpoint parse_opts (args : list (Z * string)) (o : opts) : option opts :=
  match args with
  | [] => Some o
  | (c, optarg) :: t =>
      if c =? 102 (* 'f' *) then
        let f := atoi optarg in
        parse_opts t (Opts (if f <? 1 then 1 else f) (sw_event o))
      else if c =? 115 (* 's' *) then parse_opts t (Opts (freq o) true)
      else None
  end.

Definition show_help (progname : string) : prog unit :=
  ask (Stdout ("Usage: " +:+ progname +:+ " [-f <frequency>] [--sw-event] [-h]" +:+ newline)) ;;;
  ask (Stdout ("Options:" +:+ newline)) ;;;
  ask (Stdout ("  -f <frequency>  Sampling frequency [default: 1]" +:+ newline)) ;;;
  ask (Stdout ("  --sw-event      Use software event for triggering stack trace capture" +:+ newline)) ;;;
  ask (Stdout ("  -h              Print help" +:+ newline)).

(** ** Options *)

Lemma parse_opts_app a b o :
  parse_opts (a ++ b) o = match parse_opts a o with Some o' => parse_opts b o' | None => None end.
Proof.
  revert o. induction a as [|[c s] a IH]; intros o; [done|].
  cbn. destruct (c =? 102); [apply IH|]. by destruct (c =? 115); [apply IH|].
Qed.

Lemma parse_opts_range args o o' :
  1 ≤ freq o < 2 ^ 31 → parse_opts args o = Some o' → 1 ≤ freq o' < 2 ^ 31.
Proof.
  revert o. induction args as [|[c s] args IH]; intros o Ho; cbn; [by intros [= <-]|].
  pose proof (swrap_range 32 (strtol s).1 ltac:(lia)) as Ha. unfold is_s in Ha.
  repeat case_cond; cbn; try done; apply IH; cbn; try done;
    unfold atoi, s32 in *; lia.
Qed.

(** C40. The sampling frequency: on every accepted command line it is a
    positive [int], and a final [-f] with the decimal text of [n] sets it to
    [n], raised to 1, keeping the other settings. *)
Theorem profile_frequency args o n :
  parse_opts args (Opts 1 false) = Some o → is_s 32 n →
  1 ≤ freq o < 2 ^ 31 ∧
  parse_opts (args ++ [(102, dec n)]) (Opts 1 false) = Some (Opts (Z.max 1 n) (sw_event o)).
Proof.
  intros Ho Hn. split; [eapply parse_opts_range; [|done]; cbn; lia|].
  rewrite parse_opts_app, Ho. cbn. rewrite atoi_dec by done. case_cond; do 2 f_equal; lia.
Qed.

Lemma profile_frequency_witness :
  parse_opts [(115, EmptyString); (102, "nonsense"%string)] (Opts 1 false) = Some (Opts 1 true) ∧
  parse_opts ([(115, EmptyString); (102, "nonsense"%string)] ++ [(102, dec 99)]) (Opts 1 false)
  = Some (Opts 99 true).
Proof.
  split; [reflexivity|].
  apply (profile_frequency [(115, EmptyString); (102, "nonsense"%string)] (Opts 1 true) 99);
    [reflexivity|unfold is_s; lia].
Defined.

(** ** The callback *)

Section Callback.
Context (good : ∀ X, sysE stacktrace_event X → X → Prop) (symbolizer : ptr).
Implicit Types (n : option nat) (m : live).
Abbreviation sysp := (sys_with readable good).

Lemma print_frame_ends name a addr off ci m n :
  ends sysp (fun _ s => s = (m, n)) (print_frame name a addr off ci) (m, n).
Proof.
  unfold print_frame. case_cond; cbn [negb]; sys_call u Hu; destruct (location ci);
    by apply ends_trigger.
Qed.

Lemma show_frame_ends syms stack i m n :
  (i < length stack)%nat →
  Forall (fun sym => Forall (fun f => is_Some (in_name f)) (sym_inlined sym)) syms →
  ends sysp (fun _ s => s = (m, n)) (show_frame syms stack i) (m, n).
Proof.
  intros Hi Hs. unfold show_frame, at_index.
  destruct (lookup_lt_is_Some_2 stack i Hi) as [a ->].
  destruct (syms !! i) as [[[name|] addr off info inl]|] eqn:E; [|by apply ends_trigger..].
  eapply ends_bind; [apply print_frame_ends|]. intros _ s ->.
  eapply (ends_each _ _ (fun f => is_Some (in_name f))).
  - intros f [nm Hf]. unfold show_inlined. rewrite Hf. apply print_frame_ends.
  - by apply (Forall_lookup_1 _ _ _ _ Hs E).
Qed.

Lemma show_frames_ends syms stack k lo m n :
  (lo + k ≤ length stack)%nat →
  Forall (fun sym => Forall (fun f => is_Some (in_name f)) (sym_inlined sym)) syms →
  ends sysp (fun _ s => s = (m, n)) (for_range k lo (show_frame syms stack)) (m, n).
Proof.
  intros Hk Hs. revert lo Hk. induction k as [|k IH]; intros lo Hk; cbn; [by apply ends_Ret|].
  eapply ends_bind; [apply show_frame_ends; [lia|done]|]. intros _ s ->. apply IH. lia.
Qed.

(** Symbolizing and printing a stack that fits its array returns, and frees
    the symbols it obtained. *)
Lemma show_stack_trace_ends stack sz p m n :
  sz ≤ Z.of_nat (length stack) → at_stage m KSym symbolizer any_stage = true →
  ends sysp (fun _ s => s = (m, n)) (show_stack_trace symbolizer stack sz p) (m, n).
Proof.
  intros Hsz Hy. unfold show_stack_trace. rewrite (proj2 (Z.ltb_ge _ _)) by done.
  apply ends_call; [done|]. intros [q syms] [Hq Hi] _ _. cbn [sys_post tick fst snd] in *.
  destruct (Z.eqb_spec q 0) as [->|Hq0]; cbn [negb got].
  - sys_call e He. by apply ends_trigger.
  - destruct Hq as [|[_ Hq]]; [done|].
    eapply ends_bind; [apply show_frames_ends; [lia|done]|]. intros _ s ->.
    apply ends_trigger; [cbn [pre sys_with fst]; live_pre|]. intros x _. cbn [post sys_with sys_post tick fst snd].
    unfold got, gone. by rewrite delete_insert_id.
Qed.

Lemma stack_len_le sz : 0 < sz ≤ sizeof_stack_trace → stack_len sz ≤ 128.
Proof.
  unfold sizeof_stack_trace, MAX_STACK_DEPTH. intros H.
  unfold stack_len, u64, s32. rewrite wrap_small by (unfold is_u; lia).
  rewrite swrap_small; [zlia|done|unfold is_s; zlia].
Qed.

(** The callback returns on every record the kernel side sends, with the
    objects held unchanged; the result never stops the poll. *)
Lemma event_handler_ends e m n :
  readable e → at_stage m KSym symbolizer any_stage = true →
  ends sysp (fun r s => s = (m, n) ∧ 0 ≤ r) (event_handler symbolizer e) (m, n).
Proof.
  intros [(_ & Hkl & Hul) [c Hc] _ [_ Hk] [_ Hu]] Hy. unfold event_handler. rewrite Hc.
  destruct (_ && _); [by apply ends_Ret|]. sys_call u1 Hu1.
  eapply (ends_bind _ (fun _ s => s = (m, n))).
  { case_cond; [|by apply ends_trigger]. sys_call u2 Hu2.
    apply show_stack_trace_ends; [|done]. rewrite Hkl. apply stack_len_le. lia. }
  intros _ s ->. eapply (ends_bind _ (fun _ s => s = (m, n))).
  { case_cond; [|by apply ends_trigger]. sys_call u2 Hu2.
    apply show_stack_trace_ends; [|done]. rewrite Hul. apply stack_len_le. lia. }
  intros _ s ->. sys_call u3 Hu3. by apply ends_Ret.
Qed.
End Callback.
