(* ===== verification/ProfileMain.v ===== *)
(** * profile: [main] of [profile.c]

    One perf event and one link per online CPU, kept in two arrays, the poll
    loop, and the release of everything on the way out. *)
From S2P Require Import Prelude Interaction CInt CFormat BpfKernel ProfileBpf UserSpace ProfileUser.
From ITree Require Import ITree.
Local Open Scope Z_scope.

Definition PERF_TYPE_HARDWARE : Z := 0.
Definition PERF_TYPE_SOFTWARE : Z := 1.
Definition PERF_COUNT_HW_CPU_CYCLES : Z := 0.
Definition PERF_COUNT_SW_CPU_CLOCK : Z := 0.

(** The members of [attr] that are not zero. *)
Definition make_attr (o : opts) : perf_attr :=
  PerfAttr (if sw_event o then PERF_TYPE_SOFTWARE else PERF_TYPE_HARDWARE)
           (if sw_event o then PERF_COUNT_SW_CPU_CLOCK else PERF_COUNT_HW_CPU_CYCLES)
           (freq o) 1.

(** A heap array: its address and its elements. *)
Abbreviation array := (ptr * list Z)%type.

(** [a[i] = v]: undefined on a NULL pointer or outside the array. *)
Definition store_at {X} (a : array) (i : nat) (v : Z) (k : array → prog X) : prog X :=
  if (a.1 =? 0) || negb (i <? length a.2)%nat then undefined
  else k (a.1, <[i := v]> a.2).

(** [for (i = 0; i < num_cpus; i++) pefds[i] = -1;]: the contents of fresh
    memory do not matter, every element is stored. *)
Fixpoint init_pefds (n i : nat) (pefds : array) : prog array :=
  match n with
  | O => Ret pefds
  | S n' => store_at pefds i (-1) (init_pefds n' (S i))
  end.

(** [cpu >= num_online_cpus || !online_mask[cpu]] *)
Definition offline (online_mask : list bool) (cpu : nat) : bool :=
  match online_mask !! cpu with Some b => negb b | None => true end.

(** The message when an event cannot be opened; [errno] is read only for a
    hardware event. *)
Definition report_failure (o : opts) : prog unit :=
  let* missing := (if sw_event o then Ret false
                   else let* errno := ask GetErrno in Ret (errno =? ENOENT)) in
  if (missing : bool) then
    ask (Stderr ("Fail to set up performance monitor on a CPU/Core." +:+ newline +:+
      "Try running the profile example with the `--sw-event` option." +:+ newline))
  else
    ask (Stderr ("Fail to set up performance monitor on a CPU/Core." +:+ newline)).

Definition PERF_FLAG_FD_CLOEXEC : Z := 8.

(** The wrapper: the [long] of the system call passes through an [int]. *)
Definition perf_event_open (hw_event : perf_attr) (pid cpu group_fd flags : Z) : prog Z :=
  let* ret := ask (PerfEventOpen hw_event pid cpu group_fd flags) in
  Ret (s32 ret).

(** The loop that opens and attaches an event on each online CPU, [n] CPUs
    from [cpu] on; with the value of [err] it leaves. *)
Fixpoint setup (o : opts) (skel : ptr) (online_mask : list bool) (n cpu : nat)
    (pefds links : array) : prog (Z * array * array) :=
  match n with
  | O => Ret (0, pefds, links)
  | S n' =>
      if offline online_mask cpu then setup o skel online_mask n' (S cpu) pefds links
      else
        let* pefd := perf_event_open (make_attr o) (-1) (Z.of_nat cpu) (-1) PERF_FLAG_FD_CLOEXEC in
        if pefd <? 0 then
          report_failure o ;;;
          Ret (-1, pefds, links)
        else
          store_at pefds cpu pefd (fun pefds =>
            let* link := ask (AttachPerf skel "profile" pefd) in
            store_at links cpu link (fun links =>
              if link =? 0 then Ret (-1, pefds, links)
              else setup o skel online_mask n' (S cpu) pefds links))
  end.

(** [for (i = 0; i < num_cpus; i++) ...] over an array of the cleanup;
    [num_cpus] is [None] while the variable is uninitialised. *)
Definition over_cpus (num_cpus : option Z) (a : array) (f : Z → prog unit) : prog unit :=
  if a.1 =? 0 then Ret tt
  else match num_cpus with
       | None => undefined
       | Some n => for_range (Z.to_nat n) 0 (fun i => at_index a.2 i f) ;;; ask (Free a.1)
       end.

Definition destroy_link (l : Z) : prog unit := ask (LinkDestroy l) ;;; Ret tt.
Definition close_pefd (fd : Z) : prog unit :=
  if 0 <=? fd then ask (Close fd) ;;; Ret tt else Ret tt.

(** What is live when [cleanup] is reached. *)
Record frame := Frame {
  f_num_cpus : option Z; f_links : array; f_pefds : array;
  f_ring_buf : ptr; f_skel : ptr; f_symbolizer : ptr; f_online_mask : ptr }.

Definition cleanup (v : frame) (err : Z) : prog Z :=
  over_cpus (f_num_cpus v) (f_links v) destroy_link ;;;
  over_cpus (f_num_cpus v) (f_pefds v) close_pefd ;;;
  ask (RbFree (f_ring_buf v)) ;;;
  ask (SkelDestroy (f_skel v)) ;;;
  ask (SymbolizerFree (f_symbolizer v)) ;;;
  ask (Free (f_online_mask v)) ;;;
  Ret (- err).

(** [while (ring_buffer__poll (ring_buf, -1) >= 0) { }] *)
Definition poll_body (ring_buf symbolizer : ptr) (_ : unit) : prog (unit + unit) :=
  let* r := ask (RbPoll ring_buf (-1)) in
  each (fun e => event_handler symbolizer e ;;; Ret tt) r.2 ;;;
  if 0 <=? r.1 then Ret (inl tt) else Ret (inr tt).

(** Memory as [malloc] returns it: its contents are arbitrary. *)
Definition NULL : array := (0, []).

(** [main] from the allocation of the arrays on. *)
Definition collect (o : opts) (num_cpus : Z) (online_mask : list bool) (garbage : list Z)
    (ring_buf skel symbolizer mask_ptr : ptr) : prog Z :=
  let n := Z.to_nat num_cpus in
  let* p := ask (Malloc (num_cpus * 4)) in
  let* pefds := init_pefds n 0 (p, take n (garbage ++ replicate n 0)) in
  let* l := ask (Calloc (num_cpus * 8)) in
  let* r := setup o skel online_mask n 0 pefds (l, replicate n 0) in
  let '(err, pefds, links) := r in
  if negb (err =? 0) then
    cleanup (Frame (Some num_cpus) links pefds ring_buf skel symbolizer mask_ptr) err
  else
    ITree.iter (poll_body ring_buf symbolizer) tt ;;;
    cleanup (Frame (Some num_cpus) links pefds ring_buf skel symbolizer mask_ptr) err.

Definition main (progname : string) (args : list (Z * string)) (garbage : list Z) : prog Z :=
  match parse_opts args (Opts 1 false) with
  | None => show_help progname ;;; Ret 1
  | Some o =>
    let* r := ask ParseCpuMask in
    let '(err, mask_ptr, online_mask) := r in
    if negb (err =? 0) then
      ask (Stderr ("Fail to get online CPU numbers: " +:+ dec err +:+ newline)) ;;;
      cleanup (Frame None NULL NULL 0 0 0 mask_ptr) err
    else
    let* num_cpus := ask NumPossibleCpus in
    if num_cpus <=? 0 then
      ask (Stderr ("Fail to get the number of processors" +:+ newline)) ;;;
      cleanup (Frame (Some num_cpus) NULL NULL 0 0 0 mask_ptr) (-1)
    else
    let* skel := ask SkelOpenLoad in
    if skel =? 0 then
      ask (Stderr ("Fail to open and load BPF skeleton" +:+ newline)) ;;;
      cleanup (Frame (Some num_cpus) NULL NULL 0 0 0 mask_ptr) (-1)
    else
    let* symbolizer := ask SymbolizerNew in
    if symbolizer =? 0 then
      ask (Stderr ("Fail to create a symbolizer" +:+ newline)) ;;;
      cleanup (Frame (Some num_cpus) NULL NULL 0 skel 0 mask_ptr) (-1)
    else
    let* fd := ask (MapFd skel "events") in
    let* ring_buf := ask (RbNew fd) in
    if ring_buf =? 0 then
      cleanup (Frame (Some num_cpus) NULL NULL 0 skel symbolizer mask_ptr) (-1)
    else
    collect o num_cpus online_mask garbage ring_buf skel symbolizer mask_ptr
  end.

(** Membership in a list of object names. *)
Ltac key_solver := rewrite ?elem_of_cons in *; (tauto || congruence || intuition congruence).

(** ** Objects held in arrays

    [covers m0 ks m]: besides the objects of [m0], exactly the objects named
    in [ks] are held, each named once. *)
Definition covers (m0 : live) (ks : list (kind * Z)) (m : live) : Prop :=
  NoDup ks ∧ (∀ k, k ∈ ks → m0 !! k = None ∧ is_Some (m !! k)) ∧
  (∀ k, k ∉ ks → m !! k = m0 !! k).

#[export] Instance covers_perm : Proper (eq ==> (≡ₚ) ==> eq ==> iff) covers.
Proof.
  intros m0 ? <- ks ks' E m ? <-. unfold covers. rewrite E.
  assert (∀ k, k ∈ ks ↔ k ∈ ks') as Hk by (intros k; by rewrite E).
  by setoid_rewrite Hk.
Qed.

Lemma covers_start m0 : covers m0 [] m0.
Proof. split; [constructor|]. split; [by intros k ?%not_elem_of_nil|done]. Qed.

Lemma covers_take m0 ks m k st :
  covers m0 ks m → m !! k = None → covers m0 (k :: ks) (<[k := st]> m).
Proof.
  intros (Hd & Hin & Hout) Hk.
  assert (k ∉ ks) as Hn by (intros Hk'; destruct (Hin k Hk') as [_ [? ?]]; congruence).
  split; [by constructor|]. split.
  - intros k' Hk'. destruct (decide (k' = k)) as [->|Hne].
    + rewrite lookup_insert_eq, <-Hout by done. eauto.
    + rewrite lookup_insert_ne by done. apply Hin. key_solver.
  - intros k' Hk'. rewrite lookup_insert_ne by key_solver. apply Hout. key_solver.
Qed.

Lemma covers_stage m0 ks m k h ok :
  covers m0 ks m → at_stage m0 k h ok = true → at_stage m k h ok = true.
Proof.
  intros (_ & Hin & Hout) Ha. unfold at_stage in *. rewrite Hout; [done|].
  intros Hk. destruct (Hin _ Hk) as [E _]. by rewrite E in Ha.
Qed.

(** The descriptors and links the arrays name. *)
Definition fd_key (fd : Z) : option (kind * Z) := if 0 <=? fd then Some (KFd, fd) else None.
Definition link_key (l : Z) : option (kind * Z) := if l =? 0 then None else Some (KLink, l).
Definition keys (links pefds : list Z) : list (kind * Z) :=
  omap link_key links ++ omap fd_key pefds.

Lemma omap_insert_new {A B} (f : A → option B) (l : list A) i old v b :
  l !! i = Some old → f old = None → f v = Some b → omap f (<[i := v]> l) ≡ₚ b :: omap f l.
Proof.
  intros Hl Ho Hv. pose proof (lookup_lt_Some _ _ _ Hl) as Hi.
  rewrite insert_take_drop by done.
  rewrite <-(take_drop_middle l i old Hl) at 3. rewrite !omap_app. cbn. rewrite Ho, Hv.
  by rewrite Permutation_middle.
Qed.

Lemma omap_insert_none {A B} (f : A → option B) (l : list A) i old v :
  l !! i = Some old → f old = None → f v = None → omap f (<[i := v]> l) = omap f l.
Proof.
  intros Hl Ho Hv. pose proof (lookup_lt_Some _ _ _ Hl) as Hi.
  rewrite insert_take_drop by done.
  rewrite <-(take_drop_middle l i old Hl) at 3. rewrite !omap_app. cbn. by rewrite Ho, Hv.
Qed.

Lemma keys_fresh n : keys (replicate n 0) (replicate n (-1)) = [].
Proof. unfold keys. induction n as [|n IH]; [done|]. exact IH. Qed.

Lemma link_key_kind (ll : list Z) k h : (k, h) ∈ omap link_key ll → k = KLink.
Proof. rewrite list_elem_of_omap. intros (l & _ & E). unfold link_key in E. by case_match; simplify_eq. Qed.
Lemma fd_key_kind (pl : list Z) k h : (k, h) ∈ omap fd_key pl → k = KFd.
Proof. rewrite list_elem_of_omap. intros (fd & _ & E). unfold fd_key in E. by case_match; simplify_eq. Qed.

(** Every link named in [ll] is held and was attached to a descriptor named
    in [pl]. *)
Definition links_bound (ll pl : list Z) (m : live) : Prop :=
  ∀ l, (KLink, l) ∈ omap link_key ll →
    ∃ prog fd, m !! (KLink, l) = Some (Bound prog fd) ∧ (KFd, fd) ∈ omap fd_key pl.

Lemma links_bound_fresh n m : links_bound (replicate n 0) (replicate n (-1)) m.
Proof.
  intros l Hl. assert (omap link_key (replicate n 0) = []) as E by (clear; induction n as [|n IH]; [done|exact IH]).
  rewrite E in Hl. by apply not_elem_of_nil in Hl.
Qed.

(** The objects while they are released: the links of [ll] and the
    descriptors of [pl] are what [m] has besides [m0]; a descriptor may have
    been closed together with its link. *)
Record releasing (m0 : live) (ll pl : list Z) (m : live) : Prop := {
  rel_links : NoDup (omap link_key ll);
  rel_fds : NoDup (omap fd_key pl);
  rel_bound : links_bound ll pl m;
  rel_link l : (KLink, l) ∈ omap link_key ll → m0 !! (KLink, l) = None;
  rel_fd fd : (KFd, fd) ∈ omap fd_key pl →
    m0 !! (KFd, fd) = None ∧ m0 !! (KStale, fd) = None ∧
    (is_Some (m !! (KFd, fd)) ∨ is_Some (m !! (KStale, fd)));
  rel_rest k : k ∉ omap link_key ll → k ∉ omap fd_key pl →
    (k.1 = KStale → (KFd, k.2) ∉ omap fd_key pl) → m !! k = m0 !! k;
}.

Lemma covers_releasing m0 ll pl m :
  covers m0 (keys ll pl) m → links_bound ll pl m → (∀ fd, m0 !! (KStale, fd) = None) →
  releasing m0 ll pl m.
Proof.
  intros (Hd & Hin & Hout) Hb Hst. unfold keys in *. apply NoDup_app in Hd as (Hl & _ & Hf).
  setoid_rewrite elem_of_app in Hin. setoid_rewrite elem_of_app in Hout.
  split; try done.
  - intros l Hl'. by apply Hin; left.
  - intros fd Hfd. destruct (Hin (KFd, fd) (or_intror Hfd)). auto.
  - intros k H1 H2 _. apply Hout. tauto.
Qed.

Lemma releasing_nil m0 m : releasing m0 [] [] m → m = m0.
Proof.
  intros Hr. apply map_eq. intros k. apply (rel_rest _ _ _ _ Hr); [apply not_elem_of_nil..|].
  intros _. apply not_elem_of_nil.
Qed.

Lemma releasing_mem m0 ll pl m p ok :
  releasing m0 ll pl m → at_stage m0 KMem p ok = true → at_stage m KMem p ok = true.
Proof.
  intros Hr. unfold at_stage. rewrite (rel_rest _ _ _ _ Hr); [done|..|done].
  - by intros ?%link_key_kind.
  - by intros ?%fd_key_kind.
Qed.

(** A block of memory is freed meanwhile. *)
Lemma releasing_free m0 ll pl m p :
  releasing m0 ll pl m → releasing (gone KMem p m0) ll pl (gone KMem p m).
Proof.
  intros [Hl Hf Hb Hlk Hfd Hr]. unfold gone. split; try done.
  - intros l Hl'. rewrite lookup_delete_ne by congruence. by apply Hb.
  - intros l Hl'. rewrite lookup_delete_ne by congruence. by apply Hlk.
  - intros fd Hfd'. rewrite !lookup_delete_ne by congruence. by apply Hfd.
  - intros k H1 H2 H3. destruct (decide (k = (KMem, p))) as [->|]; [by rewrite !lookup_delete_eq|].
    rewrite !lookup_delete_ne by done. by apply Hr.
Qed.

(** A link is destroyed, with or without its descriptor. *)
Lemma releasing_link m0 l ll pl m closed :
  releasing m0 (l :: ll) pl m →
  releasing m0 ll pl (sys_post (T := stacktrace_event) (LinkDestroy l) closed m).
Proof.
  intros [Hl Hf Hb Hlk Hfd Hr]. cbn [sys_post]. cbn in Hl. unfold links_bound in Hb. cbn in Hb, Hlk, Hr.
  unfold link_key in Hl, Hb, Hlk, Hr. destruct (Z.eqb_spec l 0) as [->|Hl0]; [done|].
  fold link_key in *. apply NoDup_cons in Hl as [Hnl Hl].
  destruct (Hb l) as (prog & fd & E & Hin); [left|]. rewrite E.
  assert (releasing m0 ll pl (gone KLink l m)) as Hgone.
  { unfold gone. split; try done.
    - intros l' Hl'. assert (l' ≠ l) by congruence. rewrite lookup_delete_ne by congruence.
      apply Hb. by right.
    - intros l' Hl'. apply Hlk. by right.
    - intros fd' Hfd'. rewrite !lookup_delete_ne by congruence. by apply Hfd.
    - intros k H1 H2 H3. destruct (decide (k = (KLink, l))) as [->|Hne].
      + rewrite lookup_delete_eq. symmetry. apply Hlk. left.
      + rewrite lookup_delete_ne by done. apply Hr; [key_solver|done..]. }
  destruct closed; [|done]. clear Hb Hlk Hfd Hr E. destruct Hgone as [_ _ Hb Hlk Hfd Hr]. unfold closed_behind.
  destruct (gone KLink l m !! (KFd, fd)) eqn:E; [|done]. set (m' := gone KLink l m) in *.
  unfold gone. split; try done.
  - intros l' Hl'. rewrite lookup_insert_ne, lookup_delete_ne by congruence. by apply Hb.
  - intros fd' Hfd'. destruct (Hfd fd' Hfd') as (? & ? & Hor). split_and!; try done.
    destruct (decide (fd' = fd)) as [->|Hne].
    + right. rewrite lookup_insert_eq. eauto.
    + rewrite lookup_insert_ne, lookup_delete_ne, lookup_insert_ne, lookup_delete_ne by congruence. done.
  - intros k H1 H2 H3. rewrite lookup_insert_ne, lookup_delete_ne; [by apply Hr|congruence|].
    intros <-. by apply H3.
Qed.

(** A descriptor is closed, if it still is open. *)
Lemma releasing_close m0 fd pl m :
  0 ≤ fd → releasing m0 [] (fd :: pl) m →
  releasing m0 [] pl (sys_post (T := stacktrace_event) (Close fd) 0 m).
Proof.
  intros H0 [_ Hf Hb _ Hfd Hr]. cbn [sys_post]. cbn in Hf, Hfd, Hr. unfold fd_key in Hf, Hfd, Hr.
  rewrite (proj2 (Z.leb_le 0 fd) H0) in Hf, Hfd, Hr. fold fd_key in *.
  apply NoDup_cons in Hf as [Hn Hf]. unfold gone. split; try done; [constructor|..].
  - by intros l ?%not_elem_of_nil.
  - by intros l ?%not_elem_of_nil.
  - intros fd' Hfd'. assert (fd' ≠ fd) by congruence.
    rewrite !lookup_delete_ne by congruence. apply Hfd. by right.
  - intros [k h] _ H2 H3. destruct (Hfd fd) as (E1 & E2 & _); [left|].
    destruct (decide ((k, h) = (KStale, fd))) as [[= -> ->]|Hs]; [by rewrite lookup_delete_eq|].
    rewrite lookup_delete_ne by done.
    destruct (decide ((k, h) = (KFd, fd))) as [[= -> ->]|Hne]; [by rewrite lookup_delete_eq|].
    rewrite lookup_delete_ne by done. apply Hr; [apply not_elem_of_nil|key_solver|].
    cbn in *. intros -> [?|?]%elem_of_cons; [congruence|by apply H3].
Qed.

(** ** Setting up and releasing *)

Section Proofs.
Context (good : ∀ X, sysE stacktrace_event X → X → Prop).
Implicit Types (n : option nat) (m : live).
Abbreviation sysp := (sys_with readable good).

Lemma init_pefds_ends k i (a : array) n m :
  a.1 ≠ 0 → length a.2 = (i + k)%nat → (∀ j, (j < i)%nat → a.2 !! j = Some (-1)) →
  ends sysp (fun b s => s = (m, n) ∧ b = (a.1, replicate (i + k) (-1))) (init_pefds k i a) (m, n).
Proof.
  revert i a. induction k as [|k IH]; intros i [p l] Hp Hl Hpre; cbn in *.
  - apply ends_Ret. split; [done|]. f_equal. apply list_eq. intros j.
    destruct (decide (j < i)%nat).
    + rewrite Hpre by done. symmetry. apply lookup_replicate_2. lia.
    + rewrite lookup_ge_None_2 by lia. symmetry. apply lookup_ge_None_2.
      rewrite length_replicate. lia.
  - unfold store_at. cbn [fst snd].
    rewrite (proj2 (Z.eqb_neq _ _)), (proj2 (Nat.ltb_lt _ _)) by (done || lia). cbn [orb negb].
    replace (i + S k)%nat with (S i + k)%nat by lia.
    apply (IH (S i) (p, <[i := -1]> l)); cbn; [done| |].
    + rewrite length_insert. lia.
    + intros j Hj. destruct (decide (j = i)) as [->|].
      * apply list_lookup_insert_eq. lia.
      * rewrite list_lookup_insert_ne by done. apply Hpre. lia.
Qed.

Lemma report_failure_ends o m n :
  ends sysp (fun _ s => s = (m, n)) (report_failure o) (m, n).
Proof.
  unfold report_failure. eapply (ends_bind _ (fun _ s => s = (m, n))).
  - destruct (sw_event o); [by apply ends_Ret|]. sys_call e He. by apply ends_Ret.
  - intros [] s ->; by apply ends_trigger.
Qed.

(** One CPU after the loop.  An online one has an open perf event that counts
    on that CPU, for all processes, the processor cycles or the software clock
    at the requested frequency, and a link of the program [profile] to that
    event; an offline one has neither. *)
Definition cpu_ready (o : opts) (mask : list bool) (pefds links : list Z) (m : live) (i : nat) : Prop :=
  if decide (mask !! i ≠ Some true) then pefds !! i = Some (-1) ∧ links !! i = Some 0
  else ∃ fd l,
    pefds !! i = Some fd ∧ 0 ≤ fd ∧ links !! i = Some l ∧ l ≠ 0 ∧
    m !! (KFd, fd) =
      Some (PerfEvent (PerfAttr (if sw_event o then 1 else 0) 0 (freq o) 1) (-1) (Z.of_nat i) (-1) 8) ∧
    m !! (KLink, l) = Some (Bound "profile" fd).

(** The test of the code, as a question about the mask. *)
Lemma offline_mask mask i : offline mask i = true ↔ mask !! i ≠ Some true.
Proof. unfold offline. destruct (mask !! i) as [[]|]; naive_solver. Qed.

Lemma cpu_ready_later o mask pefds links m m' i j fd l :
  (i < j)%nat → m ⊆ m' → cpu_ready o mask pefds links m i →
  cpu_ready o mask (<[j := fd]> pefds) (<[j := l]> links) m' i.
Proof.
  intros Hij Hm. unfold cpu_ready. rewrite !list_lookup_insert_ne by lia. case_decide; [done|].
  intros (fd' & l' & ? & ? & ? & ? & E1 & E2). exists fd', l'.
  split_and!; try done; by eapply lookup_weaken.
Qed.

(** A descriptor, then a link to it, is stored in the arrays. *)
Lemma links_bound_fd ll pl m cpu fd st :
  pl !! cpu = Some (-1) → 0 ≤ fd → links_bound ll pl m →
  links_bound ll (<[cpu := fd]> pl) (<[(KFd, fd) := st]> m).
Proof.
  intros Hp Hfd Hb l' Hin. destruct (Hb l' Hin) as (prog' & fd' & E & Hin'). exists prog', fd'.
  split; [by rewrite lookup_insert_ne|].
  rewrite (omap_insert_new fd_key pl cpu (-1) fd (KFd, fd)); [by right|done|done|].
  unfold fd_key. by rewrite (proj2 (Z.leb_le _ _)).
Qed.

Lemma links_bound_new ll pl m cpu fd l prog :
  ll !! cpu = Some 0 → l ≠ 0 → (KFd, fd) ∈ omap fd_key pl →
  links_bound ll pl m → m !! (KLink, l) = None →
  links_bound (<[cpu := l]> ll) pl (<[(KLink, l) := Bound prog fd]> m).
Proof.
  intros Hl Hl0 Hfd Hb Hk l' Hin.
  rewrite (omap_insert_new link_key ll cpu 0 l (KLink, l)) in Hin;
    [|done|done|unfold link_key; by rewrite (proj2 (Z.eqb_neq _ _))].
  apply elem_of_cons in Hin as [[= ->]|Hin].
  - exists prog, fd. by rewrite lookup_insert_eq.
  - destruct (Hb l' Hin) as (prog' & fd' & E & Hin'). exists prog', fd'.
    split; [|done]. rewrite lookup_insert_ne by congruence. done.
Qed.

(** What the loop leaves: all that is held is named in the arrays. *)
Definition setup_post (o : opts) (m0 : live) (n : option nat) (mask : list bool) (total : nat) (pp lp : ptr)
    (r : Z * array * array) (s : ustate) : Prop :=
  let '(err, pefds, links) := r in
  s.2 = n ∧ covers m0 (keys links.2 pefds.2) s.1 ∧ links_bound links.2 pefds.2 s.1 ∧
  pefds.1 = pp ∧ links.1 = lp ∧ length pefds.2 = total ∧ length links.2 = total ∧
  (err = -1 ∨ err = 0) ∧
  (err = 0 → ∀ i, (i < total)%nat → cpu_ready o mask pefds.2 links.2 s.1 i) ∧
  (err = -1 → ∃ X (e : sysE stacktrace_event X) x, good X e x ∧ ¬ happy X e x).

(** A descriptor comes through the wrapper unchanged. *)
Lemma perf_event_open_ends attr pid cpu group flags m n :
  ends sysp (fun fd s => s = (got KFd (0 <=? fd) fd (PerfEvent attr pid cpu group flags) m, n) ∧ (fd < 0 ∨ m !! (KFd, fd) = None) ∧
               good _ (PerfEventOpen attr pid cpu group flags) fd)
    (perf_event_open attr pid cpu group flags) (m, n).
Proof.
  unfold perf_event_open. apply ends_call; [done|]. intros fd [Hr Hfd] _ Hg. apply ends_Ret.
  unfold s32. by rewrite swrap_small.
Qed.

Lemma setup_ends o skel mask k cpu pp lp (pl ll : list Z) m0 m n :
  at_stage m0 KSkel skel is_created = true → pp ≠ 0 → lp ≠ 0 →
  length pl = (cpu + k)%nat → length ll = (cpu + k)%nat →
  (∀ i, (cpu ≤ i < cpu + k)%nat → pl !! i = Some (-1) ∧ ll !! i = Some 0) →
  (∀ i, (i < cpu)%nat → cpu_ready o mask pl ll m i) →
  covers m0 (keys ll pl) m → links_bound ll pl m →
  ends sysp (setup_post o m0 n mask (cpu + k) pp lp) (setup o skel mask k cpu (pp, pl) (lp, ll)) (m, n).
Proof.
  intros Hs Hpp Hlp. revert cpu pl ll m. induction k as [|k IH]; intros cpu pl ll m Hpl Hll Hnew Hold Hm Hb; cbn [setup].
  { apply ends_Ret. unfold setup_post; cbn. rewrite Nat.add_0_r in *.
    split_and!; try done. by right. }
  replace (cpu + S k)%nat with (S cpu + k)%nat in * by lia.
  destruct (Hnew cpu ltac:(lia)) as [Hp0 Hl0].
  destruct (offline mask cpu) eqn:Hoff.
  { apply IH; try done; [intros; apply Hnew; lia|]. intros i Hi.
    destruct (decide (i = cpu)) as [->|]; [|apply Hold; lia]. unfold cpu_ready.
    by rewrite decide_True by by apply offline_mask. }
  eapply ends_bind; [apply perf_event_open_ends|]. intros fd s (-> & Hfd & Hg).
  destruct (Z.ltb_spec fd 0) as [Hneg|Hfd0].
  { rewrite (proj2 (Z.leb_gt _ _)) by done. cbn [got].
    eapply ends_bind; [apply report_failure_ends|].
    intros _ s ->. apply ends_Ret. unfold setup_post; cbn.
    split_and!; try done; [by left|]. intros _. eexists _, _, fd. split; [exact Hg|]. cbn. lia. }
  destruct Hfd as [|Hfd]; [lia|].
  rewrite (proj2 (Z.leb_le _ _)) by done. cbn [got].
  unfold store_at. cbn [fst snd].
  rewrite (proj2 (Z.eqb_neq pp _)), (proj2 (Nat.ltb_lt _ _)) by (done || lia). cbn [orb negb].
  set (ev := PerfEvent _ _ _ _ _). set (m1 := <[(KFd, fd) := ev]> m).
  assert (covers m0 (keys ll (<[cpu := fd]> pl)) m1) as Hm1.
  { unfold keys. rewrite (omap_insert_new fd_key pl cpu (-1) fd (KFd, fd)); [|done..|].
    - rewrite <-Permutation_middle. by apply covers_take.
    - unfold fd_key. by rewrite (proj2 (Z.leb_le _ _)). }
  apply ends_call.
  { cbn [sys_pre]. rewrite (covers_stage _ _ _ _ _ _ Hm1 Hs). by apply at_stage_insert. }
  intros l Hl _ Hgl. cbn [sys_post tick].
  rewrite (proj2 (Z.eqb_neq lp _)), (proj2 (Nat.ltb_lt _ _)) by (done || lia). cbn [orb negb].
  destruct (Z.eqb_spec l 0) as [->|Hl'].
  { cbn [negb got]. apply ends_Ret. unfold setup_post; cbn [fst snd].
    split; [done|]. split.
    { unfold keys. by rewrite (omap_insert_none link_key ll cpu 0 0). }
    rewrite !length_insert. split_and!; try done; [|by left|].
    { unfold links_bound. rewrite (omap_insert_none link_key ll cpu 0 0) by done. by apply links_bound_fd. }
    intros _. eexists _, _, 0. split; [exact Hgl|]. cbn. lia. }
  destruct Hl as [|[_ Hl]]; [done|]. cbn [negb got].
  apply IH; rewrite ?length_insert; try done.
  - intros i Hi. rewrite !list_lookup_insert_ne by lia. apply Hnew. lia.
  - intros i Hi. destruct (decide (i = cpu)) as [->|]; [|eapply cpu_ready_later; [lia| |apply Hold; lia]].
    + unfold cpu_ready. rewrite decide_False by (rewrite <-offline_mask; congruence). exists fd, l.
      rewrite !list_lookup_insert_eq by lia. rewrite lookup_insert_ne by done. subst m1.
      rewrite !lookup_insert_eq. split_and!; try done. subst ev. unfold make_attr. by destruct (sw_event o).
    + transitivity m1; by apply insert_subseteq.
  - unfold keys. rewrite (omap_insert_new link_key ll cpu 0 l (KLink, l)); [|done..|].
    + cbn [app]. by apply covers_take.
    + unfold link_key. by rewrite (proj2 (Z.eqb_neq _ _)).
  - apply links_bound_new; [done|done| |by apply links_bound_fd|done].
    rewrite (omap_insert_new fd_key pl cpu (-1) fd (KFd, fd)); [left|done|done|].
    unfold fd_key. by rewrite (proj2 (Z.leb_le _ _)).
Qed.

Lemma destroy_links_ends (ll pl : list Z) m0 m n :
  releasing m0 ll pl m →
  ends sysp (fun _ s => s.2 = n ∧ releasing m0 [] pl s.1) (each destroy_link ll) (m, n).
Proof.
  revert m. induction ll as [|l ll IH]; intros m Hm; cbn [each]; [by apply ends_Ret|].
  eapply (ends_bind _ (fun _ s => s.2 = n ∧ releasing m0 ll pl s.1));
    [|intros _ [m' n'] [E Hm']; cbn in E; subst n'; by apply IH].
  unfold destroy_link. apply ends_call.
  - cbn [sys_pre]. destruct (Z.eqb_spec l 0) as [->|Hl]; [done|].
    destruct (rel_bound _ _ _ _ Hm l) as (prog & fd & E & _).
    { cbn. unfold link_key at 1. rewrite (proj2 (Z.eqb_neq l 0)) by done. left. }
    unfold at_stage. by rewrite E.
  - intros x _ _ _. apply ends_Ret. split; [done|]. by apply releasing_link.
Qed.

Lemma close_pefds_ends (pl : list Z) m0 m n :
  releasing m0 [] pl m →
  ends sysp (fun _ s => s = (m0, n)) (each close_pefd pl) (m, n).
Proof.
  revert m. induction pl as [|fd pl IH]; intros m Hm; cbn [each].
  { apply ends_Ret. f_equal. by apply releasing_nil. }
  eapply (ends_bind _ (fun _ s => s.2 = n ∧ releasing m0 [] pl s.1));
    [|intros _ [m' n'] [E Hm']; cbn in E; subst n'; by apply IH].
  unfold close_pefd. destruct (Z.leb_spec 0 fd) as [Hfd|Hfd].
  - apply ends_call.
    + destruct (rel_fd _ _ _ _ Hm fd) as (_ & _ & Hor).
      { cbn. unfold fd_key at 1. rewrite (proj2 (Z.leb_le 0 fd)) by done. left. }
      cbn [sys_pre]. unfold at_stage. destruct Hor as [[? ->]|[? ->]]; by rewrite ?orb_true_r.
    + intros x _ _ _. apply ends_Ret. split; [done|]. by apply releasing_close.
  - apply ends_Ret. split; [done|]. destruct Hm as [? Hf Hb ? Hd Hr]. cbn in Hf, Hd, Hr.
    unfold links_bound in *. cbn in *. unfold fd_key in *.
    by rewrite (proj2 (Z.leb_gt 0 fd)) in * by done.
Qed.

(** The cleanup of the array of links: every link is destroyed once and the
    block is freed. *)
Lemma links_released (links : array) pl num_cpus m0 m n :
  releasing m0 links.2 pl m → links.1 ≠ 0 →
  length links.2 = Z.to_nat num_cpus → at_stage m0 KMem links.1 any_stage = true →
  ends sysp (fun _ s => s.2 = n ∧ releasing (gone KMem links.1 m0) [] pl s.1)
    (over_cpus (Some num_cpus) links destroy_link) (m, n).
Proof.
  intros Hm Hl0 Hll Hls. unfold over_cpus. rewrite (proj2 (Z.eqb_neq _ _)) by done.
  rewrite for_range_each by done.
  eapply ends_bind; [by apply destroy_links_ends|].
  intros _ [m1 n1] [E Hm1]. cbn in E, Hm1. subst n1.
  apply ends_trigger; [cbn [pre sys_with sys_pre fst]|].
  - by rewrite (releasing_mem _ _ _ _ _ _ Hm1 Hls), orb_true_r.
  - intros x _. split; [done|]. by apply releasing_free.
Qed.

(** The cleanup of the array of descriptors: every one is closed and the
    block is freed. *)
Lemma pefds_released (pefds : array) num_cpus m0 m n :
  releasing m0 [] pefds.2 m → pefds.1 ≠ 0 →
  length pefds.2 = Z.to_nat num_cpus → at_stage m0 KMem pefds.1 any_stage = true →
  ends sysp (fun _ s => s = (gone KMem pefds.1 m0, n))
    (over_cpus (Some num_cpus) pefds close_pefd) (m, n).
Proof.
  intros Hm Hp0 Hpl Hps. unfold over_cpus. rewrite (proj2 (Z.eqb_neq _ _)) by done.
  rewrite for_range_each by done.
  eapply ends_bind; [by eapply close_pefds_ends|]. intros _ s ->.
  apply ends_trigger; [|done]. cbn [pre sys_with sys_pre fst]. by rewrite Hps, orb_true_r.
Qed.

(** The objects that are not in arrays. *)
Definition release_rest (v : frame) (m : live) : live :=
  gone KMem (f_online_mask v)
    (gone KSym (f_symbolizer v) (gone KSkel (f_skel v) (gone KRing (f_ring_buf v) m))).

Definition rest_held (v : frame) (m : live) : bool :=
  ((f_ring_buf v =? 0) || at_stage m KRing (f_ring_buf v) any_stage) &&
  ((f_skel v =? 0) || at_stage m KSkel (f_skel v) any_stage) &&
  ((f_symbolizer v =? 0) || at_stage m KSym (f_symbolizer v) any_stage) &&
  ((f_online_mask v =? 0) || at_stage m KMem (f_online_mask v) any_stage).

(** [cleanup] once both arrays are dealt with. *)
Lemma profile_cleanup_ends (v : frame) err m1 m n :
  ends sysp (fun _ => ends sysp (fun _ s => s = (m1, n))
                        (over_cpus (f_num_cpus v) (f_pefds v) close_pefd))
    (over_cpus (f_num_cpus v) (f_links v) destroy_link) (m, n) →
  rest_held v m1 = true →
  ends sysp (fun code s => code = - err ∧ s.1 = release_rest v m1) (cleanup v err) (m, n).
Proof.
  intros Ha Hr. unfold rest_held in Hr. rewrite !andb_true_iff in Hr.
  destruct Hr as [[[Hr Hs] Hy] Hm]. unfold cleanup.
  eapply ends_bind; [exact Ha|]. intros u s1 Hs1. cbn in Hs1.
  eapply ends_bind; [exact Hs1|]. intros _ s ->.
  apply ends_call; [done|]. intros ? _ _ _. cbn [sys_post tick].
  apply ends_call; [cbn [sys_pre]; unfold gone; by rewrite at_stage_delete_ne|].
  intros ? _ _ _. cbn [sys_post tick].
  apply ends_call; [cbn [sys_pre]; unfold gone; by rewrite !at_stage_delete_ne|].
  intros ? _ _ _. cbn [sys_post tick].
  apply ends_call; [cbn [sys_pre]; unfold gone; by rewrite !at_stage_delete_ne|].
  intros ? _ _ _. by apply ends_Ret.
Qed.
Lemma cleanup_early num_cpus rb skel y mask err n m :
  rest_held (Frame num_cpus NULL NULL rb skel y mask) m = true →
  ends sysp (fun code s => code = - err ∧ s.1 = release_rest (Frame num_cpus NULL NULL rb skel y mask) m)
    (cleanup (Frame num_cpus NULL NULL rb skel y mask) err) (m, n).
Proof. intros. apply profile_cleanup_ends; [|done]. by do 2 apply ends_Ret. Qed.

Lemma cleanup_late (links pefds : array) num_cpus rb skel y mask err m0 m n :
  covers m0 (keys links.2 pefds.2) m → links_bound links.2 pefds.2 m →
  (∀ fd, m0 !! (KStale, fd) = None) → links.1 ≠ 0 → pefds.1 ≠ 0 → links.1 ≠ pefds.1 →
  length links.2 = Z.to_nat num_cpus → length pefds.2 = Z.to_nat num_cpus →
  at_stage m0 KMem links.1 any_stage = true → at_stage m0 KMem pefds.1 any_stage = true →
  let v := Frame (Some num_cpus) links pefds rb skel y mask in
  let m1 := gone KMem pefds.1 (gone KMem links.1 m0) in
  rest_held v m1 = true →
  ends sysp (fun code s => code = - err ∧ s.1 = release_rest v m1) (cleanup v err) (m, n).
Proof.
  intros Hm Hb Hst Hl0 Hp0 Hlp Hll Hpl Hls Hps v m1 Hr. apply profile_cleanup_ends; [|done].
  subst v m1; cbn [f_links f_pefds f_num_cpus].
  eapply ends_conseq; [apply links_released; [by apply covers_releasing|done..]|].
  intros _ [m2 n2] [E Hm2]. cbn in E. subst n2. apply pefds_released; try done.
  unfold gone. unfold at_stage in *. by rewrite lookup_delete_ne by congruence.
Qed.
End Proofs.

(** ** The whole program *)

(** Environments in which memory does not run out. *)
Definition ample X (e : sysE stacktrace_event X) : X → Prop :=
  match e in sysE _ X return X → Prop with
  | Malloc _ | Calloc _ => fun x => x ≠ 0
  | _ => fun _ => True
  end.

Lemma poll_loop_safe good rb y m n :
  at_stage m KRing rb any_stage = true → at_stage m KSym y any_stage = true →
  safe (sys_with readable good) (fun _ s => s.1 = m) (ITree.iter (poll_body rb y) tt) (m, n).
Proof.
  intros Hr Hy. apply (safe_iter _ (fun _ s => s.1 = m)); [|done].
  intros [] [m' n'] E. cbn in E. subst m'. unfold poll_body.
  apply safe_call; [done|]. intros [r l] (_ & _ & Hl) _ _. cbn [sys_post tick fst snd].
  eapply safe_bind.
  - apply ends_safe. eapply (ends_each _ _ readable); [|done]. intros e He.
    eapply ends_bind; [by apply event_handler_ends|]. intros v s [-> _]. by apply ends_Ret.
  - intros _ s ->. destruct (_ <=? _); by apply safe_ret.
Qed.

Definition all_released (code : Z) (s : ustate) : Prop := s.1 = ∅ ∧ 0 ≤ code.

(** Leave through [cleanup]. *)
Ltac early :=
  apply ends_safe; eapply ends_conseq;
  [eapply cleanup_early; unfold rest_held; cbn [f_ring_buf f_skel f_symbolizer f_online_mask]; live_pre
  |cbn; intros code [m' n'] [-> Hm']; unfold release_rest in Hm'; cbn in Hm'; split; cbn;
   [subst m'; live_eq|lia]].

Lemma collect_safe o num mask garbage rb skel y mp m n :
  at_stage m KSkel skel is_created = true → at_stage m KSym y any_stage = true →
  at_stage m KRing rb any_stage = true → (∀ fd, m !! (KStale, fd) = None) →
  let v := Frame (Some num) NULL NULL rb skel y mp in
  rest_held v m = true →
  safe (sys_with readable ample) (fun code s => 0 ≤ code ∧ s.1 = release_rest v m)
    (collect o num mask garbage rb skel y mp) (m, n).
Proof.
  intros Hsk Hy Hrb Hst v Hv. unfold collect.
  sys_call p Hp. rewrite (proj2 (Z.eqb_neq p 0)) by done. live_norm.
  eapply safe_bind.
  { apply ends_safe, (init_pefds_ends _ _ 0); [done| |intros j Hj; lia].
    cbn [snd]. rewrite length_take, length_app, length_replicate. lia. }
  intros pefds s [-> ->]. cbn [fst Nat.add].
  sys_call l Hl. rewrite (proj2 (Z.eqb_neq l 0)) by done. live_norm.
  destruct Hl as [|[_ Hl]]; [done|]. destruct Hp as [|[_ Hp]]; [done|].
  assert (l ≠ p) as Hlp by (eapply at_stage_fresh; [exact Hl|live_pre]).
  set (m0 := <[(KMem, l) := Live]> (<[(KMem, p) := Live]> m)).
  assert (gone KMem p (gone KMem l m0) = m) as Hback.
  { rewrite lookup_insert_ne in Hl by congruence. subst m0. unfold gone.
    rewrite delete_insert_id; [by apply delete_insert_id|].
    rewrite lookup_insert_ne by congruence. done. }
  eapply safe_bind.
  { apply ends_safe, (setup_ends _ o skel mask (Z.to_nat num) 0 p l _ _ m0);
      rewrite ?length_replicate; try done; [subst m0; by live_pre| |lia| |].
    - intros i Hi. split; apply lookup_replicate_2; lia.
    - rewrite keys_fresh. apply covers_start.
    - apply links_bound_fresh. }
  intros [[err pefds] links] [m' n'] (E & Hc & Hb & Hpp & Hll & Hpl & Hlll & Herr' & _). cbn in E. subst n'.
  assert (∀ m1 n1 e, m1 = m' → e ≤ 0 → safe (sys_with readable ample)
    (fun code s => 0 ≤ code ∧ s.1 = release_rest v m)
    (cleanup (Frame (Some num) links pefds rb skel y mp) e) (m1, n1)) as Hleave.
  { intros m1 n1 e -> He. apply ends_safe. eapply ends_conseq.
    - apply (cleanup_late _ links pefds num rb skel y mp e m0); rewrite ?Hpp, ?Hll, ?Hback; try done.
      + intros fd. subst m0. by rewrite !lookup_insert_ne by congruence.
      + subst m0. live_pre.
      + subst m0. live_pre.
    - intros code s2 [-> Hm2]. rewrite Hpp, Hll, Hback in Hm2. split; [lia|done]. }
  destruct (Z.eqb_spec err 0) as [->|He]; cbn [negb]; [|apply Hleave; [done|lia]].
  eapply safe_bind.
  - apply poll_loop_safe; eapply covers_stage; try done; subst m0; by live_pre.
  - intros _ [m2 n2] E. by apply Hleave.
Qed.

(** Resource safety of [main], for every command line and every
    environment in which memory does not run out, also on runs that never
    end: no array is accessed outside its bounds, no uninitialised variable is
    used, and on every path that returns each link has been destroyed, each
    perf event closed (by the program, or by the library with its link), each
    block freed and every other object released exactly once, and the exit
    code is not negative. *)
Theorem profile_main_safe progname args garbage n :
  safe (sys_with readable ample) all_released (main progname args garbage) (∅, n).
Proof.
  unfold main. destruct (parse_opts args (Opts 1 false)) as [o|].
  2: { unfold show_help. eapply (safe_bind _ (fun _ s => s.1 = ∅)).
       - sys_run. by apply safe_trigger.
       - intros _ s Hs. by apply safe_ret. }
  apply safe_call; [done|]. intros [[err mp] mask] (Herr & Hmp & Hmp0) _ _.
  cbn [sys_post tick fst snd] in *. unfold status in Herr.
  destruct (Z.eqb_spec err 0) as [->|He]; cbn [negb].
  2: { sys_call u Hu. destruct (Z.eqb_spec mp 0) as [->|Hz]; cbn [negb got]; early. }
  specialize (Hmp0 eq_refl). rewrite (proj2 (Z.eqb_neq mp 0)) by done. cbn [negb got].
  sys_call num Hnum. case_cond; [sys_call u Hu; early|].
  sys_call skel Hskel. destruct (Z.eqb_spec skel 0) as [->|Hs0]; live_norm; [sys_call u Hu; early|].
  sys_call y Hy. destruct (Z.eqb_spec y 0) as [->|Hy0]; live_norm; [sys_call u Hu; early|].
  sys_call fd Hfd.
  sys_call rb Hrb. destruct (Z.eqb_spec rb 0) as [->|Hrb0]; live_norm; [early|].
  eapply safe_conseq; [apply collect_safe; [live_pre..| |]|].
  - intros fd'. by rewrite !lookup_insert_ne by congruence.
  - unfold rest_held; cbn [f_ring_buf f_skel f_symbolizer f_online_mask]. live_pre.
  - intros code [m' n'] [Hcode Hm']. unfold release_rest in Hm'. cbn in Hm'. split; [|done].
    subst m'. live_eq.
Qed.

(** C20. When nothing fails, the set-up loop leaves, for exactly the online
    CPUs (those set in the mask), an open perf event on that CPU for all
    processes with the requested kind and frequency, and a link of the program
    to it; the other entries of the arrays stay empty, and nothing is held
    that the arrays do not name. *)
Theorem profile_setup_online o skel mask k p l m n :
  at_stage m KSkel skel is_created = true → p ≠ 0 → l ≠ 0 →
  ends (sys_with readable happy)
    (fun r s => let '(err, pefds, links) := r in
       err = 0 ∧ (∀ i, (i < k)%nat → cpu_ready o mask pefds.2 links.2 s.1 i) ∧
       covers m (keys links.2 pefds.2) s.1)
    (setup o skel mask k 0 (p, replicate k (-1)) (l, replicate k 0)) (m, n).
Proof.
  intros Hs Hp Hl. eapply ends_conseq.
  - apply (setup_ends happy o skel mask k 0 p l _ _ m m); rewrite ?length_replicate; try done; [|lia| |].
    + intros i Hi. split; apply lookup_replicate_2; lia.
    + rewrite keys_fresh. apply covers_start.
    + apply links_bound_fresh.
  - intros [[err pefds] links] [m' n'] (_ & Hc & _ & _ & _ & _ & _ & He & Hok & Hbad).
    destruct He as [->| ->]; [|by auto]. destruct (Hbad eq_refl) as (X & e & x & ? & ?). done.
Qed.

Definition demo_skel : live := <[(KSkel, 5) := Loaded]> ∅.

(** CPUs 0 and 2 of four are online. *)
Lemma profile_setup_online_witness :
  exec (sys readable) answer 20
    (setup (Opts 1 false) 5 [true; false; true] 4 0 (7, replicate 4 (-1)) (8, replicate 4 0))
    (World 10 0 [] [] []) (demo_skel, None)
  = Done (0, (7, [10; -1; 12; -1]), (8, [11; 0; 13; 0])) (World 14 0 [] [] [])
      (<[(KLink, 13) := Bound "profile" 12]>
         (<[(KFd, 12) := PerfEvent (PerfAttr 0 0 1 1) (-1) 2 (-1) 8]>
         (<[(KLink, 11) := Bound "profile" 10]>
         (<[(KFd, 10) := PerfEvent (PerfAttr 0 0 1 1) (-1) 0 (-1) 8]> demo_skel))), None) ∧
  ends (sys_with readable happy)
    (fun r s => let '(err, pefds, links) := r in
       err = 0 ∧
       (∀ i, (i < 4)%nat → cpu_ready (Opts 1 false) [true; false; true] pefds.2 links.2 s.1 i) ∧
       covers demo_skel (keys links.2 pefds.2) s.1)
    (setup (Opts 1 false) 5 [true; false; true] 4 0 (7, replicate 4 (-1)) (8, replicate 4 0))
    (demo_skel, None).
Proof.
  split; [vm_compute; reflexivity|].
  apply (profile_setup_online (Opts 1 false) 5 [true; false; true] 4 7 8 demo_skel None);
    [vm_compute; reflexivity|lia|lia].
Defined.

(** ** Particular environments *)

(** [answer] with some calls answered differently. *)
Definition out_of_memory X (e : sysE stacktrace_event X) (w : world stacktrace_event)
    : X * world stacktrace_event :=
  match e in sysE _ X return X * world stacktrace_event → X * world stacktrace_event with
  | Malloc _ => fun r => (0, r.2)
  | _ => fun r => r
  end (answer X e w).

Definition keeping_links X (e : sysE stacktrace_event X) (w : world stacktrace_event)
    : X * world stacktrace_event :=
  match e in sysE _ X return X * world stacktrace_event → X * world stacktrace_event with
  | LinkDestroy _ => fun r => (false, r.2)
  | _ => fun r => r
  end (answer X e w).

Definition one_failed_poll : world stacktrace_event := World 10 0 [(-5, [])] [] [].

(** The result of [malloc] is not checked: when it is NULL the program
    stores through it. *)
Example profile_malloc_unchecked :
  ∃ w s, exec (sys readable) out_of_memory 100 (main "profile" [] []) one_failed_poll (∅, None)
         = Broken w s.
Proof. eexists _, _. vm_compute. reflexivity. Qed.

(** Up to its first [close]: the number it names, whether it is an open
    descriptor, whether it is one that was closed with its link. *)
Fixpoint first_close {W R} (h : ∀ X, sysE stacktrace_event X → W → X * W) (fuel : nat)
    (t : itree (sysE stacktrace_event) R) (w : W) (m : live) : option (Z * bool * bool) :=
  match fuel with
  | O => None
  | S f =>
      match observe t with
      | RetF _ => None
      | TauF t' => first_close h f t' w m
      | VisF e k =>
          match e with
          | Close fd => Some (fd, at_stage m KFd fd any_stage, at_stage m KStale fd any_stage)
          | _ => let '(x, w') := h _ e w in first_close h f (k x) w' (sys_post e x m)
          end
      end
  end.

(** If destroying a link closes the descriptor it was attached to, [cleanup]
    calls [close] on a number that is not open any more; if not, on an open
    descriptor.  Either way the program ends with nothing left. *)
Example profile_closes_again :
  first_close answer 100 (main "profile" [] []) one_failed_poll ∅ = Some (16, false, true) ∧
  first_close keeping_links 100 (main "profile" [] []) one_failed_poll ∅ = Some (16, true, false) ∧
  (∃ w, exec (sys readable) answer 100 (main "profile" [] []) one_failed_poll (∅, None)
        = Done 0 w (∅, None)).
Proof.
  split; [vm_compute; reflexivity|]. split; [vm_compute; reflexivity|].
  eexists. vm_compute. reflexivity.
Qed.

(** A failing poll ends the program with status 0. *)
Example profile_poll_error_exits_zero :
  ∃ w, exec (sys readable) answer 100 (main "profile" [] []) one_failed_poll (∅, None)
       = Done 0 w (∅, None).
Proof. eexists. vm_compute. reflexivity. Qed.
