(* ===== verification/ProfileOutput.v ===== *)
(** * profile: the output of the whole system

    The text [profile.c] prints for a record given the answers of the
    symbolizer, that it prints exactly this in every environment, and what it
    says about the samples when the records come from [profile.bpf.c]. *)
From S2P Require Import Prelude Interaction CInt CFormat BpfKernel ProfileBpf UserSpace Output ProfileUser ProfileMain.
From ITree Require Import ITree.
Local Open Scope Z_scope.

(** ** The text of a record *)

(** What the symbolizer answered for one stack: symbols, or an error. *)
Abbreviation answer_of_stack := (list blaze_sym + string)%type.

Definition inlined_text (name : string) (info : code_info) : string :=
  pad_left 16 "" +:+ "  " +:+ name +:+
  match location (Some info) with Some l => "@ " +:+ l +:+ " [inlined]" | None => "[inlined]" end +:+ newline.

(** A frame without an address is shown like an inlined one. *)
Definition frame_text (a : Z) (name : string) (addr offset : Z) (info : code_info) : string :=
  if a =? 0 then inlined_text name info
  else pad_zero 16 (hex a) +:+ ": " +:+ name +:+ " @ 0x" +:+ hex addr +:+ "+0x" +:+ hex offset +:+
       match location (Some info) with Some l => " " +:+ l | None => "" end +:+ newline.

Definition symbol_text (a : Z) (sym : option blaze_sym) : string :=
  match sym with
  | Some (BlazeSym (Some name) addr offset info inlined) =>
      frame_text a name addr offset info +:+
      text (map (fun i => inlined_text (default EmptyString (in_name i)) (in_info i)) inlined)
  | _ => pad_zero 16 (hex a) +:+ ": <no-symbol>" +:+ newline
  end.

Definition stack_text (stack : list Z) (r : answer_of_stack) : string :=
  match r with
  | inl syms => text (imap (fun i a => symbol_text a (syms !! i)) stack)
  | inr msg => "  failed to symbolize addresses: " +:+ msg +:+ newline
  end.

(** A stack, if there is one, with its answer. *)
Definition part_text (title none : string) (stack : list Z) (r : option answer_of_stack) : string :=
  match r with
  | Some r => title +:+ ":" +:+ newline +:+ stack_text stack r
  | None => none +:+ newline
  end.

(** The stacks of a record that are symbolized. *)
Definition symbolized (ksz usz : Z) : nat := Nat.b2n (0 <? ksz) + Nat.b2n (0 <? usz).

(** The text of a sample: process, CPU, name and both stacks, with one
    answer for each stack that is not empty. *)
Definition sample_text (pid cpu : Z) (name : string) (ksz usz : Z) (ks us : list Z)
    (rs : list answer_of_stack) : string :=
  if (ksz <=? 0) && (usz <=? 0) then EmptyString
  else
    "COMM: " +:+ name +:+ " (pid=" +:+ dec pid +:+ ") @ CPU " +:+ dec cpu +:+ newline +:+
    part_text "Kernel" "No Kernel Stack" ks (if 0 <? ksz then head rs else None) +:+
    part_text "Userspace" "No Userspace Stack" us (if 0 <? usz then last rs else None) +:+ newline.

(** What is asked of the symbolizer for a sample: the frames of each stack
    that is not empty, as addresses of the kernel (0) and of the process. *)
Abbreviation query := (Z * list Z)%type.
Definition sample_queries (pid ksz usz : Z) (ks us : list Z) : list query :=
  (if 0 <? ksz then [(0, ks)] else []) ++ (if 0 <? usz then [(pid, us)] else []).

Definition event_queries (e : stacktrace_event) : list query :=
  sample_queries (s32 (pid e)) (kstack_sz e) (ustack_sz e)
    (frames (kstack_sz e) (kstack e)) (frames (ustack_sz e) (ustack e)).

Definition event_text (e : stacktrace_event) (rs : list answer_of_stack) : string :=
  sample_text (s32 (pid e)) (s32 (cpu_id e)) (text_of (comm e)) (kstack_sz e) (ustack_sz e)
    (frames (kstack_sz e) (kstack e)) (frames (ustack_sz e) (ustack e)) rs.

(** The text of several records, which take their answers in order. *)
Fixpoint render {A} (uses : A → nat) (show : A → list answer_of_stack → string)
    (d : list A) (rs : list answer_of_stack) : string :=
  match d with
  | [] => EmptyString
  | e :: t => show e (take (uses e) rs) +:+ render uses show t (drop (uses e) rs)
  end.

Definition event_uses (e : stacktrace_event) : nat := symbolized (kstack_sz e) (ustack_sz e).
Definition answers_needed (d : list stacktrace_event) : nat := sum_list_with event_uses d.

Lemma render_snoc {A} (uses : A → nat) show d e rs rs' :
  length rs = sum_list_with uses d → length rs' = uses e →
  render uses show (d ++ [e]) (rs ++ rs') = render uses show d rs +:+ show e rs'.
Proof.
  revert rs. induction d as [|a d IH]; intros rs Hl Hl'; cbn in *.
  - apply nil_length_inv in Hl as ->. cbn. rewrite take_ge by lia. by rewrite string_app_empty_r.
  - rewrite take_app_le, drop_app_le by lia. rewrite IH; [by rewrite string_app_assoc| |done].
    rewrite length_drop. lia.
Qed.

(** ** The callback prints it *)

(** The records [d] have been shown: their stacks and nothing else have been
    symbolized, and their text with the answers has been printed. *)
Definition samples_shown (d : list stacktrace_event) (tr : trace stacktrace_event) : Prop :=
  queries tr = d ≫= event_queries ∧
  length (symbols tr) = answers_needed d ∧
  text (written tr) = render event_uses event_text d (symbols tr).

#[export] Instance samples_shown_dec : RelDecision samples_shown.
Proof. intros d tr. unfold samples_shown. apply _. Defined.

Abbreviation output := (tracing readable samples_shown).

(** From here the program prints [s], having asked [qs] and received the
    answers [rs]. *)
Definition said (tr : trace stacktrace_event) (s : string) (qs : list query)
    (rs : list answer_of_stack) (tr' : trace stacktrace_event) : Prop :=
  text (written tr') = text (written tr) +:+ s ∧ queries tr' = queries tr ++ qs ∧
  symbols tr' = symbols tr ++ rs ∧ delivered tr' = delivered tr.

Lemma said_nil tr : said tr EmptyString [] [] tr.
Proof. split_and!; [by rewrite string_app_empty_r|by rewrite app_nil_r..|done]. Qed.

Lemma said_trans tr1 tr2 tr3 s1 s2 qs1 qs2 rs1 rs2 :
  said tr1 s1 qs1 rs1 tr2 → said tr2 s2 qs2 rs2 tr3 →
  said tr1 (s1 +:+ s2) (qs1 ++ qs2) (rs1 ++ rs2) tr3.
Proof.
  intros (E1 & E2 & E3 & E4) (F1 & F2 & F3 & F4). split_and!.
  - by rewrite F1, E1, string_app_assoc.
  - by rewrite F2, E2, app_assoc.
  - by rewrite F3, E3, app_assoc.
  - by rewrite F4.
Qed.

Lemma said_eq tr s s' qs qs' rs tr' : s' = s → qs' = qs → said tr s' qs' rs tr' → said tr s qs rs tr'.
Proof. by intros -> ->. Qed.

Definition says {X} (t : prog X) (s : string) : Prop :=
  ∀ tr, safe output (fun _ tr' => said tr s [] [] tr') t tr.

Lemma says_print s : says (ask (Stdout s)) s.
Proof.
  intros tr. apply safe_trigger; [done|]. intros [] _. cbn [post tracing]. unfold said.
  trace_simpl. split_and!; try done. rewrite text_app. cbn. by rewrite string_app_empty_r.
Qed.

Lemma says_ret {X} (v : X) : says (Ret v) EmptyString.
Proof. intros tr. apply safe_ret, said_nil. Qed.

Lemma says_bind {X Y} (t : prog X) (k : X → prog Y) s1 s2 :
  says t s1 → (∀ x, says (k x) s2) → says (ITree.bind t k) (s1 +:+ s2).
Proof.
  intros H1 H2 tr. eapply safe_bind; [apply H1|]. intros x tr1 E1.
  eapply safe_conseq; [apply H2|]. intros y tr2 E2. by apply (said_trans _ tr1 _ s1 s2 [] [] [] []).
Qed.

Lemma says_each {A} (f : A → prog unit) (g : A → string) (l : list A) :
  Forall (fun a => says (f a) (g a)) l → says (each f l) (text (map g l)).
Proof.
  induction 1 as [|a l Ha _ IH]; cbn [each map text foldr]; [apply says_ret|].
  by apply says_bind.
Qed.

Lemma says_for_range (f : nat → prog unit) (g : nat → string) n lo :
  (∀ i, (lo ≤ i < lo + n)%nat → says (f i) (g i)) →
  says (for_range n lo f) (text (map g (seq lo n))).
Proof.
  revert lo. induction n as [|n IH]; intros lo Hf; cbn [for_range seq map text foldr];
    [apply says_ret|].
  apply says_bind; [apply Hf; lia|]. intros _. apply IH. intros i Hi. apply Hf. lia.
Qed.

Lemma says_eq {X} (t : prog X) s s' : s = s' → says t s → says t s'.
Proof. by intros ->. Qed.

Lemma print_frame_says name a addr off info :
  says (print_frame name a addr off (Some info)) (frame_text a name addr off info).
Proof.
  unfold print_frame, frame_text, inlined_text.
  destruct (location (Some info)), (a =? 0); cbn [negb];
    (eapply says_eq; [|apply says_bind; [apply says_print|intros _; apply says_print]]);
    by rewrite !string_app_assoc.
Qed.

Lemma show_inlined_says i :
  is_Some (in_name i) →
  says (show_inlined i) (inlined_text (default EmptyString (in_name i)) (in_info i)).
Proof.
  intros [name Hn]. unfold show_inlined. rewrite Hn. apply (print_frame_says name 0 0 0).
Qed.

Lemma show_frame_says syms stack i a :
  stack !! i = Some a →
  Forall (fun sym => Forall (fun f => is_Some (in_name f)) (sym_inlined sym)) syms →
  says (show_frame syms stack i) (symbol_text a (syms !! i)).
Proof.
  intros Ha Hs. unfold show_frame, at_index, symbol_text. rewrite Ha.
  destruct (syms !! i) as [[[name|] addr off info inl]|] eqn:E; [|apply says_print..].
  apply says_bind; [apply print_frame_says|]. intros _. apply says_each.
  eapply Forall_impl; [apply (Forall_lookup_1 _ _ _ _ Hs E)|]. intros f. apply show_inlined_says.
Qed.

(** The frames one by one. *)
Lemma stack_text_seq syms stack n :
  (n ≤ length stack)%nat →
  text (map (fun i => symbol_text (default 0 (stack !! i)) (syms !! i)) (seq 0 n)) =
  stack_text (take n stack) (inl syms).
Proof.
  intros Hn. cbn. f_equal. apply list_eq. intros i. rewrite list_lookup_imap.
  rewrite list_lookup_fmap. destruct (decide (i < n)%nat) as [Hi|Hi].
  - rewrite lookup_seq_lt by done. rewrite lookup_take_lt by done. cbn.
    by destruct (lookup_lt_is_Some_2 stack i) as [a ->]; [lia|].
  - rewrite lookup_seq_ge, lookup_take_ge by lia. done.
Qed.

(** Symbolizing and printing a stack: one question about its frames, one
    answer, and its text. *)
Lemma show_stack_trace_says y stack sz p tr :
  sz ≤ Z.of_nat (length stack) →
  safe output (fun _ tr' => ∃ r, said tr (stack_text (take (Z.to_nat sz) stack) r)
                                         [(p, take (Z.to_nat sz) stack)] [r] tr')
    (show_stack_trace y stack sz p) tr.
Proof.
  intros Hsz. unfold show_stack_trace. rewrite (proj2 (Z.ltb_ge _ _)) by done.
  apply trace_call; [done|]. intros [q syms] Hi. cbn [obs_of obs_resp fst snd] in *.
  destruct (Z.eqb_spec q 0) as [->|Hq].
  - trace_step msg. eapply safe_conseq; [apply says_print|].
    intros _ tr' (E1 & E2 & E3 & E4). exists (inr msg). unfold said. trace_simpl. done.
  - eapply safe_bind.
    + apply (says_for_range _ (fun i => symbol_text (default 0 (stack !! i)) (syms !! i))).
      intros i Hlt. destruct (lookup_lt_is_Some_2 stack i) as [a Ha]; [lia|].
      rewrite Ha. by apply show_frame_says.
    + intros _ tr1 (E1 & E2 & E3 & E4). rewrite stack_text_seq in E1 by lia.
      apply safe_trigger; [done|]. intros [] _. exists (inl syms). cbn [post tracing obs_of].
      rewrite app_nil_r. unfold said. trace_simpl. done.
Qed.

(** A part of the record that has a stack takes one answer, the other none. *)
Lemma part_says (y : ptr) title none stack sz p tr :
  is_s 32 sz → sz ≤ sizeof_stack_trace → length stack = MAX_STACK_DEPTH →
  safe output
    (fun _ tr' => ∃ rs, length rs = Nat.b2n (0 <? sz) ∧
       said tr (part_text title none (frames sz stack) (if 0 <? sz then head rs else None))
         (if 0 <? sz then [(p, frames sz stack)] else []) rs tr')
    (if 0 <? sz then ask (Stdout (title +:+ ":" +:+ newline)) ;;;
                     show_stack_trace y stack (stack_len sz) p
     else ask (Stdout (none +:+ newline))) tr.
Proof.
  intros Hs Hsz Hl. destruct (Z.ltb_spec 0 sz) as [Hpos|Hneg].
  - eapply safe_bind; [apply says_print|]. intros [] tr1 E1.
    assert (stack_len sz = sz / 8) as Hlen.
    { unfold sizeof_stack_trace, MAX_STACK_DEPTH in Hsz. unfold stack_len, u64, s32.
      rewrite wrap_small by (unfold is_u; lia). apply swrap_small; [done|]. unfold is_s. zlia. }
    eapply safe_conseq; [apply show_stack_trace_says|].
    { rewrite Hlen, Hl. unfold sizeof_stack_trace, MAX_STACK_DEPTH in *. zlia. }
    intros _ tr2 [r E2]. exists [r]. split; [done|]. rewrite Hlen in E2.
    eapply said_eq; [| |exact (said_trans _ _ _ _ _ _ _ [] [r] E1 E2)]; [|done].
    cbn. by rewrite !string_app_assoc.
  - eapply safe_conseq; [apply says_print|]. intros [] tr1 E1. by exists [].
Qed.

(** The callback prints the text of the record with the answers it gets. *)
Lemma event_handler_says y e tr :
  readable e →
  safe output (fun _ tr' => ∃ rs, length rs = event_uses e ∧
                                  said tr (event_text e rs) (event_queries e) rs tr')
    (event_handler y e) tr.
Proof.
  intros [(_ & Hkl & Hul) [c Hc] _ [Hk1 Hk2] [Hu1 Hu2]]. unfold event_handler, event_text, sample_text.
  rewrite Hc, (text_of_cstr _ _ Hc). destruct (_ && _) eqn:Hboth.
  { apply safe_ret. exists []. bool_facts. unfold event_uses, symbolized, event_queries, sample_queries.
    rewrite !(proj2 (Z.ltb_ge _ _)) by done. split; [done|apply said_nil]. }
  eapply safe_bind; [apply says_print|]. intros [] tr1 E1.
  eapply safe_bind; [by apply (part_says y "Kernel" "No Kernel Stack")|].
  intros _ tr2 (rk & Hrk & E2).
  eapply safe_bind; [by apply (part_says y "Userspace" "No Userspace Stack")|].
  intros _ tr3 (ru & Hru & E3).
  eapply safe_bind; [apply says_print|]. intros [] tr4 E4. apply safe_ret.
  exists (rk ++ ru). split; [unfold event_uses, symbolized; by rewrite length_app, Hrk, Hru|].
  pose proof (said_trans _ _ _ _ _ _ _ _ _ E1
    (said_trans _ _ _ _ _ _ _ _ _ E2 (said_trans _ _ _ _ _ _ _ _ _ E3 E4))) as E.
  cbn [app] in E. rewrite !app_nil_r in E. eapply said_eq; [|reflexivity|exact E].
  assert ((if 0 <? kstack_sz e then head (rk ++ ru) else None) =
          (if 0 <? kstack_sz e then head rk else None)) as ->.
  { destruct (0 <? kstack_sz e); [|done]. by destruct rk. }
  assert ((if 0 <? ustack_sz e then last (rk ++ ru) else None) =
          (if 0 <? ustack_sz e then head ru else None)) as ->.
  { destruct (0 <? ustack_sz e); [|done]. destruct ru as [|r [|]]; try done. apply last_snoc. }
  by rewrite !string_app_assoc.
Qed.

Lemma event_handler_shows y : shows readable samples_shown (fun e => event_handler y e ;;; Ret tt).
Proof.
  intros d e tr He (Hq & Hl & Ht). eapply safe_bind; [by apply event_handler_says|].
  intros _ tr' (rs & Hrs & E1 & Eq & E2 & E3). apply safe_ret. split; [|done]. split; [|split].
  - rewrite Eq, Hq, bind_app. cbn. by rewrite app_nil_r.
  - rewrite E2, length_app, Hl, Hrs. unfold answers_needed.
    rewrite sum_list_with_app. cbn. lia.
  - rewrite E1, Ht, E2. symmetry. by apply render_snoc.
Qed.


(** ** The program prints it *)

Lemma samples_shown_frame d l tr : samples_shown d tr → samples_shown d (tr ++ [Delivered l]).
Proof. unfold samples_shown. intros (H1 & H2 & H3). trace_simpl. done. Qed.

Lemma profile_poll_loop_output rb y tr :
  samples_shown (delivered tr) tr →
  safe output (fun _ tr' => samples_shown (delivered tr') tr') (ITree.iter (poll_body rb y) tt) tr.
Proof.
  intros Htr. apply (safe_iter _ (fun _ tr => samples_shown (delivered tr) tr)); [|done].
  clear tr Htr. intros [] tr Htr. unfold poll_body.
  apply (shows_poll _ _ (fun e => event_handler y e ;;; Ret tt));
    [apply event_handler_shows|apply samples_shown_frame|done|].
  clear tr Htr. intros x tr Htr. trace_run; by apply safe_ret.
Qed.

Abbreviation silent_prog := (quiet readable samples_shown).

Lemma store_at_quiet {X} (a : array) i v (k : array → prog X) :
  (∀ a, silent_prog (k a)) → silent_prog (store_at a i v k).
Proof. intros Hk. unfold store_at. quiet_run. apply Hk. Qed.

Lemma init_pefds_quiet n i pefds : silent_prog (init_pefds n i pefds).
Proof.
  revert i pefds. induction n as [|n IH]; intros i pefds; cbn; [apply quiet_ret|].
  by apply store_at_quiet.
Qed.

Lemma setup_quiet o skel mask n cpu pefds links : silent_prog (setup o skel mask n cpu pefds links).
Proof.
  revert cpu pefds links. induction n as [|n IH]; intros cpu pefds links; cbn [setup]; [apply quiet_ret|].
  case_match; [apply IH|]. apply quiet_bind; [unfold perf_event_open; quiet_run|]. intros pefd.
  case_match; [unfold report_failure; quiet_run|].
  apply store_at_quiet. intros a. apply quiet_bind; [by apply quiet_ask|]. intros link.
  apply store_at_quiet. intros b. case_match; [apply quiet_ret|apply IH].
Qed.

Lemma cleanup_quiet v err : silent_prog (cleanup v err).
Proof.
  unfold cleanup, over_cpus, destroy_link, close_pefd. quiet_run.
Qed.

Lemma collect_output o num mask garbage rb skel y mp :
  safe output (fun _ tr => samples_shown (delivered tr) tr) (collect o num mask garbage rb skel y mp) [].
Proof.
  assert (samples_shown (delivered []) []) as H0 by done.
  unfold collect. trace_step p. eapply safe_bind; [apply init_pefds_quiet|]. intros pefds tr ->.
  trace_step l. eapply safe_bind; [apply setup_quiet|]. intros [[err pefds'] links] tr ->.
  case_match; [eapply safe_conseq; [apply cleanup_quiet|]; by intros _ tr ->|].
  eapply safe_bind; [by apply profile_poll_loop_output|]. intros [] tr Htr.
  eapply safe_conseq; [apply cleanup_quiet|]. by intros _ tr' ->.
Qed.

(** What is on standard output at the end: the usage text, or the samples. *)
Definition output_complete (args : list (Z * string)) (tr : trace stacktrace_event) : Prop :=
  match parse_opts args (Opts 1 false) with
  | None => delivered tr = [] ∧ length (written tr) = 5%nat
  | Some _ => samples_shown (delivered tr) tr
  end.

Lemma profile_main_output progname args garbage :
  safe output (fun _ tr => output_complete args tr) (main progname args garbage) [].
Proof.
  unfold main, output_complete. destruct (parse_opts args (Opts 1 false)) as [o|].
  2: { unfold show_help. eapply (safe_bind _ (fun _ tr => delivered tr = [] ∧ length (written tr) = 5%nat)).
       - trace_run. by apply safe_trigger; [|intros []].
       - intros _ tr Htr. by apply safe_ret. }
  assert (∀ v err, safe output (fun _ tr => samples_shown (delivered tr) tr) (cleanup v err) []) as Hc.
  { intros v err. eapply safe_conseq; [apply cleanup_quiet|]. by intros _ tr ->. }
  trace_step r. destruct r as [[err mp] mask]. trace_run; auto using collect_output.
Qed.

(** C3. profile, for every command line and every environment in which
    [malloc] and [calloc] succeed, whether or not destroying a link closes its
    perf event: no array is accessed outside its bounds, no uninitialised
    variable is used, a return leaves every link, perf event, block and other
    object released and a non-negative code; and more records are asked for
    only when of all records delivered so far exactly the stacks have been
    given to the symbolizer, with their process, and the text has been
    printed, each frame with the symbols obtained for it, so that this holds
    on runs that never end too. *)
Theorem profile_output progname args garbage n :
  safe (both (sys_with readable ample) output)
    (fun code s => all_released code s.1 ∧ output_complete args s.2)
    (main progname args garbage) ((∅, n), []).
Proof.
  apply (safe_both (sys_with readable ample) output all_released
           (fun _ tr => output_complete args tr)); [apply profile_main_safe|apply profile_main_output].
Qed.

(** ** The records of the kernel side *)

Abbreviation sample := (kctx * perf_ctx)%type.

Definition kstack_of (s : sample) := p_stack s.2 false sizeof_stack_trace.
Definition ustack_of (s : sample) := p_stack s.2 true sizeof_stack_trace.
Definition name_of (s : sample) : string :=
  if (k_comm s.1 TASK_COMM_LEN).1 =? 0 then text_of (k_comm s.1 TASK_COMM_LEN).2 else EmptyString.

(** What a sample should look like: the interrupted process and CPU, and the
    frames of its stacks. *)
Definition kernel_text (s : sample) (rs : list answer_of_stack) : string :=
  sample_text (pid_of s.1) (s32 (p_cpu s.2)) (name_of s) (kstack_of s).1 (ustack_of s).1
    (kstack_of s).2 (ustack_of s).2 rs.
Definition kernel_queries (s : sample) : list query :=
  sample_queries (pid_of s.1) (kstack_of s).1 (ustack_of s).1 (kstack_of s).2 (ustack_of s).2.
Definition kernel_uses (s : sample) : nat := symbolized (kstack_of s).1 (ustack_of s).1.

(** Where a stack is empty its frames do not matter. *)
Lemma sample_text_frames p c name ksz usz ks us ks' us' rs :
  (0 < ksz → ks = ks') → (0 < usz → us = us') →
  sample_text p c name ksz usz ks us rs = sample_text p c name ksz usz ks' us' rs.
Proof.
  intros Hk Hu. unfold sample_text. destruct (_ && _); [done|].
  destruct (Z.ltb_spec 0 ksz) as [H1|_], (Z.ltb_spec 0 usz) as [H2|_];
    try rewrite (Hk H1); try rewrite (Hu H2); done.
Qed.

Lemma sample_queries_frames p ksz usz ks us ks' us' :
  (0 < ksz → ks = ks') → (0 < usz → us = us') →
  sample_queries p ksz usz ks us = sample_queries p ksz usz ks' us'.
Proof.
  intros Hk Hu. unfold sample_queries.
  destruct (Z.ltb_spec 0 ksz) as [H1|_], (Z.ltb_spec 0 usz) as [H2|_];
    try rewrite (Hk H1); try rewrite (Hu H2); done.
Qed.

Lemma fill_text s e :
  sample_fine s → shaped e →
  event_uses (fill s.1 s.2 e) = kernel_uses s ∧
  event_queries (fill s.1 s.2 e) = kernel_queries s ∧
  ∀ rs, event_text (fill s.1 s.2 e) rs = kernel_text s rs.
Proof.
  intros [Hk Hx] He. destruct s as [k x]. cbn [fst snd] in *.
  destruct (stack_word x false Hx) as (E1 & _). destruct (stack_word x true Hx) as (E2 & _).
  unfold event_uses, kernel_uses, event_queries, kernel_queries, event_text, kernel_text, kstack_of,
    ustack_of, name_of.
  cbn [fst snd]. cbn [pid cpu_id kstack_sz ustack_sz fill]. rewrite E1, E2. split; [done|].
  pose proof (frames_written x false (kstack e) Hx) as Hfk. cbn zeta in Hfk. rewrite E1 in Hfk.
  pose proof (frames_written x true (ustack e) Hx) as Hfu. cbn zeta in Hfu. rewrite E2 in Hfu.
  assert (s32 (u32 (pid_of k)) = pid_of k) as ->.
  { unfold s32, u32. rewrite swrap_wrap by done. apply swrap_small; [done|]. apply pid_of_range. }
  split; [apply sample_queries_frames; intros Hpos; [apply Hfk; lia|apply Hfu; lia]|]. intros rs.
  assert (text_of (comm (fill k x e)) = if (k_comm k TASK_COMM_LEN).1 =? 0
            then text_of (k_comm k TASK_COMM_LEN).2 else EmptyString) as ->.
  { pose proof (fill_comm k x e Hk He) as Hc. destruct (ok_comm k Hk TASK_COMM_LEN) as [Hn _];
      [unfold TASK_COMM_LEN; lia|]. destruct (cstr_some _ Hn) as [c Ec].
    destruct (_ =? 0); rewrite ?Ec in Hc; rewrite (text_of_cstr _ _ Hc); [|done].
    by rewrite (text_of_cstr _ _ Ec). }
  assert (s32 (u32 (s32 (p_cpu x))) = s32 (p_cpu x)) as ->.
  { unfold s32, u32. rewrite swrap_wrap by done. apply swrap_small; [done|]. by apply swrap_range. }
  apply sample_text_frames; intros Hpos; [apply Hfk; lia|apply Hfu; lia].
Qed.

Section System.
Context {R : Type} `{RingBufLaws R stacktrace_event}.

(** The samples that are recorded: those for which the ring had room. *)
Fixpoint captured (r : R) (samples : list sample) : list sample :=
  match samples with
  | [] => []
  | s :: t => (if bool_decide (is_Some (rb_reserve r sizeof_stacktrace_event)) then [s] else [])
              ++ captured (profile s.1 s.2 r).1 t
  end.

Definition record_of (e : stacktrace_event) (s : sample) : Prop :=
  event_uses e = kernel_uses s ∧ event_queries e = kernel_queries s ∧
  ∀ rs, event_text e rs = kernel_text s rs.

Lemma run_records r samples :
  ring_shaped → Forall sample_fine samples →
  ∃ es, rb_samples (run r samples) = rb_samples r ++ es ∧ Forall2 record_of es (captured r samples).
Proof.
  intros Hring Hs. revert r. induction Hs as [|s samples Hs _ IH]; intros r; cbn [captured].
  { exists []. by rewrite app_nil_r. }
  unfold run; cbn [fold_left]. change (fold_left _ samples ?r1) with (run r1 samples).
  destruct (IH (profile s.1 s.2 r).1) as (es & E & F). rewrite E.
  destruct (profile_step s.1 s.2 r) as [-> _]. rewrite <-app_assoc.
  eexists. split; [done|]. apply Forall2_app; [|done].
  destruct (rb_reserve r sizeof_stacktrace_event) as [[e r1]|] eqn:Er.
  - rewrite bool_decide_eq_true_2 by by eexists. constructor; [|constructor].
    apply fill_text; [done|]. by eapply Hring.
  - by rewrite bool_decide_eq_false_2 by by intros [? ?].
Qed.

Lemma render_records es ss rs :
  Forall2 record_of es ss →
  answers_needed es = sum_list_with kernel_uses ss ∧
  es ≫= event_queries = ss ≫= kernel_queries ∧
  render event_uses event_text es rs = render kernel_uses kernel_text ss rs.
Proof.
  intros Hf. revert rs. unfold answers_needed.
  induction Hf as [|e s es ss (H1 & Hq & H2) _ IH]; intros rs; [done|].
  cbn [sum_list_with render mbind list_bind].
  destruct (IH (drop (event_uses e) rs)) as (E1 & Eq & E2). cbn [mbind] in Eq.
  rewrite E1, Eq, E2, H2. by rewrite H1, Hq.
Qed.

(** C8. The system: with the records of the kernel side, run on any sequence
    of samples, what profile has printed when it returns is the text of the
    first captured samples, as many as the polls delivered: for each of them
    that has a stack the process, CPU and command name, and for every frame
    of both stacks, in order, the symbol the symbolizer gave for it; and what
    the symbolizer was asked are exactly the frames of those samples, the
    kernel stack as kernel addresses and the user stack as addresses of the
    sampled process.  As in [profile_output], [malloc] and [calloc] succeed. *)
Theorem profile_system progname args garbage o (r : R) samples n :
  parse_opts args (Opts 1 false) = Some o →
  ring_shaped → Forall sample_fine samples → rb_samples r = [] →
  safe (both (sys_with readable ample) output)
    (fun code s => all_released code s.1 ∧
       (delivered s.2 `prefix_of` rb_samples (run r samples) →
        let ss := take (length (delivered s.2)) (captured r samples) in
        queries s.2 = ss ≫= kernel_queries ∧
        length (symbols s.2) = sum_list_with kernel_uses ss ∧
        text (written s.2) = render kernel_uses kernel_text ss (symbols s.2)))
    (main progname args garbage) ((∅, n), []).
Proof.
  intros Ho Hring Hs Hr. eapply safe_conseq.
  - apply (safe_both (sys_with readable ample) output all_released
             (fun _ tr => output_complete args tr)); [apply profile_main_safe|apply profile_main_output].
  - intros code [s tr] [Hf Htr]. unfold output_complete in Htr. rewrite Ho in Htr.
    destruct Htr as (Hq & Hl & Ht). cbn [fst snd] in *. split; [done|]. intros [rest Hd].
    destruct (run_records r samples Hring Hs) as (es & Hes & Hrec).
    rewrite Hr, Hd in Hes. cbn in Hes. subst es.
    apply Forall2_app_inv_l in Hrec as (l1 & l2 & Hrec & _ & ->).
    rewrite (Forall2_length _ _ _ Hrec), take_app_length.
    destruct (render_records (delivered tr) l1 (symbols tr) Hrec) as (E1 & Eq & E2).
    by rewrite Hq, Hl, Ht, E1, Eq, E2.
Qed.
End System.

(** An environment that knows one symbol; the second poll fails and ends the
    program. *)
Definition demo_symbols X (e : sysE stacktrace_event X) (w : world stacktrace_event)
    : X * world stacktrace_event :=
  match e in sysE _ X return X * world stacktrace_event → X * world stacktrace_event with
  | Symbolize _ _ _ => fun r =>
      ((r.1.1, [BlazeSym (Some "schedule"%string) 0x8 0x8 (CodeInfo None None 0) []]), r.2)
  | _ => fun r => r
  end (answer X e w).

Definition run_text (polls : list (Z * list stacktrace_event)) : string :=
  match exec (both (sys_with readable ample) output) demo_symbols 200 (main "profile" [] [])
          (World 10 0 (polls ++ [(-4, [])]) [] []) ((∅, None), []) with
  | Done _ _ s => text (written s.2)
  | _ => EmptyString
  end.

Lemma profile_system_witness :
  let _ := fixed_ring stale in
  let r := run (8%nat, [], 0%nat) [(demo_task, demo_perf)] in
  run_text [(1, rb_samples r)] =
    "COMM: cc1 (pid=7) @ CPU 2" +:+ newline +:+ "Kernel:" +:+ newline +:+
    "0000000000000010: schedule @ 0x8+0x8" +:+ newline +:+
    "0000000000000020: <no-symbol>" +:+ newline +:+
    "0000000000000030: <no-symbol>" +:+ newline +:+
    "No Userspace Stack" +:+ newline +:+ newline ∧
  safe (both (sys_with readable ample) output)
    (fun code s => all_released code s.1 ∧
       (delivered s.2 `prefix_of` rb_samples r →
        let ss := take (length (delivered s.2)) (captured (8%nat, [], 0%nat) [(demo_task, demo_perf)]) in
        queries s.2 = ss ≫= kernel_queries ∧
        length (symbols s.2) = sum_list_with kernel_uses ss ∧
        text (written s.2) = render kernel_uses kernel_text ss (symbols s.2)))
    (main "profile" [] []) ((∅, None), []).
Proof.
  cbv zeta. split; [vm_compute; reflexivity|].
  pose proof (fixed_ring_laws stale) as Hl.
  apply (profile_system (H := fixed_ring stale) "profile" [] [] (Opts 1 false) (8%nat, [], 0%nat)
           [(demo_task, demo_perf)] None); [reflexivity| | |reflexivity].
  - intros [[[|c] q] o] k e r'; cbn; intros; simplify_eq. done.
  - apply Forall_singleton. split; [apply demo_task_ok|apply demo_perf_ok].
Defined.
