(* ===== verification/TaskIterUser.v ===== *)
(** * task_iter: the user side ([task_iter.c])

    [main] creates the iterator, reads it to the end and prints a line per
    task. *)
From S2P Require Import Prelude Interaction CInt CFormat BpfKernel TaskIterBpf UserSpace.
From ITree Require Import ITree.
Local Open Scope Z_scope.

Abbreviation prog := (itree (sysE task_info)).

Definition LIBBPF_DEBUG : Z := 2.

(** The log callback; [env.verbose] is never set. *)
Definition libbpf_print_fn (verbose : bool) (level : Z) (text : string) : string * Z :=
  if (level =? LIBBPF_DEBUG) && negb verbose then (EmptyString, 0)
  else (text, Z.of_nat (String.length text)).

(** As the program runs it, exactly the debug messages are dropped. *)
Lemma libbpf_print_fn_quiet level msg :
  libbpf_print_fn false level msg =
  if decide (level = 2) then (EmptyString, 0) else (msg, Z.of_nat (String.length msg)).
Proof.
  unfold libbpf_print_fn, LIBBPF_DEBUG. rewrite andb_true_r.
  by destruct (Z.eqb_spec level 2); [rewrite decide_True|rewrite decide_False].
Qed.

(** [get_task_state] of the user side: the name of a state. *)
Definition state_name (state : Z) : string :=
  match state with
  | 0x0000 => "RUNNING"
  | 0x0001 => "INTERRUPTIBLE"
  | 0x0002 => "UNINTERRUPTIBLE"
  | 0x0200 => "WAKING"
  | 0x0400 => "NOLOAD"
  | 0x0402 => "IDLE"
  | 0x0800 => "NEW"
  | _ => "<unknown>"
  end.

(** The line printed for a record; [None] when the name is not terminated. *)
Definition task_line (buf : task_info) : option string :=
  match cstr (comm buf) with
  | None => None
  | Some c => Some (
    if kstack_len buf <=? 0 then
      "Error getting kernel stack for task. Task Info. Pid: " +:+ dec (pid buf) +:+
      ". Process Name: " +:+ c +:+ ". Kernel Stack Error: " +:+ dec (kstack_len buf) +:+
      ". State: " +:+ state_name (state buf) +:+ newline
    else
      "Task Info. Pid: " +:+ dec (pid buf) +:+ ". Process Name: " +:+ c +:+
      ". Kernel Stack Len: " +:+ dec (kstack_len buf) +:+ ". State: " +:+
      state_name (state buf) +:+ newline)
  end.

Definition EAGAIN : Z := 11.

(** One round of the read loop; the loop variable is [err]. *)
Definition read_body (iter_fd : Z) (err : Z) : prog (Z + Z) :=
  let* r := ask (ReadIter iter_fd) in
  if r.1 <? 0 then
    let* errno := ask GetErrno in
    if errno =? EAGAIN then Ret (inl err) else Ret (inr (- errno))
  else if r.1 =? 0 then Ret (inr err)
  else match r.2 with
       | None => undefined
       | Some buf =>
           match task_line buf with
           | None => undefined
           | Some l => ask (Stdout l) ;;; Ret (inl err)
           end
       end.

(** The code at [cleanup]; [None] stands for a variable that has not been
    assigned. *)
Definition cleanup (iter_fd : option Z) (skel : ptr) (err : option Z) : prog Z :=
  match iter_fd with
  | None => undefined
  | Some fd =>
      ask (Close fd) ;;;
      ask (SkelDestroy skel) ;;;
      match err with
      | None => undefined
      | Some e => Ret (if e <? 0 then - e else 0)
      end
  end.

Definition main : prog Z :=
  ask SetPrint ;;;
  ask (Signal 2) ;;;
  ask (Signal 15) ;;;
  let* skel := ask SkelOpenLoad in
  if skel =? 0 then
    ask (Stderr ("Failed to open and load BPF skeleton" +:+ newline)) ;;;
    cleanup None skel None
  else
    let* err := ask (SkelAttach skel) in
    if negb (err =? 0) then
      ask (Stderr ("Failed to attach BPF skeleton" +:+ newline)) ;;;
      cleanup None skel (Some err)
    else
      let* link_fd := ask (LinkFd skel "get_tasks") in
      let* iter_fd := ask (IterCreate link_fd) in
      if iter_fd <? 0 then
        ask (Stderr ("Failed to create iter" +:+ newline)) ;;;
        cleanup (Some iter_fd) skel (Some (-1))
      else
        let* err := ITree.iter (read_body iter_fd) err in
        cleanup (Some iter_fd) skel (Some err).

(** ** Safety *)

(** Environments in which the program can be loaded and attached. *)
Definition loads X (e : sysE task_info X) : X → Prop :=
  match e in sysE _ X return X → Prop with
  | SkelOpenLoad => fun x => x ≠ 0
  | SkelAttach _ => fun x => x = 0
  | _ => fun _ => True
  end.

Lemma task_line_printable i : printable i → is_Some (task_line i).
Proof. intros [[c Hc] _]. unfold task_line. rewrite Hc. by eexists. Qed.

Lemma read_loop_safe good fd err m n :
  at_stage m KFd fd any_stage = true → - 4095 ≤ err ≤ 0 →
  safe (sys_with printable good) (fun v s => s.1 = m ∧ - 4095 ≤ v ≤ 0)
    (ITree.iter (read_body fd) err) (m, n).
Proof.
  intros Hfd He. apply (safe_iter _ (fun v s => s.1 = m ∧ - 4095 ≤ v ≤ 0)); [|done].
  clear err He n. intros err [m' n] [E He]. cbn in E. subst m'. unfold read_body.
  apply safe_call; [done|]. intros [r o] Hr _ _. cbn [sys_resp sys_post tick fst snd] in *.
  destruct (Z.ltb_spec r 0).
  - sys_call errno Herrno. case_cond; apply safe_ret; cbn; [done|]. split; [done|]. lia.
  - case_cond; [by apply safe_ret|]. destruct o as [i|]; cbn in Hr; [|lia].
    destruct (task_line_printable i (proj2 Hr)) as [l ->].
    sys_call u Hu. by apply safe_ret.
Qed.

(** Resource safety of [main] when the program loads and attaches, for
    every behaviour of the iterator: each record is printed from terminated
    strings, and on every path that returns the descriptor is closed and the
    skeleton destroyed exactly once, with a non-negative exit code. *)
Theorem task_iter_main_safe n :
  safe (sys_with printable loads) (fun code s => s.1 = ∅ ∧ 0 ≤ code) main (∅, n).
Proof.
  unfold main. sys_run; bool_facts; cbn [loads] in *; try (exfalso; lia);
    match goal with |- context [0 <=? ?fd] => destruct (Z.leb_spec 0 fd); try lia end.
  - unfold cleanup. sys_run. apply safe_ret. split; [|cbn; lia]. bool_facts. cbn [fst]. live_eq.
  - eapply safe_bind.
    + apply read_loop_safe; [live_pre|lia].
    + intros v [m' n'] [E Hv]. cbn in E. subst m'. unfold cleanup. sys_run;
        (apply safe_ret; split; [cbn [fst]; live_eq|case_cond; lia]).
Qed.

(** ** Output *)

(** Reading a whole iterator prints the line of each record, in order. *)
Lemma read_loop_runs fd recs lines k f out m n :
  at_stage m KFd fd any_stage = true →
  Forall2 (fun i l => task_line i = Some l) recs lines →
  runs (sys printable) answer (ITree.iter (read_body fd) 0) (World k f [] recs out) (m, n)
    0 (World k f [] [] (reverse lines ++ out)) (m, n).
Proof.
  intros Hfd Hl. revert out. induction Hl as [|i l recs lines Hi _ IH]; intros out.
  - eapply (runs_iter _ _ _ _ _ _ (inr 0)); [|done].
    eapply runs_bind; [by apply runs_trigger|]. apply runs_ret.
  - eapply (runs_iter _ _ _ _ _ _ (inl 0)).
    + eapply runs_bind; [by apply runs_trigger|]. cbn [fst snd]. rewrite Hi.
      eapply runs_bind; [by apply runs_trigger|]. apply runs_ret.
    + cbn [post sys_with sys_post tick fst snd w_print w_next w_flags w_polls w_reads w_out].
      specialize (IH (l :: out)). by rewrite reverse_cons, <-app_assoc.
Qed.

Lemma printable_lines recs :
  Forall printable recs → ∃ lines, Forall2 (fun i l => task_line i = Some l) recs lines.
Proof.
  induction 1 as [|i recs Hi _ [lines IH]]; [by exists []|].
  destruct (task_line_printable i Hi) as [l Hl]. exists (l :: lines). by constructor.
Qed.

(** Complete output: when the program loads and the iterator delivers
    any sequence of records, [main] prints exactly the line of each record,
    in order, releases everything and returns 0. *)
Theorem task_iter_prints_all k f recs n :
  0 < k → Forall printable recs →
  ∃ lines, Forall2 (fun i l => task_line i = Some l) recs lines ∧
    runs (sys printable) answer main (World k f [] recs []) (∅, n)
      0 (World (k + 2) f [] [] (reverse lines)) (∅, n).
Proof.
  intros Hk Hr. destruct (printable_lines recs Hr) as [lines Hl]. exists lines. split; [done|].
  unfold main.
  do 4 run_call. rewrite (proj2 (Z.eqb_neq k 0)) by lia. live_norm.
  do 3 run_call. rewrite (proj2 (Z.leb_le 0 (k + 1))), (proj2 (Z.ltb_ge (k + 1) 0)) by lia.
  eapply runs_bind; [apply read_loop_runs; [live_pre|exact Hl]|].
  unfold cleanup. do 2 run_call. rewrite app_nil_r, <-Z.add_assoc.
  match goal with |- runs _ _ _ _ (?m, _) _ _ _ => replace m with (∅ : live) by live_eq end.
  apply runs_ret.
Qed.

Definition demo_info : task_info := describe (mk_task 7 7 (task_struct___pre514 0) "sh" [0x10]) zero_info.

Lemma task_iter_prints_all_witness :
  ∃ lines, Forall2 (fun i l => task_line i = Some l) [demo_info] lines ∧
    runs (sys printable) answer main (World 3 0 [] [demo_info] []) (∅, None)
      0 (World 5 0 [] [] (reverse lines)) (∅, None).
Proof.
  apply (task_iter_prints_all 3 0 [demo_info] None); [lia|].
  apply Forall_singleton, describe_printable.
  - apply mk_task_ok; unfold is_s; lia.
  - split; [by eexists|]. split; [done|]. cbn [kstack_len zero_info]. unfold is_s, MAX_STACK_LEN. lia.
Defined.

(** ** Termination *)

(** An iterator that reports its end after at most [s.1] more reads; [s.2]
    says that it has. *)
Definition reading : protocol (sysE task_info) (nat * bool) :=
  Protocol (fun X e s => true)
    (fun X e s => match e in sysE _ X return X → Prop with
                  | ReadIter _ => fun x => s.1 = O → x.1 = 0
                  | _ => fun _ => True
                  end)
    (fun X e => match e in sysE _ X return X → nat * bool → nat * bool with
                | ReadIter _ => fun x s => (pred s.1, s.2 || (x.1 =? 0))
                | _ => fun _ s => s
                end).

Abbreviation reading_sys := (both (sys_with printable loads) reading).

Lemma read_loop_ends fd m o n :
  at_stage m KFd fd any_stage = true →
  ends reading_sys
    (fun v s => s.1.1 = m ∧ (v = 0 ∧ s.2.2 = true ∨ - 4095 ≤ v < 0 ∧ s.2.2 = false))
    (ITree.iter (read_body fd) 0) ((m, o), (n, false)).
Proof.
  intros Hfd.
  apply (ends_iter _ (fun k err s => err = 0 ∧ s = ((m, o), (k, false)))) with (n := n); [|done].
  clear n. intros k err s [-> ->]. unfold read_body.
  apply ends_call_both; [done|done|]. intros [r i] Hr _ Hk.
  cbn [sys_resp sys_post tick post reading resp fst snd] in *.
  destruct (Z.ltb_spec r 0) as [Hneg|Hpos].
  - assert (k ≠ O) by (intros ->; specialize (Hk eq_refl); lia).
    apply ends_call_both; [done|done|]. intros errno He _ _. cbn in He. cbn [sys_post tick post reading fst snd].
    rewrite (proj2 (Z.eqb_neq r 0)) by lia.
    case_cond; apply ends_Ret; cbn; [exists (pred k); split; [lia|done]|]. split; [done|]. right. split; [lia|done].
  - destruct (Z.eqb_spec r 0) as [->|Hr0]; [apply ends_Ret; cbn; auto|].
    destruct i as [i|]; cbn in Hr; [|lia]. destruct (task_line_printable i (proj2 Hr)) as [l ->].
    assert (k ≠ O) by (intros ->; by specialize (Hk eq_refl)).
    apply ends_call_both; [done|done|]. intros [] _ _ _. apply ends_Ret. cbn. exists (pred k). split; [lia|done].
Qed.

(** C24. Termination: when the program loads and the iterator reports its end
    after at most [n] reads, in every other respect behaving as it likes
    (errors, reads to be tried again), task_iter returns with every object
    released, and with status 0 exactly if it has read the iterator to its
    end. *)
Theorem task_iter_main_ends o n :
  ends reading_sys (fun code s => s.1.1 = ∅ ∧ 0 ≤ code ∧ (code = 0 ↔ s.2.2 = true))
    main ((∅, o), (n, false)).
Proof.
  unfold main. do 3 (apply ends_call_both; [done|done|]; intros ? _ _ _).
  apply ends_call_both; [done|done|]. intros skel Hs Hs0 _. cbn in Hs0.
  rewrite (proj2 (Z.eqb_neq skel 0)) by done. cbn [sys_post tick post reading]. live_norm.
  rewrite (proj2 (Z.eqb_neq skel 0)) by done. cbn [negb].
  apply ends_call_both; [live_pre|done|]. intros err _ Herr _. cbn in Herr. subst err.
  cbn [Z.eqb negb sys_post tick post reading got]. live_norm.
  apply ends_call_both; [live_pre|done|]. intros lfd Hlfd _ _. cbn [sys_post tick post reading] in *.
  apply ends_call_both; [cbn [sys_pre]; cbn in Hlfd; lia|done|]. intros fd Hfd _ _.
  cbn [sys_post tick post reading]. live_norm.
  destruct (Z.ltb_spec fd 0) as [Hneg|Hpos].
  - rewrite (proj2 (Z.leb_gt 0 fd)) by lia. unfold cleanup.
    do 3 (apply ends_call_both; [live_pre|done|]; intros ? _ _ _; cbn [sys_post tick post reading]; live_norm).
    apply ends_Ret. cbn. split; [live_eq|done].
  - rewrite (proj2 (Z.leb_le 0 fd)) by lia.
    eapply ends_bind; [apply read_loop_ends; live_pre|].
    intros v [[m' o'] [n' b]] [E Hv]. cbn [fst snd] in E, Hv. subst m'. unfold cleanup.
    do 2 (apply ends_call_both; [live_pre|done|]; intros ? _ _ _; cbn [sys_post tick post reading]; live_norm).
    apply ends_Ret. cbn [fst snd]. split; [live_eq|].
    destruct Hv as [[-> ->]|[Hv ->]]; [done|]. case_cond; [|lia]. split; [lia|]. split; [lia|done].
Qed.

(** ** Paths that use uninitialised variables *)

(** C33. When the program cannot be opened or cannot be attached, [main]
    reaches [cleanup] with a descriptor variable that was never assigned, in
    every environment. *)
Theorem task_iter_failure_undefined {W} (h : ∀ X, sysE task_info X → W → X * W) w n :
  (∀ w, (h _ SkelOpenLoad w).1 = 0) ∨ (∀ s w, (h _ (SkelAttach s) w).1 ≠ 0) →
  ∃ w' s', exec (sys printable) h 7 main w (∅, n) = Broken w' s'.
Proof.
  intros Hf. unfold main, ask. do 4 rewrite exec_call by done. cbn [post sys_with sys_post tick fst snd].
  match goal with |- context [if ?x =? 0 then _ else _] => destruct (Z.eqb_spec x 0) as [E|E] end.
  - rewrite exec_call by done. cbn. eauto.
  - destruct Hf as [Hf|Hf]; [by rewrite Hf in E|].
    live_norm. rewrite exec_call by (cbn [pre sys_with fst]; live_pre). cbn [post sys_with sys_post tick fst snd].
    rewrite (proj2 (Z.eqb_neq _ 0)) by apply Hf. cbn [negb].
    rewrite exec_call by done. cbn. eauto.
Qed.

Definition cannot_open X (e : sysE task_info X) (w : world task_info) : X * world task_info :=
  match e in sysE _ X return X * world task_info → X * world task_info with
  | SkelOpenLoad => fun r => (0, r.2)
  | _ => fun r => r
  end (answer X e w).

Lemma task_iter_failure_undefined_witness :
  ∃ w' s', exec (sys printable) cannot_open 7 main (World 3 0 [] [] []) (∅, None) = Broken w' s'.
Proof. apply (task_iter_failure_undefined cannot_open). left. reflexivity. Defined.
