(* ===== verification/TaskIterOutput.v ===== *)
(** * task_iter: the output of the whole system

    What [task_iter.c] prints, in every environment in which it loads, and
    what that says about the tasks when the records come from
    [task_iter.bpf.c]. *)
From S2P Require Import Prelude Interaction CInt CFormat BpfKernel TaskIterBpf UserSpace Output TaskIterUser.
From ITree Require Import ITree.
Local Open Scope Z_scope.

(** The records [d] have been shown: the output is the line of each. *)
Definition tasks_shown (d : list task_info) (tr : trace task_info) : Prop :=
  Some <$> written tr = task_line <$> d.

#[export] Instance tasks_shown_dec : RelDecision tasks_shown.
Proof. intros d tr. unfold tasks_shown. apply _. Defined.

Abbreviation output := (tracing printable tasks_shown).

Lemma read_loop_output fd err tr :
  tasks_shown (delivered tr) tr →
  safe output (fun _ tr' => tasks_shown (delivered tr') tr') (ITree.iter (read_body fd) err) tr.
Proof.
  intros Htr. apply (safe_iter _ (fun _ tr => tasks_shown (delivered tr) tr)); [|done].
  clear err tr Htr. intros err tr Htr. unfold read_body.
  apply trace_call; [done|]. intros [r o] Hr. cbn [obs_resp obs_of fst snd] in *.
  destruct o as [i|]; rewrite ?app_nil_r; cbn [fst snd].
  - rewrite (proj2 (Z.ltb_ge r 0)), (proj2 (Z.eqb_neq r 0)) by lia.
    destruct (task_line_printable i (proj2 Hr)) as [l Hl]. rewrite Hl.
    trace_step u. apply safe_ret. cbn [loop_post]. unfold tasks_shown in *. trace_simpl.
    rewrite !fmap_app, Htr. cbn. by rewrite Hl.
  - trace_run; try (by apply safe_ret). lia.
Qed.

Lemma task_iter_cleanup_output iter_fd skel err tr :
  tasks_shown (delivered tr) tr →
  safe output (fun _ tr' => tasks_shown (delivered tr') tr') (cleanup iter_fd skel err) tr.
Proof.
  intros Htr. unfold cleanup. destruct iter_fd as [fd|]; [|apply trace_undefined].
  trace_run. destruct err as [e|]; [by apply safe_ret|apply trace_undefined].
Qed.

Lemma task_iter_main_output : safe output (fun _ tr => tasks_shown (delivered tr) tr) main [].
Proof.
  unfold main. trace_run; try (by apply task_iter_cleanup_output).
  eapply safe_bind; [by apply read_loop_output|]. intros v tr. apply task_iter_cleanup_output.
Qed.

(** ** The records of the kernel side *)

(** The line a task should get: its own ids, name, state and stack. *)
Definition task_text (t : task) : option string :=
  match cstr (t_comm t TASK_COMM_LEN).2, t_stack t stack_bytes with
  | None, _ => None
  | Some c, (res, words) => Some (
      (if res <=? 0 then
         "Error getting kernel stack for task. Task Info. Pid: " +:+ dec (t_tgid t) +:+
         ". Process Name: " +:+ c +:+ ". Kernel Stack Error: " +:+ dec res
       else
         "Task Info. Pid: " +:+ dec (t_tgid t) +:+ ". Process Name: " +:+ c +:+
         ". Kernel Stack Len: " +:+ dec (Z.of_nat (length words))) +:+
      ". State: " +:+ state_name (get_task_state (t_layout t)) +:+ newline)
  end.

Lemma describes_text t i :
  task_ok t → nul ∈ (t_comm t TASK_COMM_LEN).2 → describes t i → printable i →
  task_line i = task_text t.
Proof.
  intros Ht Hn (Hpid & _ & Hst & Hc & Hk) (_ & Hl & Hs & Hle). unfold task_line, task_text.
  rewrite (Hc Hn), Hpid, Hst. clear Hc. destruct (cstr _) as [c|]; [|by destruct (t_stack t stack_bytes)].
  pose proof (ok_tstack t Ht stack_bytes ltac:(vm_compute; congruence)) as Hw.
  destruct (t_stack t stack_bytes) as [res words]. cbn [fst snd] in Hw.
  destruct (Z.leb_spec res 0) as [Hr|Hr].
  - rewrite Hk, (proj2 (Z.leb_le res 0) Hr). by rewrite !string_app_assoc.
  - assert (kstack_len i = Z.of_nat (length words)) as ->.
    { pose proof (f_equal length Hk) as E. unfold frames in E. rewrite length_take, Hl in E.
      unfold MAX_STACK_LEN in *. lia. }
    rewrite (proj2 (Z.leb_gt _ _)) by lia. by rewrite !string_app_assoc.
Qed.

Section System.
Context {A S : Type} `{BpfArrayLaws A task_info} `{SeqFileLaws S task_info}.

(** C7. The system: when the program loads, in every environment task_iter
    uses its objects in order, releases each exactly once on every path that
    returns and then reports no negative code; and with the records of the
    kernel side, after a pass over any list of tasks, the records it has read
    at its end describe the first tasks, in order (each carries the process
    and thread id, state, name and stack frames of its own task), and it has
    printed exactly their lines: the process id, name, state and stack length
    or stack error of each. *)
Theorem task_iter_system tasks (buf : A) (seq : S) P b n :
  seq_accepts P → P seq → seq_records seq = [] → array_lookup buf 0 = Some b → printable b →
  Forall (fun t => task_ok t ∧ nul ∈ (t_comm t TASK_COMM_LEN).2) tasks →
  safe (both (sys_with printable loads) output)
    (fun code s => (s.1.1 = ∅ ∧ 0 ≤ code) ∧
       (delivered s.2 `prefix_of` seq_records (pass tasks buf seq).2 →
        Forall2 describes (take (length (delivered s.2)) tasks) (delivered s.2) ∧
        Some <$> written s.2 = task_text <$> take (length (delivered s.2)) tasks))
    main ((∅, n), []).
Proof.
  intros Hacc HP Hseq Hb Hpr Hts. eapply safe_conseq.
  - apply (safe_both (sys_with printable loads) output (fun code s => s.1 = ∅ ∧ 0 ≤ code)
             (fun _ tr => tasks_shown (delivered tr) tr)); [apply task_iter_main_safe|apply task_iter_main_output].
  - intros code [s tr] [Hf Htr]. cbn [fst snd] in *. split; [done|]. intros [rest Hd].
    destruct (tasks_listed tasks buf seq P b) as (recs & Hrecs & Hdesc & Hprint); [done..| |].
    { eapply Forall_impl; [exact Hts|]. by intros t [? _]. }
    rewrite Hseq, Hd in Hrecs. cbn in Hrecs. subst recs.
    apply Forall2_app_inv_r in Hdesc as (t1 & t2 & Hdesc & _ & ->).
    apply Forall_app in Hprint as [Hprint _]. apply Forall_app in Hts as [Hts _].
    rewrite <-(Forall2_length _ _ _ Hdesc), take_app_length. unfold tasks_shown in Htr. rewrite Htr.
    split; [done|].
    clear Htr Hd. induction Hdesc as [|t i t1 l Ht _ IH]; [done|].
    apply Forall_cons in Hts as [[Hok Hn] Hts]. apply Forall_cons in Hprint as [Hi Hprint]. cbn.
    by rewrite (describes_text t i), IH.
Qed.
End System.

Definition run_text (recs : list task_info) : list string :=
  match exec (both (sys_with printable loads) output) answer 100 main
          (World 10 0 [] recs []) ((∅, None), []) with
  | Done _ _ s => written s.2
  | _ => []
  end.

Lemma zero_info_printable : printable zero_info.
Proof.
  split; [eexists; reflexivity|]. split; [reflexivity|]. cbn [kstack_len zero_info].
  unfold is_s, MAX_STACK_LEN. lia.
Qed.

Lemma task_iter_system_witness :
  let recs := seq_records (pass demo_tasks [zero_info] []).2 in
  run_text recs =
    ["Task Info. Pid: 1. Process Name: systemd. Kernel Stack Len: 2. State: INTERRUPTIBLE" +:+ newline;
     "Error getting kernel stack for task. Task Info. Pid: 70. Process Name: kworker/0:1." +:+
     " Kernel Stack Error: 0. State: IDLE" +:+ newline] ∧
  safe (both (sys_with printable loads) output)
    (fun code s => (s.1.1 = ∅ ∧ 0 ≤ code) ∧
       (delivered s.2 `prefix_of` recs →
        Forall2 describes (take (length (delivered s.2)) demo_tasks) (delivered s.2) ∧
        Some <$> written s.2 = task_text <$> take (length (delivered s.2)) demo_tasks))
    main ((∅, None), []).
Proof.
  cbv zeta. split; [vm_compute; reflexivity|].
  apply (task_iter_system demo_tasks [zero_info] [] (fun _ => True) zero_info None).
  - by intros s e _.
  - done.
  - done.
  - reflexivity.
  - apply zero_info_printable.
  - repeat (apply Forall_cons_2; [split; [apply mk_task_ok; unfold is_s; lia|apply nul_str_bytes]|]).
    constructor.
Defined.
