(* ===== verification/Minimal.v ===== *)
(** * minimal, minimal_ns and minimal_legacy

    Three versions of the smallest program: the kernel side reports the
    [write] calls of one process, the user side starts it and triggers it
    once a second for ever ([minimal*.bpf.c], [minimal*.c]). *)
From S2P Require Import Prelude Interaction CInt CFormat BpfKernel UserSpace.
From ITree Require Import ITree.
Local Open Scope Z_scope.

(** ** Kernel side

    A handler yields what it sends to the trace pipe, if anything, and its
    return code. *)
Definition traced (pid : Z) : string := "BPF triggered from PID " +:+ dec pid +:+ "." +:+ newline.

Module MinimalBpf.
Definition handle_tp (my_pid : Z) (k : kctx) : option string * Z :=
  let pid := pid_of k in
  if negb (pid =? my_pid) then (None, 0)
  else (Some (traced pid), 0).
End MinimalBpf.

(** [struct bpf_pidns_info] of the kernel: the thread and the process id of
    the current task in a namespace. *)
Record pidns_info := PidnsInfo { ns_pid : Z; ns_tgid : Z }.

Module MinimalNsBpf.
(** [bpf_get_ns_current_pid_tgid (dev, ino, &ns, sizeof (ns))]: its code and
    the [ns] it leaves; the program does not look at the code. *)
Definition handle_tp (my_pid dev ino : Z) (get_ns : Z → Z → Z * pidns_info) : option string * Z :=
  let ns := (get_ns dev ino).2 in
  if negb (ns_pid ns =? u32 my_pid) then (None, 0)
  else (Some (traced (s32 (ns_pid ns))), 0).
End MinimalNsBpf.

Module MinimalLegacyBpf.
Definition handle_tp {A} `{BpfArray A Z} (my_pid_map : A) (k : kctx) : option string * Z :=
  let pid := pid_of k in
  match array_lookup my_pid_map 0 with
  | None => (None, 1)
  | Some my_pid =>
      if negb (my_pid =? pid) then (None, 1)
      else (Some (traced pid), 0)
  end.
End MinimalLegacyBpf.

(** ** User side *)

Abbreviation prog := (itree (sysE Empty_set)).

(** [libbpf_print_fn], the same in every program without a verbose option:
    what goes to stderr of a message of the library, and the code. *)
Definition libbpf_print_fn (level : Z) (text : string) : string * Z :=
  (text, Z.of_nat (String.length text)).

(** [for (;;) { fprintf (stderr, "."); sleep (1); }] *)
Definition forever : prog Z :=
  ITree.iter (fun _ : unit => ask (Stderr ".") ;;; ask (Sleep 1) ;;; Ret (inl tt)) tt.

Definition started (program : string) : string :=
  "Successfully started! Please run `sudo cat /sys/kernel/debug/tracing/trace_pipe` " +:+
  "to see output of the BPF " +:+ program +:+ "." +:+ newline.

(** [cleanup: X_bpf__destroy (skel); return -err;] *)
Definition cleanup (skel : ptr) (err : Z) : prog Z :=
  ask (SkelDestroy skel) ;;; Ret (- err).

(** Attach and run, the common end of the three programs. *)
Definition attach_forever (skel : ptr) : prog Z :=
  let* err := ask (SkelAttach skel) in
  if negb (err =? 0) then
    ask (Stderr ("Failed to attach BPF skeleton" +:+ newline)) ;;;
    cleanup skel err
  else
    ask (Stdout (started "programs")) ;;;
    forever.

Definition load_and_run (skel : ptr) : prog Z :=
  let* err := ask (SkelLoad skel) in
  if negb (err =? 0) then
    ask (Stderr ("Failed to load and verify BPF skeleton" +:+ newline)) ;;;
    cleanup skel err
  else attach_forever skel.

Definition minimal_main : prog Z :=
  ask SetPrint ;;;
  let* skel := ask SkelOpen in
  if skel =? 0 then
    ask (Stderr ("Failed to open BPF skeleton" +:+ newline)) ;;; Ret 1
  else
    let* pid := ask GetPid in
    ask (SetBss skel "my_pid" pid) ;;;
    load_and_run skel.

Definition minimal_ns_main : prog Z :=
  ask SetPrint ;;;
  let* skel := ask SkelOpen in
  if skel =? 0 then
    ask (Stderr ("Failed to open BPF skeleton" +:+ newline)) ;;; Ret 1
  else
    let* sb := ask StatPidNs in
    match sb with
    | None => ask (Stderr "Failed to acquire namespace information") ;;; Ret 1
    | Some (st_dev, st_ino) =>
        ask (SetBss skel "dev" st_dev) ;;;
        ask (SetBss skel "ino" st_ino) ;;;
        let* pid := ask GetPid in
        ask (SetBss skel "my_pid" pid) ;;;
        load_and_run skel
    end.

Definition minimal_legacy_main : prog Z :=
  ask SetPrint ;;;
  let* skel := ask SkelOpenLoad in
  if skel =? 0 then
    ask (Stderr ("Failed to open and load BPF skeleton" +:+ newline)) ;;; Ret 1
  else
    let* pid := ask GetPid in
    let* err := ask (MapUpdate skel "my_pid_map" 0 pid) in
    if err <? 0 then
      let* msg := ask StrError in
      ask (Stderr ("Error updating map with pid: " +:+ msg +:+ newline)) ;;;
      cleanup skel err
    else attach_forever skel.

(** ** The three handlers *)

(** C29. The plain handler reports exactly the writes of the chosen process;
    the one that keeps the process id in a map agrees with it (and returns 1
    when it stays silent).  The namespace-aware one, when the helper succeeds
    in the initial namespace, where ids are the same, compares the thread id:
    it agrees with the plain one on writes of a main thread, and stays silent
    on the writes of the other threads of the chosen process, which the plain
    one reports. *)
Theorem minimal_variants_agree {A} `{BpfArray A Z} (my_pid_map : A) my_pid dev ino get_ns k :
  is_s 32 my_pid → array_lookup my_pid_map 0 = Some my_pid →
  get_ns dev ino = (0, PidnsInfo (u32 (tid_of k)) (u32 (pid_of k))) →
  let plain := MinimalBpf.handle_tp my_pid k in
  let legacy := MinimalLegacyBpf.handle_tp my_pid_map k in
  let ns := MinimalNsBpf.handle_tp my_pid dev ino get_ns in
  (is_Some plain.1 ↔ pid_of k = my_pid) ∧
  legacy.1 = plain.1 ∧ (legacy.2 = 0 ↔ pid_of k = my_pid) ∧
  (is_Some ns.1 ↔ tid_of k = my_pid) ∧
  (tid_of k = pid_of k → ns = plain) ∧
  (pid_of k = my_pid → tid_of k ≠ pid_of k → is_Some plain.1 ∧ ns.1 = None).
Proof.
  intros Hp Ha Hn. unfold MinimalBpf.handle_tp, MinimalLegacyBpf.handle_tp, MinimalNsBpf.handle_tp.
  rewrite Ha, Hn. cbn [snd ns_pid].
  assert (is_s 32 (tid_of k)) as Hk by auto with cmem.
  assert ((u32 (tid_of k) =? u32 my_pid) = (tid_of k =? my_pid)) as ->.
  { apply eq_true_iff_eq. rewrite !Z.eqb_eq. unfold u32. rewrite <-swrap_eq_iff by done.
    by rewrite !swrap_small. }
  unfold s32, u32. rewrite swrap_wrap, swrap_small by done. rewrite (Z.eqb_sym my_pid).
  destruct (Z.eqb_spec (pid_of k) my_pid) as [Ep|Ep], (Z.eqb_spec (tid_of k) my_pid) as [Et|Et];
    cbn; split_and!; try done; try (split; try done; by intros [? ?]);
    intros; try (by split); congruence.
Qed.

(** A main thread, and another thread of the same process. *)
Lemma minimal_variants_agree_witness :
  let get_ns (t : Z) (_ _ : Z) := (0, PidnsInfo t 77) in
  MinimalNsBpf.handle_tp 77 3 5 (get_ns 77) =
    (Some ("BPF triggered from PID 77." +:+ newline), 0) ∧
  MinimalNsBpf.handle_tp 77 3 5 (get_ns 77) =
    MinimalBpf.handle_tp 77 (mk_kctx 77 77 0 1 0 "cat" "") ∧
  (is_Some (MinimalBpf.handle_tp 77 (mk_kctx 77 78 0 1 0 "cat" "")).1 ∧
   (MinimalNsBpf.handle_tp 77 3 5 (get_ns 78)).1 = None).
Proof.
  cbv zeta. split; [vm_compute; reflexivity|]. split.
  - apply (minimal_variants_agree [77] 77 3 5 (fun _ _ => (0, PidnsInfo 77 77))
             (mk_kctx 77 77 0 1 0 "cat" ""));
      [unfold is_s; lia|reflexivity|vm_compute; reflexivity|vm_compute; reflexivity].
  - apply (minimal_variants_agree [77] 77 3 5 (fun _ _ => (0, PidnsInfo 78 77))
             (mk_kctx 77 78 0 1 0 "cat" ""));
      [unfold is_s; lia|reflexivity|vm_compute; reflexivity|vm_compute; reflexivity
      |vm_compute; discriminate].
Defined.

(** ** The three programs *)

Definition no_record (e : Empty_set) : Prop := True.

(** Return after a failed call. *)
Ltac failed_exit :=
  apply safe_ret; split; [lia|]; split; [cbn [fst]; live_eq|];
  match goal with
  | H : _ _ ?e ?x |- _ => solve [eexists _, e, x; split; [exact H|cbn; lia]]
  end.

Section Mains.
Context (good : ∀ X, sysE Empty_set X → X → Prop).
Implicit Types (n : option nat).

Lemma forever_safe Q m n : safe (sys_with no_record good) Q forever (m, n).
Proof.
  apply (safe_iter _ (fun _ _ => True)); [|done]. intros _ [m' n'] _.
  sys_run. by apply safe_ret.
Qed.

(** A program that holds just its skeleton leaves with nothing held and a
    positive code, and only when a call failed. *)
Lemma attach_forever_safe skel n :
  safe (sys_with no_record good)
    (fun code s => 0 < code ∧ s.1 = ∅ ∧ ∃ X (e : sysE Empty_set X) x, good X e x ∧ ¬ happy X e x)
    (attach_forever skel) (<[(KSkel, skel) := Loaded]> ∅, n).
Proof.
  unfold attach_forever. sys_call err Herr. unfold status in Herr.
  destruct (Z.eqb_spec err 0) as [->|He]; cbn [negb]; live_norm.
  - sys_call u Hu. apply forever_safe.
  - unfold cleanup. sys_run. failed_exit.
Qed.

Lemma load_and_run_safe skel n :
  safe (sys_with no_record good)
    (fun code s => 0 < code ∧ s.1 = ∅ ∧ ∃ X (e : sysE Empty_set X) x, good X e x ∧ ¬ happy X e x)
    (load_and_run skel) (<[(KSkel, skel) := Opened]> ∅, n).
Proof.
  unfold load_and_run. sys_call err Herr. unfold status in Herr.
  destruct (Z.eqb_spec err 0) as [->|He]; cbn [negb]; live_norm; [apply attach_forever_safe|].
  unfold cleanup. sys_run. failed_exit.
Qed.
End Mains.

Definition programs : list (prog Z) := [minimal_main; minimal_ns_main; minimal_legacy_main].

(** Environments in which [stat ("/proc/self/ns/pid")] succeeds. *)
Definition stat_works X (e : sysE Empty_set X) : X → Prop :=
  match e in sysE _ X return X → Prop with
  | StatPidNs => fun o => is_Some o
  | _ => fun _ => True
  end.

Lemma programs_safe (good : ∀ X, sysE Empty_set X → X → Prop) n :
  (∀ o, good _ StatPidNs o → is_Some o) →
  Forall (fun p => safe (sys_with no_record good)
    (fun code s => 0 < code ∧ s.1 = ∅ ∧
                   ∃ X (e : sysE Empty_set X) x, good X e x ∧ ¬ happy X e x) p (∅, n)) programs.
Proof.
  intros Hstat. repeat apply Forall_cons_2; [| | |constructor].
  - unfold minimal_main. sys_call u Hu. sys_call skel Hs.
    destruct (Z.eqb_spec skel 0) as [->|]; live_norm;
      [sys_call v Hv; failed_exit|].
    sys_run. apply load_and_run_safe.
  - unfold minimal_ns_main. sys_call u Hu. sys_call skel Hs.
    destruct (Z.eqb_spec skel 0) as [->|]; live_norm;
      [sys_call v Hv; failed_exit|].
    sys_call sb Hsb. destruct (Hstat sb ltac:(done)) as [[d i] ->].
    sys_run. apply load_and_run_safe.
  - unfold minimal_legacy_main. sys_call u Hu. sys_call skel Hs.
    destruct (Z.eqb_spec skel 0) as [->|]; live_norm;
      [sys_call v Hv; failed_exit|].
    sys_call pid Hpid. sys_call err Herr. unfold status in Herr.
    destruct (Z.ltb_spec err 0); [|apply attach_forever_safe].
    unfold cleanup. sys_run. failed_exit.
Qed.

(** C30. Resource safety of the three programs in every environment in which
    the namespace file can be examined: the process id (and the namespace)
    are stored only in a skeleton that exists or in the map of a loaded one,
    calls come in the order the library requires, and a program that returns
    has released its skeleton and reports a positive code. *)
Theorem minimal_mains_safe n :
  Forall (fun p => safe (sys_with no_record stat_works) (fun code s => 0 < code ∧ s.1 = ∅) p (∅, n))
    programs.
Proof.
  eapply Forall_impl; [apply (programs_safe stat_works n); by intros o|].
  cbn. intros p Hp. eapply safe_conseq; [exact Hp|]. by intros code s (? & ? & _).
Qed.

(** When nothing fails the three programs trigger for ever: they return
    on no run. *)
Theorem minimal_mains_never_return n :
  Forall (fun p => safe (sys_with no_record happy) (fun _ _ => False) p (∅, n)) programs.
Proof.
  eapply Forall_impl; [apply (programs_safe happy n); by intros o|].
  cbn. intros p Hp. eapply safe_conseq; [exact Hp|]. by intros code s (_ & _ & X & e & x & ? & ?).
Qed.

(** When the namespace file cannot be examined, [minimal_ns] returns with its
    skeleton still open. *)
Definition no_namespace X (e : sysE Empty_set X) (w : world Empty_set) : X * world Empty_set :=
  match e in sysE _ X return X * world Empty_set → X * world Empty_set with
  | StatPidNs => fun r => (None, r.2)
  | _ => fun r => r
  end (answer X e w).

Example minimal_ns_leaks_skeleton :
  ∃ w, exec (sys no_record) no_namespace 10 minimal_ns_main (World 3 0 [] [] []) (∅, None)
       = Done 1 w (<[(KSkel, 3) := Opened]> ∅, None).
Proof. eexists. vm_compute. reflexivity. Qed.
