(* ===== verification/Tracing.v ===== *)
(** * The probe examples: fentry, kprobe, ksyscall, uprobe, usdt and lsm

    Kernel sides that report to the trace pipe, and the programs that load
    and attach them. *)
From S2P Require Import Prelude Interaction CInt CFormat BpfKernel UserSpace Minimal.
From ITree Require Import ITree.
Local Open Scope Z_scope.

(** ** Kernel sides

    A handler yields what it sends to the trace pipe, if anything, and its
    return code.  Strings the kernel holds at a pointer argument are given as
    strings. *)
Module FentryBpf.
Definition do_unlinkat (k : kctx) (name : string) : option string * Z :=
  (Some ("fentry: pid = " +:+ dec (pid_of k) +:+ ", filename = " +:+ name +:+ newline), 0).

Definition do_unlinkat_exit (k : kctx) (name : string) (ret : Z) : option string * Z :=
  (Some ("fexit: pid = " +:+ dec (pid_of k) +:+ ", filename = " +:+ name +:+
         ", ret = " +:+ dec ret +:+ newline), 0).
End FentryBpf.

Module KprobeBpf.
Definition do_unlinkat (k : kctx) (filename : string) : option string * Z :=
  (Some ("KPROBE ENTRY pid = " +:+ dec (pid_of k) +:+ ", filename = " +:+ filename +:+ newline), 0).

Definition do_unlinkat_exit (k : kctx) (ret : Z) : option string * Z :=
  (Some ("KPROBE EXIT: pid = " +:+ dec (pid_of k) +:+ ", ret = " +:+ dec ret +:+ newline), 0).
End KprobeBpf.

Module KsyscallBpf.
Definition TASK_COMM_LEN : nat := 16.

Definition tgkill_entry (k : kctx) (tgid tid sig : Z) : option string * Z :=
  let caller_pid := u32 (Z.shiftr (k_pid_tgid k) 32) in
  if sig =? 0 then (None, 0)
  else
    let comm := (k_comm k TASK_COMM_LEN).2 in
    (Some ("tgkill syscall called by PID " +:+ dec (s32 caller_pid) +:+ " (" +:+ text_of comm +:+
           ") for thread id " +:+ dec tid +:+ " with pid " +:+ dec tgid +:+ " and signal " +:+
           dec sig +:+ "."), 0).

Definition entry_probe (k : kctx) (pid sig : Z) : option string * Z :=
  let caller_pid := u32 (Z.shiftr (k_pid_tgid k) 32) in
  if sig =? 0 then (None, 0)
  else
    let comm := (k_comm k TASK_COMM_LEN).2 in
    (Some ("KILL syscall called by PID " +:+ dec (s32 caller_pid) +:+ " (" +:+ text_of comm +:+
           ") for PID " +:+ dec pid +:+ " with signal " +:+ dec sig +:+ "."), 0).
End KsyscallBpf.

Module UprobeBpf.
Definition uprobe_add (a b : Z) : option string * Z :=
  (Some ("uprobed_add ENTRY: a = " +:+ dec a +:+ ", b = " +:+ dec b), 0).
Definition uretprobe_add (ret : Z) : option string * Z :=
  (Some ("uprobed_add EXIT: return = " +:+ dec ret), 0).
Definition uprobe_sub (a b : Z) : option string * Z :=
  (Some ("uprobed_sub ENTRY: a = " +:+ dec a +:+ ", b = " +:+ dec b), 0).
Definition uretprobe_sub (ret : Z) : option string * Z :=
  (Some ("uprobed_sub EXIT: return = " +:+ dec ret), 0).
End UprobeBpf.

Module UsdtBpf.
Definition usdt_auto_attach (my_pid : Z) (k : kctx) (arg1 arg2 arg3 : Z) : option string * Z :=
  if negb (pid_of k =? my_pid) then (None, 0)
  else (Some ("USDT auto attach to libc:setjmp: arg1 = " +:+ hex arg1 +:+ ", arg2 = " +:+
              dec arg2 +:+ ", arg3 = " +:+ hex arg3), 0).
Definition usdt_manual_attach (arg1 arg2 arg3 : Z) : option string * Z :=
  (Some ("USDT manual attach to libc:setjmp: arg1 = " +:+ hex arg1 +:+ ", arg2 = " +:+
         dec arg2 +:+ ", arg3 = " +:+ hex arg3), 0).
End UsdtBpf.

Module LsmBpf.
Definition EPERM : Z := 1.
Definition lsm_bpf (ret : Z) : option string * Z :=
  if negb (ret =? 0) then (None, ret)
  else (Some "LSM: block bpf() worked"%string, - EPERM).
End LsmBpf.

(** ** fentry, kprobe, ksyscall: the programs

    The three [main] functions are the same code over their skeletons. *)

(** [while (!stop) { fprintf (stderr, "."); sleep (1); }] *)
Definition wait_body (_ : unit) : prog (unit + unit) :=
  let* stop := ask ReadFlag in
  if (stop : bool) then Ret (inr tt)
  else ask (Stderr ".") ;;; ask (Sleep 1) ;;; Ret (inl tt).

Definition attach_and_wait : prog Z :=
  ask SetPrint ;;;
  let* skel := ask SkelOpenLoad in
  if skel =? 0 then
    ask (Stderr ("Failed to open BPF skeleton" +:+ newline)) ;;; Ret 1
  else
    let* err := ask (SkelAttach skel) in
    if negb (err =? 0) then
      ask (Stderr ("Failed to attach BPF skeleton" +:+ newline)) ;;;
      cleanup skel err
    else
      let* ok := ask (Signal 2) in
      if negb (ok : bool) then
        let* msg := ask StrError in
        ask (Stderr ("can't set signal handler: " +:+ msg +:+ newline)) ;;;
        cleanup skel err
      else
        ask (Stdout (started "programs")) ;;;
        ITree.iter wait_body tt ;;;
        cleanup skel err.

Definition fentry_main : prog Z := attach_and_wait.
Definition kprobe_main : prog Z := attach_and_wait.
Definition ksyscall_main : prog Z := attach_and_wait.

(** ** uprobe: the program *)

Definition is_int (x : Z) : bool := (- 2 ^ 31 <=? x) && (x <? 2 ^ 31).

(** The value of an [int] expression; overflow is undefined. *)
Definition as_int {X} (x : Z) (k : Z → prog X) : prog X := if is_int x then k x else undefined.

Definition uprobed_add (a b : Z) : prog Z := as_int (a + b) (fun r => Ret r).
Definition uprobed_sub (a b : Z) : prog Z := as_int (a - b) (fun r => Ret r).

(** One round of [for (i = 0;; i++)]. *)
Definition trigger_body (i : Z) : prog (Z + Z) :=
  ask (Stderr ".") ;;;
  as_int (i + 1) (fun i1 =>
    uprobed_add i i1 ;;;
    as_int (i * i) (fun sq =>
      uprobed_sub sq i ;;;
      ask (Sleep 1) ;;;
      as_int (i + 1) (fun i' => Ret (inl i')))).

Definition uprobe_main : prog Z :=
  ask SetPrint ;;;
  let* skel := ask SkelOpenLoad in
  if skel =? 0 then
    ask (Stderr ("Failed to open and load BPF skeleton" +:+ newline)) ;;; Ret 1
  else
    let* l1 := ask (AttachUprobe skel "uprobe_add" "uprobed_add" false 0) in
    if l1 =? 0 then
      let* errno := ask GetErrno in
      ask (Stderr ("Failed to attach uprobe: " +:+ dec (- errno) +:+ newline)) ;;;
      cleanup skel (- errno)
    else
      let* l2 := ask (AttachUprobe skel "uretprobe_add" "uprobed_add" true (-1)) in
      if l2 =? 0 then
        let* errno := ask GetErrno in
        ask (Stderr ("Failed to attach uprobe: " +:+ dec (- errno) +:+ newline)) ;;;
        cleanup skel (- errno)
      else
        let* err := ask (SkelAttach skel) in
        if negb (err =? 0) then
          ask (Stderr ("Failed to auto-attach BPF skeleton: " +:+ dec err +:+ newline)) ;;;
          cleanup skel err
        else
          ask (Stdout (started "programs")) ;;;
          ITree.iter trigger_body 0.

(** ** usdt: the program *)

(** [setjmp (env)]: called directly it answers 0; it fires the probe. *)
Definition usdt_trigger : prog unit := ask SetJmp ;;; Ret tt.

Definition usdt_body (_ : unit) : prog (unit + unit) :=
  let* exiting := ask ReadFlag in
  if (exiting : bool) then Ret (inr tt)
  else
    usdt_trigger ;;;
    ask (Stderr ".") ;;;
    ask (Sleep 1) ;;;
    Ret (inl tt).

Definition usdt_main : prog Z :=
  ask SetPrint ;;;
  let* skel := ask SkelOpen in
  if skel =? 0 then
    ask (Stderr ("Failed to open BPF skeleton" +:+ newline)) ;;; Ret 1
  else
    let* pid := ask GetPid in
    ask (SetBss skel "my_pid" pid) ;;;
    let* err := ask (SkelLoad skel) in
    if skel =? 0 then
      ask (Stderr ("Failed to load BPF skeleton" +:+ newline)) ;;; Ret 1
    else
      let* pid := ask GetPid in
      let* link := ask (AttachUsdt skel "usdt_manual_attach" pid) in
      if link =? 0 then
        let* errno := ask GetErrno in
        ask (Stderr ("Failed to attach BPF program `usdt_manual_attach`" +:+ newline)) ;;;
        cleanup skel errno
      else
        let* err := ask (SkelAttach skel) in
        if negb (err =? 0) then
          ask (Stderr ("Failed to attach BPF skeleton" +:+ newline)) ;;;
          cleanup skel err
        else
          let* ok := ask (Signal 2) in
          if negb (ok : bool) then
            let* errno := ask GetErrno in
            let* msg := ask StrError in
            ask (Stderr ("can't set signal handler: " +:+ msg +:+ newline)) ;;;
            cleanup skel errno
          else
            ask (Stdout (started "programs")) ;;;
            ITree.iter usdt_body tt ;;;
            cleanup skel err.

(** ** lsm: the program; [None] is an [err] that was never assigned *)

Definition lsm_cleanup (skel : ptr) (err : option Z) : prog Z :=
  ask (SkelDestroy skel) ;;;
  match err with Some e => Ret (- e) | None => undefined end.

Definition lsm_main : prog Z :=
  ask SetPrint ;;;
  let* skel := ask SkelOpenLoad in
  if skel =? 0 then
    ask (Stderr ("Failed to open and load BPF skeleton" +:+ newline)) ;;;
    lsm_cleanup skel None
  else
    let* err := ask (SkelAttach skel) in
    if negb (err =? 0) then
      ask (Stderr ("Failed to attach BPF skeleton" +:+ newline)) ;;;
      lsm_cleanup skel (Some err)
    else
      ask (Stdout (started "programs")) ;;;
      forever.

(** ** The kernel sides *)

(** The hooks of a chain of [bpf] security programs, each given the verdict
    of the one before. *)
Definition chain (hooks : list (Z → Z)) (ret : Z) : Z := fold_left (fun r h => h r) hooks ret.

Lemma chain_app a b ret : chain (a ++ b) ret = chain b (chain a ret).
Proof. apply fold_left_app. Qed.

(** The security hook never allows [bpf ()]: wherever it stands in a
    chain, the verdict it passes on is an error, an earlier refusal is passed
    on unchanged, and it reports to the trace pipe exactly when the refusal
    is its own. *)
Theorem lsm_never_allows before ret :
  let verdict := chain (before ++ [fun r => (LsmBpf.lsm_bpf r).2]) ret in
  verdict ≠ 0 ∧ (chain before ret ≠ 0 → verdict = chain before ret) ∧
  (is_Some (LsmBpf.lsm_bpf (chain before ret)).1 ↔ chain before ret = 0).
Proof.
  cbn zeta. rewrite chain_app. cbn. unfold LsmBpf.lsm_bpf.
  destruct (Z.eqb_spec (chain before ret) 0) as [->|H]; cbn; split_and!; try done.
Qed.

Lemma lsm_never_allows_witness :
  chain [(fun r => if r =? 0 then -13 else r)] 0 ≠ 0 ∧
  chain ([(fun r => if r =? 0 then -13 else r)] ++ [fun r => (LsmBpf.lsm_bpf r).2]) 0 = -13.
Proof.
  split; [discriminate|].
  apply (lsm_never_allows [(fun r => if r =? 0 then -13 else r)] 0). discriminate.
Defined.

(** The system call probes are silent for signal 0 and otherwise report
    the caller, its command name, the target and the signal. *)
Theorem ksyscall_reports k pid tid tgid sig c :
  kctx_ok k → cstr (k_comm k 16).2 = Some c →
  KsyscallBpf.entry_probe k pid sig =
    (if decide (sig = 0) then None else
       Some ("KILL syscall called by PID " +:+ dec (pid_of k) +:+ " (" +:+ c +:+ ") for PID " +:+
             dec pid +:+ " with signal " +:+ dec sig +:+ "."), 0) ∧
  KsyscallBpf.tgkill_entry k tgid tid sig =
    (if decide (sig = 0) then None else
       Some ("tgkill syscall called by PID " +:+ dec (pid_of k) +:+ " (" +:+ c +:+
             ") for thread id " +:+ dec tid +:+ " with pid " +:+ dec tgid +:+ " and signal " +:+
             dec sig +:+ "."), 0).
Proof.
  intros Hk Hc. unfold KsyscallBpf.entry_probe, KsyscallBpf.tgkill_entry, KsyscallBpf.TASK_COMM_LEN.
  rewrite (text_of_cstr _ _ Hc).
  assert (s32 (u32 (Z.shiftr (k_pid_tgid k) 32)) = pid_of k) as ->.
  { unfold pid_of, s32, u32. by apply swrap_wrap. }
  destruct (Z.eqb_spec sig 0); [rewrite !decide_True|rewrite !decide_False]; done.
Qed.

Lemma ksyscall_reports_witness :
  KsyscallBpf.entry_probe (mk_kctx 9 9 0 1 0 "bash" "") 42 15 =
    (Some "KILL syscall called by PID 9 (bash) for PID 42 with signal 15."%string, 0).
Proof.
  apply (ksyscall_reports (mk_kctx 9 9 0 1 0 "bash" "") 42 0 0 15 "bash").
  - apply mk_kctx_ok; unfold is_u, is_s; lia.
  - reflexivity.
Defined.

(** ** The programs *)

Section Mains.
Context (good : ∀ X, sysE Empty_set X → X → Prop).
Implicit Types (n : option nat) (m : live).

Lemma wait_round m :
  flag_round no_record good wait_body m (fun _ => True) (fun _ => True).
Proof.
  eapply (flag_round_read _ _ _ _ _ _ (fun _ => tt)); [reflexivity|done|]. intros [] n _ Hn.
  apply ends_call; [done|]. intros ? _ _ _. apply ends_call; [done|]. intros ? _ _ _.
  by apply ends_Ret.
Qed.

Lemma usdt_round m :
  flag_round no_record good usdt_body m (fun _ => True) (fun _ => True).
Proof.
  eapply (flag_round_read _ _ _ _ _ _ (fun _ => tt)); [reflexivity|done|]. intros [] n _ Hn.
  eapply ends_bind; [apply ends_call; [done|]; intros ? _ _ _; by apply (ends_Ret _ (fun _ s => s = (m, pred <$> n)))|].
  intros _ s ->. apply ends_call; [done|]. intros ? _ _ _. apply ends_call; [done|]. intros ? _ _ _.
  by apply ends_Ret.
Qed.

Lemma usdt_loop_ends m (n : nat) :
  ends (sys_with no_record good) (fun _ s => s.1 = m ∧ True) (ITree.iter usdt_body tt) (m, Some n).
Proof. by apply (flag_loop_ends no_record good usdt_body m (fun _ => True) (fun _ => True)), I; apply usdt_round. Qed.

Lemma wait_loop_ends m (n : nat) :
  ends (sys_with no_record good) (fun _ s => s.1 = m ∧ True) (ITree.iter wait_body tt) (m, Some n).
Proof. by apply (flag_loop_ends no_record good wait_body m (fun _ => True) (fun _ => True)), I; apply wait_round. Qed.

Definition left_clean (code : Z) (s : ustate) : Prop := s.1 = ∅ ∧ 0 ≤ code.

Lemma cleanup_clean skel st err n :
  err ≤ 0 →
  ends (sys_with no_record good) left_clean (cleanup skel err) (<[(KSkel, skel) := st]> ∅, n).
Proof.
  intros He. unfold cleanup. sys_run. apply ends_Ret. split; [cbn [fst]; live_eq|lia].
Qed.
End Mains.

Definition probe_mains : list (prog Z) := [fentry_main; kprobe_main; ksyscall_main].

Lemma attach_and_wait_ends n : ends (sys no_record) left_clean attach_and_wait (∅, Some n).
Proof.
  unfold attach_and_wait; sys_run; bool_facts; unfold status in *;
    try first [by apply ends_Ret | by apply cleanup_clean; lia].
  eapply ends_bind; [apply wait_loop_ends|].
  intros [] [m' n'] [E _]. cbn in E. subst m'. apply cleanup_clean. lia.
Qed.

Lemma attach_and_wait_safe o : safe (sys no_record) left_clean attach_and_wait (∅, o).
Proof.
  apply (safe_any_signal _ _ (fun code m => m = ∅ ∧ 0 ≤ code)). intros n. apply attach_and_wait_ends.
Qed.

(** C27. fentry, kprobe and ksyscall: on every run, also one that never ends,
    calls come in the order the library requires and a return leaves nothing
    behind and a non-negative code; and when the signal flag is seen set
    after at most [n] reads the programs do return so. *)
Theorem probe_mains_end o n :
  Forall (fun p => safe (sys no_record) left_clean p (∅, o) ∧
                   ends (sys no_record) left_clean p (∅, Some n)) probe_mains.
Proof.
  repeat (apply Forall_cons_2; [split; [apply attach_and_wait_safe|apply attach_and_wait_ends]|]).
  constructor.
Qed.

(** A program watched until it has slept [n] times: the next [sleep] gets no
    answer. *)
Definition for_sleeps : protocol (sysE Empty_set) nat :=
  Protocol
    (fun X e n => true)
    (fun X e n x => match e with Sleep _ => (0 < n)%nat | _ => True end)
    (fun X e x n => match e with Sleep _ => pred n | _ => n end).

Abbreviation watched := (both (sys no_record) for_sleeps).

(** The arithmetic of a round fits an [int] up to counter 46340. *)
Lemma round_fits i :
  0 ≤ i ≤ 46340 →
  is_int (i + 1) = true ∧ is_int (i + (i + 1)) = true ∧ is_int (i * i) = true ∧
  is_int (i * i - i) = true.
Proof. intros Hi. unfold is_int. split_and!; nia. Qed.

Lemma trigger_body_fits i :
  0 ≤ i ≤ 46340 →
  trigger_body i =
    (ask (Stderr ".") ;;; Ret (i + (i + 1)) ;;; Ret (i * i - i) ;;; ask (Sleep 1) ;;; Ret (inl (i + 1))).
Proof.
  intros Hi. destruct (round_fits i Hi) as (E1 & E2 & E3 & E4).
  unfold trigger_body, uprobed_add, uprobed_sub, as_int. by rewrite E1, E2, E3, E4.
Qed.

Lemma trigger_loop_safe Q m o (n : nat) i :
  0 ≤ i → i + Z.of_nat n ≤ 46340 →
  safe watched Q (ITree.iter trigger_body i) ((m, o), n).
Proof.
  intros Hi Hn.
  apply (safe_iter _ (fun j s => s.1 = (m, o) ∧ 0 ≤ j ∧ j + Z.of_nat s.2 ≤ 46340)); [|done].
  clear i n Hi Hn. intros i [s n] (E & Hi & Hn). cbn [fst snd] in *. subst s.
  rewrite trigger_body_fits by lia. apply safe_call_both; [done..|]. intros ? _ _.
  eapply safe_bind; [by apply (safe_ret _ (fun _ s => s = ((m, o), n)))|]. intros _ s ->.
  eapply safe_bind; [by apply (safe_ret _ (fun _ s => s = ((m, o), n)))|]. intros _ s ->.
  apply safe_call_both; [done..|]. intros ? _ Hs. cbn in Hs. apply safe_ret. cbn.
  split; [done|]. lia.
Qed.

Lemma trigger_loop_breaks m o (n : nat) i :
  0 ≤ i ≤ 46341 → 46341 ≤ i + Z.of_nat n →
  breaks watched (ITree.iter (E := sysE Empty_set) (R := Z) trigger_body i) ((m, o), n).
Proof.
  intros Hi Hn. remember (Z.to_nat (46341 - i)) as k eqn:Hk. revert i n Hi Hn Hk.
  induction k as [|k IH]; intros i n Hi Hn Hk.
  - assert (i = 46341) as -> by lia. apply breaks_iter_body. unfold trigger_body.
    eapply reaches_breaks; [by apply (reaches_trigger _ _ _ tt)|].
    unfold uprobed_add, as_int.
    replace (is_int (46341 + 1)) with true by reflexivity.
    replace (is_int (46341 + (46341 + 1))) with true by reflexivity.
    replace (is_int (46341 * 46341)) with false by reflexivity.
    eapply reaches_breaks; [by apply reaches_ret|]. apply breaks_bind. by eapply breaks_now.
  - apply (breaks_iter _ _ i (i + 1) _ ((m, o), pred n)); [|apply IH; lia].
    rewrite trigger_body_fits by lia.
    eapply reaches_bind; [by apply (reaches_trigger _ _ _ tt)|].
    eapply reaches_bind; [by apply reaches_ret|]. eapply reaches_bind; [by apply reaches_ret|].
    eapply reaches_bind; [apply (reaches_trigger _ _ _ tt); [done|split; [done|cbn; lia]]|].
    by apply reaches_ret.
Qed.

Lemma uprobe_main_safe o n :
  (n ≤ Z.to_nat 46340)%nat →
  safe watched (fun code s => s.1.1 = ∅ ∧ 0 < code) uprobe_main ((∅, o), n).
Proof.
  intros Hn. unfold uprobe_main, cleanup.
  repeat first
    [ sys_branch
    | apply trigger_loop_safe; lia
    | apply safe_call_both; [live_pre|done|]; intros ? ? _; cbn [sys_resp sys_post tick post for_sleeps] in *; live_norm
    | apply safe_ret; cbn [fst]; bool_facts; unfold status in *; split; [live_eq|lia] ].
Qed.

(** C28. How long uprobe can run: until it has slept 46340 times, in every
    environment, all calls come in the order the library requires, no
    arithmetic overflows, and a return leaves nothing behind; with one more
    second the square of the counter does not fit an [int] and some
    environment makes the behaviour undefined. *)
Theorem uprobe_time_limit o n :
  let Q (code : Z) (s : ustate * nat) := s.1.1 = ∅ ∧ 0 < code in
  (n ≤ Z.to_nat 46340)%nat ↔ safe watched Q uprobe_main ((∅, o), n).
Proof.
  cbn zeta. split; [apply uprobe_main_safe|]. intros Hs. apply Nat.nlt_ge. intros Hn.
  revert Hs. apply breaks_not_safe. unfold uprobe_main.
  eapply reaches_breaks; [by apply (reaches_trigger _ _ _ tt)|].
  eapply reaches_breaks; [apply (reaches_trigger _ _ _ 1); [done|]; by repeat split; right|].
  eapply reaches_breaks; [apply (reaches_trigger _ _ _ 1); [done|]; by repeat split|].
  eapply reaches_breaks; [apply (reaches_trigger _ _ _ 1); [done|]; by repeat split|].
  eapply reaches_breaks; [apply (reaches_trigger _ _ _ 0); [done|]; by repeat split|].
  eapply reaches_breaks; [by apply (reaches_trigger _ _ _ tt)|].
  cbn [post both sys_with sys_post tick for_sleeps fst snd]. apply trigger_loop_breaks; lia.
Qed.

(** Environments in which loading succeeds. *)
Definition usdt_loads X (e : sysE Empty_set X) : X → Prop :=
  match e in sysE _ X return X → Prop with
  | SkelLoad _ => fun x => x = 0
  | _ => fun _ => True
  end.

Lemma usdt_main_ends n :
  ends (sys_with no_record usdt_loads) (fun _ s => s.1 = ∅) usdt_main (∅, Some n).
Proof.
  unfold usdt_main, cleanup. sys_call u Hu. sys_call skel Hskel.
  destruct (Z.eqb_spec skel 0) as [->|Hs]; live_norm; [sys_run; by apply ends_Ret|].
  sys_call pid Hpid. sys_call v Hv. sys_call err Herr. cbn [usdt_loads] in Hg3. subst err.
  cbn [Z.eqb]. live_norm. sys_run.
  all: try (sys_run; apply ends_Ret; cbn [fst]; live_eq).
  eapply ends_bind; [apply usdt_loop_ends|].
  intros [] [m' n'] [E _]. cbn in E. subst m'. sys_run. apply ends_Ret. cbn [fst]. live_eq.
Qed.

(** C31. usdt: when loading succeeds every run follows the order the library
    requires, a return leaves nothing behind (the code is negative when
    attaching by hand or installing the handler failed), and it does return
    when the signal flag is seen set after at most [n] reads; when loading
    fails the unloaded program is used all the same, in every environment. *)
Theorem usdt_main_loaded o n :
  safe (sys_with no_record usdt_loads) (fun _ s => s.1 = ∅) usdt_main (∅, o) ∧
  ends (sys_with no_record usdt_loads) (fun _ s => s.1 = ∅) usdt_main (∅, Some n) ∧
  (∀ W (h : ∀ X, sysE Empty_set X → W → X * W) w,
     (∀ w, (h _ SkelOpen w).1 ≠ 0) → (∀ s w, (h _ (SkelLoad s) w).1 ≠ 0) →
     ∃ w' s', exec (sys no_record) h 7 usdt_main w (∅, o) = Broken w' s').
Proof.
  split; [apply (safe_any_signal _ _ (fun _ m => m = ∅)), usdt_main_ends|].
  split; [apply usdt_main_ends|].
  intros W h w Ho Hl. unfold usdt_main, ask. do 2 rewrite exec_call by done.
  cbn [post sys_with sys_post tick fst snd].
  rewrite !(proj2 (Z.eqb_neq _ 0)) by apply Ho. live_norm.
  rewrite exec_call by done. cbn [post sys_with sys_post tick fst snd].
  rewrite exec_call by (cbn [pre sys_with fst]; live_pre). cbn [post sys_with sys_post tick fst snd].
  rewrite exec_call by (cbn [pre sys_with fst]; live_pre). cbn [post sys_with sys_post tick fst snd].
  rewrite !(proj2 (Z.eqb_neq _ 0)) by first [apply Ho|apply Hl]. live_norm.
  rewrite exec_call by done. cbn [post sys_with sys_post tick fst snd].
  rewrite exec_broken; [eauto|]. cbn [pre sys_with sys_pre fst]. unfold at_stage.
  by rewrite lookup_insert_eq.
Qed.

Definition cannot_load X (e : sysE Empty_set X) (w : world Empty_set) : X * world Empty_set :=
  match e in sysE _ X return X * world Empty_set → X * world Empty_set with
  | SkelLoad _ => fun r => (-22, r.2)
  | SkelOpen => fun r => (9, r.2)
  | _ => fun r => r
  end (answer X e w).

Lemma usdt_main_loaded_witness :
  ∃ w' s', exec (sys no_record) cannot_load 7 usdt_main (World 3 0 [] [] []) (∅, None)
           = Broken w' s'.
Proof.
  apply (usdt_main_loaded None 0); [intros w; discriminate|intros s w; discriminate].
Defined.

(** [lsm] returns an unassigned [err] when it cannot be opened. *)
Example lsm_open_failure_undefined {W} (h : ∀ X, sysE Empty_set X → W → X * W) w n :
  (∀ w, (h _ SkelOpenLoad w).1 = 0) →
  ∃ w' s', exec (sys no_record) h 5 lsm_main w (∅, n) = Broken w' s'.
Proof.
  intros Ho. unfold lsm_main, lsm_cleanup, ask. do 2 rewrite exec_call by done.
  cbn [post sys_with sys_post tick fst snd]. rewrite !Ho. cbn [Z.eqb negb got].
  do 2 rewrite exec_call by done. cbn. eauto.
Qed.
