(* ===== verification/Tc.v ===== *)
(** * tc and xdp: programs on packets

    [tc.bpf.c] with its user side [tc.c], and the kernel side of the Rust
    example [xdppass.bpf.c]. *)
From S2P Require Import Prelude Interaction CInt CFormat BpfKernel UserSpace Minimal Tracing.
From ITree Require Import ITree.
Local Open Scope Z_scope.

Definition TC_ACT_OK : Z := 0.
Definition ETH_P_IP : Z := 0x0800.
Definition XDP_PASS : Z := 2.

(** Sizes and offsets of [struct ethhdr] and [struct iphdr]. *)
Definition sizeof_ethhdr : Z := 14.
Definition sizeof_iphdr : Z := 20.
Definition off_tot_len : Z := 2.
Definition off_ttl : Z := 8.

(** What the programs use of [struct __sk_buff] and [struct xdp_md]: the
    bounds of the packet in memory and its bytes. *)
Record md := Md { data : Z; data_end : Z; protocol : Z; bytes : list Z }.

(** The byte at an address; [None] outside the packet. *)
Definition byte_at (ctx : md) (addr : Z) : option Z :=
  if data ctx <=? addr then bytes ctx !! Z.to_nat (addr - data ctx) else None.

(** The handler's trace output and return code; [None] is an access outside
    the packet. *)
Definition tc_ingress (en : endian) (ctx : md) : option (option string * Z) :=
  if negb (protocol ctx =? htons en ETH_P_IP) then Some (None, TC_ACT_OK)
  else
    let l2 := data ctx in
    if data_end ctx <? l2 + sizeof_ethhdr then Some (None, TC_ACT_OK)
    else
      let l3 := l2 + sizeof_ethhdr in
      if data_end ctx <? l3 + sizeof_iphdr then Some (None, TC_ACT_OK)
      else
        b0 ← byte_at ctx (l3 + off_tot_len);
        b1 ← byte_at ctx (l3 + off_tot_len + 1);
        ttl ← byte_at ctx (l3 + off_ttl);
        Some (Some ("Got IP packet: tot_len: " +:+ dec (ntohs en (load en [b0; b1])) +:+
                    ", ttl: " +:+ dec ttl), TC_ACT_OK).

Definition xdp_pass (ctx : md) : option string * Z :=
  let pkt_sz := s32 (data_end ctx - data ctx) in
  (Some ("packet size: " +:+ dec pkt_sz), XDP_PASS).

(** ** The user side *)

Definition EEXIST : Z := 17.

Definition tc_cleanup (hook_created : bool) (skel : ptr) (err : Z) : prog Z :=
  (if hook_created then ask TcHookDestroy ;;; Ret tt else Ret tt) ;;;
  ask (SkelDestroy skel) ;;;
  Ret (- err).

(** From the attachment of the program on. *)
Definition tc_run (hook_created : bool) (skel : ptr) : prog Z :=
  let* prog_fd := ask (ProgFd skel "tc_ingress") in
  let* err := ask (TcAttach prog_fd) in
  if negb (err =? 0) then
    ask (Stderr ("Failed to attach TC: " +:+ dec err +:+ newline)) ;;;
    tc_cleanup hook_created skel err
  else
    let* ok := ask (Signal 2) in
    if negb (ok : bool) then
      let* errno := ask GetErrno in
      let* msg := ask StrError in
      ask (Stderr ("Can't set signal handler: " +:+ msg +:+ newline)) ;;;
      tc_cleanup hook_created skel errno
    else
      ask (Stdout (started "program")) ;;;
      ITree.iter wait_body tt ;;;
      let* err := ask TcDetach in
      if negb (err =? 0) then
        ask (Stderr ("Failed to detach TC: " +:+ dec err +:+ newline)) ;;;
        tc_cleanup hook_created skel err
      else tc_cleanup hook_created skel err.

Definition tc_main : prog Z :=
  ask SetPrint ;;;
  let* skel := ask SkelOpenLoad in
  if skel =? 0 then
    ask (Stderr ("Failed to open BPF skeleton" +:+ newline)) ;;; Ret 1
  else
    let* err := ask TcHookCreate in
    let hook_created := err =? 0 in
    if negb (err =? 0) && negb (err =? - EEXIST) then
      ask (Stderr ("Failed to create TC hook: " +:+ dec err +:+ newline)) ;;;
      tc_cleanup hook_created skel err
    else tc_run hook_created skel.

(** ** Packets *)

(** The bytes lie between the two pointers. *)
Definition packet_ok (ctx : md) : Prop :=
  0 ≤ data ctx ∧ data_end ctx = data ctx + Z.of_nat (length (bytes ctx)) ∧
  data_end ctx < 2 ^ 32 ∧ Forall is_byte (bytes ctx).

Lemma byte_at_in ctx off :
  packet_ok ctx → (off < length (bytes ctx))%nat →
  ∃ b, bytes ctx !! off = Some b ∧ is_byte b ∧ byte_at ctx (data ctx + Z.of_nat off) = Some b.
Proof.
  intros (_ & _ & _ & Hb) Ho. destruct (lookup_lt_is_Some_2 _ _ Ho) as [b E].
  exists b. split; [done|]. split; [by eapply Forall_lookup_1|].
  unfold byte_at. rewrite (proj2 (Z.leb_le _ _)) by lia.
  by replace (data ctx + Z.of_nat off - data ctx) with (Z.of_nat off) by lia; rewrite Nat2Z.id.
Qed.

(** C26. On either byte order the traffic control program never reads outside
    the packet and always lets it pass; it reports the total length and the
    time to live of exactly the packets marked IPv4 that hold the Ethernet
    and IP headers. *)
Theorem tc_ingress_reports en ctx :
  packet_ok ctx →
  ∃ out, tc_ingress en ctx = Some (out, TC_ACT_OK) ∧
    (is_Some out ↔ protocol ctx = htons en ETH_P_IP ∧ (34 ≤ length (bytes ctx))%nat) ∧
    (∀ text, out = Some text → ∃ hi lo ttl,
       bytes ctx !! 16%nat = Some hi ∧ bytes ctx !! 17%nat = Some lo ∧ bytes ctx !! 22%nat = Some ttl ∧
       text = "Got IP packet: tot_len: " +:+ dec (256 * hi + lo) +:+ ", ttl: " +:+ dec ttl).
Proof.
  intros Hok. pose proof Hok as (Hd & He & _). unfold tc_ingress, sizeof_ethhdr, sizeof_iphdr.
  destruct (Z.eqb_spec (protocol ctx) (htons en ETH_P_IP)) as [Hp|Hp]; cbn [negb].
  2: { exists None. split; [done|]. split; [|done]. split; [by intros [? ?]|by intros []]. }
  destruct (Z.ltb_spec (data_end ctx) (data ctx + 14)).
  { exists None. split; [done|]. split; [|done]. split; [by intros [? ?]|intros [_ ?]; lia]. }
  destruct (Z.ltb_spec (data_end ctx) (data ctx + 14 + 20)).
  { exists None. split; [done|]. split; [|done]. split; [by intros [? ?]|intros [_ ?]; lia]. }
  assert (34 ≤ length (bytes ctx))%nat as Hl by lia.
  destruct (byte_at_in ctx 16 Hok ltac:(lia)) as (hi & Ehi & Bhi & Ahi).
  destruct (byte_at_in ctx 17 Hok ltac:(lia)) as (lo & Elo & Blo & Alo).
  destruct (byte_at_in ctx 22 Hok ltac:(lia)) as (ttl & Ettl & _ & Attl).
  unfold off_tot_len, off_ttl.
  replace (data ctx + 14 + 2) with (data ctx + Z.of_nat 16) by lia. rewrite Ahi. cbn [mbind option_bind].
  replace (data ctx + Z.of_nat 16 + 1) with (data ctx + Z.of_nat 17) by lia. rewrite Alo.
  cbn [mbind option_bind].
  replace (data ctx + 14 + 8) with (data ctx + Z.of_nat 22) by lia. rewrite Attl. cbn [mbind option_bind].
  eexists. split; [reflexivity|]. split; [split; [done|by eexists]|].
  intros text [= <-]. exists hi, lo, ttl. split_and!; try done.
  rewrite (ntohs_load en hi lo Bhi Blo). unfold be_value. cbn [rev app le_combine].
  by replace (lo + 256 * (hi + 256 * 0)) with (256 * hi + lo) by lia.
Qed.

(** A 60-byte IPv4 datagram behind an Ethernet header. *)
Definition demo_md : md :=
  Md 4096 (4096 + 74) (htons LE ETH_P_IP)
    (replicate 14 0 ++ [0x45; 0; 0x01; 0x2c; 0; 0; 0; 0; 64; 17] ++ replicate 50 0).

Lemma tc_ingress_reports_witness :
  tc_ingress LE demo_md = Some (Some "Got IP packet: tot_len: 300, ttl: 64"%string, 0) ∧
  ∃ out, tc_ingress LE demo_md = Some (out, TC_ACT_OK) ∧ is_Some out.
Proof.
  split; [vm_compute; reflexivity|].
  assert (packet_ok demo_md) as Hok.
  { split; [cbn; lia|]. split; [reflexivity|]. split; [cbn; lia|].
    apply (Forall_impl (fun b => (0 <=? b) && (b <? 256) = true)).
    - apply Forall_forall. intros b Hb. vm_compute in Hb.
      repeat (apply elem_of_cons in Hb as [->|Hb]; [reflexivity|]). by apply not_elem_of_nil in Hb.
    - cbn. intros b Hb. unfold is_byte, is_u. lia. }
  destruct (tc_ingress_reports LE demo_md Hok) as (out & E & Ho & _).
  exists out. split; [exact E|]. apply Ho. split; [reflexivity|vm_compute; lia].
Defined.

(** The size of the packet is reported. *)
Lemma xdp_pass_size ctx :
  packet_ok ctx → Z.of_nat (length (bytes ctx)) < 2 ^ 31 →
  xdp_pass ctx = (Some ("packet size: " +:+ dec (Z.of_nat (length (bytes ctx)))), XDP_PASS).
Proof.
  intros (_ & He & _) Hl. unfold xdp_pass. rewrite He.
  replace (data ctx + _ - data ctx) with (Z.of_nat (length (bytes ctx))) by lia.
  unfold s32. rewrite swrap_small; [done|done|]. unfold is_s. lia.
Qed.

(** ** [tc]: the program *)

(** What can be left behind: the hook, which the program has given up and
    the kernel keeps, and the filter. *)
Definition tc_left (hook filter : bool) : live :=
  let m : live := if hook then <[(KHook, 1) := Released]> ∅ else ∅ in
  if filter then <[(KFilter, 1) := Live]> m else m.

(** Environments in which the handler can be installed and the filter
    detached; moreover the hook existed before. *)
Definition tc_fine X (e : sysE Empty_set X) : X → Prop :=
  match e in sysE _ X return X → Prop with
  | Signal _ => fun b => b = true
  | TcDetach => fun x => x = 0
  | _ => fun _ => True
  end.
Definition tc_existing X (e : sysE Empty_set X) : X → Prop :=
  match e in sysE _ X return X → Prop with
  | TcHookCreate => fun x => x ≠ 0
  | e => tc_fine _ e
  end.

Section TcProofs.
Context (good : ∀ X, sysE Empty_set X → X → Prop).

(** The objects held: the skeleton, the hook if the program created it, the
    filter while it is attached. *)
Definition tc_held (hook filter : bool) (skel : Z) : live :=
  let m : live := <[(KSkel, skel) := Loaded]> ∅ in
  let m : live := if hook then <[(KHook, 1) := Live]> m else m in
  if filter then <[(KFilter, 1) := Live]> m else m.

(** [cleanup] gives up the hook if the program created it; whether that takes
    the filter off is up to the library. *)
Lemma tc_cleanup_ends (hook filter : bool) (skel err : Z) (n : option nat) :
  ends (sys_with no_record good)
    (fun code s => code = - err ∧ ∃ f, s.1 = tc_left hook f ∧ (f = true → filter = true))
    (tc_cleanup hook skel err) (tc_held hook filter skel, n).
Proof.
  unfold tc_cleanup.
  eapply (ends_bind _ (fun _ s => s.2 = n ∧ ∃ f : bool, s.1 = <[(KSkel, skel) := Loaded]> (tc_left hook f) ∧
                                            (f = true → filter = true))).
  - unfold tc_held, tc_left. destruct hook.
    + destruct filter; sys_call r Hr; destruct r as [r []]; apply ends_Ret; (split; [done|]); cbn [fst snd];
        [exists false|exists true|exists false|exists false]; (split; [live_eq|done]).
    + apply ends_Ret. split; [done|]. exists filter. destruct filter; (split; [live_eq|done]).
  - intros _ [m' n'] [E (f & Em & Hf)]. cbn [fst snd] in E, Em. subst.
    sys_call u Hu. apply ends_Ret. split; [done|]. exists f. split; [|done]. cbn [fst].
    unfold tc_left. destruct hook, f; live_eq.
Qed.

(** What [tc] leaves behind, and when the filter is not part of it. *)
Definition tc_exit (code : Z) (s : ustate) : Prop :=
  (∃ h f, s.1 = tc_left h f) ∧
  ((∀ x, good _ (Signal 2) x → x = true) → (∀ x, good _ TcDetach x → x = 0) →
   0 ≤ code ∧ ∃ h, s.1 = tc_left h false ∧ (h = true → good _ TcHookCreate 0)).

Lemma tc_leave (hook filter : bool) (skel err : Z) (n : option nat) :
  (filter = true → err ≤ 0 → ∃ x, good _ TcDetach x ∧ x ≠ 0) →
  (err ≤ 0 ∨ good _ (Signal 2) false) → (hook = true → good _ TcHookCreate 0) →
  ends (sys_with no_record good) tc_exit (tc_cleanup hook skel err) (tc_held hook filter skel, n).
Proof.
  intros Hf He Hh. eapply ends_conseq; [apply tc_cleanup_ends|]. intros code s (-> & f & E & Hff).
  split; [eauto|]. intros Hsig Hdet. destruct He as [He|He]; [|by specialize (Hsig false He)].
  split; [lia|]. exists hook. split; [|done]. rewrite E. f_equal. destruct f; [|done].
  destruct (Hf (Hff eq_refl) He) as (x & Hx & Hx0). by specialize (Hdet x Hx).
Qed.

Lemma tc_run_ends (hook : bool) (skel : Z) (n : nat) :
  (hook = true → good _ TcHookCreate 0) →
  ends (sys_with no_record good) tc_exit (tc_run hook skel) (tc_held hook false skel, Some n).
Proof.
  intros Hhook. unfold tc_run.
  assert (at_stage (tc_held hook false skel) KSkel skel is_created = true) as Hsk.
  { unfold tc_held. destruct hook; live_pre. }
  apply ends_call; [done|]. intros fd _ _ _. cbn [sys_post tick].
  apply ends_call; [done|]. intros r Hr _ _. cbn [sys_post tick]. cbn in Hr. unfold status in Hr.
  destruct (Z.eqb_spec r 0) as [->|Hr0]; cbn [negb got].
  2: { sys_call z Hz. apply tc_leave; [done|left; lia|done]. }
  change (<[(KFilter, 1) := Live]> (tc_held hook false skel)) with (tc_held hook true skel).
  apply ends_call; [done|]. intros ok _ _ Hok. cbn [sys_post tick]. destruct ok; cbn [negb].
  2: { sys_call e He. sys_call msg Hmsg. sys_call z Hz.
       apply tc_leave; [intros _ ?; lia|by right|done]. }
  sys_call v Hv. eapply ends_bind; [apply wait_loop_ends|].
  intros [] [m' n'] [E _]. cbn [fst] in E. subst m'.
  apply ends_call; [unfold tc_held; live_pre|]. intros d Hd _ Hgd. cbn [sys_post tick].
  cbn in Hd. unfold status in Hd. destruct (Z.eqb_spec d 0) as [->|Hd0]; cbn [negb].
  - replace (gone KFilter 1 (tc_held hook true skel)) with (tc_held hook false skel)
      by (unfold tc_held; destruct hook; live_eq).
    by apply tc_leave; [|left|].
  - sys_call z Hz. apply tc_leave; [|left; lia|done]. intros _ _. by exists d.
Qed.

Lemma tc_main_general (n : nat) : ends (sys_with no_record good) tc_exit tc_main (∅, Some n).
Proof.
  unfold tc_main. sys_call u Hu. sys_call skel Hskel.
  destruct (Z.eqb_spec skel 0) as [->|Hs]; live_norm.
  { sys_call v Hv. apply ends_Ret. split; [by exists false, false|]. intros _ _. split; [lia|].
    by exists false. }
  sys_call err Herr. unfold status in Herr.
  destruct (Z.eqb_spec err 0) as [->|He]; cbn [negb andb]; live_norm; [by apply (tc_run_ends true)|].
  case_cond; [|by apply (tc_run_ends false)].
  sys_call z Hz. apply (tc_leave false false); [done|left; lia|done].
Qed.
End TcProofs.

(** C25. [tc], in every environment: calls come in the order the library
    requires, also on runs that never end, and a run that returns has
    destroyed its skeleton and given up the hook if it created it; nothing but
    that hook (which destroying does not remove) and possibly the filter is
    left.  It does return when the signal flag is seen set after at most [n]
    reads.  If the handler can be installed and the filter detached the filter
    is not left and the code is not negative, and if moreover the hook existed
    before nothing is left at all. *)
Theorem tc_main_ends o n :
  safe (sys no_record) (fun _ s => ∃ h f, s.1 = tc_left h f) tc_main (∅, o) ∧
  ends (sys no_record) (fun _ s => ∃ h f, s.1 = tc_left h f) tc_main (∅, Some n) ∧
  ends (sys_with no_record tc_fine) (fun code s => 0 ≤ code ∧ ∃ h, s.1 = tc_left h false)
    tc_main (∅, Some n) ∧
  ends (sys_with no_record tc_existing) (fun code s => 0 ≤ code ∧ s.1 = ∅) tc_main (∅, Some n).
Proof.
  split; [apply (safe_any_signal _ _ (fun _ m => ∃ h f, m = tc_left h f)); intros k|split_and!];
    (eapply ends_conseq; [apply tc_main_general|]); intros code s [H1 H2]; [done|done|..];
    destruct H2 as (Hc & h & E & Hh); try done.
  - eauto.
  - split; [done|]. destruct h; [|done]. by specialize (Hh eq_refl).
Qed.

(** When the hook existed before and the handler cannot be installed, the
    filter stays attached. *)
Definition busy_hook X (e : sysE Empty_set X) (w : world Empty_set) : X * world Empty_set :=
  match e in sysE _ X return X * world Empty_set → X * world Empty_set with
  | TcHookCreate => fun r => (- EEXIST, r.2)
  | Signal _ => fun r => (false, r.2)
  | _ => fun r => r
  end (answer X e w).

Example tc_filter_left :
  ∃ w, exec (sys no_record) busy_hook 20 tc_main (World 3 0 [] [] []) (∅, None)
       = Done (-1) w (<[(KFilter, 1) := Live]> ∅, None).
Proof. eexists. vm_compute. reflexivity. Qed.
