(* ===== verification/Signals.v ===== *)
(** * Signals

    The programs install a handler that sets a flag, and their loops read the
    flag.  Here the flag is a variable of the environment: a signal arrives
    after some number of reads; if the program has installed its handler for
    that signal the handler runs, and every later read sees what it stored.
    In every such environment the programs with a signal handler return,
    except [task_iter], which installs one but never reads the flag. *)
From S2P Require Import Prelude Interaction CInt CFormat BpfKernel UserSpace BootstrapMain SockfilterUser TaskIterBpf TaskIterUser Minimal Tracing Tc.
From ITree Require Import ITree.
From Paco Require Import paco.
Local Open Scope Z_scope.

(** [sig_handler] of bootstrap, sockfilter and task_iter: [exiting = true]. *)
Definition sig_handler (sig exiting : Z) : Z := 1.
(** [sig_int] of fentry, kprobe, ksyscall, usdt and tc: [stop = 1]. *)
Definition sig_int (signo stop : Z) : Z := 1.

(** The rest of the world, the number of reads of the flag before the signal
    arrives, the flag, and the signals a handler is installed for. *)
Record sigworld (W : Type) := SigWorld {
  sw_world : W; sw_reads : nat; sw_flag : Z; sw_installed : list Z }.
Arguments SigWorld {_} _ _ _ _.
Arguments sw_world {_} _. Arguments sw_reads {_} _. Arguments sw_flag {_} _.
Arguments sw_installed {_} _.

(** Environments in which [signal] does not fail. *)
Definition signals_work {T} X (e : sysE T X) : X → Prop :=
  match e in sysE _ X return X → Prop with
  | Signal _ => fun ok => ok = true
  | _ => fun _ => True
  end.

(** The flag is read only once a handler for [sig] is installed. *)
Definition installs {T} (good : ∀ X, sysE T X → X → Prop) (sig : Z) : Interaction.protocol (sysE T) bool :=
  Protocol
    (fun X e b => match e with ReadFlag => b | _ => true end)
    (fun X e b x => good X e x)
    (fun X e => match e in sysE _ X return X → bool → bool with
                | Signal s => fun ok b => b || (ok && (s =? sig))
                | _ => fun _ b => b
                end).

Section Environment.
Context {T W : Type}.

(** The environment [h] with a signal [sig]: a successful [signal] call
    installs the handler, and when the signal arrives the handler runs if it
    is installed for that signal. *)
Definition with_signal (handler : Z → Z → Z) (sig : Z) (h : ∀ X, sysE T X → W → X * W)
    X (e : sysE T X) (w : sigworld W) : X * sigworld W :=
  match e in sysE _ X return X * W → X * sigworld W with
  | ReadFlag => fun _ =>
      let '(n, flag) := match sw_reads w with
                        | O => (O, if bool_decide (sig ∈ sw_installed w)
                                   then handler sig (sw_flag w) else sw_flag w)
                        | S n => (n, sw_flag w)
                        end in
      (negb (flag =? 0), SigWorld (sw_world w) n flag (sw_installed w))
  | Signal s => fun r =>
      (r.1, SigWorld r.2 (sw_reads w) (sw_flag w)
              (if r.1 then s :: sw_installed w else sw_installed w))
  | _ => fun r => (r.1, SigWorld r.2 (sw_reads w) (sw_flag w) (sw_installed w))
  end (h X e (sw_world w)).

(** [h] answers as the protocol says, [J] relating its world to the objects
    held. *)
Definition obeys (ok : T → Prop) (good : ∀ X, sysE T X → X → Prop) (J : W → live → Prop)
    (h : ∀ X, sysE T X → W → X * W) : Prop :=
  ∀ X (e : sysE T X) w m, J w m → sys_pre e m = true →
    sys_resp ok e m (h X e w).1 ∧ good X e (h X e w).1 ∧
    J (h X e w).2 (sys_post e (h X e w).1 m).

Definition sig_inv (sig : Z) (J : W → live → Prop) (w : sigworld W) (s : ustate * bool) : Prop :=
  J (sw_world w) s.1.1 ∧ s.1.2 = Some (sw_reads w) ∧ (s.2 = true → sig ∈ sw_installed w).

Lemma with_signal_follows handler sig ok (good : ∀ X, sysE T X → X → Prop) J h :
  (∀ flag, handler sig flag ≠ 0) → (∀ b, good _ ReadFlag b) → obeys ok good J h →
  follows (both (sys_with ok good) (installs good sig)) (sig_inv sig J) (with_signal handler sig h).
Proof.
  intros Hh Hread Hobey X e w [[m n] b] (HJ & Hn & Hb) Hp.
  apply andb_true_iff in Hp as [Hp Hp2]. cbn in Hn, Hp, Hp2, HJ, Hb. subst n.
  pose proof (Hobey X e (sw_world w) m HJ Hp) as (Hr & Hg & HJ').
  destruct e; unfold with_signal;
    try (destruct (h _ _ (sw_world w)) as [x w1];
         exact (conj (conj (conj Hr (conj I Hg)) Hg) (conj HJ' (conj eq_refl Hb)))).
  - destruct (h _ _ (sw_world w)) as [x w1]. cbn in *.
    split; [done|]. split_and!; [done|done|]. cbn. intros Hor. destruct x.
    + destruct (Z.eqb_spec sig0 sig) as [->|]; [left|]. right. apply Hb. by destruct b.
    + rewrite orb_false_r in Hor. auto.
  - destruct w as [w n flag inst]. cbn [sw_world sw_reads sw_flag sw_installed] in *. subst b.
    destruct n as [|n]; cbn; unfold sig_inv; cbn; split_and!; try done.
    rewrite bool_decide_eq_true_2 by auto. intros _. by rewrite (proj2 (Z.eqb_neq _ 0)).
Qed.
End Environment.

(** The program returns in every environment that obeys the protocol, with
    the stated result, whenever the signal arrives. *)
Definition stopped_by {T R} (handler : Z → Z → Z) (sig : Z) (ok : T → Prop)
    (good : ∀ X, sysE T X → X → Prop) (Q : R → ustate → Prop) (t : itree (sysE T) R) : Prop :=
  ∀ (W : Type) (J : W → live → Prop) (h : ∀ X, sysE T X → W → X * W) w n,
    obeys ok good J h → J w ∅ →
    ∃ fuel v w' s',
      exec (sys_with ok good) (with_signal handler sig h) fuel t (SigWorld w n 0 []) (∅, Some n)
      = Done v w' s' ∧ Q v s'.

(** A program that installs the handler before it reads the flag and ends
    once the flag reads set is stopped by the signal. *)
Lemma ends_stopped {T R} (handler : Z → Z → Z) (sig : Z) (ok : T → Prop) (good : ∀ X, sysE T X → X → Prop)
    (Q : R → ustate → Prop) t :
  (∀ flag, handler sig flag ≠ 0) → (∀ b, good _ ReadFlag b) →
  safe (installs good sig) (fun _ _ => True) t false →
  (∀ n, ends (sys ok) Q t (∅, Some n)) →
  stopped_by handler sig ok good Q t.
Proof.
  intros Hh Hread Hin He W J h w n Hobey HJ.
  assert (ends (both (sys_with ok good) (installs good sig)) (both_post Q (fun _ _ => True)) t
            ((∅, Some n), false)) as Hends.
  { apply ends_both; [|done]. eapply ends_fewer; [..|apply He]; try done.
    cbn. by intros X e s x (? & ? & ?). }
  destruct (ends_follows _ _ _ _ t (SigWorld w n 0 []) _
              (with_signal_follows handler sig ok good J h Hh Hread Hobey) Hends)
    as (f & v & w' & s' & E & [HQ _] & _); [split_and!; done|].
  exists f, v, w', s'.1. split; [by eapply exec_both|done].
Qed.

Section Installs.
Context {T : Type} (good : ∀ X, sysE T X → X → Prop) (sig : Z).

(** Once the handler is installed everything is allowed. *)
Lemma installed_safe {R} (t : itree (sysE T) R) :
  safe (installs good sig) (fun _ _ => True) t true.
Proof.
  revert t. pcofix CIH. intros t. pfold. unfold safe_, safeF.
  destruct (observe t) as [v|t'|X e k]; [done|by right|].
  split; [by destruct e|]. intros x _. right.
  assert (post (installs good sig) e x true = true) as -> by (by destruct e). apply CIH.
Qed.

(** A call before that. *)
Lemma installs_call {X R} (e : sysE T X) (k : X → itree (sysE T) R) :
  match e with ReadFlag => False | _ => True end →
  (∀ x, good X e x → safe (installs good sig) (fun _ _ => True) (k x) (post (installs good sig) e x false)) →
  safe (installs good sig) (fun _ _ => True) (ITree.bind (ask e) k) false.
Proof.
  intros He Hk. eapply (safe_bind _ (fun x b => good X e x ∧ b = post (installs good sig) e x false)).
  - apply safe_trigger; [by destruct e|]. by intros x Hx.
  - intros x b [Hx ->]. by apply Hk.
Qed.
End Installs.

(** Straight-line code up to the point where the handler is installed, or
    to the end of a path that does not read the flag. *)
Ltac installs_run :=
  repeat first
    [ apply installed_safe
    | by apply safe_ret
    | by apply safe_trigger
    | match goal with
      | |- _ (if negb ?b then _ else _) _ => destruct b eqn:?
      | |- _ (if ?b then _ else _) _ => destruct b eqn:?
      end; cbn [negb]
    | apply installs_call; [done|];
      let x := fresh "x" in let Hx := fresh "Hx" in
      intros x Hx; cbn [signals_work post installs] in *; subst; cbn [orb andb] ].

Lemma bootstrap_installs sig args :
  sig = SIGINT ∨ sig = SIGTERM →
  safe (installs signals_work sig) (fun _ _ => True) (BootstrapMain.main args) false.
Proof.
  intros Hsig. unfold BootstrapMain.main. destruct (BootstrapUser.argp_parse _ _ _) as [env err|msg].
  - destruct Hsig as [-> | ->]; installs_run.
  - installs_run.
Qed.

Lemma sockfilter_installs sig max en args :
  sig = SIGINT ∨ sig = SIGTERM →
  safe (installs signals_work sig) (fun _ _ => True) (SockfilterUser.main max en args) false.
Proof.
  intros Hsig. unfold SockfilterUser.main. destruct (parse_args args "lo") as [[i err]|].
  - destruct Hsig as [-> | ->]; installs_run.
  - installs_run.
Qed.

Lemma probe_installs :
  safe (installs any_answer SIGINT) (fun _ _ => True) attach_and_wait false.
Proof. unfold attach_and_wait, Minimal.cleanup. installs_run. Qed.

Lemma tc_installs : safe (installs any_answer SIGINT) (fun _ _ => True) tc_main false.
Proof.
  assert (∀ hook skel err, safe (installs any_answer SIGINT) (fun _ _ => True)
                             (tc_cleanup hook skel err) false) as Hc.
  { intros hook skel err. unfold tc_cleanup. eapply (safe_bind _ (fun _ b => b = false)).
    - destruct hook; [|by apply safe_ret]. eapply (safe_bind _ (fun _ b => b = false)).
      + by apply safe_trigger.
      + intros _ b ->. by apply safe_ret.
    - intros _ b ->. installs_run. }
  unfold tc_main, tc_run. installs_run; apply Hc.
Qed.

(** C12. A signal stops the programs.  Whenever it arrives, in every
    environment that obeys the protocol: bootstrap returns on either signal
    with everything released, and sockfilter with everything released except
    its raw socket, if [signal] did not fail (they do not check); fentry,
    kprobe, ksyscall return on SIGINT with everything released, and tc with
    nothing left but the hook it created and the filter, whether or not
    [signal] fails (they leave at once if it does). *)
Theorem signal_stops max en args args' sig :
  sig = SIGINT ∨ sig = SIGTERM →
  stopped_by sig_handler sig BootstrapMain.sample_ok signals_work BootstrapMain.finished
    (BootstrapMain.main args) ∧
  stopped_by sig_handler sig (SockfilterUser.sample_ok max) signals_work SockfilterUser.finished
    (SockfilterUser.main max en args') ∧
  Forall (stopped_by sig_int SIGINT no_record any_answer left_clean) probe_mains ∧
  stopped_by sig_int SIGINT no_record any_answer (fun _ s => ∃ h f, s.1 = tc_left h f) tc_main.
Proof.
  intros Hsig. split_and!.
  - apply ends_stopped; [done|done|by apply bootstrap_installs|apply bootstrap_main_ends].
  - apply ends_stopped; [done|done|by apply sockfilter_installs|apply sockfilter_main_ends].
  - repeat (apply Forall_cons_2;
      [apply ends_stopped; [done|done|apply probe_installs|apply attach_and_wait_ends]|]). constructor.
  - apply ends_stopped; [done|done|apply tc_installs|]. intros n.
    eapply ends_conseq; [apply tc_main_general|]. by intros code s [? _].
Qed.

(** ** task_iter does not look at the flag *)

(** The program loads, and the iterator never has data ready. *)
Definition never_ready X (e : sysE task_info X) : X → Prop :=
  match e in sysE _ X return X → Prop with
  | SkelOpenLoad => fun x => x ≠ 0
  | SkelAttach _ => fun x => x = 0
  | IterCreate _ => fun x => 0 ≤ x
  | ReadIter _ => fun x => x.1 < 0
  | GetErrno => fun x => x = EAGAIN
  | _ => fun _ => True
  end.

(** C32. task_iter installs the handler but its loop does not read the flag:
    while reads answer [EAGAIN] it goes on for ever, even if the signal came
    before the first call. *)
Theorem task_iter_ignores_signal :
  safe (sys_with printable never_ready) (fun _ _ => False) TaskIterUser.main (∅, Some O).
Proof.
  unfold TaskIterUser.main. sys_run; bool_facts; cbn [never_ready] in *; try (exfalso; lia).
  match goal with |- context [0 <=? ?fd] => destruct (Z.leb_spec 0 fd); try lia end.
  eapply (safe_bind _ (fun _ _ => False)); [|by intros ? ? []].
  match goal with |- safe _ _ _ (?m, _) => apply (safe_iter _ (fun _ s => s.1 = m)); [|reflexivity] end.
  intros err [m' n] E. cbn in E. subst m'. unfold read_body.
  apply safe_call; [live_pre|]. intros [r o] _ _ Hr. cbn in Hr. cbn [fst].
  rewrite (proj2 (Z.ltb_lt r 0) Hr). apply safe_call; [done|]. intros errno _ _ He. cbn in He.
  rewrite (proj2 (Z.eqb_eq errno EAGAIN) He). by apply safe_ret.
Qed.

(** ** An environment that obeys the protocol *)

(** [answer] with a bounded number of descriptors. *)
Definition steady {T} X (e : sysE T X) (w : world T) : X * world T :=
  match e in sysE _ X return X * world T → X * world T with
  | Socket | IterCreate _ | PerfEventOpen _ _ _ _ _ =>
      fun r => if w_next w <? 2 ^ 31 then r else (-24, w)
  | _ => fun r => r
  end (answer X e w).

(** Its handles are newer than everything held; its records are as promised. *)
Record sound {T} (ok : T → Prop) (w : world T) (m : live) : Prop := {
  s_pos : 0 < w_next w;
  s_new k h : is_Some (m !! (k, h)) → h < w_next w ∨ k = KHook ∨ k = KFilter;
  s_polls : Forall (fun p => is_s 32 p.1 ∧ (p.1 < 0 ∨ p.1 = Z.of_nat (length p.2)) ∧ Forall ok p.2)
              (w_polls w);
  s_reads : Forall ok (w_reads w);
}.

Section Steady.
Context {T : Type} (ok : T → Prop).
Implicit Types (w : world T) (m : live).

Lemma sound_fresh w m k st :
  sound ok w m → sound ok (w_fresh w).2 (<[(k, w_next w) := st]> m).
Proof.
  intros [Hp Hn Hpo Hre]. split; cbn; [lia| |done|done]. intros k' h [st' Hl].
  apply lookup_insert_Some in Hl as [[[= <- <-] _]|[_ Hl]]; [lia|].
  destruct (Hn k' h ltac:(by eexists)); [lia|auto].
Qed.

Lemma sound_update w m k h st :
  sound ok w m → is_Some (m !! (k, h)) ∨ k = KHook ∨ k = KFilter →
  sound ok w (<[(k, h) := st]> m).
Proof.
  intros [Hp Hn Hpo Hre] Hk. split; [done| |done|done]. intros k' h' [st' Hl].
  apply lookup_insert_Some in Hl as [[[= <- <-] _]|[_ Hl]]; [|apply Hn; by eexists].
  destruct Hk as [Hk|Hk]; [by apply Hn|by right].
Qed.

Lemma sound_gone w m k h : sound ok w m → sound ok w (gone k h m).
Proof.
  intros [Hp Hn Hpo Hre]. split; [done| |done|done]. intros k' h' [st' Hl].
  unfold gone in Hl. apply lookup_delete_Some in Hl as [_ Hl]. apply Hn. by eexists.
Qed.

Lemma sound_closed_behind w m fd : sound ok w m → sound ok w (closed_behind fd m).
Proof.
  intros Hs. unfold closed_behind. destruct (m !! (KFd, fd)) eqn:E; [|done].
  pose proof (sound_gone w m KFd fd Hs) as Hg. destruct Hg as [Hp Hn Hpo Hre]. split; [done| |done|done].
  intros k' h' [st' Hl]. apply lookup_insert_Some in Hl as [[[= <- <-] _]|[_ Hl]]; [|apply Hn; by eexists].
  left. destruct (s_new _ _ _ Hs KFd fd ltac:(by eexists)) as [?|[?|?]]; done.
Qed.

Lemma sound_not_held w m k : sound ok w m → k ≠ KHook → k ≠ KFilter → m !! (k, w_next w) = None.
Proof.
  intros [Hp Hn _ _] H1 H2. destruct (m !! (k, w_next w)) eqn:E; [|done].
  destruct (Hn k (w_next w) ltac:(by eexists)) as [?|[?|?]]; [lia|done|done].
Qed.

Definition poll_fine (p : Z * list T) : Prop :=
  is_s 32 p.1 ∧ (p.1 < 0 ∨ p.1 = Z.of_nat (length p.2)) ∧ Forall ok p.2.

Lemma sound_world w w' m :
  sound ok w m → w_next w ≤ w_next w' → Forall poll_fine (w_polls w') → Forall ok (w_reads w') →
  sound ok w' m.
Proof.
  intros [Hp Hn Hpo Hre] Hle Hpo' Hre'. split; [lia| |done|done]. intros k h Hl.
  destruct (Hn k h Hl); [lia|auto].
Qed.

(** A new descriptor, or none when there are too many. *)
Definition new_fd w : Z * world T := if w_next w <? 2 ^ 31 then w_fresh w else (-24, w).

Lemma new_fd_sound w m :
  sound ok w m →
  fresh_fd m (new_fd w).1 ∧
  ∀ st, sound ok (new_fd w).2 (got KFd (0 <=? (new_fd w).1) (new_fd w).1 st m).
Proof.
  intros Hs. pose proof (s_pos _ _ _ Hs) as Hp. unfold new_fd, fresh_fd, is_s.
  destruct (Z.ltb_spec (w_next w) (2 ^ 31)); cbn [fst snd w_fresh].
  - rewrite (proj2 (Z.leb_le 0 _)) by lia. split; [split; [lia|]|intros st; by apply sound_fresh].
    right. by eapply sound_not_held.
  - split; [lia|done].
Qed.

Lemma at_stage_held m k h f : at_stage m k h f = true → is_Some (m !! (k, h)).
Proof. unfold at_stage. destruct (m !! (k, h)); [by eexists|done]. Qed.

(** The environment obeys the protocol, and signal handlers can be
    installed in it. *)
Lemma steady_obeys : obeys ok signals_work (sound ok) (@steady T).
Proof.
  intros X e w m Hs Hp. pose proof (s_pos _ _ _ Hs) as Hpos.
  assert (∀ k, k ≠ KHook → k ≠ KFilter → fresh_ptr m k (w_next w)) as Hfresh.
  { intros k H1 H2. right. split; [done|by eapply sound_not_held]. }
  assert (∀ w', w_next w ≤ w_next w' → w_polls w' = w_polls w → w_reads w' = w_reads w →
            sound ok w' m) as Hworld.
  { intros w' H1 H2 H3. apply (sound_world w w' m Hs H1); rewrite ?H2, ?H3; apply Hs. }
  destruct (new_fd_sound w m Hs) as [Hfd Hfd'].
  unfold steady. destruct e; cbn -[Z.pow new_fd got] in *; try change (if _ <? _ then _ else _) with (new_fd w);
    unfold got in *; rewrite ?(proj2 (Z.eqb_neq (w_next w) 0)) by lia; cbn [negb Z.eqb fst snd];
    (split; [|split; [done|]]);
    try first
      [ done | by left | lia
      | by apply Hfresh
      | by apply sound_fresh
      | by apply Hworld; cbn; [lia|..]
      | by repeat apply sound_gone
      | by apply sound_update; [done|auto]
      | by apply sound_update; [done|left; by eapply at_stage_held] ].
  - repeat case_match; first [done|by apply sound_gone|by apply sound_closed_behind, sound_gone].
  - split; [unfold status; lia|]. split; [by apply Hfresh|lia].
  - split; [by apply Hfresh|done].
  - destruct (w_polls w) as [|p polls] eqn:E; cbn; [unfold is_s; split; [lia|auto]|].
    pose proof (s_polls _ _ _ Hs) as Hp'. rewrite E in Hp'. by apply Forall_cons in Hp' as [? _].
  - destruct (w_polls w) as [|p polls] eqn:E; cbn; [done|].
    pose proof (s_polls _ _ _ Hs) as Hp'. rewrite E in Hp'. apply Forall_cons in Hp' as [_ ?].
    apply (sound_world w _ m Hs); cbn; [lia|done|apply Hs].
  - apply sound_gone, sound_update; auto.
  - destruct (w_flags w); cbn; [done|]. by apply Hworld.
  - destruct (w_reads w) as [|r reads] eqn:E; cbn; [done|].
    pose proof (s_reads _ _ _ Hs) as Hp'. rewrite E in Hp'. by apply Forall_cons in Hp' as [? _].
  - destruct (w_reads w) as [|r reads] eqn:E; cbn; [done|].
    pose proof (s_reads _ _ _ Hs) as Hp'. rewrite E in Hp'. apply Forall_cons in Hp' as [_ ?].
    apply (sound_world w _ m Hs); cbn; [lia|apply Hs|done].
Qed.
End Steady.

Lemma sound_start {T} (ok : T → Prop) : sound ok (World 3 0 [] [] []) ∅.
Proof.
  split; cbn; [lia| |constructor|constructor]. intros k h [st Hl]. by rewrite lookup_empty in Hl.
Qed.

(** SIGTERM after five polls of bootstrap. *)
Lemma signal_stops_witness :
  (SIGTERM = SIGINT ∨ SIGTERM = SIGTERM) ∧
  ∃ fuel v w' s',
    exec (sys_with BootstrapMain.sample_ok signals_work) (with_signal sig_handler SIGTERM steady) fuel
      (BootstrapMain.main []) (SigWorld (World 3 0 [] [] []) 5 0 []) (∅, Some 5%nat) = Done v w' s' ∧
    BootstrapMain.finished v s'.
Proof.
  split; [by right|].
  apply (proj1 (signal_stops 263 LE [] [] SIGTERM ltac:(by right)) _ (sound BootstrapMain.sample_ok) steady).
  - apply steady_obeys.
  - apply sound_start.
Defined.

(** Ctrl-C after the fifth dot. *)
Example fentry_interrupted :
  ∃ fuel v w' s',
    exec (sys no_record) (with_signal sig_int SIGINT steady) fuel fentry_main
      (SigWorld (World 3 0 [] [] []) 5 0 []) (∅, Some 5%nat) = Done v w' s' ∧ left_clean v s'.
Proof.
  apply (ends_stopped sig_int SIGINT no_record any_answer left_clean fentry_main
           (fun _ => ltac:(discriminate)) (fun _ => I) probe_installs attach_and_wait_ends _
           (sound no_record) steady).
  - intros X e w m HJ Hp. destruct (steady_obeys no_record X e w m HJ Hp) as (? & _ & ?). done.
  - apply sound_start.
Qed.

(** A handler that was never installed does not run: the flag stays clear. *)
Example not_installed (h : ∀ X, sysE Empty_set X → unit → X * unit) :
  (with_signal sig_handler SIGTERM h _ ReadFlag (SigWorld tt 0 0 [SIGINT])).1 = false ∧
  (with_signal sig_handler SIGINT h _ ReadFlag (SigWorld tt 0 0 [SIGINT])).1 = true.
Proof. done. Qed.
